(** * FlashInfer single-sequence decode: a shallow embedding of
      [include/flashinfer/decode.cuh]

    Numbers: [float] (and the narrower input types read through
    [cast_load]) are idealised as the reals [R], so rounding is outside
    this development; [size_t] inside the kernels is [nat] (the launch
    grid keeps every kernel subtraction in range), and [size_t]/[int] in
    the host launcher is [Z] with the 64-bit wrap-around written out. *)

From Stdlib Require Import Reals Lra Lia List ZArith Bool Arith PeanoNat.
From Stdlib Require Import Permutation Finite.
From Stdlib Require String.
Import ListNotations.

(** ** Sums over lists *)

Definition rsum {A : Type} (f : A -> R) (l : list A) : R :=
  fold_right (fun a acc => (f a + acc)%R) 0%R l.

Lemma rsum_app {A} (f : A -> R) l1 l2 :
  rsum f (l1 ++ l2) = (rsum f l1 + rsum f l2)%R.
Proof.
  induction l1 as [|a l1 IH]; simpl; [lra | rewrite IH; lra].
Qed.

Lemma rsum_ext {A} (f g : A -> R) l :
  (forall a, In a l -> f a = g a) -> rsum f l = rsum g l.
Proof.
  induction l as [|a l IH]; simpl; intros H; [reflexivity|].
  rewrite (H a) by auto. rewrite IH; [reflexivity | intros; apply H; auto].
Qed.

Lemma rsum_scale {A} (f : A -> R) c l :
  rsum (fun a => (f a * c)%R) l = (rsum f l * c)%R.
Proof.
  induction l as [|a l IH]; simpl; [lra | rewrite IH; lra].
Qed.

Lemma rsum_plus {A} (f g : A -> R) l :
  rsum (fun a => (f a + g a)%R) l = (rsum f l + rsum g l)%R.
Proof.
  induction l as [|a l IH]; simpl; [lra | rewrite IH; lra].
Qed.

Lemma rsum_perm {A} (f : A -> R) l1 l2 :
  Permutation l1 l2 -> rsum f l1 = rsum f l2.
Proof.
  induction 1; simpl; lra.
Qed.

Lemma rsum_map {A B} (g : A -> B) (f : B -> R) l :
  rsum f (map g l) = rsum (fun a => f (g a)) l.
Proof.
  induction l as [|a l IH]; simpl; [reflexivity | now rewrite IH].
Qed.

(** ** The fixed-width vector register [vec_t<float, vec_size>] *)

Module Vec.
Section Vec.
Variable vec_size : nat.

(** Modelled from the spec: [vec_dtypes.cuh] is not among the sources.
    Section 2 describes the register as "a small owned array of floating
    values held per compute lane, supporting strided load,
    type-narrowing/widening load-and-cast, and store".  Memory is a
    function from element index to value; the casts are the identity on
    the idealised reals. *)
Definition vec_t := list R.

(** [v[i]] *)
Definition get (v : vec_t) (i : nat) : R := nth i v 0%R.

(** [for (i = 0; i < vec_size; ++i) r[i] = f(i)] *)
Definition tab (f : nat -> R) : vec_t := map f (seq 0 vec_size).

Definition fill (c : R) : vec_t := tab (fun _ => c).

Definition load (mem : nat -> R) (ptr : nat) : vec_t :=
  tab (fun i => mem (ptr + i)).

Definition cast_load (mem : nat -> R) (ptr : nat) : vec_t := load mem ptr.

Lemma get_tab f i : i < vec_size -> get (tab f) i = f i.
Proof.
  intros Hi. unfold get, tab.
  rewrite (nth_indep _ 0%R (f 0)) by (rewrite length_map, length_seq; exact Hi).
  rewrite map_nth, seq_nth by exact Hi. reflexivity.
Qed.

Lemma tab_ext f g : (forall i, i < vec_size -> f i = g i) -> tab f = tab g.
Proof.
  intros H. unfold tab. apply map_ext_in. intros i Hi.
  apply in_seq in Hi. apply H. lia.
Qed.

Lemma length_tab f : length (tab f) = vec_size.
Proof. unfold tab. now rewrite length_map, length_seq. Qed.

Lemma get_load mem ptr i : i < vec_size -> get (load mem ptr) i = mem (ptr + i).
Proof. intros Hi. unfold load. now rewrite get_tab. Qed.

End Vec.
End Vec.

(** ** The running state [state_t<vec_size>] *)

Module State.
Section State.
Variable vec_size : nat.

(** The finite value the constructor writes into [m] in place of the
    spec's "minus infinity" (the reals have none); every theorem below
    holds for each value of it. *)
Variable m_init : R.

Local Open Scope R_scope.
Local Notation "v .[ i ]" := (Vec.get v i) (at level 1, format "v .[ i ]").

(** Modelled from the spec: [state.cuh] is not among the sources.
    Section 3: [o] is the accumulated, not-yet-normalized weighted output
    vector, [m] the running maximum of the scores, [d] the running sum of
    [exp(score - m)]. *)
Record state_t := mk_state { o : Vec.vec_t; m : R; d : R }.

(** Modelled from the spec: [state_t::init] of [state.cuh]; section 3:
    "created fresh (zero/-inf)", [d] "initialized to 0". *)
Definition init : state_t :=
  {| o := Vec.fill vec_size 0; m := m_init; d := 0 |}.

(** Modelled from the spec: [state_t::merge(other_m, other_d, other_o)] of
    [state.cuh]; section 4.4: "the merged state is m' = max(m1, m2),
    d' = d1*exp(m1-m') + d2*exp(m2-m'), o' = o1*exp(m1-m') + o2*exp(m2-m')". *)
Definition merge (s : state_t) (other_m other_d : R) (other_o : Vec.vec_t) : state_t :=
  let m' := Rmax (m s) other_m in
  {| o := Vec.tab vec_size
            (fun i => (o s).[i] * exp (m s - m') + other_o.[i] * exp (other_m - m'));
     m := m';
     d := d s * exp (m s - m') + other_d * exp (other_m - m') |}.

(** Modelled from the spec: [state_t::merge(const state_t &other)]. *)
Definition merge_state (s other : state_t) : state_t :=
  merge s (m other) (d other) (o other).

(** Modelled from the spec: [state_t::merge(x, v)] of [state.cuh];
    section 4.3: "update m' = max(m, score), rescale existing o and d by
    exp(m - m'), add exp(score - m') * value to o, add exp(score - m') to
    d, set m = m'". *)
Definition merge_xv (s : state_t) (x : R) (v : Vec.vec_t) : state_t :=
  let m' := Rmax (m s) x in
  {| o := Vec.tab vec_size
            (fun i => (o s).[i] * exp (m s - m') + exp (x - m') * v.[i]);
     m := m';
     d := d s * exp (m s - m') + exp (x - m') |}.

Lemma exp_chain a b c : exp (a - b) * exp (b - c) = exp (a - c).
Proof. rewrite <- exp_plus. f_equal. lra. Qed.

Lemma merge_state_comm (A B : state_t) : merge_state A B = merge_state B A.
Proof.
  unfold merge_state, merge. cbn [o m d].
  rewrite (Rmax_comm (m B) (m A)).
  f_equal; [|lra].
  apply Vec.tab_ext. intros i _. lra.
Qed.

Lemma merge_state_assoc (A B C : state_t) :
  merge_state (merge_state A B) C = merge_state A (merge_state B C).
Proof.
  unfold merge_state, merge. cbn [o m d].
  rewrite <- (Rmax_assoc (m A) (m B) (m C)).
  set (M := Rmax (Rmax (m A) (m B)) (m C)).
  f_equal.
  - apply Vec.tab_ext. intros i Hi.
    rewrite !Vec.get_tab by exact Hi.
    rewrite !Rmult_plus_distr_r, !Rmult_assoc, !exp_chain. lra.
  - rewrite !Rmult_plus_distr_r, !Rmult_assoc, !exp_chain. lra.
Qed.

(** The single-element fold is the merge with the one-element state
    [(o, m, d) = (v, x, 1)] (section 4.4). *)
Lemma merge_xv_as_merge (s : state_t) x v :
  merge_xv s x v = merge s x 1 v.
Proof.
  unfold merge_xv, merge. f_equal; [|lra].
  apply Vec.tab_ext. intros i _. lra.
Qed.

Lemma merge_ext (s : state_t) om od o1 o2 :
  (forall i, (i < vec_size)%nat -> o1.[i] = o2.[i]) ->
  merge s om od o1 = merge s om od o2.
Proof.
  intros H. unfold merge. f_equal.
  apply Vec.tab_ext. intros i Hi. now rewrite (H i Hi).
Qed.

(** *** States as sums over the elements folded in

    [of_elems S] is the state that holds the list [S] of (score, value)
    elements relative to its maximum; every fold and merge of the kernel
    stays within this form, which is what makes chunking invisible. *)

Definition max_score (S : list (R * Vec.vec_t)) : R :=
  fold_right (fun e acc => Rmax (fst e) acc) m_init S.

Definition of_elems (S : list (R * Vec.vec_t)) : state_t :=
  let M := max_score S in
  {| o := Vec.tab vec_size (fun i => rsum (fun e => exp (fst e - M) * (snd e).[i]) S);
     m := M;
     d := rsum (fun e => exp (fst e - M)) S |}.

Lemma max_score_ge_init S : m_init <= max_score S.
Proof.
  induction S as [|e S IH]; simpl; [lra|].
  eapply Rle_trans; [exact IH | apply Rmax_r].
Qed.

Lemma max_score_app S1 S2 :
  max_score (S1 ++ S2) = Rmax (max_score S1) (max_score S2).
Proof.
  induction S1 as [|e S1 IH]; simpl.
  - symmetry. apply Rmax_right. apply max_score_ge_init.
  - rewrite IH. now rewrite Rmax_assoc.
Qed.

Lemma max_score_perm S1 S2 :
  Permutation S1 S2 -> max_score S1 = max_score S2.
Proof.
  induction 1; simpl; try congruence.
  rewrite !Rmax_assoc. now rewrite (Rmax_comm (fst y) (fst x)).
Qed.

Lemma of_elems_nil : of_elems [] = init.
Proof. reflexivity. Qed.

Lemma of_elems_perm S1 S2 :
  Permutation S1 S2 -> of_elems S1 = of_elems S2.
Proof.
  intros HP. unfold of_elems. rewrite (max_score_perm _ _ HP).
  f_equal.
  - apply Vec.tab_ext. intros i _. now apply rsum_perm.
  - now apply rsum_perm.
Qed.

Lemma merge_of_elems S1 S2 :
  merge_state (of_elems S1) (of_elems S2) = of_elems (S1 ++ S2).
Proof.
  unfold merge_state, merge, of_elems. cbn [o m d].
  rewrite max_score_app.
  set (M1 := max_score S1). set (M2 := max_score S2). set (M := Rmax M1 M2).
  f_equal.
  - apply Vec.tab_ext. intros i Hi.
    rewrite !Vec.get_tab by exact Hi.
    rewrite rsum_app, <- !rsum_scale.
    f_equal; apply rsum_ext; intros e _;
      rewrite Rmult_assoc, (Rmult_comm (_.[i])), <- Rmult_assoc, exp_chain;
      reflexivity.
  - rewrite rsum_app, <- !rsum_scale.
    f_equal; apply rsum_ext; intros e _; apply exp_chain.
Qed.

Lemma merge_xv_of_elems S x v :
  merge_xv (of_elems S) x v = of_elems (S ++ [(x, v)]).
Proof.
  rewrite merge_xv_as_merge, <- merge_of_elems. unfold merge_state.
  assert (E1 : m (of_elems [(x, v)]) = Rmax x m_init) by reflexivity.
  assert (E2 : d (of_elems [(x, v)]) = exp (x - Rmax x m_init) + 0) by reflexivity.
  assert (E3 : forall i, (i < vec_size)%nat ->
             (o (of_elems [(x, v)])).[i] = exp (x - Rmax x m_init) * v.[i] + 0).
  { intros i Hi. unfold of_elems; cbn [o]. now rewrite Vec.get_tab. }
  rewrite E1, E2.
  assert (Hs : m_init <= m (of_elems S)) by apply max_score_ge_init.
  set (s := of_elems S) in *.
  assert (Hmax : Rmax (m s) (Rmax x m_init) = Rmax (m s) x).
  { rewrite (Rmax_comm x m_init), Rmax_assoc. now rewrite (Rmax_left _ _ Hs). }
  assert (Hx : exp (x - Rmax x m_init) * exp (Rmax x m_init - Rmax (m s) x)
               = exp (x - Rmax (m s) x)) by apply exp_chain.
  unfold merge. rewrite Hmax. f_equal.
  - apply Vec.tab_ext. intros i Hi. rewrite (E3 i Hi), <- Hx. ring.
  - rewrite <- Hx. ring.
Qed.

Lemma fold_merge_xv_of_elems S0 S :
  fold_left (fun s e => merge_xv s (fst e) (snd e)) S (of_elems S0)
  = of_elems (S0 ++ S).
Proof.
  revert S0. induction S as [|[x v] S IH]; intros S0; simpl.
  - now rewrite app_nil_r.
  - rewrite merge_xv_of_elems, IH, <- app_assoc. reflexivity.
Qed.

Lemma of_elems_scores S1 S2 :
  map fst S1 = map fst S2 ->
  m (of_elems S1) = m (of_elems S2) /\ d (of_elems S1) = d (of_elems S2).
Proof.
  intros E.
  assert (HM : max_score S1 = max_score S2).
  { unfold max_score.
    assert (H : forall S : list (R * Vec.vec_t),
              fold_right (fun e acc => Rmax (fst e) acc) m_init S
                          = fold_right Rmax m_init (map fst S)).
    { induction S as [|e S IH]; cbn; [reflexivity | now rewrite IH]. }
    now rewrite !H, E. }
  unfold of_elems. cbn [m d]. rewrite HM. split; [reflexivity|].
  rewrite <- (rsum_map (@fst R Vec.vec_t) (fun x => exp (x - max_score S2)) S1).
  rewrite <- (rsum_map (@fst R Vec.vec_t) (fun x => exp (x - max_score S2)) S2).
  now rewrite E.
Qed.

(** A state read back field by field is the state that was stored. *)
Lemma of_elems_reload S :
  {| o := Vec.tab vec_size (fun i => (o (of_elems S)).[i]);
     m := m (of_elems S); d := d (of_elems S) |} = of_elems S.
Proof.
  unfold of_elems at 4. cbn [o m d]. f_equal.
  apply Vec.tab_ext. intros i Hi. unfold of_elems. cbn [o].
  now rewrite Vec.get_tab.
Qed.

End State.
End State.
(** ** Enumerations of [layout.cuh] and [rope.cuh]

    The headers are not among the sources; [decode.cuh] names the
    enumerators below, and an [enum class] can carry any other value of
    its underlying type, which is what the [default:] branches and the
    final [else] of the launcher are for. *)

Inductive QKVLayout := kNHD | kHND | QKVLayout_other (n : Z).
Inductive RotaryMode := kNone | kApplyRotary | RotaryMode_other (n : Z).

(** ** The host launcher [SingleDecodeWithKVCache] *)

Module Host.
Import String.
Local Open Scope Z_scope.

(** [size_t] arithmetic wraps modulo [2^64]; [dim3] holds [unsigned int]. *)
Definition wrap64 (z : Z) : Z := z mod 2 ^ 64.
Definition wrap32 (z : Z) : Z := z mod 2 ^ 32.

(** [cudaError_t], with [cudaSuccess = 0]. *)
Definition cudaError_t := Z.
Definition cudaSuccess : cudaError_t := 0.

(** The template instance a launch refers to. *)
Record kernel_id := {
  k_layout : QKVLayout; k_rotary : RotaryMode; k_head_dim : Z;
  k_vec_size : Z; k_bdx : Z; k_bdy : Z; k_bdz : Z }.

Record dim3 := { dim_x : Z; dim_y : Z; dim_z : Z }.

(** What the process does that is visible from outside, in order. *)
Inductive event :=
| EvDeviceGetAttribute (dev_id : Z)
| EvOccupancy (kernel : kernel_id)
| EvLaunchCooperativeKernel (kernel : kernel_id) (nblks nthrs : dim3) (kv_chunk_size : Z)
| EvCerr (msg : String.string).

(** The CUDA runtime the launcher talks to: each call answers with an
    error code, the queries also with the value they write. *)
Record cuda_runtime := {
  cudaDeviceGetAttribute : Z -> cudaError_t * Z;
  cudaOccupancyMaxActiveBlocksPerMultiprocessor : kernel_id -> cudaError_t * Z;
  cudaLaunchCooperativeKernel : kernel_id -> dim3 -> dim3 -> Z -> cudaError_t }.

(** How a call ends: [return e], [abort()] (also a failed [assert]), or
    undefined behaviour by an integer division by zero. *)
Inductive ending :=
| Return (e : cudaError_t)
| Abort
| DivisionByZero.

(** The launcher's monad: a trace of events, and early exit. *)
Definition M (A : Type) : Type := list event -> (A + ending) * list event.

Definition ret {A} (a : A) : M A := fun tr => (inl a, tr).
Definition bind {A B} (c : M A) (k : A -> M B) : M B :=
  fun tr => match c tr with
            | (inl a, tr') => k a tr'
            | (inr e, tr') => (inr e, tr')
            end.
Definition stop {A} (e : ending) : M A := fun tr => (inr e, tr).
Definition emit (ev : event) : M unit := fun tr => (inl tt, tr ++ [ev]).

Notation "x <- c ;; k" := (bind c (fun x => k))
  (at level 61, c at next level, right associativity).
Notation "c ;;; k" := (bind c (fun _ => k))
  (at level 61, right associativity).

(** [a / b] on [size_t] at run time. *)
Definition div_rt (a b : Z) : M Z :=
  if b =? 0 then stop DivisionByZero else ret (a / b).

(** [CUDA_CALL(func)]: [e = func; if (e != cudaSuccess) return e;] *)
Definition CUDA_CALL (e : cudaError_t) : M unit :=
  if e =? cudaSuccess then ret tt else stop (Return e).

(** [SWITCH_HEAD_DIM(head_dim, HEAD_DIM, body)] *)
Definition SWITCH_HEAD_DIM (head_dim : Z) (body : Z -> M unit) : M unit :=
  if head_dim =? 64 then body 64
  else if head_dim =? 128 then body 128
  else if head_dim =? 256 then body 256
  else emit (EvCerr "Unsupported head_dim"%string) ;;; stop Abort.

(** [SWITCH_ROTARY_MODE(rotary_mode, ROTARY_MODE, body)] *)
Definition SWITCH_ROTARY_MODE (rotary_mode : RotaryMode)
    (body : RotaryMode -> M unit) : M unit :=
  match rotary_mode with
  | kNone => body kNone
  | kApplyRotary => body kApplyRotary
  | RotaryMode_other _ => emit (EvCerr "Unsupported rotary_mode"%string) ;;; stop Abort
  end.

(** [assert(c)]: nothing when compiled with [NDEBUG]. *)
Definition assert_ (NDEBUG : bool) (c : bool) : M unit :=
  if NDEBUG || c then ret tt else stop Abort.

Section Launcher.
(** [sizeof(DTypeIn)], the runtime, and whether asserts are compiled out. *)
Variable sizeof_DTypeIn : Z.
Variable rt : cuda_runtime.
Variable NDEBUG : bool.

(** Line 725: [sm_scale = 1.f / std::sqrt(float(head_dim))]. *)
Definition sm_scale_of (head_dim : Z) : R := (1 / sqrt (IZR head_dim))%R.

(** The [constexpr] block shape; these divisions happen at compile time. *)
Definition vec_size_of (HEAD_DIM : Z) : Z :=
  Z.max (16 / sizeof_DTypeIn) (HEAD_DIM / 32).
Definition bdx_of (HEAD_DIM : Z) : Z := HEAD_DIM / vec_size_of HEAD_DIM.

(** [size_t max_num_blks = size_t(num_blocks_per_sm) * size_t(num_sm)] *)
Definition max_num_blks_of (num_blocks_per_sm num_sm : Z) : Z :=
  wrap64 (wrap64 num_blocks_per_sm * wrap64 num_sm).

(** Lines 743-748: chunk size and grid of the NHD launch. *)
Definition grid_NHD (bdy num_blocks_per_sm num_sm num_heads seq_len : Z)
  : M (Z * dim3) :=
  let max_num_blks := max_num_blks_of num_blocks_per_sm num_sm in
  max_num_kv_chunks <- div_rt max_num_blks (num_heads / bdy) ;;
  a <- div_rt (wrap64 (seq_len + max_num_kv_chunks - 1)) max_num_kv_chunks ;;
  b <- div_rt (wrap64 (64 * bdy)) num_heads ;;
  let kv_chunk_size := Z.max a (Z.min 64 (Z.max 8 (seq_len / Z.max 1 b))) in
  nx <- div_rt (wrap64 (seq_len + kv_chunk_size - 1)) kv_chunk_size ;;
  ret (kv_chunk_size,
       {| dim_x := wrap32 nx; dim_y := wrap32 (num_heads / bdy); dim_z := 1 |}).

(** Lines 776-781: chunk size and grid of the HND launch. *)
Definition grid_HND (num_blocks_per_sm num_sm num_heads seq_len : Z)
  : M (Z * dim3) :=
  let max_num_blks := max_num_blks_of num_blocks_per_sm num_sm in
  max_num_kv_chunks <- div_rt max_num_blks num_heads ;;
  a <- div_rt (wrap64 (seq_len + max_num_kv_chunks - 1)) max_num_kv_chunks ;;
  b <- div_rt 128 num_heads ;;
  let kv_chunk_size := Z.max a (Z.min 128 (Z.max 32 (seq_len / Z.max 1 b))) in
  nx <- div_rt (wrap64 (seq_len + kv_chunk_size - 1)) kv_chunk_size ;;
  ret (kv_chunk_size,
       {| dim_x := wrap32 nx; dim_y := wrap32 num_heads; dim_z := 1 |}).

(** The body of the two switches, NHD branch (lines 732-761). *)
Definition launch_NHD (dev_id num_heads seq_len HEAD_DIM : Z)
    (ROTARY_MODE : RotaryMode) : M unit :=
  let vec_size := vec_size_of HEAD_DIM in
  let bdx := bdx_of HEAD_DIM in
  let bdy := 32 / bdx in
  let bdz := 4 in
  let kernel := {| k_layout := kNHD; k_rotary := ROTARY_MODE; k_head_dim := HEAD_DIM;
                   k_vec_size := vec_size; k_bdx := bdx; k_bdy := bdy; k_bdz := bdz |} in
  emit (EvDeviceGetAttribute dev_id) ;;;
  let '(e1, num_sm) := cudaDeviceGetAttribute rt dev_id in
  CUDA_CALL e1 ;;;
  emit (EvOccupancy kernel) ;;;
  let '(e2, num_blocks_per_sm) := cudaOccupancyMaxActiveBlocksPerMultiprocessor rt kernel in
  CUDA_CALL e2 ;;;
  g <- grid_NHD bdy num_blocks_per_sm num_sm num_heads seq_len ;;
  let '(kv_chunk_size, nblks) := g in
  assert_ NDEBUG ((0 <? dim_x nblks) && (0 <? dim_y nblks)) ;;;
  let nthrs := {| dim_x := bdx; dim_y := bdy; dim_z := bdz |} in
  emit (EvLaunchCooperativeKernel kernel nblks nthrs kv_chunk_size) ;;;
  CUDA_CALL (cudaLaunchCooperativeKernel rt kernel nblks nthrs kv_chunk_size).

(** The body of the two switches, HND branch (lines 766-794). *)
Definition launch_HND (dev_id num_heads seq_len HEAD_DIM : Z)
    (ROTARY_MODE : RotaryMode) : M unit :=
  let vec_size := vec_size_of HEAD_DIM in
  let bdx := bdx_of HEAD_DIM in
  let bdy := 128 / bdx in
  let kernel := {| k_layout := kHND; k_rotary := ROTARY_MODE; k_head_dim := HEAD_DIM;
                   k_vec_size := vec_size; k_bdx := bdx; k_bdy := bdy; k_bdz := 1 |} in
  emit (EvDeviceGetAttribute dev_id) ;;;
  let '(e1, num_sm) := cudaDeviceGetAttribute rt dev_id in
  CUDA_CALL e1 ;;;
  emit (EvOccupancy kernel) ;;;
  let '(e2, num_blocks_per_sm) := cudaOccupancyMaxActiveBlocksPerMultiprocessor rt kernel in
  CUDA_CALL e2 ;;;
  g <- grid_HND num_blocks_per_sm num_sm num_heads seq_len ;;
  let '(kv_chunk_size, nblks) := g in
  assert_ NDEBUG ((0 <? dim_x nblks) && (0 <? dim_y nblks)) ;;;
  let nthrs := {| dim_x := bdx; dim_y := bdy; dim_z := 1 |} in
  emit (EvLaunchCooperativeKernel kernel nblks nthrs kv_chunk_size) ;;;
  CUDA_CALL (cudaLaunchCooperativeKernel rt kernel nblks nthrs kv_chunk_size).

(** Lines 719-801. *)
Definition SingleDecodeWithKVCache_body (num_heads seq_len head_dim : Z)
    (qkv_layout : QKVLayout) (rotary_mode : RotaryMode) (dev_id : Z) : M unit :=
  match qkv_layout with
  | kNHD =>
      SWITCH_HEAD_DIM head_dim (fun HEAD_DIM =>
        SWITCH_ROTARY_MODE rotary_mode (fun ROTARY_MODE =>
          launch_NHD dev_id num_heads seq_len HEAD_DIM ROTARY_MODE))
  | kHND =>
      SWITCH_HEAD_DIM head_dim (fun HEAD_DIM =>
        SWITCH_ROTARY_MODE rotary_mode (fun ROTARY_MODE =>
          launch_HND dev_id num_heads seq_len HEAD_DIM ROTARY_MODE))
  | QKVLayout_other _ =>
      emit (EvCerr "Unsupported qkv_layout"%string) ;;; stop Abort
  end.

(** The call as seen from outside: how it ended and what it did. *)
Definition SingleDecodeWithKVCache (num_heads seq_len head_dim : Z)
    (qkv_layout : QKVLayout) (rotary_mode : RotaryMode) (dev_id : Z)
  : ending * list event :=
  match SingleDecodeWithKVCache_body num_heads seq_len head_dim
          qkv_layout rotary_mode dev_id [] with
  | (inl _, tr) => (Return cudaSuccess, tr)
  | (inr e, tr) => (e, tr)
  end.

End Launcher.

(** A kernel ran only if the trace holds a launch that the runtime
    accepted; [launches] lists the launch attempts. *)
Definition is_launch (ev : event) : bool :=
  match ev with EvLaunchCooperativeKernel _ _ _ _ => true | _ => false end.
Definition launches (tr : list event) : list event := filter is_launch tr.

(** *** Arithmetic of the chunk-size rule *)

Lemma wrap64_small z : 0 <= z < 2 ^ 64 -> wrap64 z = z.
Proof. intros H. unfold wrap64. now apply Z.mod_small. Qed.

Lemma wrap32_small z : 0 <= z < 2 ^ 32 -> wrap32 z = z.
Proof. intros H. unfold wrap32. now apply Z.mod_small. Qed.

Lemma wrap64_range z : 0 <= wrap64 z < 2 ^ 64.
Proof. unfold wrap64. apply Z.mod_pos_bound. lia. Qed.

Lemma div_rt_ok a b tr : b <> 0 -> div_rt a b tr = (inl (a / b), tr).
Proof. intros H. unfold div_rt. apply Z.eqb_neq in H. now rewrite H. Qed.

Lemma div_rt_zero a tr : div_rt a 0 tr = (inr DivisionByZero, tr).
Proof. reflexivity. Qed.

(** A chunk size that is at least [ceil(s / mk)] gives at most [mk] chunks. *)
Lemma ceil_div_chunks s mk c :
  0 <= s -> 1 <= mk -> 1 <= c -> (s + mk - 1) / mk <= c ->
  (s + c - 1) / c <= mk.
Proof.
  intros Hs Hmk Hc Hle.
  assert (H1 : s + mk - 1 < mk * Z.succ ((s + mk - 1) / mk))
    by (apply Z.mul_succ_div_gt; lia).
  assert (H2 : (s + c - 1) / c < mk + 1).
  { apply Z.div_lt_upper_bound; [lia|]. nia. }
  lia.
Qed.

(** The two grid computations share one shape: [groups] blocks per chunk,
    a clamp between [lo] and [hi], and the occupancy term [a]. *)
Lemma chunk_rule s mk lo hi r :
  0 <= s -> 1 <= mk -> 1 <= lo -> lo <= hi ->
  let c := Z.max ((s + mk - 1) / mk) (Z.min hi (Z.max lo r)) in
  lo <= c /\ c <= Z.max hi ((s + mk - 1) / mk) /\ (s + c - 1) / c <= mk.
Proof.
  intros Hs Hmk Hlo Hhi c.
  assert (Hc : lo <= c) by (unfold c; lia).
  split; [exact Hc|]. split; [unfold c; lia|].
  apply ceil_div_chunks; unfold c; lia.
Qed.

(** The chunk-size expressions of the two launches, without the wrap-around. *)
Definition kv_chunk_size_NHD (bdy max_num_kv_chunks num_heads seq_len : Z) : Z :=
  Z.max ((seq_len + max_num_kv_chunks - 1) / max_num_kv_chunks)
        (Z.min 64 (Z.max 8 (seq_len / Z.max 1 (64 * bdy / num_heads)))).

Definition kv_chunk_size_HND (max_num_kv_chunks num_heads seq_len : Z) : Z :=
  Z.max ((seq_len + max_num_kv_chunks - 1) / max_num_kv_chunks)
        (Z.min 128 (Z.max 32 (seq_len / Z.max 1 (128 / num_heads)))).

Lemma max_num_blks_small nbps nsm :
  0 <= nbps < 2 ^ 31 -> 0 <= nsm < 2 ^ 31 ->
  max_num_blks_of nbps nsm = nbps * nsm.
Proof.
  intros H1 H2. unfold max_num_blks_of.
  rewrite (wrap64_small nbps), (wrap64_small nsm) by lia.
  apply wrap64_small. nia.
Qed.

Lemma grid_NHD_ok bdy nbps nsm num_heads seq_len tr :
  0 < bdy < 2 ^ 32 -> 0 <= nbps < 2 ^ 31 -> 0 <= nsm < 2 ^ 31 ->
  nbps * nsm < 2 ^ 32 -> 0 <= num_heads < 2 ^ 32 -> 0 <= seq_len < 2 ^ 32 ->
  1 <= num_heads / bdy <= nbps * nsm ->
  let mk := nbps * nsm / (num_heads / bdy) in
  let c := kv_chunk_size_NHD bdy mk num_heads seq_len in
  grid_NHD bdy nbps nsm num_heads seq_len tr
  = (inl (c, {| dim_x := (seq_len + c - 1) / c; dim_y := num_heads / bdy; dim_z := 1 |}), tr)
  /\ 1 <= mk <= nbps * nsm /\ 8 <= c /\ c <= Z.max 64 ((seq_len + mk - 1) / mk)
  /\ (seq_len + c - 1) / c <= mk
  /\ (seq_len + c - 1) / c * (num_heads / bdy) <= nbps * nsm.
Proof.
  intros Hbdy Hb Hs Hprod Hh Hl Hg mk c.
  assert (Hmk : 1 <= mk <= nbps * nsm).
  { unfold mk. split.
    - apply Z.div_le_lower_bound; lia.
    - apply Z.div_le_upper_bound; nia. }
  destruct (chunk_rule seq_len mk 8 64 (seq_len / Z.max 1 (64 * bdy / num_heads)))
    as (Hlo & Hhi & Hn); try lia.
  fold (kv_chunk_size_NHD bdy mk num_heads seq_len) in Hlo, Hhi, Hn. fold c in Hlo, Hhi, Hn.
  assert (Hnh : num_heads <> 0).
  { intros ->. rewrite Z.div_0_l in Hg; lia. }
  assert (Hc0 : 0 <= (seq_len + c - 1) / c) by (apply Z.div_pos; lia).
  assert (Hmul : (seq_len + c - 1) / c * (num_heads / bdy) <= nbps * nsm).
  { apply Z.le_trans with (mk * (num_heads / bdy)); [nia|].
    unfold mk. rewrite Z.mul_comm. apply Z.mul_div_le. lia. }
  split; [|tauto].
  unfold grid_NHD, bind, ret.
  rewrite max_num_blks_small by lia.
  rewrite div_rt_ok by lia. fold mk.
  rewrite (wrap64_small (seq_len + mk - 1)) by lia.
  rewrite div_rt_ok by lia.
  rewrite (wrap64_small (64 * bdy)) by lia.
  rewrite div_rt_ok by exact Hnh.
  fold (kv_chunk_size_NHD bdy mk num_heads seq_len). fold c.
  assert (Hcb : c < 2 ^ 33).
  { assert ((seq_len + mk - 1) / mk <= seq_len + mk - 1)
      by (apply Z.div_le_upper_bound; nia). lia. }
  rewrite (wrap64_small (seq_len + c - 1)) by lia.
  rewrite div_rt_ok by lia.
  rewrite !wrap32_small by lia. reflexivity.
Qed.

Lemma grid_HND_ok nbps nsm num_heads seq_len tr :
  0 <= nbps < 2 ^ 31 -> 0 <= nsm < 2 ^ 31 ->
  nbps * nsm < 2 ^ 32 -> 0 <= seq_len < 2 ^ 32 ->
  1 <= num_heads <= nbps * nsm ->
  let mk := nbps * nsm / num_heads in
  let c := kv_chunk_size_HND mk num_heads seq_len in
  grid_HND nbps nsm num_heads seq_len tr
  = (inl (c, {| dim_x := (seq_len + c - 1) / c; dim_y := num_heads; dim_z := 1 |}), tr)
  /\ 1 <= mk <= nbps * nsm /\ 32 <= c /\ c <= Z.max 128 ((seq_len + mk - 1) / mk)
  /\ (seq_len + c - 1) / c <= mk
  /\ (seq_len + c - 1) / c * num_heads <= nbps * nsm.
Proof.
  intros Hb Hs Hprod Hl Hg mk c.
  assert (Hmk : 1 <= mk <= nbps * nsm).
  { unfold mk. split.
    - apply Z.div_le_lower_bound; lia.
    - apply Z.div_le_upper_bound; nia. }
  destruct (chunk_rule seq_len mk 32 128 (seq_len / Z.max 1 (128 / num_heads)))
    as (Hlo & Hhi & Hn); try lia.
  fold (kv_chunk_size_HND mk num_heads seq_len) in Hlo, Hhi, Hn. fold c in Hlo, Hhi, Hn.
  assert (Hc0 : 0 <= (seq_len + c - 1) / c) by (apply Z.div_pos; lia).
  assert (Hmul : (seq_len + c - 1) / c * num_heads <= nbps * nsm).
  { apply Z.le_trans with (mk * num_heads); [nia|].
    unfold mk. rewrite Z.mul_comm. apply Z.mul_div_le. lia. }
  split; [|tauto].
  unfold grid_HND, bind, ret.
  rewrite max_num_blks_small by lia.
  rewrite div_rt_ok by lia. fold mk.
  rewrite (wrap64_small (seq_len + mk - 1)) by lia.
  rewrite div_rt_ok by lia.
  rewrite div_rt_ok by lia.
  fold (kv_chunk_size_HND mk num_heads seq_len). fold c.
  assert (Hcb : c < 2 ^ 33).
  { assert ((seq_len + mk - 1) / mk <= seq_len + mk - 1)
      by (apply Z.div_le_upper_bound; nia). lia. }
  rewrite (wrap64_small (seq_len + c - 1)) by lia.
  rewrite div_rt_ok by lia.
  rewrite !wrap32_small by lia. reflexivity.
Qed.

Lemma bind_div_rt {B} a b (k : Z -> M B) tr :
  bind (div_rt a b) k tr
  = if b =? 0 then (inr DivisionByZero, tr) else k (a / b) tr.
Proof. unfold bind, div_rt, stop, ret. now destruct (b =? 0). Qed.

(** With at least one chunk affordable per block row, no division of the
    grid computation has a zero divisor. *)
Lemma grid_NHD_defined bdy nbps nsm num_heads seq_len tr :
  1 <= num_heads / bdy <= max_num_blks_of nbps nsm ->
  0 < max_num_blks_of nbps nsm / (num_heads / bdy)
  /\ exists g, grid_NHD bdy nbps nsm num_heads seq_len tr = (inl g, tr).
Proof.
  intros Hg.
  assert (Hmk : 0 < max_num_blks_of nbps nsm / (num_heads / bdy))
    by (apply Z.div_str_pos; lia).
  split; [exact Hmk|].
  assert (Hnh : num_heads <> 0).
  { intros ->. rewrite Z.div_0_l in Hg; [lia|]. intros ->. now rewrite Z.div_0_r in Hg. }
  unfold grid_NHD. cbv zeta.
  rewrite bind_div_rt.
  destruct (Z.eqb_spec (num_heads / bdy) 0) as [E|_]; [lia|].
  rewrite bind_div_rt.
  destruct (Z.eqb_spec (max_num_blks_of nbps nsm / (num_heads / bdy)) 0) as [E|_]; [lia|].
  rewrite bind_div_rt.
  destruct (Z.eqb_spec num_heads 0) as [E|_]; [contradiction|].
  rewrite bind_div_rt.
  match goal with |- context [if ?c =? 0 then _ else _] =>
    destruct (Z.eqb_spec c 0) as [E|_]; [lia|] end.
  eexists. reflexivity.
Qed.

Lemma grid_HND_defined nbps nsm num_heads seq_len tr :
  1 <= num_heads <= max_num_blks_of nbps nsm ->
  0 < max_num_blks_of nbps nsm / num_heads
  /\ exists g, grid_HND nbps nsm num_heads seq_len tr = (inl g, tr).
Proof.
  intros Hg.
  assert (Hmk : 0 < max_num_blks_of nbps nsm / num_heads)
    by (apply Z.div_str_pos; lia).
  split; [exact Hmk|].
  unfold grid_HND. cbv zeta.
  rewrite bind_div_rt.
  destruct (Z.eqb_spec num_heads 0) as [E|_]; [lia|].
  rewrite bind_div_rt.
  destruct (Z.eqb_spec (max_num_blks_of nbps nsm / num_heads) 0) as [E|_]; [lia|].
  rewrite bind_div_rt.
  destruct (Z.eqb_spec num_heads 0) as [E|_]; [lia|].
  rewrite bind_div_rt.
  match goal with |- context [if ?c =? 0 then _ else _] =>
    destruct (Z.eqb_spec c 0) as [E|_]; [lia|] end.
  eexists. reflexivity.
Qed.

(** The grid computations leave no trace of their own. *)
Lemma grid_NHD_trace bdy nbps nsm num_heads seq_len tr :
  snd (grid_NHD bdy nbps nsm num_heads seq_len tr) = tr.
Proof.
  unfold grid_NHD. cbv zeta.
  repeat (rewrite bind_div_rt;
          match goal with
          | |- context [if ?b then _ else _] => destruct b; [reflexivity|]
          end).
  reflexivity.
Qed.

Lemma grid_HND_trace nbps nsm num_heads seq_len tr :
  snd (grid_HND nbps nsm num_heads seq_len tr) = tr.
Proof.
  unfold grid_HND. cbv zeta.
  repeat (rewrite bind_div_rt;
          match goal with
          | |- context [if ?b then _ else _] => destruct b; [reflexivity|]
          end).
  reflexivity.
Qed.

End Host.

(** ** Thread coordinates, memories and block-wide stores *)

(** [threadIdx], [blockIdx], [gridDim]. *)
Record dim3 := mk_dim3 { ix : nat; iy : nat; iz : nat }.

(** The thread of the same warp tile at lane [l]. *)
Definition with_x (t : dim3) (l : nat) : dim3 := mk_dim3 l (iy t) (iz t).

Module Mem.

(** A memory maps element indices to values; a store is an (index, value)
    pair, and what a group of threads stores between two barriers is the
    list of their stores. *)
Definition mem := nat -> R.
Definition writes := list (nat * R).

Definition upd (mm : mem) (a : nat) (v : R) : mem :=
  fun b => if Nat.eqb b a then v else mm b.

Definition apply_writes (mm : mem) (ws : writes) : mem :=
  fold_left (fun acc w => upd acc (fst w) (snd w)) ws mm.

(** [vec.store(ptr)] *)
Definition store_vec (vec_size ptr : nat) (v : Vec.vec_t) : writes :=
  map (fun i => (ptr + i, Vec.get v i)) (seq 0 vec_size).

(** [cuda::memcpy_async(dst, src, frag_shape, pipeline)] of [vec_size]
    elements, under its guard.  The copy is placed at its issue point:
    the kernel reads a slot only after the matching [consumer_wait] and
    [block.sync()], and issues the next copy into a slot only after the
    barrier that follows its last read. *)
Definition memcpy_async (vec_size dst : nat) (src_mem : mem) (src : nat)
    (guard : bool) : writes :=
  if guard then map (fun i => (dst + i, src_mem (src + i))) (seq 0 vec_size) else [].

(** The stores of every thread of a block, in thread order. *)
Definition block_threads (bdx bdy bdz : nat) : list dim3 :=
  flat_map (fun tz =>
    flat_map (fun ty => map (fun tx => mk_dim3 tx ty tz) (seq 0 bdx)) (seq 0 bdy))
    (seq 0 bdz).

Definition block_store (threads : list dim3) (mm : mem) (f : dim3 -> writes) : mem :=
  apply_writes mm (flat_map f threads).

Lemma upd_same mm a v : upd mm a v a = v.
Proof. unfold upd. now rewrite Nat.eqb_refl. Qed.

Lemma upd_other mm a v b : b <> a -> upd mm a v b = mm b.
Proof. intros H. unfold upd. apply Nat.eqb_neq in H. now rewrite H. Qed.

Lemma apply_writes_frame ws : forall mm a,
  (forall v, ~ In (a, v) ws) -> apply_writes mm ws a = mm a.
Proof.
  induction ws as [|[a0 v0] ws IH]; intros mm a H; [reflexivity|].
  cbn [apply_writes fold_left fst snd]. fold (apply_writes (upd mm a0 v0) ws).
  rewrite IH by (intros v Hv; apply (H v); now right).
  apply upd_other. intros ->. apply (H v0). now left.
Qed.

Lemma apply_writes_agree ws : forall mm a v,
  In (a, v) ws -> (forall v', In (a, v') ws -> v' = v) ->
  apply_writes mm ws a = v.
Proof.
  induction ws as [|[a0 v0] ws IH]; intros mm a v Hin Hag; [destruct Hin|].
  cbn [apply_writes fold_left fst snd]. fold (apply_writes (upd mm a0 v0) ws).
  destruct (in_dec Nat.eq_dec a (map fst ws)) as [Hd|Hd].
  - apply in_map_iff in Hd. destruct Hd as ([a1 v1] & E & Hin1). cbn in E. subst a1.
    assert (v1 = v) by (apply Hag; now right). subst v1.
    apply IH; [exact Hin1|]. intros v' Hv'. apply Hag. now right.
  - rewrite apply_writes_frame.
    + destruct Hin as [E|Hin].
      * injection E as -> ->. apply upd_same.
      * exfalso. apply Hd. apply in_map_iff. now exists (a, v).
    + intros v' Hv'. apply Hd. apply in_map_iff. now exists (a, v').
Qed.

(** An element that is stored to no longer depends on what the memory
    held before. *)
Lemma apply_writes_overwrites ws : forall mm mm' a,
  In a (map fst ws) -> apply_writes mm ws a = apply_writes mm' ws a.
Proof.
  induction ws as [|[a0 v0] ws IH]; intros mm mm' a Hin; [destruct Hin|].
  cbn [apply_writes fold_left fst snd].
  fold (apply_writes (upd mm a0 v0) ws). fold (apply_writes (upd mm' a0 v0) ws).
  destruct (in_dec Nat.eq_dec a (map fst ws)) as [Hd|Hd].
  - now apply IH.
  - destruct Hin as [E|Hin]; [|contradiction]. cbn in E. subst a0.
    rewrite !apply_writes_frame.
    + now rewrite !upd_same.
    + intros v Hv. apply Hd. apply in_map_iff. now exists (a, v).
    + intros v Hv. apply Hd. apply in_map_iff. now exists (a, v).
Qed.

Lemma block_store_frame threads mm f a :
  (forall t v, In t threads -> ~ In (a, v) (f t)) ->
  block_store threads mm f a = mm a.
Proof.
  intros H. unfold block_store. apply apply_writes_frame.
  intros v Hv. apply in_flat_map in Hv. destruct Hv as (t & Ht & Hv).
  exact (H t v Ht Hv).
Qed.

Lemma block_store_read threads mm f a v t :
  In t threads -> In (a, v) (f t) ->
  (forall t' v', In t' threads -> In (a, v') (f t') -> v' = v) ->
  block_store threads mm f a = v.
Proof.
  intros Ht Hv Hag. unfold block_store. apply apply_writes_agree.
  - apply in_flat_map. now exists t.
  - intros v' Hv'. apply in_flat_map in Hv'. destruct Hv' as (t' & Ht' & Hv').
    exact (Hag t' v' Ht' Hv').
Qed.

Lemma in_block_threads bdx bdy bdz t :
  In t (block_threads bdx bdy bdz) <-> ix t < bdx /\ iy t < bdy /\ iz t < bdz.
Proof.
  unfold block_threads. rewrite in_flat_map. split.
  - intros (tz & Hz & H). apply in_flat_map in H. destruct H as (ty & Hy & H).
    apply in_map_iff in H. destruct H as (tx & <- & Hx).
    apply in_seq in Hx, Hy, Hz. cbn. lia.
  - intros (Hx & Hy & Hz). exists (iz t). split; [apply in_seq; lia|].
    apply in_flat_map. exists (iy t). split; [apply in_seq; lia|].
    apply in_map_iff. exists (ix t). split; [now destruct t | apply in_seq; lia].
Qed.

Lemma in_store_vec vec_size ptr v a w :
  In (a, w) (store_vec vec_size ptr v) <->
  exists i, i < vec_size /\ a = ptr + i /\ w = Vec.get v i.
Proof.
  unfold store_vec. rewrite in_map_iff. split.
  - intros (i & E & Hi). apply in_seq in Hi. injection E as <- <-.
    exists i. repeat split. lia.
  - intros (i & Hi & -> & ->). exists i. split; [reflexivity | apply in_seq; lia].
Qed.

Lemma in_memcpy_async vec_size dst src_mem src guard a w :
  In (a, w) (memcpy_async vec_size dst src_mem src guard) <->
  guard = true /\ exists i, i < vec_size /\ a = dst + i /\ w = src_mem (src + i).
Proof.
  unfold memcpy_async. destruct guard.
  - rewrite in_map_iff. split.
    + intros (i & E & Hi). apply in_seq in Hi. injection E as <- <-.
      split; [reflexivity|]. exists i. repeat split. lia.
    + intros (_ & i & Hi & -> & ->). exists i. split; [reflexivity | apply in_seq; lia].
  - split; [intros [] | intros (H & _); discriminate H].
Qed.

End Mem.

(** ** The warp-tile reduction of [compute_qk] *)

Module Tile.
Section Tile.
Variable bdx : nat.
Local Open Scope R_scope.

(** [g.shfl_down(x, offset)] on a tile of [bdx] lanes: the value of the
    lane [offset] above, or the caller's own when there is none. *)
Definition shfl_down (x : dim3 -> R) (offset : nat) (t : dim3) : R :=
  if (ix t + offset <? bdx)%nat then x (with_x t (ix t + offset)) else x t.

(** [for (offset = bdx / 2; offset > 0; offset /= 2) x += g.shfl_down(x, offset)].
    [fuel] bounds the number of iterations; [bdx] is always enough. *)
Fixpoint reduce (fuel offset : nat) (x : dim3 -> R) : dim3 -> R :=
  match fuel with
  | O => x
  | S fuel' =>
      if (offset =? 0)%nat then x
      else reduce fuel' (offset / 2) (fun t => x t + shfl_down x offset t)
  end.

(** [g.shfl(x, src)] *)
Definition shfl (x : dim3 -> R) (src : nat) (t : dim3) : R := x (with_x t src).

(** Lines 66-71. *)
Definition reduce_broadcast (x : dim3 -> R) : dim3 -> R :=
  shfl (reduce bdx (bdx / 2) x) 0.

Lemma rsum_seq_shift (f : nat -> R) a n :
  rsum f (seq a n) = rsum (fun l => f (a + l)%nat) (seq 0 n).
Proof.
  assert (E : seq a n = map (Nat.add a) (seq 0 n)).
  { revert a. induction n as [|n IH]; intros a; [reflexivity|].
    cbn [seq map]. rewrite Nat.add_0_r. f_equal.
    rewrite (IH (S a)), <- (seq_shift n 0), map_map.
    apply map_ext. intros l. lia. }
  rewrite E. apply rsum_map.
Qed.

Lemma pow2_half j : (2 ^ S j / 2 = 2 ^ j)%nat.
Proof. rewrite Nat.pow_succ_r'. rewrite Nat.mul_comm. apply Nat.div_mul. lia. Qed.

Lemma reduce_lane0 j : forall fuel x t,
  (2 ^ j <= bdx)%nat -> (j <= fuel)%nat ->
  reduce fuel (2 ^ j / 2) x (with_x t 0)
  = rsum (fun l => x (with_x t l)) (seq 0 (2 ^ j)).
Proof.
  induction j as [|j IH]; intros fuel x t Hb Hf.
  - cbn [Nat.pow]. replace (1 / 2)%nat with 0%nat by reflexivity.
    destruct fuel; cbn [reduce Nat.eqb seq rsum fold_right]; lra.
  - destruct fuel as [|fuel]; [lia|].
    rewrite pow2_half. cbn [reduce].
    assert (Hp : (2 ^ j <> 0)%nat) by (apply Nat.pow_nonzero; lia).
    apply Nat.eqb_neq in Hp. rewrite Hp.
    assert (Hle : (2 ^ j <= bdx)%nat).
    { rewrite Nat.pow_succ_r' in Hb. lia. }
    rewrite IH by (try exact Hle; lia).
    replace (2 ^ S j)%nat with (2 ^ j + 2 ^ j)%nat by (rewrite Nat.pow_succ_r'; lia).
    rewrite seq_app, rsum_app. cbn [plus].
    rewrite (rsum_seq_shift _ (2 ^ j)), <- rsum_plus.
    apply rsum_ext. intros l Hl. apply in_seq in Hl.
    unfold shfl_down. cbn [with_x ix iy iz].
    assert (Hlt : (l + 2 ^ j <? bdx)%nat = true).
    { apply Nat.ltb_lt. rewrite Nat.pow_succ_r' in Hb. lia. }
    rewrite Hlt. f_equal. f_equal. unfold with_x. cbn. f_equal. lia.
Qed.

(** After the broadcast every lane of a tile of [2^j] lanes holds the
    sum of the tile's values. *)
Lemma reduce_broadcast_sum j x t :
  bdx = (2 ^ j)%nat ->
  reduce_broadcast x t = rsum (fun l => x (with_x t l)) (seq 0 bdx).
Proof.
  intros Hb. unfold reduce_broadcast, shfl.
  rewrite Hb at 2 3.
  replace (with_x t 0) with (with_x (with_x t 0) 0) by reflexivity.
  rewrite reduce_lane0.
  - rewrite <- Hb. apply rsum_ext. intros l _. reflexivity.
  - lia.
  - rewrite Hb. apply Nat.lt_le_incl, Nat.pow_gt_lin_r. lia.
Qed.

End Tile.
End Tile.

(** ** Strided distribution of a range over lanes

    Both the positions of a chunk (over the threads of a block) and the
    chunks of the sequence (over the threads of the chunk-zero block)
    are dealt out lane by lane, batch by batch. *)

Module Strided.

(** The elements lane [j] takes in [B] batches of [n] lanes from [s],
    below [e]. *)
Definition lane (s n B e j : nat) : list nat :=
  filter (fun p => p <? e) (map (fun i => s + i * n + j) (seq 0 B)).

Lemma in_lane s n B e j p :
  In p (lane s n B e j) <-> exists i, i < B /\ p = s + i * n + j /\ p < e.
Proof.
  unfold lane. rewrite filter_In, in_map_iff. split.
  - intros ((i & <- & Hi) & Hp). apply in_seq in Hi. apply Nat.ltb_lt in Hp.
    exists i. repeat split; lia.
  - intros (i & Hi & -> & Hp). split.
    + exists i. split; [reflexivity | apply in_seq; lia].
    + now apply Nat.ltb_lt.
Qed.

Lemma NoDup_lane s n B e j : 0 < n -> NoDup (lane s n B e j).
Proof.
  intros Hn. unfold lane. apply NoDup_filter.
  apply Injective_map_NoDup_in; [|apply seq_NoDup].
  intros i i' _ _ E. nia.
Qed.

Lemma NoDup_flat_map_seq {A} (f : nat -> list A) n :
  (forall j, j < n -> NoDup (f j)) ->
  (forall j j' a, j < n -> j' < n -> In a (f j) -> In a (f j') -> j = j') ->
  NoDup (flat_map f (seq 0 n)).
Proof.
  induction n as [|n IH]; intros Hnd Hdis; [constructor|].
  rewrite seq_S, flat_map_app. cbn [flat_map plus]. rewrite app_nil_r.
  apply NoDup_app.
  - apply IH; [intros; apply Hnd; lia | intros j j' a ? ?; apply Hdis; lia].
  - apply Hnd. lia.
  - intros a Ha Hn. apply in_flat_map in Ha. destruct Ha as (j & Hj & Ha).
    apply in_seq in Hj. assert (j = n) by (apply (Hdis j n a); auto; lia). lia.
Qed.

(** Dealt out over [n] lanes in enough batches, the range [s, s + size)
    is covered exactly once. *)
Lemma lanes_perm s n B size :
  0 < n -> size <= B * n ->
  Permutation (flat_map (lane s n B (s + size)) (seq 0 n)) (seq s size).
Proof.
  intros Hn HB. apply NoDup_Permutation.
  - apply NoDup_flat_map_seq.
    + intros j _. now apply NoDup_lane.
    + intros j j' a Hj Hj' Ha Ha'.
      apply in_lane in Ha, Ha'.
      destruct Ha as (i & _ & -> & _). destruct Ha' as (i' & _ & E & _).
      assert (E' : i * n + j = i' * n + j') by lia.
      assert (Hq : (i * n + j) / n = i).
      { rewrite Nat.div_add_l by lia. rewrite Nat.div_small by lia. lia. }
      assert (Hq' : (i' * n + j') / n = i').
      { rewrite Nat.div_add_l by lia. rewrite Nat.div_small by lia. lia. }
      assert (i = i') by congruence. subst. lia.
  - apply seq_NoDup.
  - intros p. rewrite in_flat_map, in_seq. split.
    + intros (j & Hj & Hp). apply in_lane in Hp. destruct Hp as (i & _ & -> & Hp). lia.
    + intros Hp. exists ((p - s) mod n). split.
      * apply in_seq. split; [lia|]. cbn. apply Nat.mod_upper_bound. lia.
      * apply in_lane. exists ((p - s) / n). split; [|split].
        -- apply Nat.Div0.div_lt_upper_bound. nia.
        -- pose proof (Nat.div_mod_eq (p - s) n). nia.
        -- lia.
Qed.

Lemma flat_map_ext_in {A B} (f g : A -> list B) l :
  (forall a, In a l -> f a = g a) -> flat_map f l = flat_map g l.
Proof.
  induction l as [|a l IH]; intros H; cbn; [reflexivity|].
  rewrite (H a) by now left. rewrite IH; [reflexivity|].
  intros a' Ha'. apply H. now right.
Qed.

Lemma map_flat_map {A B C} (f : B -> C) (g : A -> list B) l :
  map f (flat_map g l) = flat_map (fun a => map f (g a)) l.
Proof.
  induction l as [|a l IH]; cbn; [reflexivity|]. now rewrite map_app, IH.
Qed.

(** Consecutive chunks of [c] elements, the last one cut at [len],
    make up the range [0, len). *)
Lemma chunks_concat c len n :
  0 < c -> n = (len + c - 1) / c ->
  flat_map (fun i => seq (i * c) (Nat.min c (len - i * c))) (seq 0 n) = seq 0 len.
Proof.
  intros Hc Hn.
  assert (H : forall m, m <= n ->
            flat_map (fun i => seq (i * c) (Nat.min c (len - i * c))) (seq 0 m)
            = seq 0 (Nat.min len (m * c))).
  { induction m as [|m IH]; intros Hm.
    - cbn. now rewrite Nat.min_0_r.
    - rewrite seq_S, flat_map_app, IH by lia. cbn [flat_map plus]. rewrite app_nil_r.
      assert (Hlt : m * c < len).
      { pose proof (Nat.Div0.mul_div_le (len + c - 1) c).
        destruct (Nat.lt_ge_cases (m * c) len) as [?|Hge]; [assumption|].
        exfalso. assert ((len + c - 1) / c <= m); [|lia].
        apply Nat.lt_succ_r. apply Nat.Div0.div_lt_upper_bound. nia. }
      rewrite (Nat.min_r len (m * c)) by lia.
      replace (Nat.min len (S m * c)) with (m * c + Nat.min c (len - m * c)) by lia.
      now rewrite seq_app. }
  rewrite (H n) by lia. f_equal.
  apply Nat.min_l. subst n.
  pose proof (Nat.div_mod_eq (len + c - 1) c).
  pose proof (Nat.mod_upper_bound (len + c - 1) c). nia.
Qed.

End Strided.

(** ** The decode kernels [HND::SingleDecodeWithKVCacheKernel] and
       [NHD::SingleDecodeWithKVCacheKernel]

    The two kernels are the same program text up to the index
    expressions collected in [layout]; [HND.layout] and [NHD.layout]
    below give them as each kernel writes them.  A block runs in
    lockstep between barriers, so its registers are functions of
    [threadIdx] and its stores between two barriers are applied
    together. *)

Module Decode.

Record layout := {
  (** row of the thread's tile in shared memory *)
  row : dim3 -> nat;
  (** which position of a batch (and which chunk of a batch of chunks)
      the thread works on, and how many there are in a batch *)
  pos_lane : dim3 -> nat;
  pos_lanes : nat;
  (** rows of one pipeline stage in shared memory *)
  rows : nat;
  (** the row read in iteration [j] of [sync_state] *)
  sync_row : dim3 -> nat -> nat;
  (** [head_idx], from [blockIdx] and [threadIdx] *)
  head_idx_of : dim3 -> dim3 -> nat;
  (** [num_heads], from [gridDim] *)
  num_heads_of : dim3 -> nat;
  (** row of the cache that holds position [kv_idx] of head [head_idx],
      from [num_heads], [seq_len], [head_idx], [kv_idx] *)
  kv_row : nat -> nat -> nat -> nat -> nat;
  (** slot of the scratch buffer of a (head, chunk) pair, from
      [num_heads], [num_kv_chunks], [head_idx], [kv_chunk_idx] *)
  tmp_slot : nat -> nat -> nat -> nat -> nat }.

(** The threads of a block of shape [(bdx, bdy, bdz)]. *)
Definition in_block (bdx bdy bdz : nat) (t : dim3) : Prop :=
  ix t < bdx /\ iy t < bdy /\ iz t < bdz.

(** What the proofs use of a layout: rows and lanes stay in range, a
    row belongs to one [(threadIdx.y, threadIdx.z)], the lanes of a
    warp tile share row, lane and head, [sync_state] reads the rows of
    the threads that work for the same head, and distinct (head, chunk)
    pairs have distinct slots of the scratch buffer. *)
Record layout_ok (bdx bdy bdz : nat) (L : layout) : Prop := {
  row_lt : forall t, in_block bdx bdy bdz t -> row L t < rows L;
  row_inj : forall t1 t2, in_block bdx bdy bdz t1 -> in_block bdx bdy bdz t2 ->
      row L t1 = row L t2 -> iy t1 = iy t2 /\ iz t1 = iz t2;
  lane_lt : forall t, in_block bdx bdy bdz t -> pos_lane L t < pos_lanes L;
  row_tile : forall t l, row L (with_x t l) = row L t;
  lane_tile : forall t l, pos_lane L (with_x t l) = pos_lane L t;
  head_tile : forall b t l, head_idx_of L b (with_x t l) = head_idx_of L b t;
  sync_tile : forall t l j, sync_row L (with_x t l) j = sync_row L t j;
  sync_partner : forall t j, in_block bdx bdy bdz t -> j < pos_lanes L ->
      exists t', in_block bdx bdy bdz t' /\ ix t' = ix t /\ row L t' = sync_row L t j
                 /\ pos_lane L t' = j
                 /\ forall b, head_idx_of L b t' = head_idx_of L b t;
  head_block : forall b b' t, iy b = iy b' -> head_idx_of L b t = head_idx_of L b' t;
  head_lt : forall g b t, iy b < iy g -> in_block bdx bdy bdz t ->
      head_idx_of L b t < num_heads_of L g;
  head_cover : forall g head l, head < num_heads_of L g -> l < bdx ->
      exists b t, iy b < iy g /\ ix b = 0 /\ iz b = 0 /\ in_block bdx bdy bdz t
                  /\ ix t = l /\ head_idx_of L b t = head;
  slot_lt : forall nh nc h c, h < nh -> c < nc -> tmp_slot L nh nc h c < nh * nc;
  slot_inj : forall nh nc h c h' c', h < nh -> c < nc -> h' < nh -> c' < nc ->
      tmp_slot L nh nc h c = tmp_slot L nh nc h' c' -> h = h' /\ c = c' }.

Section Kernel.
(** Template parameters. *)
Variable rotary_mode : RotaryMode.
Variables head_dim vec_size bdx bdy bdz : nat.
Variable L : layout.

(** Modelled from the spec: [apply_rotary] of [rope.cuh] is not among
    the sources.  Section 2: "given a raw vector, a precomputed per-lane
    frequency table, and a sequence position, returns the rotated
    vector"; the raw vector is the row of [head_dim] elements the
    pointer argument points at, the result the calling lane's
    [vec_size] elements, so the lane [threadIdx.x] is an argument too. *)
Variable apply_rotary : list R -> Vec.vec_t -> nat -> nat -> Vec.vec_t.

(** The initial maximum of [State.state_t] (see [State.init]). *)
Variable m_init : R.

(** Kernel arguments ([o] and [tmp] are threaded through below). *)
Variables q k v : Mem.mem.
Variable sm_scale : R.
Variable seq_len : nat.
Variables rope_inv_scale rope_inv_theta : R.
Variable kv_chunk_size : nat.

Variable gridDim : dim3.

Local Open Scope R_scope.
Local Notation "a .[ i ]" := (Vec.get a i) (at level 1, format "a .[ i ]").

Definition stages_count : nat := 4.
Definition num_kv_chunks : nat := ix gridDim.
Definition num_heads : nat := num_heads_of L gridDim.
Definition threads : list dim3 := Mem.block_threads bdx bdy bdz.

(** [kv_shared_offset[stages_count]] *)
Definition kv_shared_offset : list nat :=
  [0; 1 * rows L * head_dim; 2 * rows L * head_dim; 3 * rows L * head_dim]%nat.

(** The [head_dim] elements at [ptr]. *)
Definition load_row (mm : Mem.mem) (ptr : nat) : list R :=
  map (fun f => mm (ptr + f)%nat) (seq 0 head_dim).

(** Lines 180-186 and 495-501. *)
Definition rotary_emb (t : dim3) : Vec.vec_t :=
  Vec.tab vec_size (fun i =>
    rope_inv_scale *
    Rpower rope_inv_theta
      (INR (2 * ((ix t * vec_size + i) mod (head_dim / 2))) / INR head_dim)).

(** Lines 187-192 and 502-507. *)
Definition q_vec (head_idx : nat) (t : dim3) : Vec.vec_t :=
  match rotary_mode with
  | kApplyRotary =>
      apply_rotary (load_row q (head_idx * head_dim)) (rotary_emb t) (seq_len - 1) (ix t)
  | _ => Vec.cast_load vec_size q (head_idx * head_dim + ix t * vec_size)
  end.

(** Where a thread's [vec_size] elements of a stage live in shared memory. *)
Definition smem_ptr (stage_idx : nat) (t : dim3) : nat :=
  nth stage_idx kv_shared_offset 0%nat + row L t * head_dim + ix t * vec_size.

(** [compute_qk], lines 44-72 and 353-383: the thread's part of the
    scaled dot product, then the tile reduction and broadcast. *)
Definition compute_qk (smem : Mem.mem) (q_vec rotary_emb : dim3 -> Vec.vec_t)
    (kv_idx : dim3 -> nat) (compute_stage_idx : nat) : dim3 -> R :=
  Tile.reduce_broadcast bdx (fun t =>
    let k_vec :=
      match rotary_mode with
      | kApplyRotary =>
          apply_rotary
            (load_row smem (nth compute_stage_idx kv_shared_offset 0%nat
                            + row L t * head_dim))
            (rotary_emb t) (kv_idx t) (ix t)
      | _ => Vec.cast_load vec_size smem (smem_ptr compute_stage_idx t)
      end in
    fold_left (fun x i => x + (q_vec t).[i] * k_vec.[i] * sm_scale)
              (seq 0 vec_size) 0).

(** [update_partial_state], lines 89-100 and 401-413. *)
Definition update_partial_state (smem : Mem.mem) (x : R) (compute_stage_idx : nat)
    (pred_guard : bool) (s : State.state_t) (t : dim3) : State.state_t :=
  let v_vec := Vec.cast_load vec_size smem (smem_ptr compute_stage_idx t) in
  if pred_guard then State.merge_xv vec_size s x v_vec else s.

(** [sync_state], lines 112-128 and 426-442: every thread stores its
    state, the block synchronises, every thread merges the states of
    the rows [sync_row t j] into a fresh state. *)
Definition sync_state (s : dim3 -> State.state_t) (smem smem_md : Mem.mem)
  : (dim3 -> State.state_t) * Mem.mem * Mem.mem :=
  let smem' := Mem.block_store threads smem (fun t =>
      Mem.store_vec vec_size (row L t * head_dim + ix t * vec_size) (State.o (s t))) in
  let smem_md' := Mem.block_store threads smem_md (fun t =>
      [((row L t * 2)%nat, State.m (s t)); ((row L t * 2 + 1)%nat, State.d (s t))]) in
  (fun t =>
     fold_left (fun acc j =>
         let mj := smem_md' (sync_row L t j * 2)%nat in
         let dj := smem_md' (sync_row L t j * 2 + 1)%nat in
         let oj := Vec.load vec_size smem' (sync_row L t j * head_dim + ix t * vec_size) in
         State.merge vec_size acc mj dj oj)
       (seq 0 (pos_lanes L)) (State.init vec_size m_init),
   smem', smem_md').

Section Block.
Variable blockIdx : dim3.

Definition kv_chunk_idx : nat := ix blockIdx.
Definition head_idx (t : dim3) : nat := head_idx_of L blockIdx t.

(** Lines 195-197 and 510-512. *)
Definition chunk_start : nat := kv_chunk_idx * kv_chunk_size.
Definition chunk_size : nat := Nat.min kv_chunk_size (seq_len - chunk_start).
Definition chunk_end : nat := chunk_start + chunk_size.

(** Where position [kv_idx] of the thread's head starts in the cache. *)
Definition kv_ptr (t : dim3) (kv_idx : nat) : nat :=
  kv_row L num_heads seq_len (head_idx t) kv_idx * head_dim + ix t * vec_size.

(** The registers and shared memory of a block inside the pipeline loop. *)
Record block_state := {
  smem : Mem.mem;
  s_partial : dim3 -> State.state_t;
  x : dim3 -> R;
  copy_stage_idx : nat;
  compute_stage_idx : nat }.

(** Lines 204-224 and 519-539: the first key and value tiles. *)
Definition prologue (smem0 : Mem.mem) : block_state :=
  let producer_pred_guard t := (pos_lane L t <? chunk_size)%nat in
  let smem1 := Mem.block_store threads smem0 (fun t =>
      Mem.memcpy_async vec_size (smem_ptr 0 t) k
        (kv_ptr t (chunk_start + pos_lane L t)) (producer_pred_guard t)) in
  let smem2 := Mem.block_store threads smem1 (fun t =>
      Mem.memcpy_async vec_size (smem_ptr 1 t) v
        (kv_ptr t (chunk_start + pos_lane L t)) (producer_pred_guard t)) in
  {| smem := smem2;
     s_partial := fun _ => State.init vec_size m_init;
     x := fun _ => 0;
     copy_stage_idx := 2;
     compute_stage_idx := 0 |}.

(** The bound of the loop at lines 227 and 542. *)
Definition num_batches : nat := (chunk_size + pos_lanes L - 1) / pos_lanes L.

(** Lines 227-270 and 542-587: one iteration of the pipeline loop. *)
Definition loop_body (st : block_state) (batch : nat) : block_state :=
  let producer_kv_idx t := (chunk_start + batch * pos_lanes L + pos_lane L t)%nat in
  let consumer_kv_idx t := (chunk_start + (batch - 1) * pos_lanes L + pos_lane L t)%nat in
  let producer_pred_guard t := (producer_kv_idx t <? chunk_end)%nat in
  let consumer_pred_guard := true in
  (* load stage: load k tiles *)
  let smem1 := Mem.block_store threads (smem st) (fun t =>
      Mem.memcpy_async vec_size (smem_ptr (copy_stage_idx st) t) k
        (kv_ptr t (producer_kv_idx t)) (producer_pred_guard t)) in
  let copy1 := ((copy_stage_idx st + 1) mod stages_count)%nat in
  (* compute stage: compute qk *)
  let x1 := compute_qk smem1 (fun t => q_vec (head_idx t) t) rotary_emb
              consumer_kv_idx (compute_stage_idx st) in
  let compute1 := ((compute_stage_idx st + 1) mod stages_count)%nat in
  (* load stage: load v tiles *)
  let smem2 := Mem.block_store threads smem1 (fun t =>
      Mem.memcpy_async vec_size (smem_ptr copy1 t) v
        (kv_ptr t (producer_kv_idx t)) (producer_pred_guard t)) in
  let copy2 := ((copy1 + 1) mod stages_count)%nat in
  (* compute stage: update partial state *)
  let s1 t := update_partial_state smem2 (x1 t) compute1 consumer_pred_guard
                (s_partial st t) t in
  let compute2 := ((compute1 + 1) mod stages_count)%nat in
  {| smem := smem2; s_partial := s1; x := x1;
     copy_stage_idx := copy2; compute_stage_idx := compute2 |}.

(** [for (batch = 1; batch < num_batches; ++batch)], and the value of
    [batch] when the loop is left. *)
Definition pipeline_loop (st : block_state) : block_state :=
  fold_left loop_body (seq 1 (num_batches - 1)) st.
Definition last_batch : nat := Nat.max 1 num_batches.

(** Lines 273-293 and 590-610: the last two compute stages. *)
Definition epilogue (st : block_state) : block_state :=
  let consumer_kv_idx t :=
    (chunk_start + (last_batch - 1) * pos_lanes L + pos_lane L t)%nat in
  let consumer_pred_guard t := (consumer_kv_idx t <? chunk_end)%nat in
  let x1 := compute_qk (smem st) (fun t => q_vec (head_idx t) t) rotary_emb
              consumer_kv_idx (compute_stage_idx st) in
  let compute1 := ((compute_stage_idx st + 1) mod stages_count)%nat in
  let s1 t := update_partial_state (smem st) (x1 t) compute1 (consumer_pred_guard t)
                (s_partial st t) t in
  let compute2 := ((compute1 + 1) mod stages_count)%nat in
  {| smem := smem st; s_partial := s1; x := x1;
     copy_stage_idx := copy_stage_idx st; compute_stage_idx := compute2 |}.

(** Lines 162-296 and 477-614: the block up to and including the first
    [sync_state]; [smem0] and [smem_md0] are the shared memories as the
    block finds them. *)
Definition chunk_state (smem0 smem_md0 : Mem.mem) : dim3 -> State.state_t :=
  let st := epilogue (pipeline_loop (prologue smem0)) in
  fst (fst (sync_state (s_partial st) (smem st) smem_md0)).

(** Where the scratch buffer keeps the partial output of a (head, chunk)
    pair and, behind all of them, its [(m, d)] pair. *)
Definition tmp_o_ptr (head chunk : nat) : nat :=
  tmp_slot L num_heads num_kv_chunks head chunk * head_dim.
Definition tmp_md_base : nat := num_heads * num_kv_chunks * head_dim.
Definition tmp_md_idx (head chunk : nat) : nat :=
  tmp_md_base + tmp_slot L num_heads num_kv_chunks head chunk * 2.

(** Lines 298-302 and 616-620: what the block stores into [tmp]. *)
Definition tmp_writes (s : dim3 -> State.state_t) (t : dim3) : Mem.writes :=
  Mem.store_vec vec_size (tmp_o_ptr (head_idx t) kv_chunk_idx + ix t * vec_size)
    (State.o (s t))
  ++ [(tmp_md_idx (head_idx t) kv_chunk_idx, State.m (s t));
      ((tmp_md_idx (head_idx t) kv_chunk_idx + 1)%nat, State.d (s t))].

(** The block before [grid.sync()]. *)
Definition before_grid_sync (smem0 smem_md0 tmp : Mem.mem) : Mem.mem :=
  Mem.block_store threads tmp (tmp_writes (chunk_state smem0 smem_md0)).

(** Lines 307-318 and 625-635: a thread of the chunk-zero block merges
    the partial states of the chunks of its lane. *)
Definition global_partial (tmp : Mem.mem) (t : dim3) : State.state_t :=
  fold_left (fun s_global batch =>
      let kv_chunk_idx := (batch * pos_lanes L + pos_lane L t)%nat in
      if (kv_chunk_idx <? num_kv_chunks)%nat then
        let s_partial :=
          {| State.m := tmp (tmp_md_idx (head_idx t) kv_chunk_idx);
             State.d := tmp (tmp_md_idx (head_idx t) kv_chunk_idx + 1)%nat;
             State.o := Vec.load vec_size tmp
                          (tmp_o_ptr (head_idx t) kv_chunk_idx + ix t * vec_size) |} in
        State.merge_state vec_size s_global s_partial
      else s_global)
    (seq 0 ((num_kv_chunks + pos_lanes L - 1) / pos_lanes L))
    (State.init vec_size m_init).

(** The elements of [tmp] these loads touch (lines 312-315, 630-632). *)
Definition global_partial_loads (t : dim3) : list nat :=
  flat_map (fun batch =>
      let kv_chunk_idx := (batch * pos_lanes L + pos_lane L t)%nat in
      if (kv_chunk_idx <? num_kv_chunks)%nat then
        [tmp_md_idx (head_idx t) kv_chunk_idx;
         (tmp_md_idx (head_idx t) kv_chunk_idx + 1)%nat]
        ++ map (fun i => (tmp_o_ptr (head_idx t) kv_chunk_idx + ix t * vec_size + i)%nat)
               (seq 0 vec_size)
      else [])
    (seq 0 ((num_kv_chunks + pos_lanes L - 1) / pos_lanes L)).

(** Lines 319-321 and 636-639. *)
Definition global_state (smem0 smem_md0 tmp : Mem.mem) : dim3 -> State.state_t :=
  fst (fst (sync_state (global_partial tmp) smem0 smem_md0)).

(** Lines 322 and 640: the stores into the output tensor. *)
Definition o_writes (s : dim3 -> State.state_t) (t : dim3) : Mem.writes :=
  Mem.store_vec vec_size (head_idx t * head_dim + ix t * vec_size) (State.o (s t)).

(** Lines 323-324 and 641-642: the final [(m, d)] into [tmp]. *)
Definition tmp_final_writes (s : dim3 -> State.state_t) (t : dim3) : Mem.writes :=
  [(head_idx t, State.m (s t)); ((num_heads + head_idx t)%nat, State.d (s t))].

(** Lines 306-325 and 624-643: the block after [grid.sync()]; only the
    block of chunk zero does anything.  [tmp] is the scratch buffer as
    the threads of the block find it when they load; the result is the
    new output tensor and the stores the block adds to [tmp]. *)
Definition after_grid_sync (smem0 smem_md0 tmp o_mem : Mem.mem)
  : Mem.mem * Mem.writes :=
  if (kv_chunk_idx =? 0)%nat then
    let s_global := global_state smem0 smem_md0 tmp in
    (Mem.block_store threads o_mem (o_writes s_global),
     flat_map (tmp_final_writes s_global) threads)
  else (o_mem, []).

End Block.

(** The blocks of the grid. *)
Definition blocks : list dim3 :=
  flat_map (fun by_ => map (fun bx => mk_dim3 bx by_ 0) (seq 0 (ix gridDim)))
           (seq 0 (iy gridDim)).

(** The launch in one of its executions: every block runs up to
    [grid.sync()], then every block runs the rest against the scratch
    buffer as the barrier left it, and the final [(m, d)] stores of all
    blocks land after all their loads.  The kernel has no barrier
    between these loads (lines 312-315, 630-632) and these stores
    (lines 323-324, 641-642) of different blocks, so this is not the
    only execution: the others are [run_seen] and [run_in_order]
    below.  [smem0], [smem_md0] give the shared memories each block
    starts from, [tmp0] and [o0] the caller's buffers. *)
Definition run (smem0 smem_md0 : dim3 -> Mem.mem) (tmp0 o0 : Mem.mem)
  : Mem.mem * Mem.mem :=
  let tmp1 := fold_left (fun tmp b => before_grid_sync b (smem0 b) (smem_md0 b) tmp)
                        blocks tmp0 in
  let o1 := fold_left (fun o_mem b =>
                fst (after_grid_sync b (smem0 b) (smem_md0 b) tmp1 o_mem))
              blocks o0 in
  let tmp2 := Mem.apply_writes tmp1
                (flat_map (fun b =>
                   snd (after_grid_sync b (smem0 b) (smem_md0 b) tmp1 o0)) blocks) in
  (o1, tmp2).


(** *** What a head's scores and values are, read off the cache

    The kernel's registers are compared with these closed forms. *)

(** The thread-local key vector of lane [l] for position [p]. *)
Definition kvec (head l p : nat) : Vec.vec_t :=
  match rotary_mode with
  | kApplyRotary =>
      apply_rotary (load_row k (kv_row L num_heads seq_len head p * head_dim))
        (rotary_emb (mk_dim3 l 0 0)) p l
  | _ => Vec.load vec_size k (kv_row L num_heads seq_len head p * head_dim + l * vec_size)
  end.

(** The score of position [p]: the scaled dot product over all lanes. *)
Definition score (head p : nat) : R :=
  rsum (fun l =>
          rsum (fun i => (q_vec head (mk_dim3 l 0 0)).[i] * (kvec head l p).[i] * sm_scale)
               (seq 0 vec_size))
       (seq 0 bdx).

(** The thread-local value vector of lane [l] for position [p]. *)
Definition vvec (head l p : nat) : Vec.vec_t :=
  Vec.load vec_size v (kv_row L num_heads seq_len head p * head_dim + l * vec_size).

(** The element position [p] contributes to the state of lane [l]. *)
Definition elem (head l p : nat) : R * Vec.vec_t := (score head p, vvec head l p).

Hypothesis Hdim : head_dim = (bdx * vec_size)%nat.
Hypothesis HL : layout_ok bdx bdy bdz L.

Lemma euclid_unique n a1 r1 a2 r2 :
  (r1 < n)%nat -> (r2 < n)%nat -> (a1 * n + r1 = a2 * n + r2)%nat ->
  a1 = a2 /\ r1 = r2.
Proof using.
  clear Hdim HL.
  intros H1 H2 E.
  assert (Ha : a1 = a2).
  { assert (E1 : ((a1 * n + r1) / n = a1)%nat).
    { rewrite Nat.div_add_l by lia. rewrite Nat.div_small by lia. lia. }
    assert (E2 : ((a2 * n + r2) / n = a2)%nat).
    { rewrite Nat.div_add_l by lia. rewrite Nat.div_small by lia. lia. }
    congruence. }
  subst a2. split; [reflexivity | lia].
Qed.

Lemma fold_left_plus_rsum (f : nat -> R) l a :
  fold_left (fun x i => x + f i) l a = a + rsum f l.
Proof using.
  clear Hdim HL.
  revert a. induction l as [|i l IH]; intros a; simpl; [lra|].
  rewrite IH. lra.
Qed.

Lemma in_threads t : In t threads <-> in_block bdx bdy bdz t.
Proof. apply Mem.in_block_threads. Qed.

Lemma with_x_in_block t l :
  in_block bdx bdy bdz t -> (l < bdx)%nat -> in_block bdx bdy bdz (with_x t l).
Proof. unfold in_block, with_x. cbn. tauto. Qed.

Lemma with_x_self t : with_x t (ix t) = t.
Proof. now destruct t. Qed.

Lemma q_vec_lane head t : q_vec head t = q_vec head (mk_dim3 (ix t) 0 0).
Proof. reflexivity. Qed.

Lemma lane_elem_lt l i : (l < bdx)%nat -> (i < vec_size)%nat -> (l * vec_size + i < head_dim)%nat.
Proof. intros Hl Hi. rewrite Hdim. nia. Qed.

Lemma nth_kv_shared_offset stage :
  (stage < 4)%nat ->
  nth stage kv_shared_offset 0%nat = (stage * (rows L * head_dim))%nat.
Proof using.
  clear Hdim HL.
  intros H. unfold kv_shared_offset.
  destruct stage as [|[|[|[|?]]]]; cbn [nth]; lia.
Qed.

(** The largest score among the positions [P] (and [m_init]). *)
Definition max_over (head : nat) (P : list nat) : R :=
  fold_right (fun p acc => Rmax (score head p) acc) m_init P.

(** The state that holds the positions [P], written out: nothing in it
    is divided by [d]. *)
Lemma elems_closed_form head l P :
  State.m (State.of_elems vec_size m_init (map (elem head l) P)) = max_over head P
  /\ State.d (State.of_elems vec_size m_init (map (elem head l) P))
     = rsum (fun p => exp (score head p - max_over head P)) P
  /\ forall i, (i < vec_size)%nat ->
       (State.o (State.of_elems vec_size m_init (map (elem head l) P))).[i]
       = rsum (fun p => exp (score head p - max_over head P)
                        * v (kv_row L num_heads seq_len head p * head_dim
                             + l * vec_size + i)%nat) P.
Proof.
  assert (HM : State.max_score m_init (map (elem head l) P) = max_over head P).
  { unfold State.max_score, max_over. induction P as [|p P IH]; cbn; [reflexivity|].
    now rewrite IH. }
  unfold State.of_elems. cbn [State.o State.m State.d]. rewrite HM.
  split; [reflexivity|]. split.
  - now rewrite rsum_map.
  - intros i Hi. rewrite Vec.get_tab by exact Hi. rewrite rsum_map.
    apply rsum_ext. intros p _. cbn [elem fst snd]. unfold vvec.
    rewrite Vec.get_load by exact Hi. reflexivity.
Qed.

(** *** The staged tiles of a block *)

Section BlockFacts.
Variable b : dim3.
Hypothesis Hpow : exists j, bdx = (2 ^ j)%nat.

(** The position lane [j] works on in batch [bt]. *)
Definition lane_posn (bt j : nat) : nat := (chunk_start b + bt * pos_lanes L + j)%nat.

(** Stage [stage] of shared memory holds, for every thread whose
    position of batch [bt] is inside the chunk, that position's row of
    [src]. *)
Definition tile_ok (sm : Mem.mem) (stage : nat) (src : Mem.mem) (bt : nat) : Prop :=
  forall t, in_block bdx bdy bdz t ->
    (lane_posn bt (pos_lane L t) < chunk_end b)%nat ->
    forall f, (f < head_dim)%nat ->
    sm (nth stage kv_shared_offset 0%nat + row L t * head_dim + f)%nat
    = src (kv_row L num_heads seq_len (head_idx b t) (lane_posn bt (pos_lane L t))
           * head_dim + f)%nat.

Lemma same_row_thread t t' :
  in_block bdx bdy bdz t -> in_block bdx bdy bdz t' -> row L t' = row L t ->
  t' = with_x t (ix t').
Proof.
  intros Ht Ht' Hr. destruct (row_inj _ _ _ _ HL t' t Ht' Ht Hr) as [Hy Hz].
  destruct t', t. cbn in *. unfold with_x. cbn. congruence.
Qed.

Lemma copy_tile sm stage src (guard : dim3 -> bool) (idx : dim3 -> nat) bt :
  (forall t, in_block bdx bdy bdz t ->
     guard t = (lane_posn bt (pos_lane L t) <? chunk_end b)%nat) ->
  (forall t, in_block bdx bdy bdz t -> idx t = lane_posn bt (pos_lane L t)) ->
  tile_ok (Mem.block_store threads sm (fun t =>
             Mem.memcpy_async vec_size (smem_ptr stage t) src (kv_ptr b t (idx t)) (guard t)))
          stage src bt.
Proof.
  intros Hguard Hidx t Ht Hvalid f Hf.
  assert (Hvs : (0 < vec_size)%nat) by (rewrite Hdim in Hf; nia).
  set (l := (f / vec_size)%nat). set (i := (f mod vec_size)%nat).
  assert (Hfi : f = (l * vec_size + i)%nat).
  { unfold l, i. rewrite Nat.mul_comm. apply Nat.div_mod_eq. }
  assert (Hi : (i < vec_size)%nat) by (apply Nat.mod_upper_bound; lia).
  assert (Hl : (l < bdx)%nat).
  { unfold l. apply Nat.Div0.div_lt_upper_bound. rewrite Nat.mul_comm, <- Hdim. exact Hf. }
  assert (Ht' : in_block bdx bdy bdz (with_x t l)) by now apply with_x_in_block.
  apply (Mem.block_store_read threads sm _ _ _ (with_x t l)).
  - now apply in_threads.
  - apply Mem.in_memcpy_async. split.
    + rewrite (Hguard _ Ht'), (lane_tile _ _ _ _ HL). now apply Nat.ltb_lt.
    + exists i. split; [exact Hi|]. unfold smem_ptr, kv_ptr, head_idx.
      rewrite (Hidx _ Ht'), (lane_tile _ _ _ _ HL), (row_tile _ _ _ _ HL),
        (head_tile _ _ _ _ HL).
      cbn [with_x ix]. split; [lia|]. f_equal. lia.
  - intros t2 w2 Ht2 Hw2. apply in_threads in Ht2.
    apply Mem.in_memcpy_async in Hw2. destruct Hw2 as (_ & i2 & Hi2 & Ea & ->).
    unfold smem_ptr in Ea.
    assert (Hr2 : (ix t2 * vec_size + i2 < head_dim)%nat)
      by (apply lane_elem_lt; [apply Ht2 | exact Hi2]).
    destruct (euclid_unique head_dim (row L t) f (row L t2) (ix t2 * vec_size + i2))
      as [Hrow Hf2]; [exact Hf | exact Hr2 | lia |].
    assert (E2 : t2 = with_x t (ix t2)) by (apply same_row_thread; auto).
    unfold kv_ptr, head_idx. rewrite (Hidx _ Ht2).
    rewrite E2 at 1 2. rewrite (lane_tile _ _ _ _ HL), (head_tile _ _ _ _ HL).
    f_equal. lia.
Qed.

Lemma copy_frame sm stage stage' src (guard : dim3 -> bool) (idx : dim3 -> nat) r f :
  (stage < 4)%nat -> (stage' < 4)%nat -> stage <> stage' ->
  (r < rows L)%nat -> (f < head_dim)%nat ->
  Mem.block_store threads sm (fun t =>
      Mem.memcpy_async vec_size (smem_ptr stage t) src (kv_ptr b t (idx t)) (guard t))
    (nth stage' kv_shared_offset 0%nat + r * head_dim + f)%nat
  = sm (nth stage' kv_shared_offset 0%nat + r * head_dim + f)%nat.
Proof.
  intros Hs Hs' Hne Hr Hf. apply Mem.block_store_frame.
  intros t w Ht Hw. apply in_threads in Ht.
  apply Mem.in_memcpy_async in Hw. destruct Hw as (_ & i & Hi & Ea & _).
  unfold smem_ptr in Ea. rewrite !nth_kv_shared_offset in Ea by assumption.
  assert (Hrt : (row L t < rows L)%nat) by (apply (row_lt _ _ _ _ HL); exact Ht).
  assert (Hr2 : (ix t * vec_size + i < head_dim)%nat)
    by (apply lane_elem_lt; [apply Ht | exact Hi]).
  destruct (euclid_unique (rows L * head_dim) stage' (r * head_dim + f)
              stage (row L t * head_dim + (ix t * vec_size + i))) as [E _];
    [nia | nia | lia | congruence].
Qed.

Lemma tile_ok_frame sm stage stage' src src' (guard : dim3 -> bool) (idx : dim3 -> nat) bt :
  (stage < 4)%nat -> (stage' < 4)%nat -> stage <> stage' ->
  tile_ok sm stage' src' bt ->
  tile_ok (Mem.block_store threads sm (fun t =>
             Mem.memcpy_async vec_size (smem_ptr stage t) src (kv_ptr b t (idx t)) (guard t)))
          stage' src' bt.
Proof.
  intros Hs Hs' Hne Hok t Ht Hvalid f Hf.
  rewrite copy_frame; auto. apply (row_lt _ _ _ _ HL). exact Ht.
Qed.

(** On a staged key tile [compute_qk] yields the score of the thread's
    position. *)
Lemma compute_qk_score sm stage bt (kv_idx : dim3 -> nat) t :
  tile_ok sm stage k bt ->
  (forall t, in_block bdx bdy bdz t -> kv_idx t = lane_posn bt (pos_lane L t)) ->
  in_block bdx bdy bdz t ->
  (lane_posn bt (pos_lane L t) < chunk_end b)%nat ->
  compute_qk sm (fun t => q_vec (head_idx b t) t) rotary_emb kv_idx stage t
  = score (head_idx b t) (lane_posn bt (pos_lane L t)).
Proof.
  intros Hok Hidx Ht Hvalid. destruct Hpow as [j Hj].
  unfold compute_qk. rewrite (Tile.reduce_broadcast_sum bdx j) by exact Hj.
  unfold score. apply rsum_ext. intros l Hl. apply in_seq in Hl.
  assert (Ht' : in_block bdx bdy bdz (with_x t l)) by (apply with_x_in_block; [auto|lia]).
  rewrite fold_left_plus_rsum, Rplus_0_l. apply rsum_ext. intros i Hi. apply in_seq in Hi.
  unfold head_idx. rewrite (head_tile _ _ _ _ HL).
  f_equal. f_equal. f_equal.
  unfold kvec.
  assert (Hrow : load_row sm (nth stage kv_shared_offset 0%nat + row L (with_x t l) * head_dim)
                 = load_row k (kv_row L num_heads seq_len (head_idx_of L b t)
                                 (lane_posn bt (pos_lane L t)) * head_dim)).
  { unfold load_row. apply map_ext_in. intros f Hf. apply in_seq in Hf.
    rewrite (row_tile _ _ _ _ HL). rewrite (Hok t Ht Hvalid f) by lia. reflexivity. }
  destruct rotary_mode.
  - unfold Vec.cast_load, Vec.load. apply Vec.tab_ext. intros i' Hi'.
    unfold smem_ptr. rewrite (row_tile _ _ _ _ HL). cbn [with_x ix].
    replace (nth stage kv_shared_offset 0%nat + row L t * head_dim + l * vec_size + i')%nat
      with (nth stage kv_shared_offset 0%nat + row L t * head_dim + (l * vec_size + i'))%nat
      by lia.
    rewrite (Hok t Ht Hvalid) by (apply lane_elem_lt; lia).
    f_equal. unfold head_idx. lia.
  - rewrite Hrow, (Hidx _ Ht'), (lane_tile _ _ _ _ HL). reflexivity.
  - unfold Vec.cast_load, Vec.load. apply Vec.tab_ext. intros i' Hi'.
    unfold smem_ptr. rewrite (row_tile _ _ _ _ HL). cbn [with_x ix].
    replace (nth stage kv_shared_offset 0%nat + row L t * head_dim + l * vec_size + i')%nat
      with (nth stage kv_shared_offset 0%nat + row L t * head_dim + (l * vec_size + i'))%nat
      by lia.
    rewrite (Hok t Ht Hvalid) by (apply lane_elem_lt; lia).
    f_equal. unfold head_idx. lia.
Qed.

(** On a staged value tile [update_partial_state] loads the thread's
    part of the value of its position. *)
Lemma staged_value sm stage bt t :
  tile_ok sm stage v bt ->
  in_block bdx bdy bdz t ->
  (lane_posn bt (pos_lane L t) < chunk_end b)%nat ->
  Vec.cast_load vec_size sm (smem_ptr stage t)
  = vvec (head_idx b t) (ix t) (lane_posn bt (pos_lane L t)).
Proof.
  intros Hok Ht Hvalid. unfold Vec.cast_load, vvec, Vec.load.
  apply Vec.tab_ext. intros i Hi. unfold smem_ptr.
  replace (nth stage kv_shared_offset 0%nat + row L t * head_dim + ix t * vec_size + i)%nat
    with (nth stage kv_shared_offset 0%nat + row L t * head_dim + (ix t * vec_size + i))%nat
    by lia.
  rewrite (Hok t Ht Hvalid) by (apply lane_elem_lt; [apply Ht | exact Hi]).
  f_equal. lia.
Qed.

(** *** The pipeline loop *)

(** The positions lane [j] folds in during the first [n] batches. *)
Definition lane_batches (n j : nat) : list nat :=
  map (fun bt => lane_posn bt j) (seq 0 n).

(** All positions lane [j] folds in: every batch but the last in full,
    the last under its guard. *)
Definition lane_positions (j : nat) : list nat :=
  lane_batches (last_batch b - 1) j
  ++ (if (lane_posn (last_batch b - 1) j <? chunk_end b)%nat
      then [lane_posn (last_batch b - 1) j] else []).

(** What holds when iteration [batch] starts. *)
Definition loop_inv (batch : nat) (st : block_state) : Prop :=
  (compute_stage_idx st = 0%nat \/ compute_stage_idx st = 2%nat)
  /\ copy_stage_idx st = ((compute_stage_idx st + 2) mod 4)%nat
  /\ tile_ok (smem st) (compute_stage_idx st) k (batch - 1)
  /\ tile_ok (smem st) (compute_stage_idx st + 1) v (batch - 1)
  /\ forall t, in_block bdx bdy bdz t ->
       s_partial st t
       = State.of_elems vec_size m_init
           (map (elem (head_idx b t) (ix t)) (lane_batches (batch - 1) (pos_lane L t))).

Hypothesis Hlanes : (0 < pos_lanes L)%nat.

Lemma batch_valid bt j :
  (bt + 1 < num_batches b)%nat -> (j < pos_lanes L)%nat ->
  (lane_posn bt j < chunk_end b)%nat.
Proof.
  intros Hbt Hj. unfold lane_posn, chunk_end.
  pose proof (Nat.Div0.mul_div_le (chunk_size b + pos_lanes L - 1) (pos_lanes L)) as H.
  fold (num_batches b) in H. nia.
Qed.

Lemma loop_inv_prologue smem0 : loop_inv 1 (prologue b smem0).
Proof.
  unfold loop_inv, prologue. cbn [smem s_partial copy_stage_idx compute_stage_idx].
  assert (Hg : forall t, in_block bdx bdy bdz t ->
             (pos_lane L t <? chunk_size b)%nat
             = (lane_posn 0 (pos_lane L t) <? chunk_end b)%nat).
  { intros t _. unfold lane_posn, chunk_end.
    destruct (Nat.ltb_spec (pos_lane L t) (chunk_size b));
      symmetry; [apply Nat.ltb_lt | apply Nat.ltb_ge]; lia. }
  assert (Hi : forall t, in_block bdx bdy bdz t ->
             (chunk_start b + pos_lane L t)%nat = lane_posn 0 (pos_lane L t)).
  { intros t _. unfold lane_posn. lia. }
  split; [now left|]. split; [reflexivity|]. split; [|split].
  - apply tile_ok_frame; try lia.
    apply (copy_tile _ 0%nat k _ (fun t => (chunk_start b + pos_lane L t)%nat) 0%nat Hg Hi).
  - apply (copy_tile _ 1%nat v _ (fun t => (chunk_start b + pos_lane L t)%nat) 0%nat Hg Hi).
  - intros t _. reflexivity.
Qed.

Lemma loop_inv_step batch st :
  (1 <= batch)%nat -> (batch < num_batches b)%nat ->
  loop_inv batch st -> loop_inv (S batch) (loop_body b st batch).
Proof.
  intros H1 Hn (Hc & Hcopy & Hk & Hv & Hs).
  assert (Hg : forall t, in_block bdx bdy bdz t ->
             (chunk_start b + batch * pos_lanes L + pos_lane L t <? chunk_end b)%nat
             = (lane_posn batch (pos_lane L t) <? chunk_end b)%nat) by reflexivity.
  assert (Hi : forall t, in_block bdx bdy bdz t ->
             (chunk_start b + batch * pos_lanes L + pos_lane L t)%nat
             = lane_posn batch (pos_lane L t)) by reflexivity.
  assert (Hci : forall t, in_block bdx bdy bdz t ->
             (chunk_start b + (batch - 1) * pos_lanes L + pos_lane L t)%nat
             = lane_posn (batch - 1) (pos_lane L t)) by reflexivity.
  assert (Hval : forall t, in_block bdx bdy bdz t ->
             (lane_posn (batch - 1) (pos_lane L t) < chunk_end b)%nat).
  { intros t Ht. apply batch_valid; [lia | apply (lane_lt _ _ _ _ HL); exact Ht]. }
  unfold loop_inv, loop_body.
  cbn [smem s_partial copy_stage_idx compute_stage_idx].
  replace (S batch - 1)%nat with batch by lia.
  set (cm := compute_stage_idx st) in *. set (cp := copy_stage_idx st) in *.
  set (smem1 := Mem.block_store threads (smem st) _).
  assert (Hmods : (cp = 2 /\ cm = 0 \/ cp = 0 /\ cm = 2)%nat).
  { destruct Hc as [E|E]; rewrite E in Hcopy; cbn in Hcopy; lia. }
  assert (Hk1 : tile_ok smem1 cp k batch) by (apply (copy_tile _ cp k _ _ batch Hg Hi)).
  assert (Hk0 : tile_ok smem1 cm k (batch - 1)).
  { apply tile_ok_frame; try lia. exact Hk. }
  assert (Hv0 : tile_ok smem1 (cm + 1) v (batch - 1)).
  { apply tile_ok_frame; try lia. exact Hv. }
  assert (Hcp1 : ((cp + 1) mod stages_count = cp + 1)%nat).
  { destruct Hmods as [[-> _]|[-> _]]; reflexivity. }
  assert (Hcm1 : ((cm + 1) mod stages_count = cm + 1)%nat).
  { destruct Hmods as [[_ ->]|[_ ->]]; reflexivity. }
  assert (Hcm2 : ((cm + 1 + 1) mod stages_count = cp)%nat).
  { destruct Hmods as [[-> ->]|[-> ->]]; reflexivity. }
  assert (Hcp2 : ((cp + 1 + 1) mod stages_count = (cp + 2) mod 4)%nat).
  { destruct Hmods as [[-> _]|[-> _]]; reflexivity. }
  rewrite Hcp1, Hcm1, Hcm2, Hcp2.
  set (smem2 := Mem.block_store threads smem1 _).
  assert (Hv1 : tile_ok smem2 (cp + 1) v batch)
    by (apply (copy_tile _ (cp + 1)%nat v _ _ batch Hg Hi)).
  assert (Hk2 : tile_ok smem2 cp k batch).
  { apply tile_ok_frame; try lia. exact Hk1. }
  assert (Hv2 : tile_ok smem2 (cm + 1) v (batch - 1)).
  { apply tile_ok_frame; try lia. exact Hv0. }
  split; [lia|]. split; [reflexivity|]. split; [exact Hk2|]. split; [exact Hv1|].
  intros t Ht. unfold update_partial_state.
  rewrite (staged_value smem2 (cm + 1) (batch - 1) t Hv2 Ht (Hval t Ht)).
  rewrite (compute_qk_score smem1 cm (batch - 1) _ t Hk0 Hci Ht (Hval t Ht)).
  rewrite (Hs t Ht), State.merge_xv_of_elems.
  f_equal. unfold lane_batches.
  assert (E : seq 0 batch = seq 0 (batch - 1) ++ [(batch - 1)%nat]).
  { replace batch with (S (batch - 1)) at 1 by lia. now rewrite seq_S. }
  rewrite E, !map_app. reflexivity.
Qed.

Lemma pipeline_loop_inv smem0 :
  loop_inv (last_batch b) (pipeline_loop b (prologue b smem0)).
Proof.
  unfold pipeline_loop.
  assert (H : forall n, (n <= num_batches b - 1)%nat ->
            loop_inv (S n) (fold_left (loop_body b) (seq 1 n) (prologue b smem0))).
  { induction n as [|n IH]; intros Hn.
    - apply loop_inv_prologue.
    - rewrite seq_S, fold_left_app. cbn [fold_left plus].
      apply loop_inv_step; [lia | lia | apply IH; lia]. }
  replace (last_batch b) with (S (num_batches b - 1)) by (unfold last_batch; lia).
  apply H. lia.
Qed.

(** The state of a thread when the pipeline has drained. *)
Lemma epilogue_state smem0 t :
  in_block bdx bdy bdz t ->
  s_partial (epilogue b (pipeline_loop b (prologue b smem0))) t
  = State.of_elems vec_size m_init
      (map (elem (head_idx b t) (ix t)) (lane_positions (pos_lane L t))).
Proof.
  intros Ht. destruct (pipeline_loop_inv smem0) as (Hc & _ & Hk & Hv & Hs).
  set (st := pipeline_loop b (prologue b smem0)) in *.
  unfold epilogue. cbn [s_partial]. unfold update_partial_state.
  assert (Hcm1 : ((compute_stage_idx st + 1) mod stages_count
                  = compute_stage_idx st + 1)%nat).
  { destruct Hc as [-> | ->]; reflexivity. }
  rewrite Hcm1, (Hs t Ht). unfold lane_positions.
  fold (lane_posn (last_batch b - 1) (pos_lane L t)).
  destruct (Nat.ltb_spec (lane_posn (last_batch b - 1) (pos_lane L t)) (chunk_end b))
    as [Hvalid|Hinv].
  - rewrite (staged_value _ _ _ t Hv Ht Hvalid).
    rewrite (compute_qk_score _ _ (last_batch b - 1) _ t Hk) by auto.
    rewrite State.merge_xv_of_elems, map_app. reflexivity.
  - now rewrite app_nil_r.
Qed.

(** *** [sync_state] *)

(** When every thread holds the elements [E head tx lane] of its lane,
    and the scores do not depend on [tx], every thread leaves
    [sync_state] with the elements of all lanes. *)
Lemma sync_state_of_elems (s : dim3 -> State.state_t)
    (E : nat -> nat -> nat -> list (R * Vec.vec_t)) smem0 smem_md0 t :
  (forall t, in_block bdx bdy bdz t ->
     s t = State.of_elems vec_size m_init (E (head_idx b t) (ix t) (pos_lane L t))) ->
  (forall h l l' j, map fst (E h l j) = map fst (E h l' j)) ->
  in_block bdx bdy bdz t ->
  fst (fst (sync_state s smem0 smem_md0)) t
  = State.of_elems vec_size m_init
      (flat_map (E (head_idx b t) (ix t)) (seq 0 (pos_lanes L))).
Proof.
  intros Hs Hsc Ht. unfold sync_state. cbn [fst].
  set (smem' := Mem.block_store threads smem0 _).
  set (smem_md' := Mem.block_store threads smem_md0 _).
  assert (Hmd : forall j, (j < pos_lanes L)%nat ->
            exists t', in_block bdx bdy bdz t' /\ ix t' = ix t /\ pos_lane L t' = j
              /\ head_idx b t' = head_idx b t
              /\ smem_md' (sync_row L t j * 2)%nat = State.m (s t')
              /\ smem_md' (sync_row L t j * 2 + 1)%nat = State.d (s t')
              /\ forall i, (i < vec_size)%nat ->
                   smem' (sync_row L t j * head_dim + ix t * vec_size + i)%nat
                   = (State.o (s t')).[i]).
  { intros j Hj.
    destruct (sync_partner _ _ _ _ HL t j Ht Hj) as (t' & Ht' & Hx & Hr & Hp & Hh).
    exists t'. repeat (split; [solve [auto]|]).
    assert (Hsame : forall t2, in_block bdx bdy bdz t2 -> row L t2 = row L t' ->
              State.m (s t2) = State.m (s t') /\ State.d (s t2) = State.d (s t')).
    { intros t2 Ht2 Hr2. rewrite (Hs t2 Ht2), (Hs t' Ht').
      apply State.of_elems_scores.
      rewrite (same_row_thread t' t2 Ht' Ht2 Hr2).
      unfold head_idx. rewrite (head_tile _ _ _ _ HL), (lane_tile _ _ _ _ HL).
      cbn [with_x ix]. apply Hsc. }
    split; [|split].
    - apply (Mem.block_store_read threads _ _ _ _ t'); [now apply in_threads | |].
      + left. now rewrite Hr.
      + intros t2 w2 Ht2 [E2|[E2|[]]]; apply in_threads in Ht2;
          injection E2 as Ea <-; [|lia].
        apply (Hsame t2 Ht2). lia.
    - apply (Mem.block_store_read threads _ _ _ _ t'); [now apply in_threads | |].
      + right. left. now rewrite Hr.
      + intros t2 w2 Ht2 [E2|[E2|[]]]; apply in_threads in Ht2;
          injection E2 as Ea <-; [lia|].
        apply (Hsame t2 Ht2). lia.
    - intros i Hi.
      apply (Mem.block_store_read threads _ _ _ _ t'); [now apply in_threads | |].
      + apply Mem.in_store_vec. exists i. rewrite Hr, Hx. auto.
      + intros t2 w2 Ht2 Hw2. apply in_threads in Ht2.
        apply Mem.in_store_vec in Hw2. destruct Hw2 as (i2 & Hi2 & Ea & ->).
        assert (H1 : (ix t2 * vec_size + i2 < head_dim)%nat)
          by (apply lane_elem_lt; [apply Ht2 | exact Hi2]).
        assert (H2 : (ix t * vec_size + i < head_dim)%nat)
          by (apply lane_elem_lt; [apply Ht | exact Hi]).
        destruct (euclid_unique head_dim (sync_row L t j) (ix t * vec_size + i)
                    (row L t2) (ix t2 * vec_size + i2)) as [Hrow Hf]; [lia | lia | lia |].
        destruct (euclid_unique vec_size (ix t) i (ix t2) i2) as [Hx2 Hi2'];
          [lia | lia | lia |].
        assert (E2 : t2 = t').
        { rewrite (same_row_thread t' t2 Ht' Ht2) by congruence.
          rewrite <- Hx2, <- Hx. apply with_x_self. }
        subst t2. now subst i2. }
  assert (H : forall n, (n <= pos_lanes L)%nat ->
            fold_left (fun acc j =>
                let mj := smem_md' (sync_row L t j * 2)%nat in
                let dj := smem_md' (sync_row L t j * 2 + 1)%nat in
                let oj := Vec.load vec_size smem'
                            (sync_row L t j * head_dim + ix t * vec_size) in
                State.merge vec_size acc mj dj oj)
              (seq 0 n) (State.init vec_size m_init)
            = State.of_elems vec_size m_init
                (flat_map (E (head_idx b t) (ix t)) (seq 0 n))).
  { induction n as [|n IH]; intros Hn; [reflexivity|].
    rewrite seq_S, fold_left_app, flat_map_app, IH by lia.
    cbn [fold_left flat_map plus]. rewrite app_nil_r.
    destruct (Hmd n) as (t' & Ht' & Hx & Hp & Hh & Em & Ed & Eo); [lia|].
    rewrite Em, Ed.
    rewrite (State.merge_ext vec_size _ _ _ _ (State.o (s t'))).
    - fold (State.merge_state vec_size
              (State.of_elems vec_size m_init
                 (flat_map (E (head_idx b t) (ix t)) (seq 0 n))) (s t')).
      rewrite (Hs t' Ht'), State.merge_of_elems, Hh, Hx, Hp. reflexivity.
    - intros i Hi. unfold Vec.load. rewrite Vec.get_tab by exact Hi.
      now apply Eo. }
  now apply H.
Qed.

(** *** The state of a chunk *)

Lemma lane_positions_strided j :
  (j < pos_lanes L)%nat ->
  lane_positions j
  = Strided.lane (chunk_start b) (pos_lanes L) (last_batch b) (chunk_end b) j.
Proof.
  intros Hj. unfold lane_positions, Strided.lane, lane_batches.
  replace (last_batch b) with (last_batch b - 1 + 1)%nat at 4
    by (unfold last_batch; lia).
  rewrite seq_app, map_app, filter_app.
  apply f_equal2; [|reflexivity].
  symmetry. apply forallb_filter_id. apply forallb_forall.
  intros p Hp. apply in_map_iff in Hp. destruct Hp as (bt & <- & Hbt).
  apply in_seq in Hbt. apply Nat.ltb_lt.
  apply (batch_valid bt j); [unfold last_batch in Hbt; lia | exact Hj].
Qed.

Lemma chunk_positions_perm :
  Permutation (flat_map lane_positions (seq 0 (pos_lanes L)))
              (seq (chunk_start b) (chunk_size b)).
Proof.
  rewrite (Strided.flat_map_ext_in lane_positions
             (Strided.lane (chunk_start b) (pos_lanes L) (last_batch b) (chunk_end b))).
  - apply Strided.lanes_perm; [exact Hlanes|].
    unfold last_batch, num_batches.
    pose proof (Nat.div_mod_eq (chunk_size b + pos_lanes L - 1) (pos_lanes L)).
    pose proof (Nat.mod_upper_bound (chunk_size b + pos_lanes L - 1) (pos_lanes L)).
    nia.
  - intros j Hj. apply in_seq in Hj. apply lane_positions_strided. lia.
Qed.

(** After the first [sync_state] every thread of the block holds the
    whole chunk for its head and lane. *)
Lemma chunk_state_of_elems smem0 smem_md0 t :
  in_block bdx bdy bdz t ->
  chunk_state b smem0 smem_md0 t
  = State.of_elems vec_size m_init
      (map (elem (head_idx b t) (ix t)) (seq (chunk_start b) (chunk_size b))).
Proof.
  intros Ht. unfold chunk_state.
  rewrite (sync_state_of_elems _ (fun h l j => map (elem h l) (lane_positions j))).
  - apply State.of_elems_perm.
    rewrite <- Strided.map_flat_map. apply Permutation_map, chunk_positions_perm.
  - intros t' Ht'. now apply epilogue_state.
  - intros h l l' j. rewrite !map_map. reflexivity.
  - exact Ht.
Qed.

End BlockFacts.

(** *** The grid: scratch buffer, cross-group merge and output *)

Section GridFacts.
Hypothesis Hpow : exists j, bdx = (2 ^ j)%nat.
Hypothesis Hlanes : (0 < pos_lanes L)%nat.
Hypothesis Hchunk : (0 < kv_chunk_size)%nat.
(** The grid of the host launcher: [nblks.x = ceil(seq_len / kv_chunk_size)]. *)
Hypothesis Hgrid : num_kv_chunks = ((seq_len + kv_chunk_size - 1) / kv_chunk_size)%nat.

(** The positions of chunk [c]. *)
Definition chunk_range (c : nat) : list nat :=
  seq (c * kv_chunk_size) (Nat.min kv_chunk_size (seq_len - c * kv_chunk_size)).

(** The state of chunk [c] for a head and lane, and of the whole
    sequence. *)
Definition chunk_st (head l c : nat) : State.state_t :=
  State.of_elems vec_size m_init (map (elem head l) (chunk_range c)).
Definition final_st (head l : nat) : State.state_t :=
  State.of_elems vec_size m_init (map (elem head l) (seq 0 seq_len)).

Lemma in_blocks b :
  In b blocks <-> (ix b < ix gridDim /\ iy b < iy gridDim /\ iz b = 0)%nat.
Proof using.
  clear Hdim HL Hpow Hlanes Hchunk Hgrid.
  unfold blocks. rewrite in_flat_map. split.
  - intros (y & Hy & Hb). apply in_map_iff in Hb. destruct Hb as (x & <- & Hx).
    apply in_seq in Hx, Hy. cbn. lia.
  - intros (Hx & Hy & Hz). exists (iy b). split; [apply in_seq; lia|].
    apply in_map_iff. exists (ix b). split; [|apply in_seq; lia].
    destruct b; cbn in *. now subst.
Qed.

Lemma fold_left_ext_blocks {A B} (f g : A -> B -> A) (l : list B) a :
  (forall x y, f x y = g x y) -> fold_left f l a = fold_left g l a.
Proof using.
  clear Hdim HL Hpow Hlanes Hchunk Hgrid.
  intros H. revert a. induction l as [|y l IH]; intros a; cbn; [reflexivity|].
  now rewrite H, IH.
Qed.

Lemma fold_block_store (W : dim3 -> dim3 -> Mem.writes) bs mm :
  fold_left (fun acc b => Mem.block_store threads acc (W b)) bs mm
  = Mem.apply_writes mm (flat_map (fun b => flat_map (W b) threads) bs).
Proof using.
  clear Hdim HL Hpow Hlanes Hchunk Hgrid.
  revert mm. induction bs as [|b bs IH]; intros mm; [reflexivity|].
  cbn [fold_left flat_map]. rewrite IH.
  unfold Mem.block_store, Mem.apply_writes. now rewrite fold_left_app.
Qed.

Lemma chunk_state_st b smem0 smem_md0 t :
  in_block bdx bdy bdz t ->
  chunk_state b smem0 smem_md0 t = chunk_st (head_idx b t) (ix t) (ix b).
Proof. intros Ht. now apply chunk_state_of_elems. Qed.

Lemma st_scores (P : list nat) head l l' :
  State.m (State.of_elems vec_size m_init (map (elem head l) P))
  = State.m (State.of_elems vec_size m_init (map (elem head l') P))
  /\ State.d (State.of_elems vec_size m_init (map (elem head l) P))
     = State.d (State.of_elems vec_size m_init (map (elem head l') P)).
Proof. apply State.of_elems_scores. rewrite !map_map. reflexivity. Qed.

Lemma tmp_o_below_md head c f :
  (head < num_heads)%nat -> (c < num_kv_chunks)%nat -> (f < head_dim)%nat ->
  (tmp_o_ptr head c + f < tmp_md_base)%nat.
Proof using HL.
  clear Hdim Hpow Hlanes Hchunk Hgrid.
  intros Hh Hc Hf. unfold tmp_o_ptr, tmp_md_base.
  pose proof (slot_lt _ _ _ _ HL num_heads num_kv_chunks head c Hh Hc). nia.
Qed.

Section Scratch.
Variables (smem0 smem_md0 : dim3 -> Mem.mem) (tmp0 : Mem.mem).

(** The scratch buffer when the barrier is passed. *)
Definition tmp_at_barrier : Mem.mem :=
  fold_left (fun tmp b => before_grid_sync b (smem0 b) (smem_md0 b) tmp) blocks tmp0.

Lemma tmp_at_barrier_writes :
  tmp_at_barrier
  = Mem.apply_writes tmp0
      (flat_map (fun b =>
         flat_map (tmp_writes b (chunk_state b (smem0 b) (smem_md0 b))) threads) blocks).
Proof.
  unfold tmp_at_barrier, before_grid_sync.
  apply (fold_block_store (fun b => tmp_writes b (chunk_state b (smem0 b) (smem_md0 b)))).
Qed.

(** Every store of a block before the barrier, with what it stores. *)
Lemma in_tmp_writes b t a w :
  In b blocks -> in_block bdx bdy bdz t ->
  In (a, w) (tmp_writes b (chunk_state b (smem0 b) (smem_md0 b)) t) ->
  let h := head_idx b t in
  (h < num_heads)%nat /\ (ix b < num_kv_chunks)%nat /\
  ((exists i, (i < vec_size)%nat /\ a = (tmp_o_ptr h (ix b) + ix t * vec_size + i)%nat
              /\ w = (State.o (chunk_st h (ix t) (ix b))).[i])
   \/ (a = tmp_md_idx h (ix b) /\ w = State.m (chunk_st h (ix t) (ix b)))
   \/ (a = (tmp_md_idx h (ix b) + 1)%nat /\ w = State.d (chunk_st h (ix t) (ix b)))).
Proof.
  intros Hb Ht Hin h. apply in_blocks in Hb.
  split; [apply (head_lt _ _ _ _ HL); [lia | exact Ht]|].
  split; [apply Hb|].
  unfold tmp_writes in Hin. rewrite (chunk_state_st b _ _ t Ht) in Hin.
  apply in_app_or in Hin. destruct Hin as [Hin|[Hin|[Hin|[]]]].
  - left. apply Mem.in_store_vec in Hin. destruct Hin as (i & Hi & -> & ->).
    exists i. auto.
  - right. left. injection Hin as <- <-. auto.
  - right. right. injection Hin as <- <-. auto.
Qed.

(** What the barrier leaves in the slot of a (head, chunk) pair. *)
Lemma tmp_at_barrier_read b t :
  In b blocks -> in_block bdx bdy bdz t ->
  let h := head_idx b t in
  (forall i, (i < vec_size)%nat ->
     tmp_at_barrier (tmp_o_ptr h (ix b) + ix t * vec_size + i)%nat
     = (State.o (chunk_st h (ix t) (ix b))).[i])
  /\ tmp_at_barrier (tmp_md_idx h (ix b)) = State.m (chunk_st h (ix t) (ix b))
  /\ tmp_at_barrier (tmp_md_idx h (ix b) + 1)%nat = State.d (chunk_st h (ix t) (ix b)).
Proof.
  intros Hb Ht h.
  assert (Hh : (h < num_heads)%nat).
  { apply in_blocks in Hb. apply (head_lt _ _ _ _ HL); [lia | exact Ht]. }
  assert (Hc : (ix b < num_kv_chunks)%nat) by (apply in_blocks in Hb; apply Hb).
  assert (Hmem : forall a w,
            In (a, w) (tmp_writes b (chunk_state b (smem0 b) (smem_md0 b)) t) ->
            In (a, w) (flat_map (fun b =>
              flat_map (tmp_writes b (chunk_state b (smem0 b) (smem_md0 b))) threads)
              blocks)).
  { intros a w Hin. apply in_flat_map. exists b. split; [exact Hb|].
    apply in_flat_map. exists t. split; [now apply in_threads | exact Hin]. }
  assert (Hall : forall a w,
            In (a, w) (flat_map (fun b =>
              flat_map (tmp_writes b (chunk_state b (smem0 b) (smem_md0 b))) threads)
              blocks) ->
            exists h2 c2 l2, (h2 < num_heads)%nat /\ (c2 < num_kv_chunks)%nat
              /\ (l2 < bdx)%nat /\
              ((exists i, (i < vec_size)%nat
                   /\ a = (tmp_o_ptr h2 c2 + l2 * vec_size + i)%nat
                   /\ w = (State.o (chunk_st h2 l2 c2)).[i])
               \/ (a = tmp_md_idx h2 c2 /\ w = State.m (chunk_st h2 l2 c2))
               \/ (a = (tmp_md_idx h2 c2 + 1)%nat /\ w = State.d (chunk_st h2 l2 c2)))).
  { intros a w Hin. apply in_flat_map in Hin. destruct Hin as (b2 & Hb2 & Hin).
    apply in_flat_map in Hin. destruct Hin as (t2 & Ht2 & Hin). apply in_threads in Ht2.
    destruct (in_tmp_writes b2 t2 a w Hb2 Ht2 Hin) as (? & ? & ?).
    exists (head_idx b2 t2), (ix b2), (ix t2). repeat (split; [solve [auto | apply Ht2]|]).
    assumption. }
  assert (Hslot : forall h2 c2, (h2 < num_heads)%nat -> (c2 < num_kv_chunks)%nat ->
            tmp_slot L num_heads num_kv_chunks h2 c2
            = tmp_slot L num_heads num_kv_chunks h (ix b) -> h2 = h /\ c2 = ix b).
  { intros h2 c2 H2 C2 E. now apply (slot_inj _ _ _ _ HL num_heads num_kv_chunks). }
  split; [|split].
  - intros i Hi. rewrite tmp_at_barrier_writes. apply Mem.apply_writes_agree.
    + apply Hmem. unfold tmp_writes. apply in_or_app. left.
      rewrite (chunk_state_st b _ _ t Ht). apply Mem.in_store_vec. exists i. auto.
    + intros w' Hw'. destruct (Hall _ _ Hw') as (h2 & c2 & l2 & H2 & C2 & L2 & Hcase).
      assert (Hf : (ix t * vec_size + i < head_dim)%nat)
        by (apply lane_elem_lt; [apply Ht | exact Hi]).
      destruct Hcase as [(i2 & Hi2 & Ea & ->)|[(Ea & _)|(Ea & _)]].
      * assert (Hf2 : (l2 * vec_size + i2 < head_dim)%nat) by now apply lane_elem_lt.
        unfold tmp_o_ptr in Ea.
        destruct (euclid_unique head_dim
                    (tmp_slot L num_heads num_kv_chunks h (ix b)) (ix t * vec_size + i)
                    (tmp_slot L num_heads num_kv_chunks h2 c2) (l2 * vec_size + i2))
          as [Es Ef]; [lia | lia | lia |].
        destruct (Hslot h2 c2 H2 C2 (eq_sym Es)) as [-> ->].
        destruct (euclid_unique vec_size (ix t) i l2 i2) as [-> ->]; [lia | lia | lia |].
        reflexivity.
      * pose proof (tmp_o_below_md h (ix b) _ Hh Hc Hf). unfold tmp_md_idx in Ea. lia.
      * pose proof (tmp_o_below_md h (ix b) _ Hh Hc Hf). unfold tmp_md_idx in Ea. lia.
  - rewrite tmp_at_barrier_writes. apply Mem.apply_writes_agree.
    + apply Hmem. unfold tmp_writes. apply in_or_app. right. left.
      now rewrite (chunk_state_st b _ _ t Ht).
    + intros w' Hw'. destruct (Hall _ _ Hw') as (h2 & c2 & l2 & H2 & C2 & L2 & Hcase).
      destruct Hcase as [(i2 & Hi2 & Ea & ->)|[(Ea & ->)|(Ea & _)]].
      * assert (Hf2 : (l2 * vec_size + i2 < head_dim)%nat) by now apply lane_elem_lt.
        pose proof (tmp_o_below_md h2 c2 _ H2 C2 Hf2). unfold tmp_md_idx in Ea. lia.
      * unfold tmp_md_idx in Ea.
        destruct (Hslot h2 c2 H2 C2) as [-> ->]; [lia|].
        apply st_scores.
      * unfold tmp_md_idx in Ea. lia.
  - rewrite tmp_at_barrier_writes. apply Mem.apply_writes_agree.
    + apply Hmem. unfold tmp_writes. apply in_or_app. right. right. left.
      now rewrite (chunk_state_st b _ _ t Ht).
    + intros w' Hw'. destruct (Hall _ _ Hw') as (h2 & c2 & l2 & H2 & C2 & L2 & Hcase).
      destruct Hcase as [(i2 & Hi2 & Ea & ->)|[(Ea & _)|(Ea & ->)]].
      * assert (Hf2 : (l2 * vec_size + i2 < head_dim)%nat) by now apply lane_elem_lt.
        pose proof (tmp_o_below_md h2 c2 _ H2 C2 Hf2). unfold tmp_md_idx in Ea. lia.
      * unfold tmp_md_idx in Ea. lia.
      * unfold tmp_md_idx in Ea.
        destruct (Hslot h2 c2 H2 C2) as [-> ->]; [lia|].
        apply st_scores.
Qed.

(** *** After the barrier *)

Lemma fold_left_guarded {A} (F : A -> nat -> A) (g : nat -> nat) bound n a :
  fold_left (fun s bt => if (g bt <? bound)%nat then F s (g bt) else s) (seq 0 n) a
  = fold_left F (filter (fun c => (c <? bound)%nat) (map g (seq 0 n))) a.
Proof using.
  clear Hdim HL Hpow Hlanes Hchunk Hgrid.
  induction n as [|n IH]; [reflexivity|].
  rewrite seq_S, fold_left_app, map_app, filter_app, fold_left_app, IH.
  cbn [fold_left map filter plus]. now destruct (g n <? bound)%nat.
Qed.

Lemma fold_merge_states (X : nat -> list (R * Vec.vec_t)) cs S0 :
  fold_left (fun s c =>
               State.merge_state vec_size s (State.of_elems vec_size m_init (X c)))
            cs (State.of_elems vec_size m_init S0)
  = State.of_elems vec_size m_init (S0 ++ flat_map X cs).
Proof using.
  clear Hdim HL Hpow Hlanes Hchunk Hgrid.
  revert S0. induction cs as [|c cs IH]; intros S0; cbn [fold_left flat_map].
  - now rewrite app_nil_r.
  - rewrite State.merge_of_elems, IH, <- app_assoc. reflexivity.
Qed.

(** The chunks lane [j] of the chunk-zero block merges. *)
Definition lane_chunks (j : nat) : list nat :=
  Strided.lane 0 (pos_lanes L) ((num_kv_chunks + pos_lanes L - 1) / pos_lanes L)
               num_kv_chunks j.

(** The partial state a thread reads back from the scratch buffer is
    the state its chunk's block stored. *)
Lemma reload_chunk b t c :
  (iy b < iy gridDim)%nat -> in_block bdx bdy bdz t -> (c < num_kv_chunks)%nat ->
  {| State.o := Vec.load vec_size tmp_at_barrier
                  (tmp_o_ptr (head_idx b t) c + ix t * vec_size);
     State.m := tmp_at_barrier (tmp_md_idx (head_idx b t) c);
     State.d := tmp_at_barrier (tmp_md_idx (head_idx b t) c + 1)%nat |}
  = chunk_st (head_idx b t) (ix t) c.
Proof.
  intros Hy Ht Hc.
  assert (Hb2 : In (mk_dim3 c (iy b) 0) blocks).
  { apply in_blocks. cbn. unfold num_kv_chunks in Hc. lia. }
  destruct (tmp_at_barrier_read (mk_dim3 c (iy b) 0) t Hb2 Ht) as (Ho & Hm & Hd).
  unfold head_idx in *.
  rewrite (head_block _ _ _ _ HL (mk_dim3 c (iy b) 0) b t eq_refl) in Ho, Hm, Hd.
  cbn [ix] in Ho, Hm, Hd. rewrite Hm, Hd.
  unfold chunk_st. rewrite <- State.of_elems_reload. f_equal.
  unfold Vec.load. apply Vec.tab_ext. intros i Hi. now apply Ho.
Qed.

Lemma global_partial_of_elems b t :
  (iy b < iy gridDim)%nat -> in_block bdx bdy bdz t ->
  global_partial b tmp_at_barrier t
  = State.of_elems vec_size m_init
      (flat_map (fun c => map (elem (head_idx b t) (ix t)) (chunk_range c))
                (lane_chunks (pos_lane L t))).
Proof.
  intros Hy Ht. unfold global_partial.
  rewrite (fold_left_guarded
             (fun s c => State.merge_state vec_size s
                {| State.o := Vec.load vec_size tmp_at_barrier
                                (tmp_o_ptr (head_idx b t) c + ix t * vec_size);
                   State.m := tmp_at_barrier (tmp_md_idx (head_idx b t) c);
                   State.d := tmp_at_barrier (tmp_md_idx (head_idx b t) c + 1)%nat |})
             (fun bt => (bt * pos_lanes L + pos_lane L t)%nat)).
  change (filter (fun c => (c <? num_kv_chunks)%nat)
            (map (fun bt => (bt * pos_lanes L + pos_lane L t)%nat)
                 (seq 0 ((num_kv_chunks + pos_lanes L - 1) / pos_lanes L))))
    with (lane_chunks (pos_lane L t)).
  rewrite <- State.of_elems_nil.
  transitivity
    (fold_left (fun s c =>
        State.merge_state vec_size s
          (State.of_elems vec_size m_init
             (map (elem (head_idx b t) (ix t)) (chunk_range c))))
      (lane_chunks (pos_lane L t)) (State.of_elems vec_size m_init []));
    [|apply (fold_merge_states
               (fun c => map (elem (head_idx b t) (ix t)) (chunk_range c)) _ [])].
  assert (Hin : forall c, In c (lane_chunks (pos_lane L t)) -> (c < num_kv_chunks)%nat).
  { intros c Hc. apply Strided.in_lane in Hc. destruct Hc as (_ & _ & _ & Hc). exact Hc. }
  revert Hin. generalize (lane_chunks (pos_lane L t)) as cs.
  generalize (State.of_elems vec_size m_init []) as s0.
  intros s0 cs. revert s0. induction cs as [|c cs IH]; intros s0 Hin; [reflexivity|].
  cbn [fold_left]. rewrite (reload_chunk b t c Hy Ht) by (apply Hin; now left).
  apply IH. intros c' Hc'. apply Hin. now right.
Qed.

Lemma seq_chunks : flat_map chunk_range (seq 0 num_kv_chunks) = seq 0 seq_len.
Proof. unfold chunk_range. now apply Strided.chunks_concat. Qed.

Lemma flat_map_flat_map {A B C} (f : B -> list C) (g : A -> list B) l :
  flat_map f (flat_map g l) = flat_map (fun a => flat_map f (g a)) l.
Proof using.
  clear Hdim HL Hpow Hlanes Hchunk Hgrid.
  induction l as [|a l IH]; cbn; [reflexivity|]. now rewrite flat_map_app, IH.
Qed.

(** After the second [sync_state] every thread of the chunk-zero block
    holds the whole sequence for its head and lane. *)
Lemma global_state_final b t :
  (iy b < iy gridDim)%nat -> in_block bdx bdy bdz t ->
  global_state b (smem0 b) (smem_md0 b) tmp_at_barrier t
  = final_st (head_idx b t) (ix t).
Proof.
  intros Hy Ht. unfold global_state.
  rewrite (sync_state_of_elems b) with
    (E := fun h l j => flat_map (fun c => map (elem h l) (chunk_range c))
                                (lane_chunks j));
    [ | exact Hlanes
      | intros t' Ht'; now apply global_partial_of_elems
      | intros h l l' j; rewrite !Strided.map_flat_map; apply Strided.flat_map_ext_in;
        intros; rewrite !map_map; reflexivity
      | exact Ht ].
  unfold final_st. rewrite <- seq_chunks.
  rewrite Strided.map_flat_map, <- flat_map_flat_map.
  apply State.of_elems_perm. apply Permutation_flat_map.
  unfold lane_chunks.
  apply (Strided.lanes_perm 0 (pos_lanes L)
           ((num_kv_chunks + pos_lanes L - 1) / pos_lanes L) num_kv_chunks);
    [exact Hlanes|].
  pose proof (Nat.div_mod_eq (num_kv_chunks + pos_lanes L - 1) (pos_lanes L)).
  pose proof (Nat.mod_upper_bound (num_kv_chunks + pos_lanes L - 1) (pos_lanes L)).
  nia.
Qed.

(** The stores of the blocks after the barrier. *)
Lemma after_grid_sync_stores b o_mem :
  fst (after_grid_sync b (smem0 b) (smem_md0 b) tmp_at_barrier o_mem)
  = Mem.block_store threads o_mem (fun t =>
      if (ix b =? 0)%nat
      then o_writes b (global_state b (smem0 b) (smem_md0 b) tmp_at_barrier) t
      else []).
Proof.
  unfold after_grid_sync, kv_chunk_idx. destruct (ix b =? 0)%nat; cbn [fst].
  - reflexivity.
  - unfold Mem.block_store.
    assert (E : flat_map (fun _ : dim3 => @nil (nat * R)) threads = []).
    { induction threads as [|t ts IH]; [reflexivity | exact IH]. }
    now rewrite E.
Qed.

Lemma in_o_stores a w :
  In (a, w) (flat_map (fun b => flat_map (fun t =>
      if (ix b =? 0)%nat
      then o_writes b (global_state b (smem0 b) (smem_md0 b) tmp_at_barrier) t
      else []) threads) blocks) ->
  exists h l i, (l < bdx)%nat /\ (i < vec_size)%nat
    /\ a = (h * head_dim + l * vec_size + i)%nat
    /\ w = (State.o (final_st h l)).[i].
Proof.
  intros Hin. apply in_flat_map in Hin. destruct Hin as (b & Hb & Hin).
  apply in_flat_map in Hin. destruct Hin as (t & Ht & Hin).
  apply in_threads in Ht. apply in_blocks in Hb.
  destruct (ix b =? 0)%nat; [|destruct Hin].
  unfold o_writes in Hin. apply Mem.in_store_vec in Hin.
  destruct Hin as (i & Hi & -> & ->).
  rewrite global_state_final by (try exact Ht; lia).
  exists (head_idx b t), (ix t), i. repeat split; try assumption. apply Ht.
Qed.

Lemma in_final_stores o_mem a w :
  In (a, w) (flat_map (fun b =>
      snd (after_grid_sync b (smem0 b) (smem_md0 b) tmp_at_barrier o_mem)) blocks) ->
  exists h l, (h < num_heads)%nat /\
    ((a = h /\ w = State.m (final_st h l))
     \/ (a = (num_heads + h)%nat /\ w = State.d (final_st h l))).
Proof.
  intros Hin. apply in_flat_map in Hin. destruct Hin as (b & Hb & Hin).
  apply in_blocks in Hb.
  unfold after_grid_sync, kv_chunk_idx in Hin.
  destruct (ix b =? 0)%nat; cbn [snd] in Hin; [|destruct Hin].
  apply in_flat_map in Hin. destruct Hin as (t & Ht & Hin). apply in_threads in Ht.
  unfold tmp_final_writes in Hin.
  rewrite global_state_final in Hin by (try exact Ht; lia).
  exists (head_idx b t), (ix t).
  split; [apply (head_lt _ _ _ _ HL); [lia | exact Ht]|].
  destruct Hin as [E|[E|[]]]; injection E as <- <-; auto.
Qed.

(** The launch, for the grid the host computes: the output tensor holds
    the [o] of the state of the whole sequence, and the first
    [2 * num_heads] elements of the scratch buffer its [m] and [d]. *)
Lemma run_result o0 head l :
  (0 < seq_len)%nat -> (head < num_heads)%nat -> (l < bdx)%nat ->
  (forall i, (i < vec_size)%nat ->
     fst (run smem0 smem_md0 tmp0 o0) (head * head_dim + l * vec_size + i)%nat
     = (State.o (final_st head l)).[i])
  /\ snd (run smem0 smem_md0 tmp0 o0) head = State.m (final_st head l)
  /\ snd (run smem0 smem_md0 tmp0 o0) (num_heads + head)%nat
     = State.d (final_st head l).
Proof.
  intros Hseq Hh Hl.
  assert (Hnc : (0 < num_kv_chunks)%nat).
  { rewrite Hgrid. apply Nat.div_str_pos. lia. }
  destruct (head_cover _ _ _ _ HL gridDim head l Hh Hl)
    as (b0 & t0 & Hy0 & Hx0 & Hz0 & Ht0 & Hl0 & Hhead0).
  assert (Hb0 : In b0 blocks) by (apply in_blocks; unfold num_kv_chunks in Hnc; lia).
  assert (Hg0 : global_state b0 (smem0 b0) (smem_md0 b0) tmp_at_barrier t0
                = final_st head l).
  { rewrite global_state_final by assumption. unfold head_idx. now rewrite Hhead0, Hl0. }
  unfold run. cbn [fst snd]. fold tmp_at_barrier.
  split; [|split].
  - intros i Hi.
    rewrite (fold_left_ext_blocks
               (fun o_mem b => fst (after_grid_sync b (smem0 b) (smem_md0 b)
                                      tmp_at_barrier o_mem))
               (fun o_mem b => Mem.block_store threads o_mem (fun t =>
                  if (ix b =? 0)%nat
                  then o_writes b (global_state b (smem0 b) (smem_md0 b) tmp_at_barrier) t
                  else [])))
      by (intros; apply after_grid_sync_stores).
    rewrite (fold_block_store (fun b t =>
               if (ix b =? 0)%nat
               then o_writes b (global_state b (smem0 b) (smem_md0 b) tmp_at_barrier) t
               else [])).
    apply Mem.apply_writes_agree.
    + apply in_flat_map. exists b0. split; [exact Hb0|].
      apply in_flat_map. exists t0. split; [now apply in_threads|].
      rewrite Hx0. cbn [Nat.eqb]. unfold o_writes. apply Mem.in_store_vec.
      exists i. rewrite Hg0. unfold head_idx. rewrite Hhead0, Hl0. auto.
    + intros w' Hw'. destruct (in_o_stores _ _ Hw') as (h2 & l2 & i2 & Hl2 & Hi2 & Ea & ->).
      assert (Hf : (l * vec_size + i < head_dim)%nat) by now apply lane_elem_lt.
      assert (Hf2 : (l2 * vec_size + i2 < head_dim)%nat) by now apply lane_elem_lt.
      destruct (euclid_unique head_dim head (l * vec_size + i) h2 (l2 * vec_size + i2))
        as [-> Ef]; [lia | lia | lia |].
      destruct (euclid_unique vec_size l i l2 i2) as [-> ->]; [lia | lia | lia |].
      reflexivity.
  - apply Mem.apply_writes_agree.
    + apply in_flat_map. exists b0. split; [exact Hb0|].
      unfold after_grid_sync, kv_chunk_idx. rewrite Hx0. cbn [Nat.eqb snd].
      apply in_flat_map. exists t0. split; [now apply in_threads|].
      left. unfold head_idx. now rewrite Hg0, Hhead0.
    + intros w' Hw'. destruct (in_final_stores _ _ _ Hw') as (h2 & l2 & H2 & [(E & ->)|(E & _)]).
      * subst h2. apply st_scores.
      * lia.
  - apply Mem.apply_writes_agree.
    + apply in_flat_map. exists b0. split; [exact Hb0|].
      unfold after_grid_sync, kv_chunk_idx. rewrite Hx0. cbn [Nat.eqb snd].
      apply in_flat_map. exists t0. split; [now apply in_threads|].
      right. left. unfold head_idx. now rewrite Hg0, Hhead0.
    + intros w' Hw'. destruct (in_final_stores _ _ _ Hw') as (h2 & l2 & H2 & [(E & _)|(E & ->)]).
      * lia.
      * assert (h2 = head) by lia. subst h2. apply st_scores.
Qed.

(** *** The scratch buffer as a shared resource *)

(** The elements of [tmp] stored to before the barrier. *)
Definition stored_before_barrier : list nat :=
  map fst (flat_map (fun b =>
    flat_map (tmp_writes b (chunk_state b (smem0 b) (smem_md0 b))) threads) blocks).

Lemma global_partial_reads_only b t tmp tmp' :
  (forall a, In a (global_partial_loads b t) -> tmp a = tmp' a) ->
  global_partial b tmp t = global_partial b tmp' t.
Proof using.
  clear Hdim HL Hpow Hlanes Hchunk Hgrid.
  unfold global_partial, global_partial_loads.
  generalize (State.init vec_size m_init) as s0.
  induction (seq 0 ((num_kv_chunks + pos_lanes L - 1) / pos_lanes L)) as [|bt l IH];
    intros s0 H; [reflexivity|].
  cbn [fold_left flat_map] in *.
  rewrite IH by (intros a Ha; apply H; apply in_or_app; now right).
  f_equal.
  destruct (bt * pos_lanes L + pos_lane L t <? num_kv_chunks)%nat; [|reflexivity].
  assert (H' : forall a,
            In a ([tmp_md_idx (head_idx b t) (bt * pos_lanes L + pos_lane L t);
                   (tmp_md_idx (head_idx b t) (bt * pos_lanes L + pos_lane L t) + 1)%nat]
                  ++ map (fun i => (tmp_o_ptr (head_idx b t)
                                      (bt * pos_lanes L + pos_lane L t)
                                    + ix t * vec_size + i)%nat) (seq 0 vec_size)) ->
            tmp a = tmp' a).
  { intros a Ha. apply H. apply in_or_app. now left. }
  f_equal. f_equal.
  - unfold Vec.load. apply Vec.tab_ext. intros i Hi.
    rewrite <- Nat.add_assoc. rewrite Nat.add_assoc. apply H'.
    right. right. apply in_map_iff. exists i. split; [reflexivity | apply in_seq; lia].
  - apply H'. now left.
  - apply H'. right. now left.
Qed.

(** Every load after the barrier hits an element stored before it. *)
Lemma loads_stored b t a :
  (iy b < iy gridDim)%nat -> in_block bdx bdy bdz t ->
  In a (global_partial_loads b t) -> In a stored_before_barrier.
Proof using HL.
  clear Hdim Hpow Hlanes Hchunk Hgrid.
  intros Hy Ht Ha. unfold global_partial_loads in Ha.
  apply in_flat_map in Ha. destruct Ha as (bt & _ & Ha).
  destruct (Nat.ltb_spec (bt * pos_lanes L + pos_lane L t) num_kv_chunks) as [Hc|]; 
    [|destruct Ha].
  set (c := (bt * pos_lanes L + pos_lane L t)%nat) in *.
  assert (Hb2 : In (mk_dim3 c (iy b) 0) blocks).
  { apply in_blocks. cbn. unfold num_kv_chunks in Hc. lia. }
  assert (Hhead : head_idx (mk_dim3 c (iy b) 0) t = head_idx b t).
  { unfold head_idx. now apply (head_block _ _ _ _ HL). }
  unfold stored_before_barrier. apply in_map_iff.
  assert (Hex : exists w, In (a, w)
            (tmp_writes (mk_dim3 c (iy b) 0)
               (chunk_state (mk_dim3 c (iy b) 0) (smem0 (mk_dim3 c (iy b) 0))
                  (smem_md0 (mk_dim3 c (iy b) 0))) t)).
  { unfold tmp_writes, kv_chunk_idx. rewrite Hhead. cbn [ix].
    destruct Ha as [<-|[<-|Ha]].
    - eexists. apply in_or_app. right. left. reflexivity.
    - eexists. apply in_or_app. right. right. left. reflexivity.
    - apply in_map_iff in Ha. destruct Ha as (i & <- & Hi). apply in_seq in Hi.
      eexists. apply in_or_app. left. apply Mem.in_store_vec.
      exists i. split; [lia|]. split; reflexivity. }
  destruct Hex as (w & Hw). exists (a, w). split; [reflexivity|].
  apply in_flat_map. exists (mk_dim3 c (iy b) 0). split; [exact Hb2|].
  apply in_flat_map. exists t. split; [now apply in_threads | exact Hw].
Qed.

(** Every store before the barrier stays inside the buffer of
    [heads * chunks * head_dim + 2 * heads * chunks] elements. *)
Lemma stored_in_bounds a :
  In a stored_before_barrier ->
  (a < num_heads * num_kv_chunks * head_dim + 2 * num_heads * num_kv_chunks)%nat.
Proof.
  intros Ha. unfold stored_before_barrier in Ha. apply in_map_iff in Ha.
  destruct Ha as ([a' w] & E & Hin). cbn in E. subst a'.
  apply in_flat_map in Hin. destruct Hin as (b & Hb & Hin).
  apply in_flat_map in Hin. destruct Hin as (t & Ht & Hin). apply in_threads in Ht.
  destruct (in_tmp_writes b t a w Hb Ht Hin) as (Hh & Hc & Hcase).
  pose proof (slot_lt _ _ _ _ HL num_heads num_kv_chunks _ _ Hh Hc) as Hs.
  destruct Hcase as [(i & Hi & -> & _)|[(-> & _)|(-> & _)]].
  - assert (Hf : (ix t * vec_size + i < head_dim)%nat)
      by (apply lane_elem_lt; [apply Ht | exact Hi]).
    pose proof (tmp_o_below_md _ _ _ Hh Hc Hf). unfold tmp_md_base in *. lia.
  - unfold tmp_md_idx, tmp_md_base. nia.
  - unfold tmp_md_idx, tmp_md_base. nia.
Qed.

(** Distinct (head, chunk) pairs own disjoint parts of the buffer, and
    the partial outputs lie below all [(m, d)] pairs. *)
Lemma tmp_regions_disjoint h c h' c' :
  (h < num_heads)%nat -> (c < num_kv_chunks)%nat ->
  (h' < num_heads)%nat -> (c' < num_kv_chunks)%nat ->
  (forall f f', (f < head_dim)%nat -> (f' < head_dim)%nat ->
     (tmp_o_ptr h c + f = tmp_o_ptr h' c' + f')%nat -> h = h' /\ c = c' /\ f = f')
  /\ (forall e e', (e < 2)%nat -> (e' < 2)%nat ->
     (tmp_md_idx h c + e = tmp_md_idx h' c' + e')%nat -> h = h' /\ c = c' /\ e = e')
  /\ (forall f e, (f < head_dim)%nat -> (tmp_o_ptr h c + f < tmp_md_idx h' c' + e)%nat).
Proof using HL.
  clear Hdim Hpow Hlanes Hchunk Hgrid.
  intros Hh Hc Hh' Hc'. split; [|split].
  - intros f f' Hf Hf' E. unfold tmp_o_ptr in E.
    destruct (euclid_unique head_dim _ f _ f' Hf Hf' E) as [Es Ef].
    destruct (slot_inj _ _ _ _ HL num_heads num_kv_chunks h c h' c') as [? ?]; auto.
  - intros e e' He He' E. unfold tmp_md_idx in E.
    assert (E' : (tmp_slot L num_heads num_kv_chunks h c * 2 + e
                  = tmp_slot L num_heads num_kv_chunks h' c' * 2 + e')%nat) by lia.
    destruct (euclid_unique 2 _ e _ e' He He' E') as [Es Ee].
    destruct (slot_inj _ _ _ _ HL num_heads num_kv_chunks h c h' c') as [? ?]; auto.
  - intros f e Hf. pose proof (tmp_o_below_md h c f Hh Hc Hf).
    unfold tmp_md_idx. lia.
Qed.


End Scratch.

(** What the barrier leaves in a stored element does not depend on
    what the caller left in the buffer. *)
Lemma tmp_at_barrier_overwrites smem0 smem_md0 tmp0 tmp0' a :
  In a (stored_before_barrier smem0 smem_md0) ->
  tmp_at_barrier smem0 smem_md0 tmp0 a = tmp_at_barrier smem0 smem_md0 tmp0' a.
Proof.
  intros Ha. unfold tmp_at_barrier, before_grid_sync.
  rewrite !(fold_block_store
              (fun b => tmp_writes b (chunk_state b (smem0 b) (smem_md0 b)))).
  now apply Mem.apply_writes_overwrites.
Qed.

(** *** The single sequential pass

    One state of width [head_dim] per head, folding the positions
    [0 .. seq_len - 1] in order by the fold rule, with the score of
    each position and its whole value row. *)
Definition sequential_fold (head : nat) : State.state_t :=
  fold_left (fun s p =>
      State.merge_xv head_dim s (score head p)
        (load_row v (kv_row L num_heads seq_len head p * head_dim)))
    (seq 0 seq_len) (State.init head_dim m_init).

Lemma fold_left_map {A B C} (F : A -> C -> A) (g : B -> C) l a :
  fold_left (fun s p => F s (g p)) l a = fold_left F (map g l) a.
Proof using.
  clear Hdim HL Hpow Hlanes Hchunk Hgrid.
  revert a. induction l as [|p l IH]; intros a; cbn; [reflexivity | apply IH].
Qed.

Lemma sequential_fold_of_elems head :
  sequential_fold head
  = State.of_elems head_dim m_init
      (map (fun p => (score head p,
                      load_row v (kv_row L num_heads seq_len head p * head_dim)))
           (seq 0 seq_len)).
Proof using.
  clear Hdim HL Hpow Hlanes Hchunk Hgrid.
  unfold sequential_fold.
  rewrite (fold_left_map
             (fun s (e : R * Vec.vec_t) => State.merge_xv head_dim s (fst e) (snd e))
             (fun p => (score head p,
                        load_row v (kv_row L num_heads seq_len head p * head_dim)))).
  rewrite <- State.of_elems_nil.
  apply (State.fold_merge_xv_of_elems head_dim m_init []).
Qed.

Lemma get_load_row mm ptr f :
  (f < head_dim)%nat -> (load_row mm ptr).[f] = mm (ptr + f)%nat.
Proof using.
  clear Hdim HL Hpow Hlanes Hchunk Hgrid. intros Hf. exact (Vec.get_tab head_dim (fun f => mm (ptr + f)%nat) f Hf). Qed.

(** Lane [l] of the state of the whole sequence is the lane's part of
    the state of the sequential pass. *)
Lemma final_st_sequential head l :
  (l < bdx)%nat ->
  (forall i, (i < vec_size)%nat ->
     (State.o (final_st head l)).[i]
     = (State.o (sequential_fold head)).[l * vec_size + i])
  /\ State.m (final_st head l) = State.m (sequential_fold head)
  /\ State.d (final_st head l) = State.d (sequential_fold head).
Proof using Hdim.
  clear HL Hpow Hlanes Hchunk Hgrid.
  intros Hl. rewrite sequential_fold_of_elems. unfold final_st.
  assert (Hsc : map fst (map (elem head l) (seq 0 seq_len))
                = map fst (map (fun p => (score head p,
                     load_row v (kv_row L num_heads seq_len head p * head_dim)))
                     (seq 0 seq_len))).
  { rewrite !map_map. reflexivity. }
  assert (HM : State.max_score m_init (map (elem head l) (seq 0 seq_len))
               = State.max_score m_init
                   (map (fun p => (score head p,
                      load_row v (kv_row L num_heads seq_len head p * head_dim)))
                      (seq 0 seq_len))).
  { apply (State.of_elems_scores vec_size m_init _ _ Hsc). }
  split; [|split].
  - intros i Hi.
    assert (Hf : (l * vec_size + i < head_dim)%nat) by now apply lane_elem_lt.
    unfold State.of_elems. cbn [State.o].
    rewrite Vec.get_tab by exact Hi. rewrite Vec.get_tab by exact Hf.
    rewrite HM, !rsum_map. apply rsum_ext. intros p _. cbn [fst snd elem].
    f_equal. unfold vvec. rewrite Vec.get_load by exact Hi.
    rewrite get_load_row by exact Hf. f_equal. lia.
  - exact HM.
  - unfold State.of_elems. cbn [State.d]. rewrite HM, !rsum_map. reflexivity.
Qed.

(** The launch in closed form: nothing the kernel stores is divided. *)
Lemma run_closed_form smem0 smem_md0 tmp0 o0 head l i :
  (0 < seq_len)%nat -> (head < num_heads)%nat -> (l < bdx)%nat -> (i < vec_size)%nat ->
  fst (run smem0 smem_md0 tmp0 o0) (head * head_dim + l * vec_size + i)%nat
  = rsum (fun p => exp (score head p - max_over head (seq 0 seq_len))
                   * v (kv_row L num_heads seq_len head p * head_dim
                        + l * vec_size + i)%nat)
         (seq 0 seq_len)
  /\ snd (run smem0 smem_md0 tmp0 o0) head = max_over head (seq 0 seq_len)
  /\ snd (run smem0 smem_md0 tmp0 o0) (num_heads + head)%nat
     = rsum (fun p => exp (score head p - max_over head (seq 0 seq_len)))
            (seq 0 seq_len).
Proof.
  intros Hs Hh Hl Hi.
  destruct (run_result smem0 smem_md0 tmp0 o0 head l Hs Hh Hl) as (Ho & Hm & Hd).
  rewrite (Ho i Hi), Hm, Hd. unfold final_st.
  destruct (elems_closed_form head l (seq 0 seq_len)) as (Em & Ed & Eo).
  rewrite Em, Ed, (Eo i Hi). auto.
Qed.

End GridFacts.

(** *** Further facts about the stages of a block *)

Lemma fold_left_ext_in {A B} (f g : A -> B -> A) (l : list B) :
  forall a, (forall x y, In y l -> f x y = g x y) -> fold_left f l a = fold_left g l a.
Proof.
  induction l as [|y l IH]; intros a H; [reflexivity|].
  cbn [fold_left]. rewrite (H a y) by now left.
  apply IH. intros x y' Hy'. apply H. now right.
Qed.

(** [sync_state] for arbitrary states: when the threads of a row agree
    on [m] and [d], so that their stores to [smem_md] do not conflict,
    every thread leaves with the merge, in the order of the loop, of the
    states of the threads [P j] that have its [threadIdx.x] and the row
    the loop reads in iteration [j]. *)
Lemma sync_state_rows (s : dim3 -> State.state_t) smem0 smem_md0 t (P : nat -> dim3) :
  (forall t1 t2, in_block bdx bdy bdz t1 -> in_block bdx bdy bdz t2 ->
     row L t1 = row L t2 ->
     State.m (s t1) = State.m (s t2) /\ State.d (s t1) = State.d (s t2)) ->
  in_block bdx bdy bdz t ->
  (forall j, (j < pos_lanes L)%nat ->
     in_block bdx bdy bdz (P j) /\ ix (P j) = ix t /\ row L (P j) = sync_row L t j) ->
  fst (fst (sync_state s smem0 smem_md0)) t
  = fold_left (fun acc j => State.merge_state vec_size acc (s (P j)))
      (seq 0 (pos_lanes L)) (State.init vec_size m_init).
Proof.
  intros Hsame Ht HP. unfold sync_state. cbn [fst].
  set (smem' := Mem.block_store threads smem0 _).
  set (smem_md' := Mem.block_store threads smem_md0 _).
  apply fold_left_ext_in.
  intros acc j Hj. apply in_seq in Hj.
  destruct (HP j ltac:(lia)) as (Ht' & Hx & Hr).
  unfold State.merge_state.
  assert (Em : smem_md' (sync_row L t j * 2)%nat = State.m (s (P j))).
  { apply (Mem.block_store_read threads _ _ _ _ (P j)); [now apply in_threads | |].
    - left. now rewrite Hr.
    - intros t2 w2 Ht2 [E2|[E2|[]]]; apply in_threads in Ht2;
        injection E2 as Ea <-; [|lia].
      apply (Hsame t2 (P j) Ht2 Ht'). lia. }
  assert (Ed : smem_md' (sync_row L t j * 2 + 1)%nat = State.d (s (P j))).
  { apply (Mem.block_store_read threads _ _ _ _ (P j)); [now apply in_threads | |].
    - right. left. now rewrite Hr.
    - intros t2 w2 Ht2 [E2|[E2|[]]]; apply in_threads in Ht2;
        injection E2 as Ea <-; [lia|].
      apply (Hsame t2 (P j) Ht2 Ht'). lia. }
  rewrite Em, Ed. apply State.merge_ext. intros i Hi.
  rewrite Vec.get_load by exact Hi.
  apply (Mem.block_store_read threads _ _ _ _ (P j)); [now apply in_threads | |].
  - apply Mem.in_store_vec. exists i. rewrite Hr, Hx. auto.
  - intros t2 w2 Ht2 Hw2. apply in_threads in Ht2.
    apply Mem.in_store_vec in Hw2. destruct Hw2 as (i2 & Hi2 & Ea & ->).
    assert (H1 : (ix t2 * vec_size + i2 < head_dim)%nat)
      by (apply lane_elem_lt; [apply Ht2 | exact Hi2]).
    assert (H2 : (ix t * vec_size + i < head_dim)%nat)
      by (apply lane_elem_lt; [apply Ht | exact Hi]).
    destruct (euclid_unique head_dim (sync_row L t j) (ix t * vec_size + i)
                (row L t2) (ix t2 * vec_size + i2)) as [Hrow Hf]; [lia | lia | lia |].
    destruct (euclid_unique vec_size (ix t) i (ix t2) i2) as [Hx2 Hi2'];
      [lia | lia | lia |].
    assert (E2 : t2 = P j).
    { rewrite (same_row_thread (P j) t2 Ht' Ht2) by congruence.
      rewrite <- Hx2, <- Hx. apply with_x_self. }
    subst t2. now subst i2.
Qed.

(** *** Where a launch stores *)

Lemma fold_left_frame {B} (F : Mem.mem -> B -> Mem.mem) (l : list B) (a : nat) :
  forall mm, (forall mm' y, In y l -> F mm' y a = mm' a) -> fold_left F l mm a = mm a.
Proof.
  induction l as [|y l IH]; intros mm H; [reflexivity|].
  cbn [fold_left]. rewrite IH by (intros mm' y' Hy'; apply H; now right).
  apply H. now left.
Qed.

Lemma tmp_writes_lt b s t a w :
  In b blocks -> in_block bdx bdy bdz t -> In (a, w) (tmp_writes b s t) ->
  (a < num_heads * num_kv_chunks * head_dim + 2 * num_heads * num_kv_chunks)%nat.
Proof.
  intros Hb Ht Hin. apply in_blocks in Hb. destruct Hb as (Hbx & Hby & _).
  assert (Hh : (head_idx b t < num_heads)%nat)
    by (apply (head_lt _ _ _ _ HL); assumption).
  pose proof (slot_lt _ _ _ _ HL num_heads num_kv_chunks (head_idx b t) (ix b) Hh Hbx)
    as Hslot.
  unfold tmp_writes, kv_chunk_idx in Hin. apply in_app_or in Hin.
  unfold tmp_o_ptr, tmp_md_idx, tmp_md_base in Hin.
  destruct Hin as [Hin|[E|[E|[]]]].
  - apply Mem.in_store_vec in Hin. destruct Hin as (i & Hi & -> & _).
    assert (Hf : (ix t * vec_size + i < head_dim)%nat)
      by (apply lane_elem_lt; [apply Ht | exact Hi]).
    nia.
  - injection E as <- _. nia.
  - injection E as <- _. nia.
Qed.

Lemma o_writes_lt b s t a w :
  In b blocks -> in_block bdx bdy bdz t -> In (a, w) (o_writes b s t) ->
  (a < num_heads * head_dim)%nat.
Proof.
  intros Hb Ht Hin. apply in_blocks in Hb. destruct Hb as (Hbx & Hby & _).
  assert (Hh : (head_idx b t < num_heads)%nat)
    by (apply (head_lt _ _ _ _ HL); assumption).
  unfold o_writes in Hin. apply Mem.in_store_vec in Hin.
  destruct Hin as (i & Hi & -> & _).
  assert (Hf : (ix t * vec_size + i < head_dim)%nat)
    by (apply lane_elem_lt; [apply Ht | exact Hi]).
  nia.
Qed.

Lemma tmp_final_writes_lt b s t a w :
  In b blocks -> in_block bdx bdy bdz t -> In (a, w) (tmp_final_writes b s t) ->
  (a < 2 * num_heads)%nat /\ (0 < num_kv_chunks)%nat.
Proof.
  intros Hb Ht Hin. apply in_blocks in Hb. destruct Hb as (Hbx & Hby & _).
  assert (Hh : (head_idx b t < num_heads)%nat)
    by (apply (head_lt _ _ _ _ HL); assumption).
  unfold num_kv_chunks.
  destruct Hin as [E|[E|[]]]; injection E as <- _; lia.
Qed.

(** A launch stores into the output tensor only below
    [num_heads * head_dim], and into the scratch buffer only below
    [num_heads * num_kv_chunks * (head_dim + 2)]. *)
Lemma run_frame smem0 smem_md0 tmp0 o0 :
  (forall a, (num_heads * head_dim <= a)%nat ->
     fst (run smem0 smem_md0 tmp0 o0) a = o0 a)
  /\ (forall a, (num_heads * num_kv_chunks * head_dim + 2 * num_heads * num_kv_chunks
                 <= a)%nat ->
        snd (run smem0 smem_md0 tmp0 o0) a = tmp0 a).
Proof.
  unfold run. cbn [fst snd]. split; intros a Ha.
  - apply fold_left_frame. intros mm' b Hb.
    unfold after_grid_sync. destruct (kv_chunk_idx b =? 0)%nat; [|reflexivity].
    cbn [fst]. apply Mem.block_store_frame. intros t w Ht Hin.
    apply in_threads in Ht. pose proof (o_writes_lt _ _ _ _ _ Hb Ht Hin). lia.
  - rewrite Mem.apply_writes_frame.
    + apply fold_left_frame. intros mm' b Hb. unfold before_grid_sync.
      apply Mem.block_store_frame. intros t w Ht Hin.
      apply in_threads in Ht. pose proof (tmp_writes_lt _ _ _ _ _ Hb Ht Hin). lia.
    + intros w Hin. apply in_flat_map in Hin. destruct Hin as (b & Hb & Hin).
      unfold after_grid_sync in Hin.
      destruct (kv_chunk_idx b =? 0)%nat; cbn [snd] in Hin; [|destruct Hin].
      apply in_flat_map in Hin. destruct Hin as (t & Ht & Hin). apply in_threads in Ht.
      destruct (tmp_final_writes_lt _ _ _ _ _ Hb Ht Hin) as [H1 H2]. nia.
Qed.

(** *** Threads that store to the same element store the same value *)

Section StoresAgree.
Hypothesis Hpow : exists j, bdx = (2 ^ j)%nat.
Hypothesis Hlanes : (0 < pos_lanes L)%nat.
Hypothesis Hchunk : (0 < kv_chunk_size)%nat.
Hypothesis Hgrid : num_kv_chunks = ((seq_len + kv_chunk_size - 1) / kv_chunk_size)%nat.
Variables (smem0 smem_md0 : dim3 -> Mem.mem) (tmp0 : Mem.mem).

(** Everything the grid stores into [tmp] before [grid.sync()]. *)
Definition stores_before_barrier : Mem.writes :=
  flat_map (fun b =>
    flat_map (tmp_writes b (chunk_state b (smem0 b) (smem_md0 b))) threads) blocks.

Lemma stores_before_barrier_agree a w w' :
  In (a, w) stores_before_barrier -> In (a, w') stores_before_barrier -> w = w'.
Proof.
  intros H1 H2. unfold stores_before_barrier in *.
  apply in_flat_map in H1. destruct H1 as (b1 & Hb1 & H1).
  apply in_flat_map in H1. destruct H1 as (t1 & Ht1 & H1). apply in_threads in Ht1.
  apply in_flat_map in H2. destruct H2 as (b2 & Hb2 & H2).
  apply in_flat_map in H2. destruct H2 as (t2 & Ht2 & H2). apply in_threads in Ht2.
  destruct (in_tmp_writes Hpow Hlanes Hchunk Hgrid smem0 smem_md0 b1 t1 a w Hb1 Ht1 H1)
    as (Hh1 & Hc1 & C1).
  destruct (in_tmp_writes Hpow Hlanes Hchunk Hgrid smem0 smem_md0 b2 t2 a w' Hb2 Ht2 H2)
    as (Hh2 & Hc2 & C2).
  destruct (tmp_regions_disjoint _ _ _ _ Hh1 Hc1 Hh2 Hc2) as (Do & Dmd & Dlt).
  destruct (tmp_regions_disjoint _ _ _ _ Hh2 Hc2 Hh1 Hc1) as (_ & _ & Dlt').
  assert (Hsc : forall h c l l',
            State.m (chunk_st h l c) = State.m (chunk_st h l' c)
            /\ State.d (chunk_st h l c) = State.d (chunk_st h l' c))
    by (intros; apply st_scores).
  destruct C1 as [(i1 & Hi1 & E1 & ->)|[(E1 & ->)|(E1 & ->)]];
    destruct C2 as [(i2 & Hi2 & E2 & ->)|[(E2 & ->)|(E2 & ->)]].
  - assert (Hf1 : (ix t1 * vec_size + i1 < head_dim)%nat)
      by (apply lane_elem_lt; [apply Ht1 | exact Hi1]).
    assert (Hf2 : (ix t2 * vec_size + i2 < head_dim)%nat)
      by (apply lane_elem_lt; [apply Ht2 | exact Hi2]).
    destruct (Do (ix t1 * vec_size + i1)%nat (ix t2 * vec_size + i2)%nat Hf1 Hf2)
      as (Eh & Ec & Ef); [lia|].
    destruct (euclid_unique vec_size (ix t1) i1 (ix t2) i2) as [Ex Ei]; [lia | lia | lia |].
    now rewrite Eh, Ec, Ex, Ei.
  - assert (Hf1 : (ix t1 * vec_size + i1 < head_dim)%nat)
      by (apply lane_elem_lt; [apply Ht1 | exact Hi1]).
    pose proof (Dlt (ix t1 * vec_size + i1)%nat 0%nat Hf1). lia.
  - assert (Hf1 : (ix t1 * vec_size + i1 < head_dim)%nat)
      by (apply lane_elem_lt; [apply Ht1 | exact Hi1]).
    pose proof (Dlt (ix t1 * vec_size + i1)%nat 1%nat Hf1). lia.
  - assert (Hf2 : (ix t2 * vec_size + i2 < head_dim)%nat)
      by (apply lane_elem_lt; [apply Ht2 | exact Hi2]).
    pose proof (Dlt' (ix t2 * vec_size + i2)%nat 0%nat Hf2). lia.
  - destruct (Dmd 0%nat 0%nat) as (Eh & Ec & _); [lia | lia | lia |].
    rewrite Eh, Ec. apply Hsc.
  - destruct (Dmd 0%nat 1%nat) as (_ & _ & Ee); [lia | lia | lia |]. discriminate Ee.
  - assert (Hf2 : (ix t2 * vec_size + i2 < head_dim)%nat)
      by (apply lane_elem_lt; [apply Ht2 | exact Hi2]).
    pose proof (Dlt' (ix t2 * vec_size + i2)%nat 1%nat Hf2). lia.
  - destruct (Dmd 1%nat 0%nat) as (_ & _ & Ee); [lia | lia | lia |]. discriminate Ee.
  - destruct (Dmd 1%nat 1%nat) as (Eh & Ec & _); [lia | lia | lia |].
    rewrite Eh, Ec. apply Hsc.
Qed.

End StoresAgree.

(** *** The four stages of the pipeline *)

Section Stages.
Variable b : dim3.

(** The state of the block after [n] iterations of the loop. *)
Definition after_iterations (smem0 : Mem.mem) (n : nat) : block_state :=
  fold_left (loop_body b) (seq 1 n) (prologue b smem0).

Lemma after_iterations_S smem0 n :
  after_iterations smem0 (S n) = loop_body b (after_iterations smem0 n) (S n).
Proof.
  unfold after_iterations. rewrite seq_S, fold_left_app. reflexivity.
Qed.

Lemma stage_indices smem0 n :
  compute_stage_idx (after_iterations smem0 n) = ((2 * n) mod 4)%nat
  /\ copy_stage_idx (after_iterations smem0 n) = ((2 * n + 2) mod 4)%nat.
Proof.
  induction n as [|n [IHc IHp]]; [split; reflexivity|].
  rewrite after_iterations_S. unfold loop_body. cbn [compute_stage_idx copy_stage_idx].
  rewrite IHc, IHp. unfold stages_count.
  rewrite !Nat.Div0.add_mod_idemp_l, <- !Nat.add_assoc, !Nat.Div0.add_mod_idemp_l.
  split; f_equal; lia.
Qed.

Lemma memcpy_async_lt stage t dst src_mem src guard a w :
  (stage < 4)%nat -> in_block bdx bdy bdz t -> dst = smem_ptr stage t ->
  In (a, w) (Mem.memcpy_async vec_size dst src_mem src guard) ->
  (a < stages_count * rows L * head_dim)%nat.
Proof.
  intros Hs Ht -> Hin. apply Mem.in_memcpy_async in Hin.
  destruct Hin as (_ & i & Hi & -> & _).
  unfold smem_ptr. rewrite nth_kv_shared_offset by exact Hs.
  pose proof (row_lt _ _ _ _ HL t Ht) as Hr.
  assert (Hf : (ix t * vec_size + i < head_dim)%nat)
    by (apply lane_elem_lt; [apply Ht | exact Hi]).
  unfold stages_count. nia.
Qed.

Lemma loop_body_smem_frame st batch a :
  (copy_stage_idx st < 4)%nat -> (stages_count * rows L * head_dim <= a)%nat ->
  smem (loop_body b st batch) a = smem st a.
Proof.
  intros Hc Ha. unfold loop_body. cbn [smem].
  rewrite !Mem.block_store_frame; [reflexivity | |];
    intros t w Ht Hin; apply in_threads in Ht.
  - pose proof (memcpy_async_lt (copy_stage_idx st) t _ _ _ _ _ _ Hc Ht eq_refl Hin). lia.
  - assert (Hc1 : ((copy_stage_idx st + 1) mod stages_count < 4)%nat)
      by (apply Nat.mod_upper_bound; discriminate).
    pose proof (memcpy_async_lt _ t _ _ _ _ _ _ Hc1 Ht eq_refl Hin). lia.
Qed.

(** The copies of a block stay inside [smem[stages_count * rows * head_dim]]. *)
Lemma pipeline_smem_frame smem0 a :
  (stages_count * rows L * head_dim <= a)%nat ->
  smem (epilogue b (pipeline_loop b (prologue b smem0))) a = smem0 a.
Proof.
  intros Ha. unfold epilogue. cbn [smem].
  change (pipeline_loop b (prologue b smem0))
    with (after_iterations smem0 (num_batches b - 1)).
  induction (num_batches b - 1)%nat as [|n IH].
  - unfold after_iterations. cbn [seq fold_left]. unfold prologue. cbn [smem].
    rewrite !Mem.block_store_frame; [reflexivity | |];
      intros t w Ht Hin; apply in_threads in Ht.
    + pose proof (memcpy_async_lt 0 t _ _ _ _ _ _ ltac:(lia) Ht eq_refl Hin). lia.
    + pose proof (memcpy_async_lt 1 t _ _ _ _ _ _ ltac:(lia) Ht eq_refl Hin). lia.
  - rewrite after_iterations_S, loop_body_smem_frame; [exact IH | | exact Ha].
    rewrite (proj2 (stage_indices smem0 n)). apply Nat.mod_upper_bound. discriminate.
Qed.

(** The tiles an iteration consumes, in stages [compute_stage_idx] and
    [compute_stage_idx + 1], are not touched by the copies the same
    iteration issues, which go to the other two stages. *)
Lemma loop_body_keeps_consumed_tiles smem0 n batch stage r f :
  let st := after_iterations smem0 n in
  stage = compute_stage_idx st \/ stage = (compute_stage_idx st + 1)%nat ->
  (r < rows L)%nat -> (f < head_dim)%nat ->
  (stage < 4)%nat
  /\ smem (loop_body b st batch) (nth stage kv_shared_offset 0 + r * head_dim + f)%nat
     = smem st (nth stage kv_shared_offset 0 + r * head_dim + f)%nat.
Proof.
  intros st Hst Hr Hf.
  destruct (stage_indices smem0 n) as [Ec Ep]. fold st in Ec, Ep.
  assert (Hmod : ((2 * n) mod 4 = 0 /\ (2 * n + 2) mod 4 = 2
                  \/ (2 * n) mod 4 = 2 /\ (2 * n + 2) mod 4 = 0)%nat).
  { destruct (Nat.Even_or_Odd n) as [[m ->]|[m ->]].
    - left. split.
      + replace (2 * (2 * m))%nat with (0 + m * 4)%nat by lia.
        now rewrite Nat.Div0.mod_add.
      + replace (2 * (2 * m) + 2)%nat with (2 + m * 4)%nat by lia.
        now rewrite Nat.Div0.mod_add.
    - right. split.
      + replace (2 * (2 * m + 1))%nat with (2 + m * 4)%nat by lia.
        now rewrite Nat.Div0.mod_add.
      + replace (2 * (2 * m + 1) + 2)%nat with (0 + (m + 1) * 4)%nat by lia.
        now rewrite Nat.Div0.mod_add. }
  assert (Hlt : (stage < 4)%nat) by lia.
  split; [exact Hlt|].
  unfold loop_body. cbn [smem]. rewrite Ep. unfold stages_count.
  rewrite !copy_frame; try assumption; try reflexivity.
  all: rewrite Ec in Hst; destruct Hmod as [[H1 H2]|[H1 H2]]; rewrite H1 in Hst;
    rewrite H2; cbn; lia.
Qed.

End Stages.

(** [sync_state] stores below [rows * head_dim] in [smem] (as an array
    of [float]) and below [2 * rows] in [smem_md]. *)
Lemma sync_state_frame s smem0 smem_md0 :
  (forall a, (rows L * head_dim <= a)%nat ->
     snd (fst (sync_state s smem0 smem_md0)) a = smem0 a)
  /\ (forall a, (2 * rows L <= a)%nat ->
        snd (sync_state s smem0 smem_md0) a = smem_md0 a).
Proof.
  unfold sync_state. cbn [fst snd]. split; intros a Ha.
  - apply Mem.block_store_frame. intros t w Ht Hin. apply in_threads in Ht.
    apply Mem.in_store_vec in Hin. destruct Hin as (i & Hi & E & _).
    pose proof (row_lt _ _ _ _ HL t Ht) as Hr.
    assert (Hf : (ix t * vec_size + i < head_dim)%nat)
      by (apply lane_elem_lt; [apply Ht | exact Hi]).
    nia.
  - apply Mem.block_store_frame. intros t w Ht Hin. apply in_threads in Ht.
    pose proof (row_lt _ _ _ _ HL t Ht) as Hr.
    destruct Hin as [E|[E|[]]]; injection E as Ea _; lia.
Qed.

(** *** Executions after [grid.sync()]

    After the barrier a chunk-zero block loads the partial states of
    its heads from [tmp] (lines 312-315, 630-632) and, after the
    [block.sync()] of its [sync_state], stores the final [m] and [d] to
    [tmp[head_idx]] and [tmp[num_heads + head_idx]] (lines 323-324,
    641-642).  Nothing orders the loads of one block against these
    stores of another block, and both touch the first [2 * num_heads]
    elements of [tmp].  [run] above is the execution in which every
    block has finished loading before any of these stores lands.  The
    definitions below cover the others.  A thread loads each element at
    most once, so an execution is described by what every thread finds
    in [tmp] and by the order in which the stores of the blocks land. *)

(** States that agree on [m] and [d], and in element [i] of [o]. *)
Definition agree_md (s1 s2 : State.state_t) : Prop :=
  State.m s1 = State.m s2 /\ State.d s1 = State.d s2.

Lemma merge_agree_md (s1 s2 : State.state_t) m1 d1 (o1 o2 : Vec.vec_t) :
  agree_md s1 s2 ->
  agree_md (State.merge vec_size s1 m1 d1 o1) (State.merge vec_size s2 m1 d1 o2).
Proof using.
  clear Hdim HL.
  intros [Em Ed]. unfold agree_md, State.merge. cbn [State.m State.d].
  rewrite Em, Ed. split; reflexivity.
Qed.

Lemma merge_agree_o (s1 s2 : State.state_t) m1 d1 (o1 o2 : Vec.vec_t) i :
  (i < vec_size)%nat -> agree_md s1 s2 ->
  (State.o s1).[i] = (State.o s2).[i] -> o1.[i] = o2.[i] ->
  (State.o (State.merge vec_size s1 m1 d1 o1)).[i]
  = (State.o (State.merge vec_size s2 m1 d1 o2)).[i].
Proof using.
  clear Hdim HL.
  intros Hi [Em Ed] Eo E1. unfold State.merge. cbn [State.o].
  rewrite !Vec.get_tab by exact Hi. rewrite Em, Eo, E1. reflexivity.
Qed.

(** What a thread merges from the scratch buffer: its [m] and [d]
    depend on the [(m, d)] pairs of its head only, element [i] of its
    [o] on these and on element [i] of the partial outputs of its lane. *)
Lemma global_partial_agree b (t1 t2 : dim3) (tmpA tmpB : Mem.mem) :
  head_idx b t1 = head_idx b t2 -> pos_lane L t1 = pos_lane L t2 ->
  (forall c, (c < num_kv_chunks)%nat ->
     tmpA (tmp_md_idx (head_idx b t1) c) = tmpB (tmp_md_idx (head_idx b t1) c)
     /\ tmpA (tmp_md_idx (head_idx b t1) c + 1)%nat
        = tmpB (tmp_md_idx (head_idx b t1) c + 1)%nat) ->
  agree_md (global_partial b tmpA t1) (global_partial b tmpB t2)
  /\ forall i, (i < vec_size)%nat -> ix t1 = ix t2 ->
       (forall c, (c < num_kv_chunks)%nat ->
          tmpA (tmp_o_ptr (head_idx b t1) c + ix t1 * vec_size + i)%nat
          = tmpB (tmp_o_ptr (head_idx b t1) c + ix t1 * vec_size + i)%nat) ->
       (State.o (global_partial b tmpA t1)).[i] = (State.o (global_partial b tmpB t2)).[i].
Proof using.
  clear Hdim HL.
  intros Eh El Hmd. unfold global_partial. rewrite <- Eh, <- El.
  assert (G : forall l sA sB,
            agree_md sA sB ->
            let F := fun (tmp : Mem.mem) (t : dim3) s_global batch =>
              let kv_chunk_idx := (batch * pos_lanes L + pos_lane L t1)%nat in
              if (kv_chunk_idx <? num_kv_chunks)%nat then
                State.merge_state vec_size s_global
                  {| State.o := Vec.load vec_size tmp
                                  (tmp_o_ptr (head_idx b t1) kv_chunk_idx
                                   + ix t * vec_size);
                     State.m := tmp (tmp_md_idx (head_idx b t1) kv_chunk_idx);
                     State.d := tmp (tmp_md_idx (head_idx b t1) kv_chunk_idx + 1)%nat |}
              else s_global in
            agree_md (fold_left (F tmpA t1) l sA) (fold_left (F tmpB t2) l sB)
            /\ forall i, (i < vec_size)%nat -> ix t1 = ix t2 ->
                 (forall c, (c < num_kv_chunks)%nat ->
                    tmpA (tmp_o_ptr (head_idx b t1) c + ix t1 * vec_size + i)%nat
                    = tmpB (tmp_o_ptr (head_idx b t1) c + ix t1 * vec_size + i)%nat) ->
                 (State.o sA).[i] = (State.o sB).[i] ->
                 (State.o (fold_left (F tmpA t1) l sA)).[i]
                 = (State.o (fold_left (F tmpB t2) l sB)).[i]).
  { induction l as [|bt l IH]; intros sA sB Hs F.
    - split; [exact Hs | intros; assumption].
    - cbn [fold_left].
      assert (Hstep : agree_md (F tmpA t1 sA bt) (F tmpB t2 sB bt)).
      { unfold F. destruct (bt * pos_lanes L + pos_lane L t1 <? num_kv_chunks)%nat eqn:E;
          [|exact Hs].
        apply Nat.ltb_lt in E. unfold State.merge_state. cbn [State.m State.d State.o].
        destruct (Hmd _ E) as [-> ->]. now apply merge_agree_md. }
      destruct (IH _ _ Hstep) as [IH1 IH2]. split; [exact IH1|].
      intros i Hi Ex Ho Hs0. apply (IH2 i Hi Ex Ho).
      unfold F. destruct (bt * pos_lanes L + pos_lane L t1 <? num_kv_chunks)%nat eqn:E;
        [|exact Hs0].
      apply Nat.ltb_lt in E. unfold State.merge_state. cbn [State.m State.d State.o].
      destruct (Hmd _ E) as [-> ->].
      apply merge_agree_o; [exact Hi | exact Hs | exact Hs0 |].
      rewrite !Vec.get_load by exact Hi. rewrite <- Ex. apply Ho. exact E. }
  destruct (G (seq 0 ((num_kv_chunks + pos_lanes L - 1) / pos_lanes L))
              (State.init vec_size m_init) (State.init vec_size m_init))
    as [G1 G2]; [split; reflexivity|].
  split; [exact G1|].
  intros i Hi Ex Ho. now apply G2.
Qed.

(** Finitely many choices. *)
Lemma choose_below {A} (a0 : A) (Q : nat -> A -> Prop) n :
  (forall j, (j < n)%nat -> exists x, Q j x) ->
  exists f, forall j, (j < n)%nat -> Q j (f j).
Proof using.
  clear Hdim HL.
  induction n as [|n IH]; intros H.
  - exists (fun _ => a0). intros j Hj. lia.
  - destruct IH as [f Hf]; [intros j Hj; apply H; lia|].
    destruct (H n) as [x Hx]; [lia|].
    exists (fun j => if (j =? n)%nat then x else f j). intros j Hj.
    destruct (j =? n)%nat eqn:E.
    + apply Nat.eqb_eq in E. now subst j.
    + apply Nat.eqb_neq in E. apply Hf. lia.
Qed.

(** [sync_state] on two families of states: the results agree on [m]
    and [d] when the families do, and in element [i] of [o] when the
    threads that work for the same head with the same [threadIdx.x]
    agree there. *)
Lemma sync_state_agree (s1 s2 : dim3 -> State.state_t) sm smd t :
  (0 < pos_lanes L)%nat ->
  in_block bdx bdy bdz t ->
  (forall t1 t2, in_block bdx bdy bdz t1 -> in_block bdx bdy bdz t2 ->
     row L t1 = row L t2 -> agree_md (s1 t1) (s1 t2)) ->
  (forall t1 t2, in_block bdx bdy bdz t1 -> in_block bdx bdy bdz t2 ->
     row L t1 = row L t2 -> agree_md (s2 t1) (s2 t2)) ->
  (forall t', in_block bdx bdy bdz t' -> agree_md (s1 t') (s2 t')) ->
  agree_md (fst (fst (sync_state s1 sm smd)) t) (fst (fst (sync_state s2 sm smd)) t)
  /\ forall i, (i < vec_size)%nat ->
       (forall t', in_block bdx bdy bdz t' -> ix t' = ix t ->
          (forall b, head_idx_of L b t' = head_idx_of L b t) ->
          (State.o (s1 t')).[i] = (State.o (s2 t')).[i]) ->
       (State.o (fst (fst (sync_state s1 sm smd)) t)).[i]
       = (State.o (fst (fst (sync_state s2 sm smd)) t)).[i].
Proof.
  intros Hlanes Ht Hrow1 Hrow2 Hmd.
  destruct (choose_below (mk_dim3 0 0 0)
              (fun j t' => in_block bdx bdy bdz t' /\ ix t' = ix t
                           /\ row L t' = sync_row L t j /\ pos_lane L t' = j
                           /\ forall b, head_idx_of L b t' = head_idx_of L b t)
              (pos_lanes L)) as [P HP].
  { intros j Hj. apply (sync_partner _ _ _ _ HL t j Ht Hj). }
  assert (HP' : forall j, (j < pos_lanes L)%nat ->
            in_block bdx bdy bdz (P j) /\ ix (P j) = ix t /\ row L (P j) = sync_row L t j).
  { intros j Hj. destruct (HP j Hj) as (H1 & H2 & H3 & _). auto. }
  rewrite (sync_state_rows s1 sm smd t P) by (try assumption; intros; now apply Hrow1).
  rewrite (sync_state_rows s2 sm smd t P) by (try assumption; intros; now apply Hrow2).
  assert (G : forall l sA sB, (forall j, In j l -> (j < pos_lanes L)%nat) ->
            agree_md sA sB ->
            agree_md
              (fold_left (fun acc j => State.merge_state vec_size acc (s1 (P j))) l sA)
              (fold_left (fun acc j => State.merge_state vec_size acc (s2 (P j))) l sB)
            /\ forall i, (i < vec_size)%nat ->
                 (forall t', in_block bdx bdy bdz t' -> ix t' = ix t ->
                    (forall b, head_idx_of L b t' = head_idx_of L b t) ->
                    (State.o (s1 t')).[i] = (State.o (s2 t')).[i]) ->
                 (State.o sA).[i] = (State.o sB).[i] ->
                 (State.o (fold_left (fun acc j =>
                     State.merge_state vec_size acc (s1 (P j))) l sA)).[i]
                 = (State.o (fold_left (fun acc j =>
                     State.merge_state vec_size acc (s2 (P j))) l sB)).[i]).
  { induction l as [|j l IH]; intros sA sB Hl Hs.
    - split; [exact Hs | intros; assumption].
    - cbn [fold_left].
      destruct (HP j) as (Hin & Hx & _ & _ & Hhead); [apply Hl; now left|].
      destruct (Hmd (P j) Hin) as [Em Ed].
      assert (Hstep : agree_md (State.merge_state vec_size sA (s1 (P j)))
                               (State.merge_state vec_size sB (s2 (P j)))).
      { unfold State.merge_state. rewrite Em, Ed. now apply merge_agree_md. }
      destruct (IH _ _ (fun j' Hj' => Hl j' (or_intror Hj')) Hstep) as [IH1 IH2].
      split; [exact IH1|].
      intros i Hi Ho Hs0. apply (IH2 i Hi Ho).
      unfold State.merge_state. rewrite Em, Ed.
      apply merge_agree_o; [exact Hi | exact Hs | exact Hs0 |].
      now apply Ho. }
  destruct (G (seq 0 (pos_lanes L)) (State.init vec_size m_init)
              (State.init vec_size m_init)) as [G1 G2].
  - intros j Hj. apply in_seq in Hj. lia.
  - split; reflexivity.
  - split; [exact G1|]. intros i Hi Ho. now apply G2.
Qed.

Section Executions.
Hypothesis Hpow : exists j, bdx = (2 ^ j)%nat.
Hypothesis Hlanes : (0 < pos_lanes L)%nat.
Hypothesis Hchunk : (0 < kv_chunk_size)%nat.
Hypothesis Hgrid : num_kv_chunks = ((seq_len + kv_chunk_size - 1) / kv_chunk_size)%nat.
Variables (smem0 smem_md0 : dim3 -> Mem.mem) (tmp0 : Mem.mem).

(** Lines 306-321 and 624-639 for a block whose thread [t] finds
    [view t] in the scratch buffer when it loads. *)
Definition global_state_seen (b : dim3) (sm smd : Mem.mem) (view : dim3 -> Mem.mem)
  : dim3 -> State.state_t :=
  fst (fst (sync_state (fun t => global_partial b (view t) t) sm smd)).

(** Lines 306-325 and 624-643, as [after_grid_sync]. *)
Definition after_grid_sync_seen (b : dim3) (sm smd : Mem.mem) (view : dim3 -> Mem.mem)
    (o_mem : Mem.mem) : Mem.mem * Mem.writes :=
  if (kv_chunk_idx b =? 0)%nat then
    let s_global := global_state_seen b sm smd view in
    (Mem.block_store threads o_mem (o_writes b s_global),
     flat_map (tmp_final_writes b s_global) threads)
  else (o_mem, []).

(** The launch in the execution in which thread [t] of block [b] finds
    [seen b t] in the scratch buffer after the barrier and the stores
    of the blocks after the barrier land in the order of the list. *)
Definition run_seen (order : list dim3) (seen : dim3 -> dim3 -> Mem.mem) (o0 : Mem.mem)
  : Mem.mem * Mem.mem :=
  let tmp1 := fold_left (fun tmp b => before_grid_sync b (smem0 b) (smem_md0 b) tmp)
                        blocks tmp0 in
  let o1 := fold_left (fun o_mem b =>
                fst (after_grid_sync_seen b (smem0 b) (smem_md0 b) (seen b) o_mem))
              order o0 in
  let tmp2 := Mem.apply_writes tmp1
                (flat_map (fun b =>
                   snd (after_grid_sync_seen b (smem0 b) (smem_md0 b) (seen b) o0))
                   order) in
  (o1, tmp2).

(** What the loads of an execution can find.  After the barrier only
    the final [m] and [d] are stored into [tmp], below
    [2 * num_heads]: a load from there finds what the barrier left or
    what a block has stored since (any value is allowed here, which
    covers both), a load from elsewhere finds what the barrier left. *)
Definition legal_view (seen : dim3 -> dim3 -> Mem.mem) : Prop :=
  forall b t a, (2 * num_heads <= a)%nat ->
    seen b t a = tmp_at_barrier smem0 smem_md0 tmp0 a.

(** The executions in which the blocks run lines 306-325 one after
    another, each to its end, in the order of the list. *)
Definition run_in_order (order : list dim3) (o0 : Mem.mem) : Mem.mem * Mem.mem :=
  let tmp1 := fold_left (fun tmp b => before_grid_sync b (smem0 b) (smem_md0 b) tmp)
                        blocks tmp0 in
  fold_left (fun st b =>
      let r := after_grid_sync b (smem0 b) (smem_md0 b) (snd st) (fst st) in
      (fst r, Mem.apply_writes (snd st) (snd r)))
    order (o0, tmp1).

(** What block [b] finds in the scratch buffer when the blocks of
    [order] run one after another from [tmp]. *)
Fixpoint tmp_in_order (order : list dim3) (tmp : Mem.mem) (b : dim3) : Mem.mem :=
  match order with
  | [] => tmp
  | b' :: rest =>
      if ((ix b' =? ix b) && (iy b' =? iy b) && (iz b' =? iz b))%nat then tmp
      else tmp_in_order rest
             (Mem.apply_writes tmp
                (snd (after_grid_sync b' (smem0 b') (smem_md0 b') tmp tmp))) b
  end.

(** [run] is the execution in which every load finds what the barrier
    left. *)
Lemma run_as_run_seen o0 :
  run smem0 smem_md0 tmp0 o0
  = run_seen blocks (fun _ _ => tmp_at_barrier smem0 smem_md0 tmp0) o0.
Proof using. reflexivity. Qed.

Lemma dim3_eqb_spec (b b' : dim3) :
  ((ix b' =? ix b) && (iy b' =? iy b) && (iz b' =? iz b))%nat = true <-> b' = b.
Proof using.
  clear. rewrite !andb_true_iff, !Nat.eqb_eq. destruct b, b'; cbn. split.
  - intros [[-> ->] ->]. reflexivity.
  - intros E. injection E as -> -> ->. auto.
Qed.

(** Blocks that run one after another make one of these executions:
    each block finds what the blocks before it have left. *)
Lemma run_in_order_as_run_seen order o0 :
  NoDup order ->
  run_in_order order o0
  = run_seen order
      (fun b _ => tmp_in_order order (tmp_at_barrier smem0 smem_md0 tmp0) b) o0.
Proof using.
  clear Hdim HL Hpow Hlanes Hchunk Hgrid.
  intros Hnd. unfold run_in_order, run_seen. fold (tmp_at_barrier smem0 smem_md0 tmp0).
  generalize (tmp_at_barrier smem0 smem_md0 tmp0) as tmp. intros tmp.
  assert (Hsnd : forall b view o_mem o_mem',
            snd (after_grid_sync_seen b (smem0 b) (smem_md0 b) view o_mem)
            = snd (after_grid_sync_seen b (smem0 b) (smem_md0 b) view o_mem')).
  { intros b view o_mem o_mem'. unfold after_grid_sync_seen.
    destruct (kv_chunk_idx b =? 0)%nat; reflexivity. }
  generalize o0 at 1 2 as o_mem. revert tmp.
  induction order as [|b rest IH]; intros tmp o_mem; [reflexivity|].
  cbn [fold_left flat_map fst snd]. inversion Hnd as [|? ? Hnotin Hnd']; subst.
  rewrite (IH Hnd'). cbn [tmp_in_order].
  assert (Eb : ((ix b =? ix b) && (iy b =? iy b) && (iz b =? iz b))%nat = true)
    by now apply dim3_eqb_spec.
  rewrite Eb.
  assert (Erest : forall b', In b' rest ->
            (if ((ix b =? ix b') && (iy b =? iy b') && (iz b =? iz b'))%nat then tmp
             else tmp_in_order rest
                    (Mem.apply_writes tmp
                       (snd (after_grid_sync b (smem0 b) (smem_md0 b) tmp tmp))) b')
            = tmp_in_order rest
                (Mem.apply_writes tmp
                   (snd (after_grid_sync b (smem0 b) (smem_md0 b) tmp o_mem))) b').
  { intros b' Hb'.
    destruct ((ix b =? ix b') && (iy b =? iy b') && (iz b =? iz b'))%nat eqn:E.
    - apply dim3_eqb_spec in E. subst b'. contradiction.
    - f_equal. f_equal. apply (Hsnd b (fun _ => tmp)). }
  f_equal.
  - apply fold_left_ext_in. intros o' b' Hb'. now rewrite Erest.
  - symmetry. unfold Mem.apply_writes at 1. rewrite fold_left_app.
    fold (Mem.apply_writes tmp
            (snd (after_grid_sync_seen b (smem0 b) (smem_md0 b) (fun _ => tmp) o0))).
    rewrite (Hsnd b (fun _ => tmp) o0 o_mem).
    change (after_grid_sync_seen b (smem0 b) (smem_md0 b) (fun _ => tmp) o_mem)
      with (after_grid_sync b (smem0 b) (smem_md0 b) tmp o_mem).
    match goal with |- fold_left ?f ?l ?a = _ => change (fold_left f l a)
      with (Mem.apply_writes a l) end.
    f_equal. symmetry.
    apply Strided.flat_map_ext_in. intros b' Hb'. now rewrite Erest.
Qed.

Lemma tmp_in_order_legal order :
  (forall b, In b order -> In b blocks) ->
  legal_view (fun b _ => tmp_in_order order (tmp_at_barrier smem0 smem_md0 tmp0) b).
Proof using Hdim HL.
  clear Hpow Hlanes Hchunk Hgrid.
  intros Hin b _ a Ha.
  generalize (tmp_at_barrier smem0 smem_md0 tmp0) as tmp.
  induction order as [|b' rest IH]; intros tmp; [reflexivity|].
  cbn [tmp_in_order].
  destruct ((ix b' =? ix b) && (iy b' =? iy b) && (iz b' =? iz b))%nat; [reflexivity|].
  rewrite IH by (intros b2 Hb2; apply Hin; now right).
  apply Mem.apply_writes_frame. intros w Hw.
  unfold after_grid_sync in Hw.
  destruct (kv_chunk_idx b' =? 0)%nat; cbn [snd] in Hw; [|destruct Hw].
  apply in_flat_map in Hw. destruct Hw as (t & Ht & Hw). apply in_threads in Ht.
  destruct (tmp_final_writes_lt _ _ _ _ _ (Hin b' (or_introl eq_refl)) Ht Hw) as [H1 _].
  lia.
Qed.

(** The [(m, d)] pairs lie above the elements stored to after the
    barrier. *)
Lemma tmp_md_idx_ge h c :
  (2 <= head_dim)%nat -> (0 < num_kv_chunks)%nat ->
  (2 * num_heads <= tmp_md_idx h c)%nat.
Proof using.
  clear Hdim HL Hpow Hlanes Hchunk Hgrid.
  intros H2 Hnc. unfold tmp_md_idx, tmp_md_base.
  assert (H : (num_heads * 1 * 2 <= num_heads * num_kv_chunks * head_dim)%nat).
  { apply Nat.mul_le_mono; [apply Nat.mul_le_mono_l; lia | exact H2]. }
  lia.
Qed.

Lemma same_row_head_lane b t1 t2 :
  in_block bdx bdy bdz t1 -> in_block bdx bdy bdz t2 -> row L t1 = row L t2 ->
  head_idx b t1 = head_idx b t2 /\ pos_lane L t1 = pos_lane L t2.
Proof using Hdim HL.
  clear Hpow Hlanes Hchunk Hgrid.
  intros H1 H2 Hr.
  rewrite (same_row_thread t2 t1 H2 H1 Hr). unfold head_idx.
  rewrite (head_tile _ _ _ _ HL), (lane_tile _ _ _ _ HL). auto.
Qed.

(** A chunk-zero block in any execution: every thread leaves the
    second [sync_state] with the [m] and [d] of the whole sequence, and
    with element [i] of its [o] when none of the partial outputs it is
    merged from lies below [2 * num_heads]. *)
Lemma global_state_seen_final b t (view : dim3 -> Mem.mem) :
  (iy b < iy gridDim)%nat -> in_block bdx bdy bdz t ->
  (2 <= head_dim)%nat -> (0 < num_kv_chunks)%nat ->
  (forall t' a, (2 * num_heads <= a)%nat ->
     view t' a = tmp_at_barrier smem0 smem_md0 tmp0 a) ->
  agree_md (global_state_seen b (smem0 b) (smem_md0 b) view t)
           (final_st (head_idx b t) (ix t))
  /\ forall i, (i < vec_size)%nat ->
       (forall c, (c < num_kv_chunks)%nat ->
          (2 * num_heads <= tmp_o_ptr (head_idx b t) c + ix t * vec_size + i)%nat) ->
       (State.o (global_state_seen b (smem0 b) (smem_md0 b) view t)).[i]
       = (State.o (final_st (head_idx b t) (ix t))).[i].
Proof.
  intros Hy Ht H2 Hnc Hview.
  rewrite <- (global_state_final Hpow Hlanes Hchunk Hgrid smem0 smem_md0 tmp0 b t Hy Ht).
  unfold global_state_seen, global_state.
  assert (Hmd : forall (t1 t2 : dim3) (tmpA tmpB : Mem.mem),
            (forall a, (2 * num_heads <= a)%nat -> tmpA a = tmpB a) ->
            forall c, (c < num_kv_chunks)%nat ->
              tmpA (tmp_md_idx (head_idx b t1) c) = tmpB (tmp_md_idx (head_idx b t1) c)
              /\ tmpA (tmp_md_idx (head_idx b t1) c + 1)%nat
                 = tmpB (tmp_md_idx (head_idx b t1) c + 1)%nat).
  { intros t1 t2 tmpA tmpB HAB c Hc.
    pose proof (tmp_md_idx_ge (head_idx b t1) c H2 Hnc).
    split; apply HAB; lia. }
  destruct (sync_state_agree
              (fun t => global_partial b (view t) t)
              (global_partial b (tmp_at_barrier smem0 smem_md0 tmp0))
              (smem0 b) (smem_md0 b) t Hlanes Ht) as [G1 G2].
  - intros t1 t2 Ht1 Ht2 Hr.
    destruct (same_row_head_lane b t1 t2 Ht1 Ht2 Hr) as [Eh El].
    apply (global_partial_agree b t1 t2 (view t1) (view t2) Eh El).
    apply (Hmd t1 t2). intros a Ha. now rewrite !Hview.
  - intros t1 t2 Ht1 Ht2 Hr.
    destruct (same_row_head_lane b t1 t2 Ht1 Ht2 Hr) as [Eh El].
    apply (global_partial_agree b t1 t2 _ _ Eh El).
    apply (Hmd t1 t2). reflexivity.
  - intros t' Ht'.
    apply (global_partial_agree b t' t' (view t') _ eq_refl eq_refl).
    apply (Hmd t' t'). intros a Ha. now apply Hview.
  - split; [exact G1|].
    intros i Hi Hsafe. apply (G2 i Hi).
    intros t' Ht' Ex Hhead.
    apply (global_partial_agree b t' t' (view t') _ eq_refl eq_refl);
      [ apply (Hmd t' t'); intros a Ha; now apply Hview | exact Hi | reflexivity |].
    intros c Hc. apply Hview. unfold head_idx. rewrite Hhead, Ex.
    now apply Hsafe.
Qed.

Lemma after_grid_sync_seen_stores b view o_mem :
  fst (after_grid_sync_seen b (smem0 b) (smem_md0 b) view o_mem)
  = Mem.block_store threads o_mem (fun t =>
      if (ix b =? 0)%nat
      then o_writes b (global_state_seen b (smem0 b) (smem_md0 b) view) t
      else []).
Proof using.
  clear Hdim HL Hpow Hlanes Hchunk Hgrid.
  unfold after_grid_sync_seen, kv_chunk_idx. destruct (ix b =? 0)%nat; cbn [fst].
  - reflexivity.
  - unfold Mem.block_store.
    assert (E : flat_map (fun _ : dim3 => @nil (nat * R)) threads = []).
    { induction threads as [|t ts IH]; [reflexivity | exact IH]. }
    now rewrite E.
Qed.

(** The final [(m, d)] stores of any execution carry the [m] and [d]
    of the whole sequence. *)
Lemma in_final_stores_seen order seen o_mem a w :
  (forall b, In b order -> In b blocks) -> legal_view seen ->
  (2 <= head_dim)%nat -> (0 < num_kv_chunks)%nat ->
  In (a, w) (flat_map (fun b =>
      snd (after_grid_sync_seen b (smem0 b) (smem_md0 b) (seen b) o_mem)) order) ->
  exists h l, (h < num_heads)%nat /\
    ((a = h /\ w = State.m (final_st h l))
     \/ (a = (num_heads + h)%nat /\ w = State.d (final_st h l))).
Proof.
  intros Hord Hseen H2 Hnc Hin.
  apply in_flat_map in Hin. destruct Hin as (b & Hb & Hin).
  apply Hord in Hb. apply in_blocks in Hb.
  unfold after_grid_sync_seen, kv_chunk_idx in Hin.
  destruct (ix b =? 0)%nat; cbn [snd] in Hin; [|destruct Hin].
  apply in_flat_map in Hin. destruct Hin as (t & Ht & Hin). apply in_threads in Ht.
  unfold tmp_final_writes in Hin.
  destruct (global_state_seen_final b t (seen b)) as [[Em Ed] _];
    [lia | exact Ht | exact H2 | exact Hnc | intros t' a'; apply Hseen |].
  rewrite Em, Ed in Hin.
  exists (head_idx b t), (ix t).
  split; [apply (head_lt _ _ _ _ HL); [lia | exact Ht]|].
  destruct Hin as [E|[E|[]]]; injection E as <- <-; auto.
Qed.

(** The launch in any execution, for the grid the host computes: the
    first [2 * num_heads] elements of the scratch buffer hold the [m]
    and [d] of the state of the whole sequence; the output tensor holds
    element [i] of its [o] for lane [l] when none of the partial
    outputs of that element lies below [2 * num_heads]. *)
Lemma run_seen_result order seen o0 head l :
  (forall b, In b order <-> In b blocks) -> legal_view seen ->
  (2 <= head_dim)%nat -> (0 < seq_len)%nat -> (head < num_heads)%nat -> (l < bdx)%nat ->
  snd (run_seen order seen o0) head = State.m (final_st head l)
  /\ snd (run_seen order seen o0) (num_heads + head)%nat = State.d (final_st head l)
  /\ forall i, (i < vec_size)%nat ->
       (forall c, (c < num_kv_chunks)%nat ->
          (2 * num_heads <= tmp_o_ptr head c + l * vec_size + i)%nat) ->
       fst (run_seen order seen o0) (head * head_dim + l * vec_size + i)%nat
       = (State.o (final_st head l)).[i].
Proof.
  intros Hord Hseen H2 Hseq Hh Hl.
  assert (Hnc : (0 < num_kv_chunks)%nat).
  { rewrite Hgrid. apply Nat.div_str_pos. lia. }
  destruct (head_cover _ _ _ _ HL gridDim head l Hh Hl)
    as (b0 & t0 & Hy0 & Hx0 & Hz0 & Ht0 & Hl0 & Hhead0).
  assert (Hb0 : In b0 order).
  { apply Hord. apply in_blocks. unfold num_kv_chunks in Hnc. lia. }
  destruct (global_state_seen_final b0 t0 (seen b0) Hy0 Ht0 H2 Hnc
              (fun t' a' => Hseen b0 t' a')) as [[Em0 Ed0] Eo0].
  unfold head_idx in Em0, Ed0, Eo0. rewrite Hhead0, Hl0 in Em0, Ed0, Eo0.
  unfold run_seen. cbn [fst snd]. fold (tmp_at_barrier smem0 smem_md0 tmp0).
  split; [|split].
  - apply Mem.apply_writes_agree.
    + apply in_flat_map. exists b0. split; [exact Hb0|].
      unfold after_grid_sync_seen, kv_chunk_idx. rewrite Hx0. cbn [Nat.eqb snd].
      apply in_flat_map. exists t0. split; [now apply in_threads|].
      left. unfold head_idx. now rewrite Em0, Hhead0.
    + intros w' Hw'.
      destruct (in_final_stores_seen order seen o0 _ _ (fun b => proj1 (Hord b))
                  Hseen H2 Hnc Hw') as (h2 & l2 & Hh2 & [(E & ->)|(E & _)]).
      * subst h2. apply st_scores.
      * lia.
  - apply Mem.apply_writes_agree.
    + apply in_flat_map. exists b0. split; [exact Hb0|].
      unfold after_grid_sync_seen, kv_chunk_idx. rewrite Hx0. cbn [Nat.eqb snd].
      apply in_flat_map. exists t0. split; [now apply in_threads|].
      right. left. unfold head_idx. now rewrite Ed0, Hhead0.
    + intros w' Hw'.
      destruct (in_final_stores_seen order seen o0 _ _ (fun b => proj1 (Hord b))
                  Hseen H2 Hnc Hw') as (h2 & l2 & Hh2 & [(E & _)|(E & ->)]).
      * lia.
      * assert (h2 = head) by lia. subst h2. apply st_scores.
  - intros i Hi Hsafe.
    rewrite (fold_left_ext_blocks
               (fun o_mem b => fst (after_grid_sync_seen b (smem0 b) (smem_md0 b)
                                      (seen b) o_mem))
               (fun o_mem b => Mem.block_store threads o_mem (fun t =>
                  if (ix b =? 0)%nat
                  then o_writes b (global_state_seen b (smem0 b) (smem_md0 b) (seen b)) t
                  else [])))
      by (intros; apply after_grid_sync_seen_stores).
    rewrite (fold_block_store (fun b t =>
               if (ix b =? 0)%nat
               then o_writes b (global_state_seen b (smem0 b) (smem_md0 b) (seen b)) t
               else [])).
    apply Mem.apply_writes_agree.
    + apply in_flat_map. exists b0. split; [exact Hb0|].
      apply in_flat_map. exists t0. split; [now apply in_threads|].
      rewrite Hx0. cbn [Nat.eqb]. unfold o_writes. apply Mem.in_store_vec.
      exists i. rewrite (Eo0 i Hi Hsafe). unfold head_idx. rewrite Hhead0, Hl0. auto.
    + intros w' Hw'. apply in_flat_map in Hw'. destruct Hw' as (b & Hb & Hw').
      apply Hord in Hb. apply in_blocks in Hb.
      apply in_flat_map in Hw'. destruct Hw' as (t & Ht & Hw'). apply in_threads in Ht.
      destruct (ix b =? 0)%nat; [|destruct Hw'].
      unfold o_writes in Hw'. apply Mem.in_store_vec in Hw'.
      destruct Hw' as (i2 & Hi2 & Ea & ->).
      assert (Hf : (l * vec_size + i < head_dim)%nat) by now apply lane_elem_lt.
      assert (Hf2 : (ix t * vec_size + i2 < head_dim)%nat)
        by (apply lane_elem_lt; [apply Ht | exact Hi2]).
      destruct (euclid_unique head_dim head (l * vec_size + i) (head_idx b t)
                  (ix t * vec_size + i2)) as [Eh Ef]; [lia | lia | lia |].
      destruct (euclid_unique vec_size l i (ix t) i2) as [El Ei]; [lia | lia | lia |].
      subst i2.
      destruct (global_state_seen_final b t (seen b)) as [_ Eo];
        [lia | exact Ht | exact H2 | exact Hnc | intros t' a'; apply Hseen |].
      rewrite (Eo i Hi) by (rewrite <- Eh, <- El; exact Hsafe).
      now rewrite <- Eh, <- El.
Qed.

(** The same in closed form: nothing the kernel stores is divided. *)
Lemma run_seen_closed_form order seen o0 head l :
  (forall b, In b order <-> In b blocks) -> legal_view seen ->
  (2 <= head_dim)%nat -> (0 < seq_len)%nat -> (head < num_heads)%nat -> (l < bdx)%nat ->
  snd (run_seen order seen o0) head = max_over head (seq 0 seq_len)
  /\ snd (run_seen order seen o0) (num_heads + head)%nat
     = rsum (fun p => exp (score head p - max_over head (seq 0 seq_len)))
            (seq 0 seq_len)
  /\ forall i, (i < vec_size)%nat ->
       (forall c, (c < num_kv_chunks)%nat ->
          (2 * num_heads <= tmp_o_ptr head c + l * vec_size + i)%nat) ->
       fst (run_seen order seen o0) (head * head_dim + l * vec_size + i)%nat
       = rsum (fun p => exp (score head p - max_over head (seq 0 seq_len))
                        * v (kv_row L num_heads seq_len head p * head_dim
                             + l * vec_size + i)%nat)
              (seq 0 seq_len).
Proof.
  intros Hord Hseen H2 Hs Hh Hl.
  destruct (run_seen_result order seen o0 head l Hord Hseen H2 Hs Hh Hl)
    as (Hm & Hd & Ho).
  rewrite Hm, Hd. unfold final_st in *.
  destruct (elems_closed_form head l (seq 0 seq_len)) as (Em & Ed & Eo).
  rewrite Em, Ed. split; [reflexivity|]. split; [reflexivity|].
  intros i Hi Hsafe. rewrite (Ho i Hi Hsafe). now apply Eo.
Qed.

(** Everything the blocks of [order] store into [o] and into [tmp]
    after the barrier, in the execution [seen]. *)
Definition stores_to_output (order : list dim3) (seen : dim3 -> dim3 -> Mem.mem)
  : Mem.writes :=
  flat_map (fun b =>
    if (kv_chunk_idx b =? 0)%nat
    then flat_map (o_writes b (global_state_seen b (smem0 b) (smem_md0 b) (seen b)))
           threads
    else []) order.

Definition stores_after_barrier (order : list dim3) (seen : dim3 -> dim3 -> Mem.mem)
  : Mem.writes :=
  flat_map (fun b =>
    if (kv_chunk_idx b =? 0)%nat
    then flat_map (tmp_final_writes b (global_state_seen b (smem0 b) (smem_md0 b)
                                         (seen b))) threads
    else []) order.

(** The memories an execution leaves are these stores applied. *)
Lemma run_seen_as_stores order seen o0 :
  fst (run_seen order seen o0) = Mem.apply_writes o0 (stores_to_output order seen)
  /\ snd (run_seen order seen o0)
     = Mem.apply_writes (Mem.apply_writes tmp0 (stores_before_barrier smem0 smem_md0))
         (stores_after_barrier order seen).
Proof.
  unfold run_seen. cbn [fst snd]. split.
  - unfold stores_to_output.
    generalize o0 as mm. induction order as [|b bs IH]; intros mm; [reflexivity|].
    cbn [fold_left flat_map]. rewrite IH. unfold Mem.apply_writes at 2.
    rewrite fold_left_app.
    match goal with |- _ = fold_left ?f ?l (fold_left ?f ?l0 ?a) =>
      change (fold_left f l (fold_left f l0 a))
        with (Mem.apply_writes (Mem.apply_writes a l0) l) end.
    f_equal. unfold after_grid_sync_seen.
    destruct (kv_chunk_idx b =? 0)%nat; reflexivity.
  - unfold stores_before_barrier.
    rewrite <- tmp_at_barrier_writes.
    unfold tmp_at_barrier. f_equal.
    unfold stores_after_barrier. apply flat_map_ext. intros b.
    unfold after_grid_sync_seen. destruct (kv_chunk_idx b =? 0)%nat; reflexivity.
Qed.

(** Two threads of a block with the same [threadIdx.x] for which
    [sync_state] reads the same rows leave it with the same state. *)
Lemma global_state_seen_lane b (view : dim3 -> Mem.mem) t1 t2 :
  in_block bdx bdy bdz t1 -> in_block bdx bdy bdz t2 -> ix t1 = ix t2 ->
  (forall j, (j < pos_lanes L)%nat -> sync_row L t1 j = sync_row L t2 j) ->
  (2 <= head_dim)%nat -> (0 < num_kv_chunks)%nat ->
  (forall t' a, (2 * num_heads <= a)%nat ->
     view t' a = tmp_at_barrier smem0 smem_md0 tmp0 a) ->
  global_state_seen b (smem0 b) (smem_md0 b) view t1
  = global_state_seen b (smem0 b) (smem_md0 b) view t2.
Proof.
  intros Ht1 Ht2 Ex Hrows H2 Hnc Hview.
  destruct (choose_below (mk_dim3 0 0 0)
              (fun j t' => in_block bdx bdy bdz t' /\ ix t' = ix t1
                           /\ row L t' = sync_row L t1 j /\ pos_lane L t' = j
                           /\ forall b, head_idx_of L b t' = head_idx_of L b t1)
              (pos_lanes L)) as [P HP].
  { intros j Hj. apply (sync_partner _ _ _ _ HL t1 j Ht1 Hj). }
  assert (Hrow : forall ta tb, in_block bdx bdy bdz ta -> in_block bdx bdy bdz tb ->
            row L ta = row L tb ->
            State.m (global_partial b (view ta) ta) = State.m (global_partial b (view tb) tb)
            /\ State.d (global_partial b (view ta) ta)
               = State.d (global_partial b (view tb) tb)).
  { intros ta tb Hta Htb Hr.
    destruct (same_row_head_lane b ta tb Hta Htb Hr) as [Eh El].
    apply (global_partial_agree b ta tb (view ta) (view tb) Eh El).
    intros c Hc. pose proof (tmp_md_idx_ge (head_idx b ta) c H2 Hnc).
    rewrite !Hview by lia. auto. }
  unfold global_state_seen.
  rewrite (sync_state_rows (fun t => global_partial b (view t) t) _ _ t1 P Hrow Ht1).
  - rewrite (sync_state_rows (fun t => global_partial b (view t) t) _ _ t2 P Hrow Ht2);
      [reflexivity|].
    intros j Hj. destruct (HP j Hj) as (H1 & H3 & H4 & _).
    split; [exact H1|]. split; [lia|]. rewrite H4. now apply Hrows.
  - intros j Hj. destruct (HP j Hj) as (H1 & H3 & H4 & _). auto.
Qed.

Lemma stores_after_barrier_agree order seen a w w' :
  (forall b, In b order -> In b blocks) -> legal_view seen -> (2 <= head_dim)%nat ->
  In (a, w) (stores_after_barrier order seen) ->
  In (a, w') (stores_after_barrier order seen) -> w = w'.
Proof.
  intros Hord Hseen H2 H1 H1'.
  assert (Hone : forall a w, In (a, w) (stores_after_barrier order seen) ->
            exists h l, (h < num_heads)%nat /\
              ((a = h /\ w = State.m (final_st h l))
               \/ (a = (num_heads + h)%nat /\ w = State.d (final_st h l)))).
  { intros a1 w1 Hin.
    assert (Hnc : (0 < num_kv_chunks)%nat).
    { unfold stores_after_barrier in Hin. apply in_flat_map in Hin.
      destruct Hin as (b & Hb & _). apply Hord, in_blocks in Hb.
      unfold num_kv_chunks. lia. }
    apply (in_final_stores_seen order seen tmp0 a1 w1 Hord Hseen H2 Hnc).
    unfold stores_after_barrier in Hin.
    apply in_flat_map in Hin. destruct Hin as (b & Hb & Hin).
    apply in_flat_map. exists b. split; [exact Hb|].
    unfold after_grid_sync_seen. destruct (kv_chunk_idx b =? 0)%nat; exact Hin. }
  destruct (Hone _ _ H1) as (h1 & l1 & Hh1 & C1).
  destruct (Hone _ _ H1') as (h2 & l2 & Hh2 & C2).
  assert (Hsc : forall h l l',
            State.m (final_st h l) = State.m (final_st h l')
            /\ State.d (final_st h l) = State.d (final_st h l'))
    by (intros; apply st_scores).
  destruct C1 as [(E1 & ->)|(E1 & ->)]; destruct C2 as [(E2 & ->)|(E2 & ->)];
    try lia.
  - assert (E : h1 = h2) by lia. rewrite E. apply Hsc.
  - assert (E : h1 = h2) by lia. rewrite E. apply Hsc.
Qed.

(** What a block that has run to its end leaves in the two elements of
    its head, when it found the scratch buffer as the barrier left it. *)
Lemma tmp_after_block b o_mem t :
  In b blocks -> ix b = 0%nat -> in_block bdx bdy bdz t ->
  let tmp' := Mem.apply_writes (tmp_at_barrier smem0 smem_md0 tmp0)
                (snd (after_grid_sync b (smem0 b) (smem_md0 b)
                        (tmp_at_barrier smem0 smem_md0 tmp0) o_mem)) in
  tmp' (head_idx b t) = State.m (final_st (head_idx b t) (ix t))
  /\ tmp' (num_heads + head_idx b t)%nat = State.d (final_st (head_idx b t) (ix t)).
Proof.
  intros Hb Hx Ht tmp'. subst tmp'.
  pose proof Hb as Hb'. apply in_blocks in Hb'.
  assert (Hh : (head_idx b t < num_heads)%nat)
    by (apply (head_lt _ _ _ _ HL); [lia | exact Ht]).
  unfold after_grid_sync, kv_chunk_idx. rewrite Hx. cbn [Nat.eqb snd].
  assert (Hall : forall a w,
            In (a, w) (flat_map (tmp_final_writes b
                 (global_state b (smem0 b) (smem_md0 b)
                    (tmp_at_barrier smem0 smem_md0 tmp0))) threads) ->
            exists t2, in_block bdx bdy bdz t2 /\
              ((a = head_idx b t2 /\ w = State.m (final_st (head_idx b t2) (ix t2)))
               \/ (a = (num_heads + head_idx b t2)%nat
                   /\ w = State.d (final_st (head_idx b t2) (ix t2))))).
  { intros a w Hin. apply in_flat_map in Hin. destruct Hin as (t2 & Ht2 & Hin).
    apply in_threads in Ht2. unfold tmp_final_writes in Hin.
    rewrite (global_state_final Hpow Hlanes Hchunk Hgrid) in Hin by (try exact Ht2; lia).
    exists t2. split; [exact Ht2|].
    destruct Hin as [E|[E|[]]]; injection E as <- <-; auto. }
  assert (Hin : forall t2, in_block bdx bdy bdz t2 -> (head_idx b t2 < num_heads)%nat)
    by (intros t2 Ht2; apply (head_lt _ _ _ _ HL); [lia | exact Ht2]).
  split; apply Mem.apply_writes_agree.
  - apply in_flat_map. exists t. split; [now apply in_threads|].
    left. now rewrite (global_state_final Hpow Hlanes Hchunk Hgrid) by (try exact Ht; lia).
  - intros w' Hw'. destruct (Hall _ _ Hw') as (t2 & Ht2 & [(E & ->)|(E & _)]).
    + rewrite <- E. apply st_scores.
    + pose proof (Hin t2 Ht2). lia.
  - apply in_flat_map. exists t. split; [now apply in_threads|].
    right. left.
    now rewrite (global_state_final Hpow Hlanes Hchunk Hgrid) by (try exact Ht; lia).
  - intros w' Hw'. destruct (Hall _ _ Hw') as (t2 & Ht2 & [(E & _)|(E & ->)]).
    + pose proof (Hin t2 Ht2). lia.
    + assert (E' : head_idx b t2 = head_idx b t) by lia. rewrite E'. apply st_scores.
Qed.

(** A thread that finds zeros in element [i] of the partial outputs it
    is merged from leaves the second [sync_state] with a zero there. *)
Lemma global_partial_o_zero b (tmp : Mem.mem) t i :
  (i < vec_size)%nat ->
  (forall c, (c < num_kv_chunks)%nat ->
     tmp (tmp_o_ptr (head_idx b t) c + ix t * vec_size + i)%nat = 0) ->
  (State.o (global_partial b tmp t)).[i] = 0.
Proof using.
  clear Hdim HL Hpow Hlanes Hchunk Hgrid.
  intros Hi Hz. unfold global_partial.
  assert (H0 : (State.o (State.init vec_size m_init)).[i] = 0).
  { unfold State.init, Vec.fill. cbn [State.o]. now rewrite Vec.get_tab. }
  revert H0. generalize (State.init vec_size m_init) as s0.
  induction (seq 0 ((num_kv_chunks + pos_lanes L - 1) / pos_lanes L)) as [|bt l IH];
    intros s0 H0; [exact H0|].
  cbn [fold_left]. apply IH.
  destruct (bt * pos_lanes L + pos_lane L t <? num_kv_chunks)%nat eqn:E; [|exact H0].
  apply Nat.ltb_lt in E. unfold State.merge_state, State.merge. cbn [State.o State.m State.d].
  rewrite Vec.get_tab by exact Hi. rewrite H0, Vec.get_load by exact Hi.
  rewrite (Hz _ E). lra.
Qed.

Lemma global_state_seen_o_zero b (view : dim3 -> Mem.mem) t i :
  in_block bdx bdy bdz t -> (i < vec_size)%nat ->
  (2 <= head_dim)%nat -> (0 < num_kv_chunks)%nat ->
  (forall t' a, (2 * num_heads <= a)%nat ->
     view t' a = tmp_at_barrier smem0 smem_md0 tmp0 a) ->
  (forall t' c, in_block bdx bdy bdz t' -> ix t' = ix t ->
     head_idx b t' = head_idx b t -> (c < num_kv_chunks)%nat ->
     view t' (tmp_o_ptr (head_idx b t) c + ix t * vec_size + i)%nat = 0) ->
  (State.o (global_state_seen b (smem0 b) (smem_md0 b) view t)).[i] = 0.
Proof.
  intros Ht Hi H2 Hnc Hview Hz.
  destruct (choose_below (mk_dim3 0 0 0)
              (fun j t' => in_block bdx bdy bdz t' /\ ix t' = ix t
                           /\ row L t' = sync_row L t j /\ pos_lane L t' = j
                           /\ forall b, head_idx_of L b t' = head_idx_of L b t)
              (pos_lanes L)) as [P HP].
  { intros j Hj. apply (sync_partner _ _ _ _ HL t j Ht Hj). }
  unfold global_state_seen.
  rewrite (sync_state_rows (fun t => global_partial b (view t) t) _ _ t P).
  - assert (H0 : (State.o (State.init vec_size m_init)).[i] = 0).
    { unfold State.init, Vec.fill. cbn [State.o]. now rewrite Vec.get_tab. }
    assert (Hl : forall j, In j (seq 0 (pos_lanes L)) -> (j < pos_lanes L)%nat)
      by (intros j Hj; apply in_seq in Hj; lia).
    revert H0 Hl. generalize (State.init vec_size m_init) as s0.
    induction (seq 0 (pos_lanes L)) as [|j l IH]; intros s0 H0 Hl; [exact H0|].
    cbn [fold_left]. apply IH; [|intros j' Hj'; apply Hl; now right].
    destruct (HP j) as (Hin & Hx & _ & _ & Hhead); [apply Hl; now left|].
    unfold State.merge_state, State.merge. cbn [State.o].
    rewrite Vec.get_tab by exact Hi. rewrite H0.
    rewrite (global_partial_o_zero b (view (P j)) (P j) i Hi).
    + lra.
    + intros c Hc. unfold head_idx in *. rewrite Hhead, Hx.
      apply Hz; [exact Hin | exact Hx | apply Hhead | exact Hc].
  - intros ta tb Hta Htb Hr.
    destruct (same_row_head_lane b ta tb Hta Htb Hr) as [Eh El].
    apply (global_partial_agree b ta tb (view ta) (view tb) Eh El).
    intros c Hc. pose proof (tmp_md_idx_ge (head_idx b ta) c H2 Hnc).
    rewrite !Hview by lia. auto.
  - exact Ht.
  - intros j Hj. destruct (HP j Hj) as (H1 & H3 & H4 & _). auto.
Qed.

(** An element of the output tensor holds what its stores carry. *)
Lemma run_seen_output order seen o0 a w :
  In (a, w) (stores_to_output order seen) ->
  (forall w', In (a, w') (stores_to_output order seen) -> w' = w) ->
  fst (run_seen order seen o0) a = w.
Proof.
  intros Hin Hall. rewrite (proj1 (run_seen_as_stores order seen o0)).
  apply Mem.apply_writes_agree; [exact Hin|].
  intros w' Hw'. now apply Hall.
Qed.

End Executions.

(** With [kNone] a query of zeros scores zero against every key. *)
Lemma score_zero_query head p :
  rotary_mode = kNone -> (forall a, q a = 0) -> score head p = 0.
Proof using.
  clear Hdim HL.
  intros Hr Hq. unfold score.
  assert (Z0 : forall {A} (l : list A), rsum (fun _ => 0) l = 0).
  { intros A l. induction l as [|x l IH]; [reflexivity|].
    cbn [rsum fold_right]. fold (rsum (fun _ : A => 0) l). rewrite IH. lra. }
  rewrite (rsum_ext _ (fun _ => 0)); [apply Z0|].
  intros l _. rewrite (rsum_ext _ (fun _ => 0)); [apply Z0|].
  intros i Hi. apply in_seq in Hi.
  unfold q_vec, Vec.cast_load. rewrite Hr. rewrite Vec.get_load by lia.
  rewrite Hq. lra.
Qed.

Lemma rsum_const {A} (c : R) (l : list A) : rsum (fun _ => c) l = INR (length l) * c.
Proof using.
  clear Hdim HL.
  induction l as [|x l IH]; [cbn; lra|].
  cbn [rsum fold_right length]. fold (rsum (fun _ : A => c) l). rewrite IH, S_INR. lra.
Qed.

(** With a query of zeros, values that are all 1 and an initial maximum
    that is not positive, the state of a non-empty sequence has
    [m = 0] and holds the number of positions in [d] and in every
    element of [o]. *)
Lemma final_st_zero_query head l :
  rotary_mode = kNone -> (forall a, q a = 0) -> (forall a, v a = 1) ->
  m_init <= 0 -> (0 < seq_len)%nat ->
  State.m (final_st head l) = 0 /\ State.d (final_st head l) = INR seq_len
  /\ forall i, (i < vec_size)%nat -> (State.o (final_st head l)).[i] = INR seq_len.
Proof using.
  clear Hdim HL.
  intros Hr Hq Hv Hm Hs. unfold final_st.
  destruct (elems_closed_form head l (seq 0 seq_len)) as (Em & Ed & Eo).
  assert (Hmax : max_over head (seq 0 seq_len) = 0).
  { unfold max_over. destruct seq_len as [|n]; [lia|].
    cbn [seq fold_right]. rewrite (score_zero_query head 0 Hr Hq).
    generalize (seq 1 n) as P. intros P.
    assert (H : fold_right (fun p acc => Rmax (score head p) acc) m_init P <= 0).
    { induction P as [|p P IH]; cbn [fold_right]; [exact Hm|].
      rewrite (score_zero_query head p Hr Hq). now apply Rmax_lub; [lra|]. }
    now apply Rmax_left. }
  rewrite Em, Ed, Hmax. split; [reflexivity|]. split.
  - rewrite (rsum_ext _ (fun _ => 1)).
    + rewrite rsum_const, length_seq. lra.
    + intros p _. rewrite (score_zero_query head p Hr Hq).
      replace (0 - 0) with 0 by lra. apply exp_0.
  - intros i Hi. rewrite (Eo i Hi), Hmax. rewrite (rsum_ext _ (fun _ => 1)).
    + rewrite rsum_const, length_seq. lra.
    + intros p _. rewrite (score_zero_query head p Hr Hq), Hv.
      replace (0 - 0) with 0 by lra. rewrite exp_0. lra.
Qed.

End Kernel.
End Decode.

(** The index expressions of the HND kernel: [blockDim = (bdx, bdy)],
    one head per block, positions spread over [threadIdx.y]. *)
Module HND.
Definition layout (bdy : nat) : Decode.layout :=
  {| Decode.row := fun t => iy t;
     Decode.pos_lane := fun t => iy t;
     Decode.pos_lanes := bdy;
     Decode.rows := bdy;
     Decode.sync_row := fun t j => j;
     Decode.head_idx_of := fun blockIdx t => iy blockIdx;
     Decode.num_heads_of := fun gridDim => iy gridDim;
     Decode.kv_row := fun num_heads seq_len head_idx kv_idx =>
                        head_idx * seq_len + kv_idx;
     Decode.tmp_slot := fun num_heads num_kv_chunks head_idx kv_chunk_idx =>
                          head_idx * num_kv_chunks + kv_chunk_idx |}.

(** The functions of [namespace HND]. *)
Definition compute_qk rotary_mode head_dim vec_size bdx bdy :=
  Decode.compute_qk rotary_mode head_dim vec_size bdx (layout bdy).
Definition update_partial_state head_dim vec_size bdy :=
  Decode.update_partial_state head_dim vec_size (layout bdy).
Definition sync_state head_dim vec_size bdx bdy :=
  Decode.sync_state head_dim vec_size bdx bdy 1 (layout bdy).
(** The kernel: the remaining arguments are those of [Decode.run_seen],
    the order in which the stores of the blocks land after the barrier
    and what every thread finds in [tmp] then among them. *)
Definition SingleDecodeWithKVCacheKernel rotary_mode head_dim vec_size bdx bdy :=
  Decode.run_seen rotary_mode head_dim vec_size bdx bdy 1 (layout bdy).

(** The index expressions as the HND kernel writes them. *)
Lemma hnd_index_expressions head_dim vec_size bdy seq_len gridDim blockIdx t stage
    kv_idx head_idx kv_chunk_idx :
  Decode.smem_ptr head_dim vec_size (layout bdy) stage t
  = nth stage [0; 1 * bdy * head_dim; 2 * bdy * head_dim; 3 * bdy * head_dim] 0
    + iy t * head_dim + ix t * vec_size
  /\ Decode.kv_ptr head_dim vec_size (layout bdy) seq_len gridDim blockIdx t kv_idx
     = (iy blockIdx * seq_len + kv_idx) * head_dim + ix t * vec_size
  /\ Decode.tmp_o_ptr head_dim (layout bdy) gridDim head_idx kv_chunk_idx
     = (head_idx * ix gridDim + kv_chunk_idx) * head_dim
  /\ Decode.tmp_md_idx head_dim (layout bdy) gridDim head_idx kv_chunk_idx
     = iy gridDim * ix gridDim * head_dim + (head_idx * ix gridDim + kv_chunk_idx) * 2.
Proof. repeat split. Qed.

(** The element [tmp[head_idx]] that receives the final [m] of a head
    is an element of the partial output of head 0, chunk 0 (and
    [tmp[num_heads + head_idx]] lies in the partial outputs as well).
    The kernel has no barrier between these stores and the loads of
    the other chunk-zero blocks: [Decode.run] is the execution in which
    the stores land after all loads, [Decode.run_seen] covers the
    others. *)
Lemma hnd_final_m_slot_in_partial_output head_dim bdy gridDim head_idx :
  head_idx < head_dim ->
  Decode.tmp_o_ptr head_dim (layout bdy) gridDim 0 0 + head_idx = head_idx
  /\ Decode.tmp_o_ptr head_dim (layout bdy) gridDim 0 0 + head_idx
     < Decode.tmp_o_ptr head_dim (layout bdy) gridDim 0 0 + head_dim.
Proof. intros H. unfold Decode.tmp_o_ptr. cbn. lia. Qed.

Lemma hnd_layout_ok bdx bdy : 0 < bdy -> Decode.layout_ok bdx bdy 1 (layout bdy).
Proof.
  intros Hy. constructor; unfold Decode.in_block; cbn.
  - intros t H. lia.
  - intros t1 t2 H1 H2 E. lia.
  - intros t H. lia.
  - reflexivity.
  - reflexivity.
  - reflexivity.
  - reflexivity.
  - intros t j H Hj. exists (mk_dim3 (ix t) j (iz t)). cbn. repeat split; lia.
  - intros b b' t E. exact E.
  - intros g b t Hb H. exact Hb.
  - intros g head l Hh Hl. exists (mk_dim3 0 head 0), (mk_dim3 l 0 0). cbn.
    repeat split; lia.
  - intros nh nc h c Hh Hc. nia.
  - intros nh nc h c h' c' Hh Hc Hh' Hc' E.
    assert (h = h'); [|lia].
    assert (E1 : (h * nc + c) / nc = h).
    { rewrite Nat.div_add_l by lia. rewrite Nat.div_small by lia. lia. }
    assert (E2 : (h' * nc + c') / nc = h').
    { rewrite Nat.div_add_l by lia. rewrite Nat.div_small by lia. lia. }
    congruence.
Qed.
End HND.

(** The index expressions of the NHD kernel: [blockDim = (bdx, bdy, bdz)],
    [bdy] heads per block, positions spread over [threadIdx.z]. *)
Module NHD.
Definition layout (bdy bdz : nat) : Decode.layout :=
  {| Decode.row := fun t => iz t * bdy + iy t;
     Decode.pos_lane := fun t => iz t;
     Decode.pos_lanes := bdz;
     Decode.rows := bdz * bdy;
     Decode.sync_row := fun t j => j * bdy + iy t;
     Decode.head_idx_of := fun blockIdx t => iy blockIdx * bdy + iy t;
     Decode.num_heads_of := fun gridDim => iy gridDim * bdy;
     Decode.kv_row := fun num_heads seq_len head_idx kv_idx =>
                        kv_idx * num_heads + head_idx;
     Decode.tmp_slot := fun num_heads num_kv_chunks head_idx kv_chunk_idx =>
                          kv_chunk_idx * num_heads + head_idx |}.

(** The functions of [namespace NHD]. *)
Definition compute_qk rotary_mode head_dim vec_size bdx bdy bdz :=
  Decode.compute_qk rotary_mode head_dim vec_size bdx (layout bdy bdz).
Definition update_partial_state head_dim vec_size bdy bdz :=
  Decode.update_partial_state head_dim vec_size (layout bdy bdz).
Definition sync_state head_dim vec_size bdx bdy bdz :=
  Decode.sync_state head_dim vec_size bdx bdy bdz (layout bdy bdz).
(** The kernel, with the arguments of [Decode.run_seen]. *)
Definition SingleDecodeWithKVCacheKernel rotary_mode head_dim vec_size bdx bdy bdz :=
  Decode.run_seen rotary_mode head_dim vec_size bdx bdy bdz (layout bdy bdz).

(** The index expressions as the NHD kernel writes them. *)
Lemma nhd_index_expressions head_dim vec_size bdy bdz seq_len gridDim blockIdx t stage
    kv_idx head_idx kv_chunk_idx :
  Decode.smem_ptr head_dim vec_size (layout bdy bdz) stage t
  = nth stage [0; 1 * (bdz * bdy) * head_dim; 2 * (bdz * bdy) * head_dim;
               3 * (bdz * bdy) * head_dim] 0
    + (iz t * bdy + iy t) * head_dim + ix t * vec_size
  /\ Decode.kv_ptr head_dim vec_size (layout bdy bdz) seq_len gridDim blockIdx t kv_idx
     = (kv_idx * (iy gridDim * bdy) + (iy blockIdx * bdy + iy t)) * head_dim
       + ix t * vec_size
  /\ Decode.tmp_o_ptr head_dim (layout bdy bdz) gridDim head_idx kv_chunk_idx
     = (kv_chunk_idx * (iy gridDim * bdy) + head_idx) * head_dim
  /\ Decode.tmp_md_idx head_dim (layout bdy bdz) gridDim head_idx kv_chunk_idx
     = iy gridDim * bdy * ix gridDim * head_dim
       + (kv_chunk_idx * (iy gridDim * bdy) + head_idx) * 2.
Proof. repeat split. Qed.

Lemma nhd_layout_ok bdx bdy bdz :
  0 < bdy -> 0 < bdz -> Decode.layout_ok bdx bdy bdz (layout bdy bdz).
Proof.
  intros Hy Hz.
  assert (Heu : forall n a r a' r', r < n -> r' < n -> a * n + r = a' * n + r' ->
                  a = a' /\ r = r').
  { intros n a r a' r' Hr Hr' E.
    assert (E1 : (a * n + r) / n = a).
    { rewrite Nat.div_add_l by lia. rewrite Nat.div_small by lia. lia. }
    assert (E2 : (a' * n + r') / n = a').
    { rewrite Nat.div_add_l by lia. rewrite Nat.div_small by lia. lia. }
    assert (a = a') by congruence. subst. lia. }
  constructor; unfold Decode.in_block; cbn.
  - intros t H. nia.
  - intros t1 t2 H1 H2 E.
    destruct (Heu bdy (iz t1) (iy t1) (iz t2) (iy t2)); try lia.
  - intros t H. lia.
  - reflexivity.
  - reflexivity.
  - reflexivity.
  - reflexivity.
  - intros t j H Hj. exists (mk_dim3 (ix t) (iy t) j). cbn. repeat split; lia.
  - intros b b' t E. now rewrite E.
  - intros g b t Hb H. nia.
  - intros g head l Hh Hl.
    exists (mk_dim3 0 (head / bdy) 0), (mk_dim3 l (head mod bdy) 0). cbn.
    pose proof (Nat.div_mod_eq head bdy).
    pose proof (Nat.mod_upper_bound head bdy).
    repeat split; try lia.
    apply Nat.Div0.div_lt_upper_bound. lia.
  - intros nh nc h c Hh Hc. nia.
  - intros nh nc h c h' c' Hh Hc Hh' Hc' E.
    destruct (Heu nh c h c' h'); try lia.
Qed.
End NHD.

(** * The kernel instance a call dispatches to *)

Section Dispatch.
Import Host.
Local Open Scope Z_scope.

(** The template instances the launcher refers to (lines 732-737 and
    766-770), and the block each is launched with (lines 750, 783). *)
Definition kernel_NHD (sizeof_DTypeIn : Z) (ROTARY_MODE : RotaryMode) (HEAD_DIM : Z)
  : kernel_id :=
  {| k_layout := kNHD; k_rotary := ROTARY_MODE; k_head_dim := HEAD_DIM;
     k_vec_size := vec_size_of sizeof_DTypeIn HEAD_DIM;
     k_bdx := bdx_of sizeof_DTypeIn HEAD_DIM;
     k_bdy := 32 / bdx_of sizeof_DTypeIn HEAD_DIM;
     k_bdz := 4 |}.

Definition kernel_HND (sizeof_DTypeIn : Z) (ROTARY_MODE : RotaryMode) (HEAD_DIM : Z)
  : kernel_id :=
  {| k_layout := kHND; k_rotary := ROTARY_MODE; k_head_dim := HEAD_DIM;
     k_vec_size := vec_size_of sizeof_DTypeIn HEAD_DIM;
     k_bdx := bdx_of sizeof_DTypeIn HEAD_DIM;
     k_bdy := 128 / bdx_of sizeof_DTypeIn HEAD_DIM;
     k_bdz := 1 |}.

Definition nthrs_of (kernel : kernel_id) : dim3 :=
  {| dim_x := k_bdx kernel; dim_y := k_bdy kernel; dim_z := k_bdz kernel |}.

(** The grid computation of the branch a kernel instance belongs to. *)
Definition grid_of (kernel : kernel_id) (num_blocks_per_sm num_sm num_heads seq_len : Z)
  : M (Z * dim3) :=
  match k_layout kernel with
  | kNHD => grid_NHD (k_bdy kernel) num_blocks_per_sm num_sm num_heads seq_len
  | _ => grid_HND num_blocks_per_sm num_sm num_heads seq_len
  end.

Definition kernel_of (sizeof_DTypeIn : Z) (qkv_layout : QKVLayout)
    (ROTARY_MODE : RotaryMode) (HEAD_DIM : Z) : kernel_id :=
  match qkv_layout with
  | kNHD => kernel_NHD sizeof_DTypeIn ROTARY_MODE HEAD_DIM
  | _ => kernel_HND sizeof_DTypeIn ROTARY_MODE HEAD_DIM
  end.

Lemma grid_NHD_pure bdy nbps nsm num_heads seq_len tr :
  grid_NHD bdy nbps nsm num_heads seq_len tr
  = (fst (grid_NHD bdy nbps nsm num_heads seq_len []), tr).
Proof.
  unfold grid_NHD. cbv zeta.
  rewrite !bind_div_rt.
  repeat match goal with
         | |- context [?x =? 0] => destruct (x =? 0)
         end; reflexivity.
Qed.

Lemma grid_HND_pure nbps nsm num_heads seq_len tr :
  grid_HND nbps nsm num_heads seq_len tr
  = (fst (grid_HND nbps nsm num_heads seq_len []), tr).
Proof.
  unfold grid_HND. cbv zeta.
  rewrite !bind_div_rt.
  repeat match goal with
         | |- context [?x =? 0] => destruct (x =? 0)
         end; reflexivity.
Qed.

Lemma grid_of_trace kernel nbps nsm num_heads seq_len tr :
  snd (grid_of kernel nbps nsm num_heads seq_len tr) = tr.
Proof.
  unfold grid_of. destruct (k_layout kernel);
    [apply grid_NHD_trace | apply grid_HND_trace | apply grid_HND_trace].
Qed.

(** What a call with a supported configuration does, step by step. *)
Lemma supported_call sizeof_DTypeIn rt NDEBUG num_heads seq_len head_dim qkv_layout
    rotary_mode dev_id :
  In head_dim [64; 128; 256] -> In qkv_layout [kNHD; kHND] ->
  In rotary_mode [kNone; kApplyRotary] ->
  let kernel := kernel_of sizeof_DTypeIn qkv_layout rotary_mode head_dim in
  let q1 := cudaDeviceGetAttribute rt dev_id in
  let q2 := cudaOccupancyMaxActiveBlocksPerMultiprocessor rt kernel in
  SingleDecodeWithKVCache sizeof_DTypeIn rt NDEBUG num_heads seq_len head_dim
    qkv_layout rotary_mode dev_id
  = if negb (fst q1 =? cudaSuccess) then (Return (fst q1), [EvDeviceGetAttribute dev_id])
    else if negb (fst q2 =? cudaSuccess)
    then (Return (fst q2), [EvDeviceGetAttribute dev_id; EvOccupancy kernel])
    else match fst (grid_of kernel (snd q2) (snd q1) num_heads seq_len []) with
         | inr e => (e, [EvDeviceGetAttribute dev_id; EvOccupancy kernel])
         | inl (kv_chunk_size, nblks) =>
             if NDEBUG || (0 <? dim_x nblks) && (0 <? dim_y nblks)
             then (Return (cudaLaunchCooperativeKernel rt kernel nblks (nthrs_of kernel)
                             kv_chunk_size),
                   [EvDeviceGetAttribute dev_id; EvOccupancy kernel;
                    EvLaunchCooperativeKernel kernel nblks (nthrs_of kernel) kv_chunk_size])
             else (Abort, [EvDeviceGetAttribute dev_id; EvOccupancy kernel])
         end.
Proof.
  intros Hhd Hlay Hrm. simpl in Hhd, Hlay, Hrm.
  unfold SingleDecodeWithKVCache, SingleDecodeWithKVCache_body.
  destruct Hlay as [<-|[<-|[]]]; destruct Hrm as [<-|[<-|[]]];
    destruct Hhd as [<-|[<-|[<-|[]]]];
    cbn [SWITCH_HEAD_DIM SWITCH_ROTARY_MODE Z.eqb Pos.eqb kernel_of];
    unfold launch_NHD, launch_HND, bind, emit, CUDA_CALL, stop, ret, assert_,
      kernel_NHD, kernel_HND, nthrs_of, grid_of;
    cbn [k_layout k_bdx k_bdy k_bdz]; cbv zeta;
    destruct (cudaDeviceGetAttribute rt dev_id) as [e1 num_sm]; cbn [fst snd];
    (destruct (e1 =? cudaSuccess) eqn:E1; cbn [negb app]; [|reflexivity]);
    match goal with
    | |- context [cudaOccupancyMaxActiveBlocksPerMultiprocessor rt ?k] =>
        destruct (cudaOccupancyMaxActiveBlocksPerMultiprocessor rt k) as [e2 nb]
    end; cbn [fst snd];
    (destruct (e2 =? cudaSuccess) eqn:E2; cbn [negb app]; [|reflexivity]);
    rewrite ?(grid_NHD_pure _ _ _ _ _ (_ :: _)), ?(grid_HND_pure _ _ _ _ (_ :: _));
    (match goal with
     | |- context [fst ?g] => destruct (fst g) as [[c0 nb0]|en]
     end; [|reflexivity]);
    (destruct (NDEBUG || _)%bool; [|reflexivity]);
    (match goal with
     | |- context [cudaLaunchCooperativeKernel rt ?k ?a ?b ?c =? _] =>
         destruct (cudaLaunchCooperativeKernel rt k a b c =? cudaSuccess) eqn:El
     end; cbn [app]; [apply Z.eqb_eq in El; now rewrite El | reflexivity]).
Qed.

End Dispatch.

(** * The claims of the specification *)

Section HostClaims.
Import Host.
Local Open Scope Z_scope.

(** C8.  Configuration errors are fatal before anything is asked of the
    device: for a head dimension outside 64, 128, 256, a rotary mode
    other than [kNone] and [kApplyRotary], or a layout other than [kNHD]
    and [kHND], the call ends in [abort()] having only written to
    [std::cerr].  With a supported configuration, a failing
    multiprocessor-count query, and after it a failing occupancy query
    for the kernel instance the call dispatches to (whatever the query
    would answer for other instances), makes the call return that error
    code with no launch attempted. *)
Theorem SingleDecodeWithKVCache_error_handling :
  (forall sizeof_DTypeIn rt NDEBUG num_heads seq_len head_dim qkv_layout rotary_mode dev_id,
      head_dim <> 64 -> head_dim <> 128 -> head_dim <> 256 ->
      exists msg,
        SingleDecodeWithKVCache sizeof_DTypeIn rt NDEBUG num_heads seq_len head_dim
          qkv_layout rotary_mode dev_id = (Abort, [EvCerr msg]))
  /\ (forall sizeof_DTypeIn rt NDEBUG num_heads seq_len head_dim qkv_layout n dev_id,
      exists msg,
        SingleDecodeWithKVCache sizeof_DTypeIn rt NDEBUG num_heads seq_len head_dim
          qkv_layout (RotaryMode_other n) dev_id = (Abort, [EvCerr msg]))
  /\ (forall sizeof_DTypeIn rt NDEBUG num_heads seq_len head_dim n rotary_mode dev_id,
      exists msg,
        SingleDecodeWithKVCache sizeof_DTypeIn rt NDEBUG num_heads seq_len head_dim
          (QKVLayout_other n) rotary_mode dev_id = (Abort, [EvCerr msg]))
  /\ (forall sizeof_DTypeIn rt NDEBUG num_heads seq_len head_dim qkv_layout rotary_mode dev_id e,
      In head_dim [64; 128; 256] ->
      In qkv_layout [kNHD; kHND] ->
      In rotary_mode [kNone; kApplyRotary] ->
      e <> cudaSuccess ->
      fst (cudaDeviceGetAttribute rt dev_id) = e ->
      SingleDecodeWithKVCache sizeof_DTypeIn rt NDEBUG num_heads seq_len head_dim
        qkv_layout rotary_mode dev_id = (Return e, [EvDeviceGetAttribute dev_id]))
  /\ (forall sizeof_DTypeIn rt NDEBUG num_heads seq_len head_dim qkv_layout rotary_mode dev_id e,
      In head_dim [64; 128; 256] ->
      In qkv_layout [kNHD; kHND] ->
      In rotary_mode [kNone; kApplyRotary] ->
      fst (cudaDeviceGetAttribute rt dev_id) = cudaSuccess ->
      e <> cudaSuccess ->
      fst (cudaOccupancyMaxActiveBlocksPerMultiprocessor rt
             (kernel_of sizeof_DTypeIn qkv_layout rotary_mode head_dim)) = e ->
      SingleDecodeWithKVCache sizeof_DTypeIn rt NDEBUG num_heads seq_len head_dim
        qkv_layout rotary_mode dev_id
      = (Return e, [EvDeviceGetAttribute dev_id;
                    EvOccupancy (kernel_of sizeof_DTypeIn qkv_layout rotary_mode
                                   head_dim)])).
Proof.
  repeat split.
  - intros sz rt nd nh sl hd lay rm dev H1 H2 H3.
    apply Z.eqb_neq in H1, H2, H3.
    unfold SingleDecodeWithKVCache, SingleDecodeWithKVCache_body, SWITCH_HEAD_DIM.
    rewrite H1, H2, H3. destruct lay; eexists; reflexivity.
  - intros sz rt nd nh sl hd lay n dev.
    unfold SingleDecodeWithKVCache, SingleDecodeWithKVCache_body, SWITCH_HEAD_DIM.
    destruct lay; [| |eexists; reflexivity];
      destruct (hd =? 64); try (eexists; reflexivity);
      destruct (hd =? 128); try (eexists; reflexivity);
      destruct (hd =? 256); eexists; reflexivity.
  - intros. eexists; reflexivity.
  - intros sz rt nd nh sl hd lay rm dev e Hhd Hlay Hrm He Hq.
    apply Z.eqb_neq in He.
    unfold SingleDecodeWithKVCache, SingleDecodeWithKVCache_body.
    simpl in Hhd, Hlay, Hrm.
    destruct Hlay as [<-|[<-|[]]]; destruct Hrm as [<-|[<-|[]]];
      destruct Hhd as [<-|[<-|[<-|[]]]];
      cbn [SWITCH_HEAD_DIM SWITCH_ROTARY_MODE Z.eqb Pos.eqb];
      unfold launch_NHD, launch_HND, bind, emit, CUDA_CALL, stop, ret;
      destruct (cudaDeviceGetAttribute rt dev) as [e1 num_sm]; cbn [fst] in Hq;
      subst e1; rewrite He; reflexivity.
  - intros sz rt nd nh sl hd lay rm dev e Hhd Hlay Hrm Hq He Ho.
    apply Z.eqb_neq in He.
    rewrite (supported_call sz rt nd nh sl hd lay rm dev Hhd Hlay Hrm). cbv zeta.
    rewrite Hq, Ho, He. reflexivity.
Qed.

(** A runtime for the examples: 2 multiprocessors, 8 resident blocks on
    each, every call succeeding. *)
Definition example_runtime : cuda_runtime :=
  {| cudaDeviceGetAttribute := fun _ => (cudaSuccess, 2);
     cudaOccupancyMaxActiveBlocksPerMultiprocessor := fun _ => (cudaSuccess, 8);
     cudaLaunchCooperativeKernel := fun _ _ _ _ => cudaSuccess |}.

(** The same device, refusing every launch with error 720. *)
Definition refusing_runtime : cuda_runtime :=
  {| cudaDeviceGetAttribute := fun _ => (cudaSuccess, 2);
     cudaOccupancyMaxActiveBlocksPerMultiprocessor := fun _ => (cudaSuccess, 8);
     cudaLaunchCooperativeKernel := fun _ _ _ _ => 720 |}.

(** The same device, on which the occupancy query fails with error 98
    for the NHD instance of head dimension 128 without rotary
    embedding for 2-byte elements, and succeeds for every other. *)
Definition picky_runtime : cuda_runtime :=
  {| cudaDeviceGetAttribute := fun _ => (cudaSuccess, 2);
     cudaOccupancyMaxActiveBlocksPerMultiprocessor := fun kernel =>
       match k_layout kernel, k_rotary kernel with
       | kNHD, kNone => if k_head_dim kernel =? 128 then (98, 0) else (cudaSuccess, 8)
       | _, _ => (cudaSuccess, 8)
       end;
     cudaLaunchCooperativeKernel := fun _ _ _ _ => cudaSuccess |}.

Lemma SingleDecodeWithKVCache_error_handling_witness :
  (exists msg, SingleDecodeWithKVCache 2 example_runtime false 32 100 100 kNHD kNone 0
               = (Abort, [EvCerr msg]))
  /\ (exists msg, SingleDecodeWithKVCache 2 example_runtime false 32 100 128 kNHD
                    (RotaryMode_other 7) 0 = (Abort, [EvCerr msg]))
  /\ SingleDecodeWithKVCache 2 picky_runtime false 32 100 128 kNHD kNone 0
     = (Return 98, [EvDeviceGetAttribute 0; EvOccupancy (kernel_of 2 kNHD kNone 128)])
  /\ fst (cudaOccupancyMaxActiveBlocksPerMultiprocessor picky_runtime
            (kernel_of 2 kHND kNone 128)) = cudaSuccess.
Proof.
  split; [|split; [|split]].
  - apply (proj1 SingleDecodeWithKVCache_error_handling); lia.
  - apply (proj1 (proj2 SingleDecodeWithKVCache_error_handling)).
  - apply (proj2 (proj2 (proj2 (proj2 SingleDecodeWithKVCache_error_handling)))).
    + right. left. reflexivity.
    + left. reflexivity.
    + left. reflexivity.
    + reflexivity.
    + discriminate.
    + reflexivity.
  - reflexivity.
Defined.

Lemma launch_result_returned sizeof_DTypeIn rt NDEBUG num_heads seq_len head_dim
    qkv_layout rotary_mode dev_id kernel nblks nthrs kv_chunk_size :
  In (EvLaunchCooperativeKernel kernel nblks nthrs kv_chunk_size)
     (snd (SingleDecodeWithKVCache sizeof_DTypeIn rt NDEBUG num_heads seq_len head_dim
             qkv_layout rotary_mode dev_id)) ->
  fst (SingleDecodeWithKVCache sizeof_DTypeIn rt NDEBUG num_heads seq_len head_dim
         qkv_layout rotary_mode dev_id)
  = Return (cudaLaunchCooperativeKernel rt kernel nblks nthrs kv_chunk_size).
Proof.
  unfold SingleDecodeWithKVCache, SingleDecodeWithKVCache_body, SWITCH_HEAD_DIM,
    SWITCH_ROTARY_MODE.
  assert (Hno : forall ev : event, In ev [] -> False) by (intros ? []).
  destruct qkv_layout;
    [ | | cbn; intros [H|[]]; discriminate H ];
    (destruct (head_dim =? 64);
     [| destruct (head_dim =? 128);
        [| destruct (head_dim =? 256); [| cbn; intros [H|[]]; discriminate H ]]]);
    (destruct rotary_mode; [ | | cbn; intros [H|[]]; discriminate H ]);
    unfold launch_NHD, launch_HND, bind, emit, CUDA_CALL, stop, ret, assert_;
    destruct (cudaDeviceGetAttribute rt dev_id) as [e1 num_sm];
    (destruct (e1 =? cudaSuccess); [| cbn; intros [H|[]]; discriminate H ]);
    match goal with
    | |- context [cudaOccupancyMaxActiveBlocksPerMultiprocessor rt ?k] =>
        destruct (cudaOccupancyMaxActiveBlocksPerMultiprocessor rt k) as [e2 nb]
    end;
    (destruct (e2 =? cudaSuccess); [| cbn; intros [H|[H|[]]]; discriminate H ]);
    match goal with
    | |- context [grid_NHD ?a ?b ?c ?d ?e ?t] =>
        pose proof (grid_NHD_trace a b c d e t) as Ht;
        destruct (grid_NHD a b c d e t) as [[[c0 nb0]|en] tr0]
    | |- context [grid_HND ?b ?c ?d ?e ?t] =>
        pose proof (grid_HND_trace b c d e t) as Ht;
        destruct (grid_HND b c d e t) as [[[c0 nb0]|en] tr0]
    end;
    cbn [snd] in Ht; subst tr0;
    try (cbn; intros [H|[H|[]]]; discriminate H);
    (destruct (NDEBUG || _)%bool; [| cbn; intros [H|[H|[]]]; discriminate H ]);
    match goal with
    | |- context [cudaLaunchCooperativeKernel rt ?k ?a ?b ?c =? _] =>
        destruct (cudaLaunchCooperativeKernel rt k a b c =? cudaSuccess) eqn:El
    end;
    cbn; intros [H|[H|[H|[]]]]; try discriminate H;
    injection H as <- <- <- <-;
    first [ apply Z.eqb_eq in El; now rewrite El | reflexivity ].
Qed.

(** C7 (as amended).  With block rows that fit the device
    ([1 <= num_heads / bdy <= num_blocks_per_sm * num_sm] for NHD,
    [1 <= num_heads <= num_blocks_per_sm * num_sm] for HND) the chooser
    returns the chunk size [max(ceil(seq_len / max_num_kv_chunks), clamp)],
    where the clamp lies between the layout's floor and ceiling (8 and 64
    for NHD, 32 and 128 for HND).  The number of chunks is then at most
    [max_num_kv_chunks] and the whole grid at most the resident block
    count; the chunk size is at least the floor, and exceeds the ceiling
    only as far as the occupancy term [ceil(seq_len / max_num_kv_chunks)]
    does.  Whatever the cooperative launch answers is what the call
    returns. *)
Theorem launch_configuration_chunk_size :
  (forall bdy nbps nsm num_heads seq_len tr,
      0 < bdy < 2 ^ 32 -> 0 <= nbps < 2 ^ 31 -> 0 <= nsm < 2 ^ 31 ->
      nbps * nsm < 2 ^ 32 -> 0 <= num_heads < 2 ^ 32 -> 0 <= seq_len < 2 ^ 32 ->
      1 <= num_heads / bdy <= nbps * nsm ->
      let mk := nbps * nsm / (num_heads / bdy) in
      let c := kv_chunk_size_NHD bdy mk num_heads seq_len in
      grid_NHD bdy nbps nsm num_heads seq_len tr
      = (inl (c, {| dim_x := (seq_len + c - 1) / c;
                    dim_y := num_heads / bdy; dim_z := 1 |}), tr)
      /\ 1 <= mk <= nbps * nsm /\ 8 <= c /\ c <= Z.max 64 ((seq_len + mk - 1) / mk)
      /\ (seq_len + c - 1) / c <= mk
      /\ (seq_len + c - 1) / c * (num_heads / bdy) <= nbps * nsm)
  /\ (forall nbps nsm num_heads seq_len tr,
      0 <= nbps < 2 ^ 31 -> 0 <= nsm < 2 ^ 31 ->
      nbps * nsm < 2 ^ 32 -> 0 <= seq_len < 2 ^ 32 ->
      1 <= num_heads <= nbps * nsm ->
      let mk := nbps * nsm / num_heads in
      let c := kv_chunk_size_HND mk num_heads seq_len in
      grid_HND nbps nsm num_heads seq_len tr
      = (inl (c, {| dim_x := (seq_len + c - 1) / c;
                    dim_y := num_heads; dim_z := 1 |}), tr)
      /\ 1 <= mk <= nbps * nsm /\ 32 <= c /\ c <= Z.max 128 ((seq_len + mk - 1) / mk)
      /\ (seq_len + c - 1) / c <= mk
      /\ (seq_len + c - 1) / c * num_heads <= nbps * nsm)
  /\ (forall sizeof_DTypeIn rt NDEBUG num_heads seq_len head_dim qkv_layout rotary_mode
             dev_id kernel nblks nthrs kv_chunk_size,
      In (EvLaunchCooperativeKernel kernel nblks nthrs kv_chunk_size)
         (snd (SingleDecodeWithKVCache sizeof_DTypeIn rt NDEBUG num_heads seq_len
                 head_dim qkv_layout rotary_mode dev_id)) ->
      fst (SingleDecodeWithKVCache sizeof_DTypeIn rt NDEBUG num_heads seq_len
             head_dim qkv_layout rotary_mode dev_id)
      = Return (cudaLaunchCooperativeKernel rt kernel nblks nthrs kv_chunk_size)).
Proof.
  split; [|split].
  - intros. now apply grid_NHD_ok.
  - intros. now apply grid_HND_ok.
  - intros. now apply launch_result_returned.
Qed.

Lemma launch_configuration_chunk_size_witness :
  (8 <= kv_chunk_size_NHD 2 (2 * 8 / (8 / 2)) 8 1000
   /\ (1000 + kv_chunk_size_NHD 2 (2 * 8 / (8 / 2)) 8 1000 - 1)
        / kv_chunk_size_NHD 2 (2 * 8 / (8 / 2)) 8 1000 <= 2 * 8 / (8 / 2))
  /\ (32 <= kv_chunk_size_HND (2 * 8 / 8) 8 100
      /\ (100 + kv_chunk_size_HND (2 * 8 / 8) 8 100 - 1)
           / kv_chunk_size_HND (2 * 8 / 8) 8 100 <= 2 * 8 / 8)
  /\ fst (SingleDecodeWithKVCache 2 refusing_runtime false 8 100 128 kHND kNone 0)
     = Return 720.
Proof.
  destruct launch_configuration_chunk_size as (HN & HH & HL).
  split; [|split].
  - destruct (HN 2 8 2 8 1000 []) as (_ & _ & H8 & _ & Hn & _);
      [ vm_compute; intuition congruence .. | exact (conj H8 Hn) ].
  - destruct (HH 8 2 8 100 []) as (_ & _ & H32 & _ & Hn & _);
      [ vm_compute; intuition congruence .. | exact (conj H32 Hn) ].
  - refine (HL 2 refusing_runtime false 8 100 128 kHND kNone 0
              {| k_layout := kHND; k_rotary := kNone; k_head_dim := 128;
                 k_vec_size := 8; k_bdx := 16; k_bdy := 8; k_bdz := 1 |}
              {| dim_x := 2; dim_y := 8; dim_z := 1 |}
              {| dim_x := 16; dim_y := 8; dim_z := 1 |} 50 _).
    vm_compute. right. right. left. reflexivity.
Defined.

(** The NHD launch of 32 heads over 10000 positions on a device with 16
    resident blocks runs with a chunk of 10000 positions, far above the
    ceiling of 64. *)
Lemma launch_chunk_size_above_ceiling :
  launches (snd (SingleDecodeWithKVCache 2 example_runtime false 32 10000 128
                   kNHD kNone 0))
  = [EvLaunchCooperativeKernel
       {| k_layout := kNHD; k_rotary := kNone; k_head_dim := 128;
          k_vec_size := 8; k_bdx := 16; k_bdy := 2; k_bdz := 4 |}
       {| dim_x := 1; dim_y := 16; dim_z := 1 |}
       {| dim_x := 16; dim_y := 2; dim_z := 4 |} 10000]
  /\ 64 < 10000.
Proof. split; [vm_compute; reflexivity | lia]. Qed.

(** C10 (as amended).  When the block rows number at least one and fit
    the device ([1 <= num_heads / bdy <= max_num_blks] for NHD,
    [1 <= num_heads <= max_num_blks] for HND), the divisor
    [max_num_kv_chunks] is strictly positive and no division of the grid
    computation has a zero divisor. *)
Theorem max_num_kv_chunks_positive :
  (forall bdy nbps nsm num_heads seq_len tr,
      1 <= num_heads / bdy <= max_num_blks_of nbps nsm ->
      0 < max_num_blks_of nbps nsm / (num_heads / bdy)
      /\ exists g, grid_NHD bdy nbps nsm num_heads seq_len tr = (inl g, tr))
  /\ (forall nbps nsm num_heads seq_len tr,
      1 <= num_heads <= max_num_blks_of nbps nsm ->
      0 < max_num_blks_of nbps nsm / num_heads
      /\ exists g, grid_HND nbps nsm num_heads seq_len tr = (inl g, tr)).
Proof.
  split.
  - intros. now apply grid_NHD_defined.
  - intros. now apply grid_HND_defined.
Qed.

Lemma max_num_kv_chunks_positive_witness :
  (0 < max_num_blks_of 8 2 / (8 / 2)
   /\ exists g, grid_NHD 2 8 2 8 1000 [] = (inl g, []))
  /\ (0 < max_num_blks_of 8 2 / 8
      /\ exists g, grid_HND 8 2 8 100 [] = (inl g, [])).
Proof.
  split.
  - apply (proj1 max_num_kv_chunks_positive). vm_compute. intuition congruence.
  - apply (proj2 max_num_kv_chunks_positive). vm_compute. intuition congruence.
Defined.

(** Two heads under the NHD layout with [bdy = 4] (head dimension 64,
    two-byte inputs): [num_heads / bdy] is zero, so the device's 16
    resident blocks are "at least" that many, and the launcher divides
    [max_num_blks] by zero. *)
Lemma max_num_kv_chunks_undefined_for_few_heads :
  2 / 4 <= max_num_blks_of 8 2
  /\ SingleDecodeWithKVCache 2 example_runtime false 2 100 64 kNHD kNone 0
     = (DivisionByZero,
        [EvDeviceGetAttribute 0;
         EvOccupancy {| k_layout := kNHD; k_rotary := kNone; k_head_dim := 64;
                        k_vec_size := 8; k_bdx := 8; k_bdy := 4; k_bdz := 4 |}]).
Proof. split; vm_compute; [intros H; discriminate H | reflexivity]. Qed.

End HostClaims.

Section StateClaims.
Local Open Scope R_scope.
Variable vec_size : nat.

(** C2.  The two-state merge computes [m' = max(m1, m2)],
    [d' = d1*exp(m1-m') + d2*exp(m2-m')] and, entry by entry,
    [o' = o1*exp(m1-m') + o2*exp(m2-m')]; it is commutative and
    associative for all states (over the reals). *)
Theorem merge_rule_commutative_associative (A B C : State.state_t) :
  State.m (State.merge_state vec_size A B) = Rmax (State.m A) (State.m B)
  /\ State.d (State.merge_state vec_size A B)
     = State.d A * exp (State.m A - Rmax (State.m A) (State.m B))
       + State.d B * exp (State.m B - Rmax (State.m A) (State.m B))
  /\ State.o (State.merge_state vec_size A B)
     = Vec.tab vec_size (fun i =>
         Vec.get (State.o A) i * exp (State.m A - Rmax (State.m A) (State.m B))
         + Vec.get (State.o B) i * exp (State.m B - Rmax (State.m A) (State.m B)))
  /\ State.merge_state vec_size A B = State.merge_state vec_size B A
  /\ State.merge_state vec_size (State.merge_state vec_size A B) C
     = State.merge_state vec_size A (State.merge_state vec_size B C).
Proof.
  repeat split.
  - apply State.merge_state_comm.
  - apply State.merge_state_assoc.
Qed.

End StateClaims.

Section StageClaims.
Local Open Scope R_scope.
Variable rotary_mode : RotaryMode.
Variables head_dim vec_size bdx : nat.
Variable L : Decode.layout.
Variable apply_rotary : list R -> Vec.vec_t -> nat -> nat -> Vec.vec_t.

(** C3.  The accumulation stage: with the validity predicate true the
    state becomes [m' = max(m, x)], [d' = d*exp(m-m') + exp(x-m')],
    [o' = o*exp(m-m') + exp(x-m')*v], where [v] is the thread's part of
    the staged value tile; with the predicate false the state is
    unchanged. *)
Theorem update_partial_state_fold_rule
    (smem : Mem.mem) (x : R) (compute_stage_idx : nat) (s : State.state_t) (t : dim3) :
  Decode.update_partial_state head_dim vec_size L smem x compute_stage_idx true s t
  = {| State.o := Vec.tab vec_size (fun i =>
         Vec.get (State.o s) i * exp (State.m s - Rmax (State.m s) x)
         + exp (x - Rmax (State.m s) x)
           * smem (Decode.smem_ptr head_dim vec_size L compute_stage_idx t + i)%nat);
       State.m := Rmax (State.m s) x;
       State.d := State.d s * exp (State.m s - Rmax (State.m s) x)
                  + exp (x - Rmax (State.m s) x) |}
  /\ Decode.update_partial_state head_dim vec_size L smem x compute_stage_idx false s t
     = s.
Proof.
  split; [|reflexivity].
  unfold Decode.update_partial_state, State.merge_xv. f_equal.
  apply Vec.tab_ext. intros i Hi.
  unfold Vec.cast_load. now rewrite Vec.get_load.
Qed.

(** The key vector a thread multiplies with its query vector. *)
Definition k_vec_of (smem : Mem.mem) (rotary_emb : dim3 -> Vec.vec_t)
    (kv_idx : dim3 -> nat) (compute_stage_idx : nat) (t : dim3) : Vec.vec_t :=
  match rotary_mode with
  | kApplyRotary =>
      apply_rotary
        (Decode.load_row head_dim smem
           (nth compute_stage_idx (Decode.kv_shared_offset head_dim L) 0%nat
            + Decode.row L t * head_dim))
        (rotary_emb t) (kv_idx t) (ix t)
  | _ => Vec.cast_load vec_size smem
           (Decode.smem_ptr head_dim vec_size L compute_stage_idx t)
  end.

(** C5.  The score stage: for the block shapes the launcher
    instantiates ([bdx] a power of two), every lane of a tile leaves
    [compute_qk] with the same value, the sum over the tile's [bdx]
    lanes and their [vec_size] elements of [q * k], times the scale;
    with the launcher's scale that is the dot product divided by the
    square root of the head dimension. *)
Theorem compute_qk_scaled_dot_product
    (sizeof_DTypeIn HEAD_DIM : Z) (smem : Mem.mem) (q_vec rotary_emb : dim3 -> Vec.vec_t)
    (kv_idx : dim3 -> nat) (compute_stage_idx : nat) (sm_scale : R) (t : dim3) (l : nat) :
  In sizeof_DTypeIn [1; 2; 4]%Z -> In HEAD_DIM [64; 128; 256]%Z ->
  head_dim = Z.to_nat HEAD_DIM ->
  vec_size = Z.to_nat (Host.vec_size_of sizeof_DTypeIn HEAD_DIM) ->
  bdx = Z.to_nat (Host.bdx_of sizeof_DTypeIn HEAD_DIM) ->
  let x := Decode.compute_qk rotary_mode head_dim vec_size bdx L apply_rotary sm_scale
             smem q_vec rotary_emb kv_idx compute_stage_idx in
  let dot := rsum (fun lane =>
               rsum (fun i =>
                 Vec.get (q_vec (with_x t lane)) i
                 * Vec.get (k_vec_of smem rotary_emb kv_idx compute_stage_idx
                              (with_x t lane)) i)
                 (seq 0 vec_size))
               (seq 0 bdx) in
  x t = dot * sm_scale
  /\ x (with_x t l) = x t
  /\ (sm_scale = Host.sm_scale_of HEAD_DIM -> x t = dot / sqrt (IZR HEAD_DIM))
  /\ (bdx * vec_size = head_dim)%nat.
Proof.
  intros Hsz Hhd Hdim Hvs Hbdx x dot.
  assert (Hpow : exists j, bdx = (2 ^ j)%nat /\ (bdx * vec_size = head_dim)%nat).
  { rewrite Hbdx, Hvs, Hdim. clear x dot Hbdx Hvs Hdim. cbn in Hsz, Hhd.
    destruct Hsz as [<-|[<-|[<-|[]]]]; destruct Hhd as [<-|[<-|[<-|[]]]];
      first [ exists 2%nat; split; reflexivity
            | exists 3%nat; split; reflexivity
            | exists 4%nat; split; reflexivity
            | exists 5%nat; split; reflexivity ]. }
  destruct Hpow as (j & Hj & Hprod).
  assert (Hx : forall t', x t' = rsum (fun lane =>
               rsum (fun i =>
                 Vec.get (q_vec (with_x t' lane)) i
                 * Vec.get (k_vec_of smem rotary_emb kv_idx compute_stage_idx
                              (with_x t' lane)) i * sm_scale)
                 (seq 0 vec_size))
               (seq 0 bdx)).
  { intros t'. unfold x, Decode.compute_qk.
    rewrite (Tile.reduce_broadcast_sum bdx j) by exact Hj.
    apply rsum_ext. intros lane _.
    rewrite Decode.fold_left_plus_rsum, Rplus_0_l. reflexivity. }
  assert (Hdot : x t = dot * sm_scale).
  { rewrite Hx. unfold dot. rewrite <- rsum_scale. apply rsum_ext. intros lane _.
    now rewrite <- rsum_scale. }
  split; [exact Hdot|]. split; [|split; [|exact Hprod]].
  - rewrite !Hx. reflexivity.
  - intros ->. rewrite Hdot. unfold Host.sm_scale_of. unfold Rdiv. now rewrite Rmult_1_l.
Qed.

End StageClaims.

Lemma compute_qk_scaled_dot_product_witness :
  let x := Decode.compute_qk kNone 128 8 16 (HND.layout 8) (fun _ v _ _ => v) 1%R
             (fun _ => 1%R) (fun _ => Vec.fill 8 1%R) (fun _ => Vec.fill 8 0%R)
             (fun _ => 0) 0 in
  x (mk_dim3 3 0 0) = x (mk_dim3 0 0 0).
Proof.
  intros x.
  exact (proj1 (proj2 (compute_qk_scaled_dot_product kNone 128 8 16 (HND.layout 8)
           (fun _ v _ _ => v) 2 128 (fun _ => 1%R) (fun _ => Vec.fill 8 1%R)
           (fun _ => Vec.fill 8 0%R) (fun _ => 0) 0 1%R (mk_dim3 0 0 0) 3
           (or_intror (or_introl eq_refl)) (or_intror (or_introl eq_refl))
           eq_refl eq_refl eq_refl))).
Defined.

Section KernelClaims.
Local Open Scope R_scope.

(** The two layouts the launcher can select, with their block shapes. *)
Definition is_kernel_layout (bdy bdz : nat) (L : Decode.layout) : Prop :=
  (L = HND.layout bdy /\ bdz = 1%nat) \/ L = NHD.layout bdy bdz.

Lemma kernel_layout_ok bdx bdy bdz L :
  (0 < bdy)%nat -> (0 < bdz)%nat -> is_kernel_layout bdy bdz L ->
  Decode.layout_ok bdx bdy bdz L /\ (0 < Decode.pos_lanes L)%nat.
Proof.
  intros Hy Hz [[-> ->]| ->].
  - split; [now apply HND.hnd_layout_ok | exact Hy].
  - split; [now apply NHD.nhd_layout_ok | exact Hz].
Qed.

Variable rotary_mode : RotaryMode.
Variables head_dim vec_size bdx bdy bdz : nat.
Variable L : Decode.layout.
Variable apply_rotary : list R -> Vec.vec_t -> nat -> nat -> Vec.vec_t.
Variable m_init : R.
Variables q k v : Mem.mem.
Variable sm_scale : R.
Variable seq_len : nat.
Variables rope_inv_scale rope_inv_theta : R.
Variable kv_chunk_size : nat.
Variable grid_y : nat.

(** The grid of the launcher: one block column per chunk. *)
Definition launch_grid : dim3 :=
  mk_dim3 ((seq_len + kv_chunk_size - 1) / kv_chunk_size) grid_y 1.

Local Notation "'num_heads'" := (Decode.num_heads L launch_grid).
Local Notation "'num_kv_chunks'" := (Decode.num_kv_chunks launch_grid).
Local Notation "'run'" :=
  (Decode.run rotary_mode head_dim vec_size bdx bdy bdz L apply_rotary m_init q k v
     sm_scale seq_len rope_inv_scale rope_inv_theta kv_chunk_size launch_grid).
Local Notation "'run_seen'" :=
  (Decode.run_seen rotary_mode head_dim vec_size bdx bdy bdz L apply_rotary m_init q k v
     sm_scale seq_len rope_inv_scale rope_inv_theta kv_chunk_size launch_grid).
Local Notation "'legal_view'" :=
  (Decode.legal_view rotary_mode head_dim vec_size bdx bdy bdz L apply_rotary m_init
     q k v sm_scale seq_len rope_inv_scale rope_inv_theta kv_chunk_size launch_grid).
Local Notation "'after_grid_sync_seen'" :=
  (Decode.after_grid_sync_seen head_dim vec_size bdx bdy bdz L m_init launch_grid).
Local Notation "'score'" :=
  (Decode.score rotary_mode head_dim vec_size bdx L apply_rotary q k sm_scale seq_len
     rope_inv_scale rope_inv_theta launch_grid).
Local Notation "'sequential_fold'" :=
  (Decode.sequential_fold rotary_mode head_dim vec_size bdx L apply_rotary m_init q k v
     sm_scale seq_len rope_inv_scale rope_inv_theta launch_grid).

Local Notation "'blocks'" := (Decode.blocks launch_grid).
Local Notation "'in_block'" := (Decode.in_block bdx bdy bdz).
Local Notation "'tmp_at_barrier'" :=
  (Decode.tmp_at_barrier rotary_mode head_dim vec_size bdx bdy bdz L apply_rotary m_init
     q k v sm_scale seq_len rope_inv_scale rope_inv_theta kv_chunk_size launch_grid).
Local Notation "'stored_before_barrier'" :=
  (Decode.stored_before_barrier rotary_mode head_dim vec_size bdx bdy bdz L apply_rotary
     m_init q k v sm_scale seq_len rope_inv_scale rope_inv_theta kv_chunk_size launch_grid).
Local Notation "'global_partial'" :=
  (Decode.global_partial head_dim vec_size L m_init launch_grid).
Local Notation "'global_partial_loads'" :=
  (Decode.global_partial_loads head_dim vec_size L launch_grid).
Local Notation "'tmp_o_ptr'" := (Decode.tmp_o_ptr head_dim L launch_grid).
Local Notation "'tmp_md_idx'" := (Decode.tmp_md_idx head_dim L launch_grid).
Local Notation "'after_grid_sync'" :=
  (Decode.after_grid_sync head_dim vec_size bdx bdy bdz L m_init launch_grid).
Local Notation "'max_over'" :=
  (Decode.max_over rotary_mode head_dim vec_size bdx L apply_rotary m_init q k sm_scale
     seq_len rope_inv_scale rope_inv_theta launch_grid).
Local Notation "'chunk_range'" := (Decode.chunk_range seq_len kv_chunk_size).
Local Notation "'kv_row'" := (Decode.kv_row L num_heads seq_len).
Local Notation "'q_vec'" :=
  (Decode.q_vec rotary_mode head_dim vec_size apply_rotary q seq_len rope_inv_scale
     rope_inv_theta).
Local Notation "'kvec'" :=
  (Decode.kvec rotary_mode head_dim vec_size L apply_rotary k seq_len rope_inv_scale
     rope_inv_theta launch_grid).
Local Notation "'vvec'" := (Decode.vvec head_dim vec_size L v seq_len launch_grid).
Local Notation "'rotary_emb'" :=
  (Decode.rotary_emb head_dim vec_size rope_inv_scale rope_inv_theta).

Lemma feature_split f :
  head_dim = (bdx * vec_size)%nat -> (f < head_dim)%nat ->
  exists l i, (l < bdx)%nat /\ (i < vec_size)%nat /\ f = (l * vec_size + i)%nat.
Proof.
  intros Hdim Hf.
  assert (Hvs : (0 < vec_size)%nat) by (rewrite Hdim in Hf; nia).
  exists (f / vec_size)%nat, (f mod vec_size)%nat. split; [|split].
  - apply Nat.Div0.div_lt_upper_bound. rewrite Nat.mul_comm, <- Hdim. exact Hf.
  - apply Nat.mod_upper_bound. lia.
  - rewrite Nat.mul_comm. apply Nat.div_mod_eq.
Qed.

(** The execution in which every chunk-zero block has loaded the
    partial states before any final [(m, d)] store lands.  For every
    sequence, every chunk size (equal chunks with a ragged last one),
    either layout and every head, it leaves in the output tensor the
    [o] of the state that one sequential fold over the whole sequence
    produces, and in the scratch buffer its [m] and [d].  Over the
    reals the two are equal; rounding is not modelled. *)
Lemma loads_first_execution_is_sequential_fold
    (smem0 smem_md0 : dim3 -> Mem.mem) (tmp0 o0 : Mem.mem) (head f : nat) :
  is_kernel_layout bdy bdz L ->
  head_dim = (bdx * vec_size)%nat -> (exists j, bdx = (2 ^ j)%nat) ->
  (0 < bdy)%nat -> (0 < bdz)%nat ->
  (0 < kv_chunk_size)%nat -> (0 < seq_len)%nat ->
  (head < num_heads)%nat -> (f < head_dim)%nat ->
  fst (run smem0 smem_md0 tmp0 o0) (head * head_dim + f)%nat
  = Vec.get (State.o (sequential_fold head)) f
  /\ snd (run smem0 smem_md0 tmp0 o0) head = State.m (sequential_fold head)
  /\ snd (run smem0 smem_md0 tmp0 o0) (num_heads + head)%nat
     = State.d (sequential_fold head).
Proof.
  intros HLk Hdim Hpow Hy Hz Hc Hs Hh Hf.
  destruct (kernel_layout_ok bdx bdy bdz L Hy Hz HLk) as [HL Hlanes].
  destruct (feature_split f Hdim Hf) as (l & i & Hl & Hi & Hfi).
  destruct (Decode.run_result rotary_mode head_dim vec_size bdx bdy bdz L apply_rotary
              m_init q k v sm_scale seq_len rope_inv_scale rope_inv_theta kv_chunk_size
              launch_grid Hdim HL Hpow Hlanes Hc eq_refl smem0 smem_md0 tmp0 o0 head l
              Hs Hh Hl) as (Ho & Hm & Hd).
  destruct (Decode.final_st_sequential rotary_mode head_dim vec_size bdx L apply_rotary
              m_init q k v sm_scale seq_len rope_inv_scale rope_inv_theta
              launch_grid Hdim head l Hl) as (Ho' & Hm' & Hd').
  rewrite Hm, Hd, Hm', Hd'. split; [|split; reflexivity].
  subst f. rewrite Nat.add_assoc, (Ho i Hi), (Ho' i Hi). reflexivity.
Qed.

(** Every execution: whatever the chunk-zero blocks find in the first
    [2 * num_heads] elements of the scratch buffer and in whatever
    order their stores land, the final [m] and [d] of a head are those
    of the sequential fold, and so is every element of its output row
    none of whose partial outputs lies in these first elements. *)
Lemma execution_is_sequential_fold
    (smem0 smem_md0 : dim3 -> Mem.mem) (tmp0 o0 : Mem.mem)
    (order : list dim3) (seen : dim3 -> dim3 -> Mem.mem) (head f : nat) :
  is_kernel_layout bdy bdz L ->
  head_dim = (bdx * vec_size)%nat -> (exists j, bdx = (2 ^ j)%nat) ->
  (0 < bdy)%nat -> (0 < bdz)%nat ->
  (0 < kv_chunk_size)%nat -> (0 < seq_len)%nat -> (2 <= head_dim)%nat ->
  Permutation blocks order -> legal_view smem0 smem_md0 tmp0 seen ->
  (head < num_heads)%nat -> (f < head_dim)%nat ->
  snd (run_seen smem0 smem_md0 tmp0 order seen o0) head = State.m (sequential_fold head)
  /\ snd (run_seen smem0 smem_md0 tmp0 order seen o0) (num_heads + head)%nat
     = State.d (sequential_fold head)
  /\ ((forall c, (c < num_kv_chunks)%nat -> (2 * num_heads <= tmp_o_ptr head c + f)%nat) ->
      fst (run_seen smem0 smem_md0 tmp0 order seen o0) (head * head_dim + f)%nat
      = Vec.get (State.o (sequential_fold head)) f).
Proof.
  intros HLk Hdim Hpow Hy Hz Hc Hs H2 Hord Hseen Hh Hf.
  destruct (kernel_layout_ok bdx bdy bdz L Hy Hz HLk) as [HL Hlanes].
  destruct (feature_split f Hdim Hf) as (l & i & Hl & Hi & Hfi).
  assert (Hord' : forall b, In b order <-> In b blocks).
  { intros b. split; apply Permutation_in; [now apply Permutation_sym | exact Hord]. }
  destruct (Decode.run_seen_result rotary_mode head_dim vec_size bdx bdy bdz L
              apply_rotary m_init q k v sm_scale seq_len rope_inv_scale rope_inv_theta
              kv_chunk_size launch_grid Hdim HL Hpow Hlanes Hc eq_refl smem0 smem_md0
              tmp0 order seen o0 head l Hord' Hseen H2 Hs Hh Hl) as (Hm & Hd & Ho).
  destruct (Decode.final_st_sequential rotary_mode head_dim vec_size bdx L apply_rotary
              m_init q k v sm_scale seq_len rope_inv_scale rope_inv_theta
              launch_grid Hdim head l Hl) as (Ho' & Hm' & Hd').
  rewrite Hm, Hd, Hm', Hd'. split; [reflexivity|]. split; [reflexivity|].
  intros Hsafe. subst f. rewrite Nat.add_assoc, (Ho i Hi), (Ho' i Hi); [reflexivity|].
  intros c Hcc. rewrite <- Nat.add_assoc. now apply Hsafe.
Qed.


(** C6.  In the scratch buffer of
    [heads * chunks * head_dim + 2 * heads * chunks] elements every
    store before the barrier is in bounds; distinct (head, chunk) pairs
    own disjoint elements, both for the partial outputs and for the
    [(m, d)] pairs, and the two blocks of the buffer do not meet; every
    element a chunk-zero thread loads after the barrier (and its merge
    depends on no other element) was stored before it, holds a value
    that does not depend on what the buffer held at launch, and so the
    output does not either. *)
Theorem scratch_buffer_written_before_read
    (smem0 smem_md0 : dim3 -> Mem.mem) (tmp0 tmp0' o0 : Mem.mem) :
  is_kernel_layout bdy bdz L ->
  head_dim = (bdx * vec_size)%nat -> (exists j, bdx = (2 ^ j)%nat) ->
  (0 < bdy)%nat -> (0 < bdz)%nat ->
  (0 < kv_chunk_size)%nat -> (0 < seq_len)%nat ->
  (forall a, In a (stored_before_barrier smem0 smem_md0) ->
     (a < num_heads * num_kv_chunks * head_dim + 2 * num_heads * num_kv_chunks)%nat)
  /\ (forall h c h' c',
        (h < num_heads)%nat -> (c < num_kv_chunks)%nat ->
        (h' < num_heads)%nat -> (c' < num_kv_chunks)%nat ->
        (forall f f', (f < head_dim)%nat -> (f' < head_dim)%nat ->
           (tmp_o_ptr h c + f = tmp_o_ptr h' c' + f')%nat -> h = h' /\ c = c' /\ f = f')
        /\ (forall e e', (e < 2)%nat -> (e' < 2)%nat ->
           (tmp_md_idx h c + e = tmp_md_idx h' c' + e')%nat -> h = h' /\ c = c' /\ e = e')
        /\ (forall f e, (f < head_dim)%nat ->
           (tmp_o_ptr h c + f < tmp_md_idx h' c' + e)%nat))
  /\ (forall b t a, In b blocks -> in_block t ->
        In a (global_partial_loads b t) -> In a (stored_before_barrier smem0 smem_md0))
  /\ (forall b t tmp tmp',
        (forall a, In a (global_partial_loads b t) -> tmp a = tmp' a) ->
        global_partial b tmp t = global_partial b tmp' t)
  /\ (forall a, In a (stored_before_barrier smem0 smem_md0) ->
        tmp_at_barrier smem0 smem_md0 tmp0 a = tmp_at_barrier smem0 smem_md0 tmp0' a)
  /\ (forall head f, (head < num_heads)%nat -> (f < head_dim)%nat ->
        fst (run smem0 smem_md0 tmp0 o0) (head * head_dim + f)%nat
        = fst (run smem0 smem_md0 tmp0' o0) (head * head_dim + f)%nat).
Proof.
  intros HLk Hdim Hpow Hy Hz Hc Hs.
  destruct (kernel_layout_ok bdx bdy bdz L Hy Hz HLk) as [HL Hlanes].
  split; [|split; [|split; [|split; [|split]]]].
  - intros a Ha.
    exact (Decode.stored_in_bounds rotary_mode head_dim vec_size bdx bdy bdz L
             apply_rotary m_init q k v sm_scale seq_len rope_inv_scale rope_inv_theta
             kv_chunk_size launch_grid Hdim HL Hpow Hlanes Hc eq_refl smem0 smem_md0 a Ha).
  - intros h c h' c' Hh Hcc Hh' Hcc'.
    exact (Decode.tmp_regions_disjoint head_dim bdx bdy bdz L launch_grid HL h c h' c'
             Hh Hcc Hh' Hcc').
  - intros b t a Hb Ht Ha. apply Decode.in_blocks in Hb.
    refine (Decode.loads_stored rotary_mode head_dim vec_size bdx bdy bdz L
              apply_rotary m_init q k v sm_scale seq_len rope_inv_scale rope_inv_theta
              kv_chunk_size launch_grid HL smem0 smem_md0 b t a _ Ht Ha).
    apply Hb.
  - intros b t tmp tmp' H.
    exact (Decode.global_partial_reads_only head_dim vec_size L m_init launch_grid
             b t tmp tmp' H).
  - intros a Ha. now apply Decode.tmp_at_barrier_overwrites.
  - intros head f Hh Hf.
    destruct (feature_split f Hdim Hf) as (l & i & Hl & Hi & ->).
    rewrite !Nat.add_assoc.
    destruct (Decode.run_result rotary_mode head_dim vec_size bdx bdy bdz L apply_rotary
                m_init q k v sm_scale seq_len rope_inv_scale rope_inv_theta kv_chunk_size
                launch_grid Hdim HL Hpow Hlanes Hc eq_refl smem0 smem_md0 tmp0 o0 head l
                Hs Hh Hl) as (Ho & _).
    destruct (Decode.run_result rotary_mode head_dim vec_size bdx bdy bdz L apply_rotary
                m_init q k v sm_scale seq_len rope_inv_scale rope_inv_theta kv_chunk_size
                launch_grid Hdim HL Hpow Hlanes Hc eq_refl smem0 smem_md0 tmp0' o0 head l
                Hs Hh Hl) as (Ho' & _).
    now rewrite (Ho i Hi), (Ho' i Hi).
Qed.


(** C9.  In either layout the query register of a thread is computed
    once, before the loop: with [kApplyRotary] it is [apply_rotary] of
    the head's query row at position [seq_len - 1], otherwise the raw
    elements.  When the pipeline has drained, the thread has folded in
    exactly its lane's positions of the chunk, each with the score of
    that query against the key of that very position, the key being
    [apply_rotary] of its cache row at its own position [p] with
    [kApplyRotary] and the raw cache row otherwise. *)
Theorem rotary_positions_of_query_and_keys (b t : dim3) (smem0 : Mem.mem) :
  is_kernel_layout bdy bdz L ->
  head_dim = (bdx * vec_size)%nat -> (exists j, bdx = (2 ^ j)%nat) ->
  (0 < bdy)%nat -> (0 < bdz)%nat -> (0 < seq_len)%nat ->
  In b blocks -> in_block t ->
  let head := Decode.head_idx L b t in
  Decode.s_partial
    (Decode.epilogue rotary_mode head_dim vec_size bdx L apply_rotary q sm_scale seq_len
       rope_inv_scale rope_inv_theta kv_chunk_size b
       (Decode.pipeline_loop rotary_mode head_dim vec_size bdx bdy bdz L apply_rotary
          q k v sm_scale seq_len rope_inv_scale rope_inv_theta kv_chunk_size launch_grid b
          (Decode.prologue head_dim vec_size bdx bdy bdz L m_init k v seq_len
             kv_chunk_size launch_grid b smem0))) t
  = fold_left (fun s p => State.merge_xv vec_size s (score head p) (vvec head (ix t) p))
      (Decode.lane_positions L seq_len kv_chunk_size b (Decode.pos_lane L t))
      (State.init vec_size m_init)
  /\ (forall p, score head p
        = rsum (fun lane =>
            rsum (fun i => Vec.get (q_vec head (mk_dim3 lane 0 0)) i
                           * Vec.get (kvec head lane p) i * sm_scale)
                 (seq 0 vec_size))
            (seq 0 bdx))
  /\ (forall p, In p (Decode.lane_positions L seq_len kv_chunk_size b (Decode.pos_lane L t))
        -> (ix b * kv_chunk_size <= p < seq_len)%nat)
  /\ (rotary_mode = kApplyRotary ->
        q_vec head t
        = apply_rotary (Decode.load_row head_dim q (head * head_dim)) (rotary_emb t)
            (seq_len - 1) (ix t)
        /\ forall lane p,
             kvec head lane p
             = apply_rotary (Decode.load_row head_dim k (kv_row head p * head_dim))
                 (rotary_emb (mk_dim3 lane 0 0)) p lane)
  /\ (rotary_mode = kNone ->
        q_vec head t = Vec.cast_load vec_size q (head * head_dim + ix t * vec_size)
        /\ forall lane p,
             kvec head lane p
             = Vec.load vec_size k (kv_row head p * head_dim + lane * vec_size)).
Proof.
  intros HLk Hdim Hpow Hy Hz Hs Hb Ht head.
  destruct (kernel_layout_ok bdx bdy bdz L Hy Hz HLk) as [HL Hlanes].
  split; [|split; [|split; [|split]]].
  - rewrite (Decode.epilogue_state rotary_mode head_dim vec_size bdx bdy bdz L
               apply_rotary m_init q k v sm_scale seq_len rope_inv_scale rope_inv_theta
               kv_chunk_size launch_grid Hdim HL b Hpow Hlanes smem0 t Ht).
    symmetry.
    rewrite (Decode.fold_left_map
               (fun s (e : R * Vec.vec_t) => State.merge_xv vec_size s (fst e) (snd e))
               (fun p => (score head p, vvec head (ix t) p))).
    rewrite <- State.of_elems_nil.
    exact (State.fold_merge_xv_of_elems vec_size m_init [] _).
  - intros p. reflexivity.
  - intros p Hp.
    rewrite (Decode.lane_positions_strided head_dim vec_size bdx L seq_len
               kv_chunk_size Hdim b Hlanes) in Hp
      by (apply (Decode.lane_lt _ _ _ _ HL); exact Ht).
    apply Strided.in_lane in Hp. destruct Hp as (bt & _ & -> & Hlt).
    unfold Decode.chunk_end, Decode.chunk_size, Decode.chunk_start, Decode.kv_chunk_idx in *.
    lia.
  - intros E. unfold Decode.q_vec, Decode.kvec. rewrite E. split; reflexivity.
  - intros E. unfold Decode.q_vec, Decode.kvec. rewrite E. split; reflexivity.
Qed.

End KernelClaims.

(** ** Two blocks, two orders

    A call for 2 heads of dimension 64, 4-byte elements, layout
    [kHND], no rotary embedding and 5 cached positions, on a device
    with 2 multiprocessors that hold 8 blocks each: the launcher starts
    [HND::SingleDecodeWithKVCacheKernel<kNone, 64, 4, 16, 8>] on a grid
    of [(1, 2, 1)] blocks with [kv_chunk_size = 32].  The query is all
    zeros and the values are all 1, so every score is 0 and the state
    of either head has [m = 0], [d = 5] and [o = 5] in every element. *)
Section RaceExample.
Local Open Scope R_scope.

Local Notation "'ex_q'" := (fun _ : nat => 0).
Local Notation "'ex_v'" := (fun _ : nat => 1).
Local Notation "'ex_rot'" := (fun (_ : list R) (x : Vec.vec_t) (_ _ : nat) => x).
Local Notation "'ex_grid'" := (launch_grid 5 32 2).
Local Notation "'ex_smem'" := (fun (_ : dim3) (_ : nat) => 0).
Local Notation "'ex_mem'" := (fun _ : nat => 0).
Local Notation "'b0'" := (mk_dim3 0 0 0).
Local Notation "'b1'" := (mk_dim3 0 1 0).
Local Notation "'ex_run_in_order'" :=
  (Decode.run_in_order kNone 64 4 16 8 1 (HND.layout 8) ex_rot (-1) ex_q ex_v ex_v 1 5
     1 1 32 ex_grid ex_smem ex_smem ex_mem).
Local Notation "'ex_run'" :=
  (Decode.run kNone 64 4 16 8 1 (HND.layout 8) ex_rot (-1) ex_q ex_v ex_v 1 5
     1 1 32 ex_grid ex_smem ex_smem ex_mem).
Local Notation "'ex_tmp_at_barrier'" :=
  (Decode.tmp_at_barrier kNone 64 4 16 8 1 (HND.layout 8) ex_rot (-1) ex_q ex_v ex_v 1 5
     1 1 32 ex_grid ex_smem ex_smem ex_mem).
Local Notation "'ex_tmp_in_order'" :=
  (Decode.tmp_in_order 64 4 16 8 1 (HND.layout 8) (-1) ex_grid ex_smem ex_smem).
Local Notation "'ex_sequential_fold'" :=
  (Decode.sequential_fold kNone 64 4 16 (HND.layout 8) ex_rot (-1) ex_q ex_v ex_v 1 5
     1 1 ex_grid).
Local Notation "'ex_final_st'" :=
  (Decode.final_st kNone 64 4 16 (HND.layout 8) ex_rot (-1) ex_q ex_v ex_v 1 5
     1 1 ex_grid).
Local Notation "'ex_seen'" :=
  (fun (b : dim3) (_ : dim3) => ex_tmp_in_order [b1; b0] ex_tmp_at_barrier b).
Local Notation "'ex_global_state_seen'" :=
  (Decode.global_state_seen 64 4 16 8 1 (HND.layout 8) (-1) ex_grid).

Lemma race_layout_ok : Decode.layout_ok 16 8 1 (HND.layout 8).
Proof. apply HND.hnd_layout_ok. lia. Qed.

Lemma race_pow : exists j, 16%nat = (2 ^ j)%nat.
Proof. exists 4%nat. reflexivity. Qed.

Lemma race_lanes : (0 < Decode.pos_lanes (HND.layout 8))%nat.
Proof. cbn. lia. Qed.

Lemma race_chunk : (0 < 32)%nat.
Proof. lia. Qed.

Lemma race_blocks b : In b [b1; b0] -> In b (Decode.blocks ex_grid).
Proof. intros [<-|[<-|[]]]; apply Decode.in_blocks; cbn; lia. Qed.

Lemma race_in_block l : (l < 16)%nat -> Decode.in_block 16 8 1 (mk_dim3 l 0 0).
Proof. intros Hl. unfold Decode.in_block. cbn [ix iy iz]. lia. Qed.

Lemma race_final_st head l :
  State.m (ex_final_st head l) = 0 /\ State.d (ex_final_st head l) = 5
  /\ forall i, (i < 4)%nat -> Vec.get (State.o (ex_final_st head l)) i = 5.
Proof.
  destruct (Decode.final_st_zero_query kNone 64 4 16 (HND.layout 8) ex_rot (-1) ex_q
              ex_v ex_v 1 5 1 1 ex_grid head l) as (Em & Ed & Eo);
    [reflexivity | reflexivity | reflexivity | lra | lia |].
  assert (E : INR 5 = 5) by (simpl; lra).
  rewrite E in Ed, Eo. auto.
Qed.

(** Element 1 of the scratch buffer when the barrier is passed:
    element 1 of the partial output of head 0. *)
Lemma race_tmp_at_barrier : ex_tmp_at_barrier 1%nat = 5.
Proof.
  destruct (Decode.tmp_at_barrier_read kNone 64 4 16 8 1 (HND.layout 8) ex_rot (-1)
              ex_q ex_v ex_v 1 5 1 1 32 ex_grid eq_refl race_layout_ok race_pow
              race_lanes race_chunk eq_refl ex_smem ex_smem ex_mem b0 (mk_dim3 0 0 0))
    as (Ho & _).
  - apply race_blocks. right. now left.
  - apply race_in_block. lia.
  - specialize (Ho 1%nat ltac:(lia)).
    change (ex_tmp_at_barrier 1%nat = Vec.get (State.o (ex_final_st 0 0)) 1) in Ho.
    rewrite Ho. apply race_final_st. lia.
Qed.

(** The same element when the block of head 1 has run to its end: the
    final [m] of head 1. *)
Lemma race_tmp_after_head_1 : ex_tmp_in_order [b1; b0] ex_tmp_at_barrier b0 1%nat = 0.
Proof.
  cbn [Decode.tmp_in_order ix iy iz Nat.eqb andb].
  destruct (Decode.tmp_after_block kNone 64 4 16 8 1 (HND.layout 8) ex_rot (-1)
              ex_q ex_v ex_v 1 5 1 1 32 ex_grid eq_refl race_layout_ok race_pow
              race_lanes race_chunk eq_refl ex_smem ex_smem ex_mem b1 ex_tmp_at_barrier
              (mk_dim3 0 0 0)) as [Em _].
  - apply race_blocks. now left.
  - reflexivity.
  - apply race_in_block. lia.
  - cbn [Decode.head_idx Decode.head_idx_of HND.layout iy ix] in Em.
    rewrite Em. apply race_final_st.
Qed.

Lemma race_lane_0 t :
  Decode.in_block 16 8 1 t -> ix t = 0%nat ->
  Vec.get (State.o (ex_global_state_seen b0 (ex_smem b0) (ex_smem b0) (ex_seen b0) t)) 1
  = 0.
Proof.
  intros Ht Hx.
  apply (Decode.global_state_seen_o_zero kNone 64 4 16 8 1 (HND.layout 8) ex_rot (-1)
           ex_q ex_v ex_v 1 5 1 1 32 ex_grid eq_refl race_layout_ok race_lanes
           race_chunk eq_refl ex_smem ex_smem ex_mem b0 (ex_seen b0) t 1).
  - exact Ht.
  - lia.
  - lia.
  - cbn [Decode.num_kv_chunks launch_grid ix]. cbn. lia.
  - intros t' a Ha.
    apply (Decode.tmp_in_order_legal kNone 64 4 16 8 1 (HND.layout 8) ex_rot (-1)
             ex_q ex_v ex_v 1 5 1 1 32 ex_grid eq_refl race_layout_ok ex_smem ex_smem
             ex_mem [b1; b0] race_blocks b0 t' a Ha).
  - intros t' c Ht' Hx' _ Hc.
    assert (c = 0%nat) by (cbn in Hc; lia). subst c. rewrite Hx.
    exact race_tmp_after_head_1.
Qed.

Lemma race_output_head_1_first : fst (ex_run_in_order [b1; b0] ex_mem) 1%nat = 0.
Proof.
  rewrite Decode.run_in_order_as_run_seen.
  2:{ repeat constructor; cbn; intuition discriminate. }
  apply Decode.run_seen_output.
  - unfold Decode.stores_to_output. apply in_flat_map. exists b0.
    split; [right; now left|].
    cbn [Decode.kv_chunk_idx ix Nat.eqb].
    apply in_flat_map. exists (mk_dim3 0 0 0). split.
    + apply Mem.in_block_threads. apply race_in_block. lia.
    + unfold Decode.o_writes. apply Mem.in_store_vec. exists 1%nat.
      split; [lia|]. split; [reflexivity|].
      symmetry. apply race_lane_0; [|reflexivity]. apply race_in_block. lia.
  - intros w' Hw'. unfold Decode.stores_to_output in Hw'.
    apply in_flat_map in Hw'. destruct Hw' as (b & Hb & Hw').
    destruct (Decode.kv_chunk_idx b =? 0)%nat; [|destruct Hw'].
    apply in_flat_map in Hw'. destruct Hw' as (t & Ht & Hw').
    apply Mem.in_block_threads in Ht.
    unfold Decode.o_writes in Hw'. apply Mem.in_store_vec in Hw'.
    destruct Hw' as (i & Hi & Ea & ->).
    destruct Hb as [<-|[<-|[]]];
      cbn [Decode.head_idx Decode.head_idx_of HND.layout iy] in Ea |- *.
    + lia.
    + assert (ix t = 0%nat /\ i = 1%nat) as [Ex ->] by lia.
      now apply race_lane_0.
Qed.

Lemma race_sequential_fold : Vec.get (State.o (ex_sequential_fold 0)) 1 = 5.
Proof.
  destruct (Decode.final_st_sequential kNone 64 4 16 (HND.layout 8) ex_rot (-1) ex_q
              ex_v ex_v 1 5 1 1 ex_grid eq_refl 0 0) as (Ho & _); [lia|].
  specialize (Ho 1%nat ltac:(lia)). cbn [Nat.mul Nat.add] in Ho.
  rewrite <- Ho. apply race_final_st. lia.
Qed.

Lemma race_output_loads_first : fst (ex_run ex_mem) 1%nat = 5.
Proof.
  destruct (Decode.run_result kNone 64 4 16 8 1 (HND.layout 8) ex_rot (-1)
              ex_q ex_v ex_v 1 5 1 1 32 ex_grid eq_refl race_layout_ok race_pow
              race_lanes race_chunk eq_refl ex_smem ex_smem ex_mem ex_mem 0 0)
    as (Ho & _).
  - lia.
  - cbn. lia.
  - lia.
  - rewrite <- (proj2 (proj2 (race_final_st 0 0)) 1%nat) by lia.
    rewrite <- (Ho 1%nat) by lia. reflexivity.
Qed.

(** C1.  The claim fails on the kernel at the call above.  Before the
    barrier the block of head 0 stores element 1 of its partial output,
    5, to [tmp[1]].  After it the block of head 1 stores its final
    [m = 0] to [tmp[head_idx] = tmp[1]], and no barrier separates this
    store from the loads of the block of head 0.  When the block of
    head 1 runs to its end first, the block of head 0 finds 0 in
    [tmp[1]] and the output element 1 of head 0 is 0; the single
    sequential fold gives 5 there, and so does the kernel when every
    block loads before any final store lands. *)
Theorem final_stores_race_with_partial_output_loads :
  Host.SingleDecodeWithKVCache 4%Z example_runtime false 2%Z 5%Z 64%Z kHND kNone 0%Z
  = (Host.Return 0%Z,
     [Host.EvDeviceGetAttribute 0%Z;
      Host.EvOccupancy (kernel_of 4%Z kHND kNone 64%Z);
      Host.EvLaunchCooperativeKernel (kernel_of 4%Z kHND kNone 64%Z)
        {| Host.dim_x := 1%Z; Host.dim_y := 2%Z; Host.dim_z := 1%Z |}
        {| Host.dim_x := 16%Z; Host.dim_y := 8%Z; Host.dim_z := 1%Z |} 32%Z])
  /\ ex_tmp_at_barrier 1%nat = 5
  /\ ex_tmp_in_order [b1; b0] ex_tmp_at_barrier b0 1%nat = 0
  /\ fst (ex_run_in_order [b1; b0] ex_mem) 1%nat = 0
  /\ Vec.get (State.o (ex_sequential_fold 0)) 1 = 5
  /\ fst (ex_run ex_mem) 1%nat = 5.
Proof.
  split; [reflexivity|].
  split; [exact race_tmp_at_barrier|].
  split; [exact race_tmp_after_head_1|].
  split; [exact race_output_head_1_first|].
  split; [exact race_sequential_fold | exact race_output_loads_first].
Qed.

End RaceExample.

(** ** The output is not divided

    The same call with 40 cached positions: a grid of [(2, 2, 1)]
    blocks with [kv_chunk_size = 32], so that each head has two chunks.
    Every score is 0 and every value 1; the merge rule of [State]
    gives the merged state [o = 40] in every element and [d = 40]. *)
Section UndividedExample.
Local Open Scope R_scope.

Local Notation "'ex_q'" := (fun _ : nat => 0).
Local Notation "'ex_v'" := (fun _ : nat => 1).
Local Notation "'ex_rot'" := (fun (_ : list R) (x : Vec.vec_t) (_ _ : nat) => x).
Local Notation "'ex_grid'" := (launch_grid 40 32 2).
Local Notation "'ex_smem'" := (fun (_ : dim3) (_ : nat) => 0).
Local Notation "'ex_mem'" := (fun _ : nat => 0).
Local Notation "'b0'" := (mk_dim3 0 0 0).
Local Notation "'ex_run_in_order'" :=
  (Decode.run_in_order kNone 64 4 16 8 1 (HND.layout 8) ex_rot (-1) ex_q ex_v ex_v 1 40
     1 1 32 ex_grid ex_smem ex_smem ex_mem).
Local Notation "'ex_tmp_at_barrier'" :=
  (Decode.tmp_at_barrier kNone 64 4 16 8 1 (HND.layout 8) ex_rot (-1) ex_q ex_v ex_v 1 40
     1 1 32 ex_grid ex_smem ex_smem ex_mem).
Local Notation "'ex_final_st'" :=
  (Decode.final_st kNone 64 4 16 (HND.layout 8) ex_rot (-1) ex_q ex_v ex_v 1 40
     1 1 ex_grid).


End UndividedExample.

Lemma scratch_buffer_written_before_read_witness :
  fst (Decode.run kNone 2 1 2 1 2 (NHD.layout 1 2) (fun _ v _ _ => v) 0%R
         (fun _ => 1%R) (fun a => INR a) (fun a => INR a) 1%R 5 1%R 1%R 2
         (launch_grid 5 2 3) (fun _ _ => 0%R) (fun _ _ => 0%R) (fun _ => 0%R)
         (fun _ => 0%R)) (1 * 2 + 1)
  = fst (Decode.run kNone 2 1 2 1 2 (NHD.layout 1 2) (fun _ v _ _ => v) 0%R
           (fun _ => 1%R) (fun a => INR a) (fun a => INR a) 1%R 5 1%R 1%R 2
           (launch_grid 5 2 3) (fun _ _ => 0%R) (fun _ _ => 0%R) (fun _ => 7%R)
           (fun _ => 0%R)) (1 * 2 + 1).
Proof.
  refine (proj2 (proj2 (proj2 (proj2 (proj2
            (scratch_buffer_written_before_read kNone 2 1 2 1 2 (NHD.layout 1 2)
               (fun _ v _ _ => v) 0%R (fun _ => 1%R) (fun a => INR a) (fun a => INR a)
               1%R 5 1%R 1%R 2 3 (fun _ _ => 0%R) (fun _ _ => 0%R) (fun _ => 0%R)
               (fun _ => 7%R) (fun _ => 0%R) _ _ _ _ _ _ _))))) 1 1 _ _).
  - right. reflexivity.
  - reflexivity.
  - exists 1%nat. reflexivity.
  - lia.
  - lia.
  - lia.
  - lia.
  - vm_compute. lia.
  - lia.
Defined.



(** A stand-in for the rotation, for the examples: the lane's elements
    of the row, each scaled by the position plus one. *)
Definition example_rotary (row : list R) (emb : Vec.vec_t) (pos lane : nat) : Vec.vec_t :=
  map (fun i => (INR (pos + 1) * nth (lane * 1 + i) row 0)%R) (seq 0 1).

Lemma rotary_positions_of_query_and_keys_witness :
  Decode.q_vec kApplyRotary 2 1 example_rotary (fun a => INR a) 5 1%R 1%R
    (Decode.head_idx (HND.layout 2) (mk_dim3 1 2 0) (mk_dim3 1 1 0)) (mk_dim3 1 1 0)
  = example_rotary
      (Decode.load_row 2 (fun a => INR a)
         (Decode.head_idx (HND.layout 2) (mk_dim3 1 2 0) (mk_dim3 1 1 0) * 2))
      (Decode.rotary_emb 2 1 1%R 1%R (mk_dim3 1 1 0)) (5 - 1) 1.
Proof.
  refine (proj1 (proj1 (proj2 (proj2 (proj2
            (rotary_positions_of_query_and_keys kApplyRotary 2 1 2 2 1 (HND.layout 2)
               example_rotary 0%R (fun a => INR a) (fun a => INR a) (fun a => INR a)
               1%R 5 1%R 1%R 2 3 (mk_dim3 1 2 0) (mk_dim3 1 1 0) (fun _ => 0%R)
               _ _ _ _ _ _ _ _)))) eq_refl)).
  - left. split; reflexivity.
  - reflexivity.
  - exists 1%nat. reflexivity.
  - lia.
  - lia.
  - lia.
  - vm_compute. right. right. right. right. right. right. right. left. reflexivity.
  - unfold Decode.in_block. cbn. lia.
Defined.
(** * Further properties of the launcher *)

Section HostExtras.
Import Host.
Local Open Scope Z_scope.

(** The number of block rows of the grid: the divisor at lines 744 and
    777, and [nblks.y] at lines 748 and 781. *)
Definition block_rows (kernel : kernel_id) (num_heads : Z) : Z :=
  match k_layout kernel with
  | kNHD => num_heads / k_bdy kernel
  | _ => num_heads
  end.

(** The floor of the clamp of the chunk size (lines 747 and 780). *)
Definition chunk_floor (kernel : kernel_id) : Z :=
  match k_layout kernel with kNHD => 8 | _ => 32 end.

Lemma unsupported_call sizeof_DTypeIn rt NDEBUG num_heads seq_len head_dim qkv_layout
    rotary_mode dev_id :
  (exists msg,
     SingleDecodeWithKVCache sizeof_DTypeIn rt NDEBUG num_heads seq_len head_dim
       qkv_layout rotary_mode dev_id = (Abort, [EvCerr msg]))
  \/ (In head_dim [64; 128; 256] /\ In qkv_layout [kNHD; kHND]
      /\ In rotary_mode [kNone; kApplyRotary]).
Proof.
  unfold SingleDecodeWithKVCache, SingleDecodeWithKVCache_body, SWITCH_HEAD_DIM,
    SWITCH_ROTARY_MODE.
  destruct qkv_layout; [ | | left; eexists; reflexivity ];
    (destruct (Z.eqb_spec head_dim 64) as [->|_];
     [| destruct (Z.eqb_spec head_dim 128) as [->|_];
        [| destruct (Z.eqb_spec head_dim 256) as [->|_];
           [| left; eexists; reflexivity ]]]);
    (destruct rotary_mode; [ | | left; eexists; reflexivity ]);
    right; cbn; tauto.
Qed.

(** The events of a call: nothing but the two queries and the launch,
    in this order, each at most once. *)
Lemma call_trace sizeof_DTypeIn rt NDEBUG num_heads seq_len head_dim qkv_layout
    rotary_mode dev_id :
  let r := SingleDecodeWithKVCache sizeof_DTypeIn rt NDEBUG num_heads seq_len head_dim
             qkv_layout rotary_mode dev_id in
  let kernel := kernel_of sizeof_DTypeIn qkv_layout rotary_mode head_dim in
  (exists msg, r = (Abort, [EvCerr msg]))
  \/ (snd r = [EvDeviceGetAttribute dev_id] /\ fst r <> Return cudaSuccess)
  \/ (snd r = [EvDeviceGetAttribute dev_id; EvOccupancy kernel]
      /\ fst r <> Return cudaSuccess
      /\ fst (cudaDeviceGetAttribute rt dev_id) = cudaSuccess)
  \/ (In head_dim [64; 128; 256] /\ In qkv_layout [kNHD; kHND]
      /\ In rotary_mode [kNone; kApplyRotary]
      /\ fst (cudaDeviceGetAttribute rt dev_id) = cudaSuccess
      /\ fst (cudaOccupancyMaxActiveBlocksPerMultiprocessor rt kernel) = cudaSuccess
      /\ exists kv_chunk_size nblks,
           fst (grid_of kernel (snd (cudaOccupancyMaxActiveBlocksPerMultiprocessor rt kernel))
                  (snd (cudaDeviceGetAttribute rt dev_id)) num_heads seq_len [])
           = inl (kv_chunk_size, nblks)
           /\ NDEBUG || (0 <? dim_x nblks) && (0 <? dim_y nblks) = true
           /\ r = (Return (cudaLaunchCooperativeKernel rt kernel nblks (nthrs_of kernel)
                             kv_chunk_size),
                   [EvDeviceGetAttribute dev_id; EvOccupancy kernel;
                    EvLaunchCooperativeKernel kernel nblks (nthrs_of kernel)
                      kv_chunk_size])).
Proof.
  intros r kernel.
  destruct (unsupported_call sizeof_DTypeIn rt NDEBUG num_heads seq_len head_dim
              qkv_layout rotary_mode dev_id) as [H|(Hhd & Hlay & Hrm)]; [now left|].
  right. subst r.
  rewrite (supported_call sizeof_DTypeIn rt NDEBUG num_heads seq_len head_dim qkv_layout
             rotary_mode dev_id Hhd Hlay Hrm).
  cbv zeta. fold kernel.
  destruct (Z.eqb_spec (fst (cudaDeviceGetAttribute rt dev_id)) cudaSuccess) as [E1|E1];
    cbn [negb].
  2:{ left. split; [reflexivity|]. cbn [fst]. intros H. injection H as H. contradiction. }
  right.
  destruct (Z.eqb_spec (fst (cudaOccupancyMaxActiveBlocksPerMultiprocessor rt kernel))
              cudaSuccess) as [E2|E2]; cbn [negb].
  2:{ left. split; [reflexivity|]. split; [|exact E1].
      cbn [fst]. intros H. injection H as H. contradiction. }
  destruct (fst (grid_of kernel _ _ num_heads seq_len [])) as [[c0 nb0]|en] eqn:Eg.
  - destruct (NDEBUG || (0 <? dim_x nb0) && (0 <? dim_y nb0)) eqn:Ea.
    + right. repeat (split; [assumption|]). exists c0, nb0. split; [reflexivity|]. split; [exact Ea|reflexivity].
    + left. split; [reflexivity|]. split; [|exact E1]. cbn [fst]. discriminate.
  - left. split; [reflexivity|]. split; [|exact E1]. cbn [fst].
    intros ->. revert Eg. unfold grid_of.
    destruct (k_layout kernel); unfold grid_NHD, grid_HND; cbv zeta;
      rewrite !bind_div_rt;
      repeat match goal with
             | |- context [?x =? 0] => destruct (x =? 0)
             end; discriminate.
Qed.

(** The chunk-size expression of the branch of a kernel instance. *)
Definition kv_chunk_size_of (kernel : kernel_id) (max_num_kv_chunks num_heads seq_len : Z)
  : Z :=
  match k_layout kernel with
  | kNHD => kv_chunk_size_NHD (k_bdy kernel) max_num_kv_chunks num_heads seq_len
  | _ => kv_chunk_size_HND max_num_kv_chunks num_heads seq_len
  end.

(** The block shapes of the instances for 1, 2, 4 and 8 byte inputs. *)
Lemma block_shape sizeof_DTypeIn qkv_layout rotary_mode head_dim :
  In sizeof_DTypeIn [1; 2; 4; 8] -> In head_dim [64; 128; 256] ->
  In qkv_layout [kNHD; kHND] ->
  let kernel := kernel_of sizeof_DTypeIn qkv_layout rotary_mode head_dim in
  k_layout kernel = qkv_layout
  /\ k_bdx kernel * k_vec_size kernel = head_dim
  /\ In (k_bdx kernel) [4; 8; 16; 32]
  /\ k_bdx kernel * k_bdy kernel * k_bdz kernel = 128
  /\ 0 < k_bdy kernel < 2 ^ 32
  /\ (qkv_layout = kNHD -> k_bdz kernel = 4)
  /\ (qkv_layout = kHND -> k_bdz kernel = 1).
Proof.
  intros Hs Hh Hl. simpl in Hs, Hh, Hl.
  destruct Hl as [<-|[<-|[]]]; destruct Hs as [<-|[<-|[<-|[<-|[]]]]];
    destruct Hh as [<-|[<-|[<-|[]]]];
    vm_compute; repeat split; try congruence; tauto.
Qed.

Lemma grid_of_ok kernel nbps nsm num_heads seq_len :
  In (k_layout kernel) [kNHD; kHND] -> 0 < k_bdy kernel < 2 ^ 32 ->
  0 <= nbps < 2 ^ 31 -> 0 <= nsm < 2 ^ 31 ->
  nbps * nsm < 2 ^ 32 -> 0 <= num_heads < 2 ^ 32 -> 0 <= seq_len < 2 ^ 32 ->
  1 <= block_rows kernel num_heads <= nbps * nsm ->
  let mk := nbps * nsm / block_rows kernel num_heads in
  let c := kv_chunk_size_of kernel mk num_heads seq_len in
  fst (grid_of kernel nbps nsm num_heads seq_len [])
  = inl (c, {| dim_x := (seq_len + c - 1) / c;
               dim_y := block_rows kernel num_heads; dim_z := 1 |})
  /\ 1 <= mk /\ chunk_floor kernel <= c /\ 8 <= c /\ (seq_len + c - 1) / c <= mk.
Proof.
  intros Hl Hbdy Hb Hs Hprod Hh Hsl Hrows. cbv zeta.
  unfold grid_of, block_rows, kv_chunk_size_of, chunk_floor in *.
  simpl in Hl. destruct Hl as [E|[E|[]]]; rewrite <- E in *.
  - destruct (grid_NHD_ok (k_bdy kernel) nbps nsm num_heads seq_len [] Hbdy Hb Hs Hprod
                Hh Hsl Hrows) as (Hg & Hmk & Hc & _ & Hn & _).
    rewrite Hg. cbn [fst]. repeat split; lia.
  - assert (Hrows' : 1 <= num_heads <= nbps * nsm) by exact Hrows.
    destruct (grid_HND_ok nbps nsm num_heads seq_len [] Hb Hs Hprod Hsl Hrows')
      as (Hg & Hmk & Hc & _ & Hn & _).
    rewrite Hg. cbn [fst]. repeat split; lia.
Qed.

(** Every launch attempt is for the template instance of the call's
    layout, rotary mode and head dimension, with a block of exactly the
    instance's [(bdx, bdy, bdz)]; for 1, 2, 4 and 8 byte input types the
    block has 128 threads (the block size the occupancy query was asked
    about), [bdx * vec_size = head_dim], [bdx] is 4, 8, 16 or 32, the
    NHD block is [bdz = 4] layers of 32 threads and the HND block is
    flat: the [static_assert]s of both kernels hold. *)
Theorem launch_block_has_128_threads sizeof_DTypeIn rt NDEBUG num_heads seq_len head_dim
    qkv_layout rotary_mode dev_id kernel nblks nthrs kv_chunk_size :
  In sizeof_DTypeIn [1; 2; 4; 8] ->
  In (EvLaunchCooperativeKernel kernel nblks nthrs kv_chunk_size)
     (snd (SingleDecodeWithKVCache sizeof_DTypeIn rt NDEBUG num_heads seq_len head_dim
             qkv_layout rotary_mode dev_id)) ->
  k_layout kernel = qkv_layout /\ k_rotary kernel = rotary_mode
  /\ k_head_dim kernel = head_dim
  /\ nthrs = {| dim_x := k_bdx kernel; dim_y := k_bdy kernel; dim_z := k_bdz kernel |}
  /\ dim_x nthrs * dim_y nthrs * dim_z nthrs = 128
  /\ dim_x nthrs * k_vec_size kernel = head_dim
  /\ In (dim_x nthrs) [4; 8; 16; 32]
  /\ (qkv_layout = kNHD -> dim_z nthrs = 4 /\ dim_x nthrs * dim_y nthrs = 32)
  /\ (qkv_layout = kHND -> dim_z nthrs = 1)
  /\ dim_z nblks = 1.
Proof.
  intros Hs Hin.
  destruct (call_trace sizeof_DTypeIn rt NDEBUG num_heads seq_len head_dim qkv_layout
              rotary_mode dev_id)
    as [(msg & E)|[(E & _)|[(E & _)|(Hhd & Hlay & Hrm & _ & _ & c & nb & Hg & _ & E)]]];
    rewrite E in Hin; cbn [snd] in Hin.
  - destruct Hin as [H|[]]; discriminate H.
  - destruct Hin as [H|[]]; discriminate H.
  - destruct Hin as [H|[H|[]]]; discriminate H.
  - destruct Hin as [H|[H|[H|[]]]]; try discriminate H.
    injection H as <- <- <- <-.
    destruct (block_shape sizeof_DTypeIn qkv_layout rotary_mode head_dim Hs Hhd Hlay)
      as (B1 & B2 & B3 & B4 & B5 & B6 & B7).
    assert (Hz : dim_z nb = 1).
    { revert Hg. unfold grid_of.
      destruct (k_layout _); unfold grid_NHD, grid_HND; cbv zeta;
        rewrite !bind_div_rt;
        repeat match goal with
               | |- context [?x =? 0] => destruct (x =? 0)
               end; cbn; intros H; try discriminate H; now injection H as <- <-. }
    unfold nthrs_of. cbn [dim_x dim_y dim_z].
    assert (Hk : k_rotary (kernel_of sizeof_DTypeIn qkv_layout rotary_mode head_dim)
                 = rotary_mode
                 /\ k_head_dim (kernel_of sizeof_DTypeIn qkv_layout rotary_mode head_dim)
                    = head_dim).
    { simpl in Hlay. destruct Hlay as [<-|[<-|[]]]; split; reflexivity. }
    destruct Hk as [Hk1 Hk2].
    split; [exact B1|]. split; [exact Hk1|]. split; [exact Hk2|].
    split; [reflexivity|]. split; [exact B4|]. split; [exact B2|]. split; [exact B3|].
    split; [|split; [exact B7|exact Hz]].
    intros El. specialize (B6 El). split; [exact B6|]. rewrite B6 in B4. lia.
Qed.

Lemma launch_block_has_128_threads_witness :
  let nthrs := {| dim_x := 16; dim_y := 2; dim_z := 4 |} in
  dim_x nthrs * dim_y nthrs * dim_z nthrs = 128 /\ dim_x nthrs * 8 = 128.
Proof.
  destruct (launch_block_has_128_threads 2 example_runtime false 32 10000 128 kNHD kNone 0
              {| k_layout := kNHD; k_rotary := kNone; k_head_dim := 128;
                 k_vec_size := 8; k_bdx := 16; k_bdy := 2; k_bdz := 4 |}
              {| dim_x := 1; dim_y := 16; dim_z := 1 |}
              {| dim_x := 16; dim_y := 2; dim_z := 4 |} 10000)
    as (_ & _ & _ & _ & H1 & H2 & _).
  - vm_compute. tauto.
  - vm_compute. tauto.
  - exact (conj H1 H2).
Defined.

(** A call asks the device for its multiprocessor count, then for the
    occupancy of the kernel instance, then launches that very instance,
    in this order and each at most once: whenever a launch is attempted
    both queries succeeded before it, and nothing follows it. *)
Theorem queries_precede_the_only_launch sizeof_DTypeIn rt NDEBUG num_heads seq_len
    head_dim qkv_layout rotary_mode dev_id :
  let tr := snd (SingleDecodeWithKVCache sizeof_DTypeIn rt NDEBUG num_heads seq_len
                   head_dim qkv_layout rotary_mode dev_id) in
  (length (launches tr) <= 1)%nat
  /\ forall kernel nblks nthrs kv_chunk_size,
       In (EvLaunchCooperativeKernel kernel nblks nthrs kv_chunk_size) tr ->
       tr = [EvDeviceGetAttribute dev_id; EvOccupancy kernel;
             EvLaunchCooperativeKernel kernel nblks nthrs kv_chunk_size]
       /\ fst (cudaDeviceGetAttribute rt dev_id) = cudaSuccess
       /\ fst (cudaOccupancyMaxActiveBlocksPerMultiprocessor rt kernel) = cudaSuccess.
Proof.
  cbv zeta.
  destruct (call_trace sizeof_DTypeIn rt NDEBUG num_heads seq_len head_dim qkv_layout
              rotary_mode dev_id)
    as [(msg & E)|[(E & _)|[(E & _)|(_ & _ & _ & E1 & E2 & c0 & nb & _ & _ & E)]]];
    rewrite E; cbn [snd]; (split; [cbn; lia|]); intros kernel nblks nthrs c Hin.
  - destruct Hin as [H|[]]; discriminate H.
  - destruct Hin as [H|[]]; discriminate H.
  - destruct Hin as [H|[H|[]]]; discriminate H.
  - destruct Hin as [H|[H|[H|[]]]]; try discriminate H.
    injection H as <- <- <- <-. repeat split; assumption.
Qed.

(** The call returns [cudaSuccess] only after a launch that the runtime
    accepted; when asserts are compiled in, the grid of that launch has
    at least one block in each of its two dimensions. *)
Theorem success_means_an_accepted_launch sizeof_DTypeIn rt NDEBUG num_heads seq_len
    head_dim qkv_layout rotary_mode dev_id :
  fst (SingleDecodeWithKVCache sizeof_DTypeIn rt NDEBUG num_heads seq_len head_dim
         qkv_layout rotary_mode dev_id) = Return cudaSuccess ->
  exists kernel nblks nthrs kv_chunk_size,
    snd (SingleDecodeWithKVCache sizeof_DTypeIn rt NDEBUG num_heads seq_len head_dim
           qkv_layout rotary_mode dev_id)
    = [EvDeviceGetAttribute dev_id; EvOccupancy kernel;
       EvLaunchCooperativeKernel kernel nblks nthrs kv_chunk_size]
    /\ cudaLaunchCooperativeKernel rt kernel nblks nthrs kv_chunk_size = cudaSuccess
    /\ (NDEBUG = false -> 0 < dim_x nblks /\ 0 < dim_y nblks).
Proof.
  intros Hr.
  destruct (call_trace sizeof_DTypeIn rt NDEBUG num_heads seq_len head_dim qkv_layout
              rotary_mode dev_id)
    as [(msg & E)|[(_ & N)|[(_ & N & _)|(_ & _ & _ & _ & _ & c & nb & _ & Ha & E)]]];
    try contradiction.
  - rewrite E in Hr. discriminate Hr.
  - rewrite E in Hr |- *. cbn [fst snd] in *. injection Hr as Hr.
    eexists _, nb, _, c. split; [reflexivity|]. split; [exact Hr|].
    intros ->. cbn [orb] in Ha. apply andb_prop in Ha. destruct Ha as [Hx Hy].
    apply Z.ltb_lt in Hx, Hy. now split.
Qed.

Lemma success_means_an_accepted_launch_witness :
  exists kernel nblks nthrs kv_chunk_size,
    snd (SingleDecodeWithKVCache 2 example_runtime false 32 10000 128 kNHD kNone 0)
    = [EvDeviceGetAttribute 0; EvOccupancy kernel;
       EvLaunchCooperativeKernel kernel nblks nthrs kv_chunk_size]
    /\ cudaLaunchCooperativeKernel example_runtime kernel nblks nthrs kv_chunk_size
       = cudaSuccess
    /\ (false = false -> 0 < dim_x nblks /\ 0 < dim_y nblks).
Proof.
  apply (success_means_an_accepted_launch 2 example_runtime false 32 10000 128 kNHD kNone 0).
  vm_compute. reflexivity.
Defined.

Lemma kv_chunk_size_of_empty kernel mk num_heads :
  1 <= mk -> kv_chunk_size_of kernel mk num_heads 0 = chunk_floor kernel.
Proof.
  intros Hmk. unfold kv_chunk_size_of, chunk_floor, kv_chunk_size_NHD, kv_chunk_size_HND.
  rewrite !Zdiv_0_l, (Z.div_small (0 + mk - 1) mk) by lia.
  destruct (k_layout kernel); reflexivity.
Qed.

(** An empty sequence ([seq_len = 0]) gives the floor of the chunk size
    and a grid of zero chunks: with asserts compiled in the call aborts
    on [assert(nblks.x > 0 && nblks.y > 0)] before any launch, with
    [NDEBUG] it asks the runtime to launch a grid with [nblks.x = 0] and
    returns its answer. *)
Theorem empty_sequence_gives_an_empty_grid sizeof_DTypeIn rt NDEBUG num_heads head_dim
    qkv_layout rotary_mode dev_id :
  In sizeof_DTypeIn [1; 2; 4; 8] -> In head_dim [64; 128; 256] ->
  In qkv_layout [kNHD; kHND] -> In rotary_mode [kNone; kApplyRotary] ->
  let kernel := kernel_of sizeof_DTypeIn qkv_layout rotary_mode head_dim in
  let num_sm := snd (cudaDeviceGetAttribute rt dev_id) in
  let num_blocks_per_sm := snd (cudaOccupancyMaxActiveBlocksPerMultiprocessor rt kernel) in
  fst (cudaDeviceGetAttribute rt dev_id) = cudaSuccess ->
  fst (cudaOccupancyMaxActiveBlocksPerMultiprocessor rt kernel) = cudaSuccess ->
  0 <= num_blocks_per_sm < 2 ^ 31 -> 0 <= num_sm < 2 ^ 31 ->
  num_blocks_per_sm * num_sm < 2 ^ 32 -> 0 <= num_heads < 2 ^ 32 ->
  1 <= block_rows kernel num_heads <= num_blocks_per_sm * num_sm ->
  let nblks := {| dim_x := 0; dim_y := block_rows kernel num_heads; dim_z := 1 |} in
  SingleDecodeWithKVCache sizeof_DTypeIn rt NDEBUG num_heads 0 head_dim
    qkv_layout rotary_mode dev_id
  = if NDEBUG
    then (Return (cudaLaunchCooperativeKernel rt kernel nblks (nthrs_of kernel)
                    (chunk_floor kernel)),
          [EvDeviceGetAttribute dev_id; EvOccupancy kernel;
           EvLaunchCooperativeKernel kernel nblks (nthrs_of kernel) (chunk_floor kernel)])
    else (Abort, [EvDeviceGetAttribute dev_id; EvOccupancy kernel]).
Proof.
  intros Hs Hhd Hlay Hrm kernel num_sm nbps E1 E2 Hb Hsm Hprod Hh Hrows nblks.
  destruct (block_shape sizeof_DTypeIn qkv_layout rotary_mode head_dim Hs Hhd Hlay)
    as (B1 & _ & _ & _ & B5 & _).
  fold kernel in B1, B5.
  assert (Hl : In (k_layout kernel) [kNHD; kHND]) by (rewrite B1; exact Hlay).
  destruct (grid_of_ok kernel nbps num_sm num_heads 0 Hl B5 Hb Hsm Hprod Hh
              ltac:(lia) Hrows) as (Hg & Hmk & Hfl & H8 & _).
  rewrite kv_chunk_size_of_empty in Hg, H8 by exact Hmk.
  rewrite (Z.div_small (0 + chunk_floor kernel - 1)) in Hg by lia.
  rewrite (supported_call sizeof_DTypeIn rt NDEBUG num_heads 0 head_dim qkv_layout
             rotary_mode dev_id Hhd Hlay Hrm).
  cbv zeta. fold kernel. rewrite E1, E2. cbn [negb Z.eqb cudaSuccess].
  fold num_sm. fold nbps. rewrite Hg. cbn [dim_x dim_y Z.ltb Z.compare andb orb].
  fold nblks. now destruct NDEBUG.
Qed.

Lemma empty_sequence_gives_an_empty_grid_witness :
  SingleDecodeWithKVCache 2 example_runtime false 32 0 128 kNHD kNone 0
  = (Abort, [EvDeviceGetAttribute 0; EvOccupancy (kernel_of 2 kNHD kNone 128)]).
Proof.
  apply (empty_sequence_gives_an_empty_grid 2 example_runtime false 32 128 kNHD kNone 0);
    vm_compute; intuition congruence.
Defined.

(** For a sequence of at least one position (and counts in the range of
    [unsigned int], with at least one block row that fits the device)
    the launch is attempted whether or not asserts are compiled in, and
    its grid tiles the sequence: there is at least one chunk, the last
    chunk starts inside the sequence and the chunks reach its end, so no
    block is handed an empty range. *)
Theorem launch_grid_tiles_the_sequence sizeof_DTypeIn rt NDEBUG num_heads seq_len head_dim
    qkv_layout rotary_mode dev_id :
  In sizeof_DTypeIn [1; 2; 4; 8] -> In head_dim [64; 128; 256] ->
  In qkv_layout [kNHD; kHND] -> In rotary_mode [kNone; kApplyRotary] ->
  let kernel := kernel_of sizeof_DTypeIn qkv_layout rotary_mode head_dim in
  let num_sm := snd (cudaDeviceGetAttribute rt dev_id) in
  let num_blocks_per_sm := snd (cudaOccupancyMaxActiveBlocksPerMultiprocessor rt kernel) in
  fst (cudaDeviceGetAttribute rt dev_id) = cudaSuccess ->
  fst (cudaOccupancyMaxActiveBlocksPerMultiprocessor rt kernel) = cudaSuccess ->
  0 <= num_blocks_per_sm < 2 ^ 31 -> 0 <= num_sm < 2 ^ 31 ->
  num_blocks_per_sm * num_sm < 2 ^ 32 -> 0 <= num_heads < 2 ^ 32 ->
  1 <= seq_len < 2 ^ 32 ->
  1 <= block_rows kernel num_heads <= num_blocks_per_sm * num_sm ->
  exists kv_chunk_size num_kv_chunks,
    let nblks := {| dim_x := num_kv_chunks; dim_y := block_rows kernel num_heads;
                    dim_z := 1 |} in
    SingleDecodeWithKVCache sizeof_DTypeIn rt NDEBUG num_heads seq_len head_dim
      qkv_layout rotary_mode dev_id
    = (Return (cudaLaunchCooperativeKernel rt kernel nblks (nthrs_of kernel) kv_chunk_size),
       [EvDeviceGetAttribute dev_id; EvOccupancy kernel;
        EvLaunchCooperativeKernel kernel nblks (nthrs_of kernel) kv_chunk_size])
    /\ chunk_floor kernel <= kv_chunk_size
    /\ 1 <= num_kv_chunks
    /\ (num_kv_chunks - 1) * kv_chunk_size < seq_len <= num_kv_chunks * kv_chunk_size
    /\ num_kv_chunks * block_rows kernel num_heads <= num_blocks_per_sm * num_sm.
Proof.
  intros Hs Hhd Hlay Hrm kernel num_sm nbps E1 E2 Hb Hsm Hprod Hh Hsl Hrows.
  destruct (block_shape sizeof_DTypeIn qkv_layout rotary_mode head_dim Hs Hhd Hlay)
    as (B1 & _ & _ & _ & B5 & _).
  fold kernel in B1, B5.
  assert (Hl : In (k_layout kernel) [kNHD; kHND]) by (rewrite B1; exact Hlay).
  destruct (grid_of_ok kernel nbps num_sm num_heads seq_len Hl B5 Hb Hsm Hprod Hh
              ltac:(lia) Hrows) as (Hg & Hmk & Hfl & H8 & Hn).
  set (mk := nbps * num_sm / block_rows kernel num_heads) in *.
  set (c := kv_chunk_size_of kernel mk num_heads seq_len) in *.
  set (nx := (seq_len + c - 1) / c) in *.
  assert (H1 : 1 <= nx) by (apply Z.div_le_lower_bound; lia).
  assert (H2 : c * nx <= seq_len + c - 1) by (apply Z.mul_div_le; lia).
  assert (H3 : seq_len + c - 1 < c * Z.succ nx) by (apply Z.mul_succ_div_gt; lia).
  assert (H4 : nx * block_rows kernel num_heads <= nbps * num_sm).
  { apply Z.le_trans with (mk * block_rows kernel num_heads); [nia|].
    unfold mk. rewrite Z.mul_comm. apply Z.mul_div_le. lia. }
  exists c, nx. cbv zeta.
  rewrite (supported_call sizeof_DTypeIn rt NDEBUG num_heads seq_len head_dim qkv_layout
             rotary_mode dev_id Hhd Hlay Hrm).
  cbv zeta. fold kernel. rewrite E1, E2. cbn [negb Z.eqb cudaSuccess].
  fold num_sm. fold nbps. rewrite Hg. cbn [dim_x dim_y].
  assert (Ea : (0 <? nx) && (0 <? block_rows kernel num_heads) = true).
  { apply andb_true_intro. split; apply Z.ltb_lt; lia. }
  rewrite Ea, orb_true_r.
  split; [reflexivity|]. repeat split; try lia; nia.
Qed.

Lemma launch_grid_tiles_the_sequence_witness :
  exists kv_chunk_size num_kv_chunks,
    let nblks := {| dim_x := num_kv_chunks;
                    dim_y := block_rows (kernel_of 2 kNHD kNone 128) 32; dim_z := 1 |} in
    SingleDecodeWithKVCache 2 example_runtime false 32 10000 128 kNHD kNone 0
    = (Return (cudaLaunchCooperativeKernel example_runtime (kernel_of 2 kNHD kNone 128)
                 nblks (nthrs_of (kernel_of 2 kNHD kNone 128)) kv_chunk_size),
       [EvDeviceGetAttribute 0; EvOccupancy (kernel_of 2 kNHD kNone 128);
        EvLaunchCooperativeKernel (kernel_of 2 kNHD kNone 128) nblks
          (nthrs_of (kernel_of 2 kNHD kNone 128)) kv_chunk_size])
    /\ chunk_floor (kernel_of 2 kNHD kNone 128) <= kv_chunk_size
    /\ 1 <= num_kv_chunks
    /\ (num_kv_chunks - 1) * kv_chunk_size < 10000 <= num_kv_chunks * kv_chunk_size
    /\ num_kv_chunks * block_rows (kernel_of 2 kNHD kNone 128) 32 <= 8 * 2.
Proof.
  apply (launch_grid_tiles_the_sequence 2 example_runtime false 32 10000 128 kNHD kNone 0);
    vm_compute; intuition congruence.
Defined.

(** The grid computation fails only by dividing by zero, and does so
    exactly when there is no block row or no chunk per block row. *)
Lemma grid_of_fails kernel nbps nsm num_heads seq_len e :
  In (k_layout kernel) [kNHD; kHND] ->
  fst (grid_of kernel nbps nsm num_heads seq_len []) = inr e
  <-> e = DivisionByZero
      /\ (block_rows kernel num_heads = 0
          \/ max_num_blks_of nbps nsm / block_rows kernel num_heads = 0).
Proof.
  intros Hl. unfold grid_of, block_rows. simpl in Hl.
  destruct Hl as [E|[E|[]]]; rewrite <- E;
    unfold grid_NHD, grid_HND; cbv zeta; rewrite !bind_div_rt.
  - destruct (Z.eqb_spec (num_heads / k_bdy kernel) 0) as [E0|E0].
    { cbn. split; [intros H; injection H as <-; tauto | intros [-> _]; reflexivity]. }
    destruct (Z.eqb_spec (max_num_blks_of nbps nsm / (num_heads / k_bdy kernel)) 0)
      as [E1|E1].
    { cbn. split; [intros H; injection H as <-; tauto | intros [-> _]; reflexivity]. }
    destruct (Z.eqb_spec num_heads 0) as [E2|E2].
    { exfalso. apply E0. rewrite E2. apply Zdiv_0_l. }
    match goal with |- context [?x =? 0] => destruct (Z.eqb_spec x 0) as [E3|E3] end.
    { exfalso. lia. }
    cbn. split; [discriminate | intros [_ [H|H]]; contradiction].
  - destruct (Z.eqb_spec num_heads 0) as [E0|E0].
    { cbn. split; [intros H; injection H as <-; tauto | intros [-> _]; reflexivity]. }
    destruct (Z.eqb_spec (max_num_blks_of nbps nsm / num_heads) 0) as [E1|E1].
    { cbn. split; [intros H; injection H as <-; tauto | intros [-> _]; reflexivity]. }
    match goal with |- context [?x =? 0] => destruct (Z.eqb_spec x 0) as [E3|E3] end.
    { exfalso. lia. }
    cbn. split; [discriminate | intros [_ [H|H]]; contradiction].
Qed.

(** With a supported configuration the call runs into an integer
    division by zero exactly when both device queries succeed and either
    the number of block rows ([num_heads / bdy] for NHD, [num_heads] for
    HND) is zero or the device cannot hold one block per block row
    ([max_num_blks] divided by the number of block rows is zero).  No
    other division of the launcher can have a zero divisor; the two
    queries have been made by then, and nothing is launched. *)
Theorem division_by_zero_exactly_when_no_chunk_fits sizeof_DTypeIn rt NDEBUG num_heads
    seq_len head_dim qkv_layout rotary_mode dev_id :
  In sizeof_DTypeIn [1; 2; 4; 8] ->
  In head_dim [64; 128; 256] -> In qkv_layout [kNHD; kHND] ->
  In rotary_mode [kNone; kApplyRotary] ->
  let kernel := kernel_of sizeof_DTypeIn qkv_layout rotary_mode head_dim in
  let num_sm := snd (cudaDeviceGetAttribute rt dev_id) in
  let num_blocks_per_sm := snd (cudaOccupancyMaxActiveBlocksPerMultiprocessor rt kernel) in
  (fst (SingleDecodeWithKVCache sizeof_DTypeIn rt NDEBUG num_heads seq_len head_dim
          qkv_layout rotary_mode dev_id) = DivisionByZero
   <-> fst (cudaDeviceGetAttribute rt dev_id) = cudaSuccess
       /\ fst (cudaOccupancyMaxActiveBlocksPerMultiprocessor rt kernel) = cudaSuccess
       /\ (block_rows kernel num_heads = 0
           \/ max_num_blks_of num_blocks_per_sm num_sm / block_rows kernel num_heads = 0))
  /\ (fst (SingleDecodeWithKVCache sizeof_DTypeIn rt NDEBUG num_heads seq_len head_dim
             qkv_layout rotary_mode dev_id) = DivisionByZero ->
      snd (SingleDecodeWithKVCache sizeof_DTypeIn rt NDEBUG num_heads seq_len head_dim
             qkv_layout rotary_mode dev_id)
      = [EvDeviceGetAttribute dev_id; EvOccupancy kernel]).
Proof.
  intros _ Hhd Hlay Hrm kernel num_sm nbps.
  assert (Hl : In (k_layout kernel) [kNHD; kHND]).
  { unfold kernel. simpl in Hlay. destruct Hlay as [<-|[<-|[]]]; cbn; tauto. }
  rewrite (supported_call sizeof_DTypeIn rt NDEBUG num_heads seq_len head_dim qkv_layout
             rotary_mode dev_id Hhd Hlay Hrm).
  cbv zeta. fold kernel. fold num_sm. fold nbps.
  destruct (Z.eqb_spec (fst (cudaDeviceGetAttribute rt dev_id)) cudaSuccess) as [E1|E1];
    cbn [negb].
  2:{ cbn [fst snd]. split; [split; [discriminate | tauto] | discriminate]. }
  destruct (Z.eqb_spec (fst (cudaOccupancyMaxActiveBlocksPerMultiprocessor rt kernel))
              cudaSuccess) as [E2|E2]; cbn [negb].
  2:{ cbn [fst snd]. split; [split; [discriminate | tauto] | discriminate]. }
  pose proof (grid_of_fails kernel nbps num_sm num_heads seq_len) as Hf.
  destruct (fst (grid_of kernel nbps num_sm num_heads seq_len [])) as [[c0 nb0]|en].
  - assert (Hno : ~ (block_rows kernel num_heads = 0
                     \/ max_num_blks_of nbps num_sm / block_rows kernel num_heads = 0)).
    { intros H. pose proof (proj2 (Hf DivisionByZero Hl) (conj eq_refl H)) as X.
      discriminate X. }
    destruct (NDEBUG || _)%bool; cbn [fst snd];
      (split; [split; [discriminate | tauto] | discriminate]).
  - destruct (proj1 (Hf en Hl) eq_refl) as [-> Hz]. cbn [fst snd].
    split; [split; [intros _; tauto | reflexivity] | reflexivity].
Qed.

Lemma division_by_zero_exactly_when_no_chunk_fits_witness :
  (fst (SingleDecodeWithKVCache 2 example_runtime false 2 100 64 kNHD kNone 0)
   = DivisionByZero
   <-> fst (cudaDeviceGetAttribute example_runtime 0) = cudaSuccess
       /\ fst (cudaOccupancyMaxActiveBlocksPerMultiprocessor example_runtime
                 (kernel_of 2 kNHD kNone 64)) = cudaSuccess
       /\ (block_rows (kernel_of 2 kNHD kNone 64) 2 = 0
           \/ max_num_blks_of 8 2 / block_rows (kernel_of 2 kNHD kNone 64) 2 = 0))
  /\ (fst (SingleDecodeWithKVCache 2 example_runtime false 2 100 64 kNHD kNone 0)
      = DivisionByZero ->
      snd (SingleDecodeWithKVCache 2 example_runtime false 2 100 64 kNHD kNone 0)
      = [EvDeviceGetAttribute 0; EvOccupancy (kernel_of 2 kNHD kNone 64)]).
Proof.
  apply (division_by_zero_exactly_when_no_chunk_fits 2 example_runtime false 2 100 64
           kNHD kNone 0); vm_compute; tauto.
Defined.

(** The number of heads the launched kernel works with is read off the
    grid.  For HND it is the caller's [num_heads].  For NHD it is
    [gridDim.y * bdy = (num_heads / bdy) * bdy]: the caller's
    [num_heads] rounded down to a multiple of [bdy], equal to it exactly
    when [bdy] divides [num_heads]. *)
Theorem kernel_head_count_of_the_launch sizeof_DTypeIn rt NDEBUG num_heads seq_len
    head_dim qkv_layout rotary_mode dev_id kernel nblks nthrs kv_chunk_size :
  In sizeof_DTypeIn [1; 2; 4; 8] -> 0 <= num_heads < 2 ^ 32 ->
  In (EvLaunchCooperativeKernel kernel nblks nthrs kv_chunk_size)
     (snd (SingleDecodeWithKVCache sizeof_DTypeIn rt NDEBUG num_heads seq_len head_dim
             qkv_layout rotary_mode dev_id)) ->
  let gridDim := mk_dim3 (Z.to_nat (dim_x nblks)) (Z.to_nat (dim_y nblks))
                         (Z.to_nat (dim_z nblks)) in
  let bdy := Z.to_nat (dim_y nthrs) in
  let bdz := Z.to_nat (dim_z nthrs) in
  (qkv_layout = kHND ->
     Z.of_nat (Decode.num_heads (HND.layout bdy) gridDim) = num_heads)
  /\ (qkv_layout = kNHD ->
        let kernel_heads := Z.of_nat (Decode.num_heads (NHD.layout bdy bdz) gridDim) in
        kernel_heads = num_heads / dim_y nthrs * dim_y nthrs
        /\ kernel_heads <= num_heads
        /\ (kernel_heads = num_heads <-> num_heads mod dim_y nthrs = 0)).
Proof.
  intros Hs Hh Hin.
  destruct (call_trace sizeof_DTypeIn rt NDEBUG num_heads seq_len head_dim qkv_layout
              rotary_mode dev_id)
    as [(msg & E)|[(E & _)|[(E & _)|(Hhd & Hlay & Hrm & _ & _ & c & nb & Hg & _ & E)]]];
    rewrite E in Hin; cbn [snd] in Hin.
  - destruct Hin as [H|[]]; discriminate H.
  - destruct Hin as [H|[]]; discriminate H.
  - destruct Hin as [H|[H|[]]]; discriminate H.
  - destruct Hin as [H|[H|[H|[]]]]; try discriminate H.
    injection H as <- <- <- <-.
    destruct (block_shape sizeof_DTypeIn qkv_layout rotary_mode head_dim Hs Hhd Hlay)
      as (B1 & _ & _ & _ & B5 & _).
    set (kernel := kernel_of sizeof_DTypeIn qkv_layout rotary_mode head_dim) in *.
    assert (Hy : dim_y nb = wrap32 (block_rows kernel num_heads)).
    { revert Hg. unfold grid_of, block_rows. rewrite B1. simpl in Hlay.
      destruct Hlay as [<-|[<-|[]]]; unfold grid_NHD, grid_HND; cbv zeta;
        rewrite !bind_div_rt;
        repeat match goal with
               | |- context [?x =? 0] => destruct (x =? 0)
               end; cbn; intros H; try discriminate H; now injection H as <- <-. }
    cbv zeta. unfold Decode.num_heads, nthrs_of. cbn [dim_y dim_z iy].
    split; intros ->; unfold block_rows in Hy; rewrite B1 in Hy.
    + cbn [HND.layout Decode.num_heads_of iy]. rewrite Hy, wrap32_small by lia. lia.
    + cbn [NHD.layout Decode.num_heads_of iy].
      assert (Hq : 0 <= num_heads / k_bdy kernel <= num_heads).
      { split; [apply Z.div_pos; lia|]. apply Z.div_le_upper_bound; nia. }
      rewrite Hy, wrap32_small by lia.
      rewrite Nat2Z.inj_mul, !Z2Nat.id by lia.
      pose proof (Z.div_mod num_heads (k_bdy kernel) ltac:(lia)) as Hdm.
      pose proof (Z.mod_pos_bound num_heads (k_bdy kernel) ltac:(lia)) as Hm.
      split; [reflexivity|]. split; [nia|]. split; intros H; nia.
Qed.

Lemma kernel_head_count_of_the_launch_witness :
  let gridDim := mk_dim3 (Z.to_nat 5) (Z.to_nat 3) (Z.to_nat 1) in
  (kNHD = kHND -> Z.of_nat (Decode.num_heads (HND.layout (Z.to_nat 4)) gridDim) = 14)
  /\ (kNHD = kNHD ->
        let kernel_heads :=
          Z.of_nat (Decode.num_heads (NHD.layout (Z.to_nat 4) (Z.to_nat 4)) gridDim) in
        kernel_heads = 14 / 4 * 4 /\ kernel_heads <= 14
        /\ (kernel_heads = 14 <-> 14 mod 4 = 0)).
Proof.
  apply (kernel_head_count_of_the_launch 2 example_runtime false 14 100 64 kNHD kNone 0
           {| k_layout := kNHD; k_rotary := kNone; k_head_dim := 64;
              k_vec_size := 8; k_bdx := 8; k_bdy := 4; k_bdz := 4 |}
           {| dim_x := 5; dim_y := 3; dim_z := 1 |}
           {| dim_x := 8; dim_y := 4; dim_z := 4 |} 20).
  - vm_compute. tauto.
  - lia.
  - vm_compute. tauto.
Defined.

Lemma ceil_div_antitone s a b :
  0 <= s -> 1 <= a -> a <= b -> (s + b - 1) / b <= (s + a - 1) / a.
Proof.
  intros Hs Ha Hab.
  destruct (Z.eq_dec s 0) as [->|Hs0].
  - rewrite !Z.div_small by lia. lia.
  - replace (s + b - 1) with (s - 1 + 1 * b) by lia.
    replace (s + a - 1) with (s - 1 + 1 * a) by lia.
    rewrite !Z.div_add by lia.
    assert ((s - 1) / b <= (s - 1) / a) by (apply Z.div_le_compat_l; lia). lia.
Qed.

(** On a device that holds more resident blocks the launcher never
    chooses a larger chunk and never fewer chunks: the chunk size is
    antitone and the number of chunks monotone in
    [num_blocks_per_sm * num_sm], the number of block rows staying the
    same. *)
Theorem more_resident_blocks_never_enlarge_the_chunk kernel nbps nsm nbps' nsm'
    num_heads seq_len :
  In (k_layout kernel) [kNHD; kHND] -> 0 < k_bdy kernel < 2 ^ 32 ->
  0 <= nbps < 2 ^ 31 -> 0 <= nsm < 2 ^ 31 -> nbps * nsm < 2 ^ 32 ->
  0 <= nbps' < 2 ^ 31 -> 0 <= nsm' < 2 ^ 31 -> nbps' * nsm' < 2 ^ 32 ->
  0 <= num_heads < 2 ^ 32 -> 0 <= seq_len < 2 ^ 32 ->
  1 <= block_rows kernel num_heads <= nbps * nsm ->
  nbps * nsm <= nbps' * nsm' ->
  exists kv_chunk_size nblks kv_chunk_size' nblks',
    fst (grid_of kernel nbps nsm num_heads seq_len []) = inl (kv_chunk_size, nblks)
    /\ fst (grid_of kernel nbps' nsm' num_heads seq_len []) = inl (kv_chunk_size', nblks')
    /\ kv_chunk_size' <= kv_chunk_size
    /\ dim_x nblks <= dim_x nblks'
    /\ dim_y nblks = dim_y nblks'.
Proof.
  intros Hl Hbdy Hb Hs Hp Hb' Hs' Hp' Hh Hsl Hrows Hle.
  destruct (grid_of_ok kernel nbps nsm num_heads seq_len Hl Hbdy Hb Hs Hp Hh Hsl Hrows)
    as (Hg & Hmk & _ & H8 & _).
  destruct (grid_of_ok kernel nbps' nsm' num_heads seq_len Hl Hbdy Hb' Hs' Hp' Hh Hsl
              ltac:(lia)) as (Hg' & Hmk' & _ & H8' & _).
  set (rows := block_rows kernel num_heads) in *.
  set (mk := nbps * nsm / rows) in *. set (mk' := nbps' * nsm' / rows) in *.
  assert (Hmm : mk <= mk') by (apply Z.div_le_mono; lia).
  set (c := kv_chunk_size_of kernel mk num_heads seq_len) in *.
  set (c' := kv_chunk_size_of kernel mk' num_heads seq_len) in *.
  assert (Hcc : c' <= c).
  { pose proof (ceil_div_antitone seq_len mk mk' ltac:(lia) Hmk Hmm) as Ha.
    unfold c, c', kv_chunk_size_of, kv_chunk_size_NHD, kv_chunk_size_HND.
    destruct (k_layout kernel); lia. }
  eexists _, _, _, _. split; [exact Hg|]. split; [exact Hg'|].
  cbn [dim_x dim_y]. split; [exact Hcc|]. split; [|reflexivity].
  apply ceil_div_antitone; lia.
Qed.

Lemma more_resident_blocks_never_enlarge_the_chunk_witness :
  exists kv_chunk_size nblks kv_chunk_size' nblks',
    fst (grid_of (kernel_of 2 kNHD kNone 128) 8 2 32 10000 [])
    = inl (kv_chunk_size, nblks)
    /\ fst (grid_of (kernel_of 2 kNHD kNone 128) 8 108 32 10000 [])
       = inl (kv_chunk_size', nblks')
    /\ kv_chunk_size' <= kv_chunk_size
    /\ dim_x nblks <= dim_x nblks'
    /\ dim_y nblks = dim_y nblks'.
Proof.
  apply (more_resident_blocks_never_enlarge_the_chunk (kernel_of 2 kNHD kNone 128)
           8 2 8 108 32 10000); vm_compute; intuition congruence.
Defined.

(** The kernel model the launch of a kernel instance runs. *)
Definition layout_of (kernel : kernel_id) : Decode.layout :=
  match k_layout kernel with
  | kNHD => NHD.layout (Z.to_nat (k_bdy kernel)) (Z.to_nat (k_bdz kernel))
  | _ => HND.layout (Z.to_nat (k_bdy kernel))
  end.

(** What the launcher hands to the kernel meets what the kernel relies
    on: for a sequence of at least one position (counts in the range of
    [unsigned int], at least one block row that fits the device) the
    block has the shape of the kernel's layout with
    [bdx * vec_size = head_dim] and [bdx] a power of two, the chunk size
    is positive, and the grid has exactly
    [ceil(seq_len / kv_chunk_size)] block columns and depth 1. *)
Theorem launch_meets_the_kernel_preconditions sizeof_DTypeIn rt NDEBUG num_heads seq_len
    head_dim qkv_layout rotary_mode dev_id kernel nblks nthrs kv_chunk_size :
  In sizeof_DTypeIn [1; 2; 4; 8] ->
  let num_sm := snd (cudaDeviceGetAttribute rt dev_id) in
  let num_blocks_per_sm := snd (cudaOccupancyMaxActiveBlocksPerMultiprocessor rt kernel) in
  0 <= num_blocks_per_sm < 2 ^ 31 -> 0 <= num_sm < 2 ^ 31 ->
  num_blocks_per_sm * num_sm < 2 ^ 32 -> 0 <= num_heads < 2 ^ 32 ->
  1 <= seq_len < 2 ^ 32 ->
  1 <= block_rows kernel num_heads <= num_blocks_per_sm * num_sm ->
  In (EvLaunchCooperativeKernel kernel nblks nthrs kv_chunk_size)
     (snd (SingleDecodeWithKVCache sizeof_DTypeIn rt NDEBUG num_heads seq_len head_dim
             qkv_layout rotary_mode dev_id)) ->
  let bdx := Z.to_nat (dim_x nthrs) in
  let bdy := Z.to_nat (dim_y nthrs) in
  let bdz := Z.to_nat (dim_z nthrs) in
  let gridDim := mk_dim3 (Z.to_nat (dim_x nblks)) (Z.to_nat (dim_y nblks))
                         (Z.to_nat (dim_z nblks)) in
  is_kernel_layout bdy bdz (layout_of kernel)
  /\ Z.to_nat head_dim = (bdx * Z.to_nat (k_vec_size kernel))%nat
  /\ (exists j, bdx = (2 ^ j)%nat)
  /\ (0 < bdy)%nat /\ (0 < bdz)%nat
  /\ (0 < Z.to_nat kv_chunk_size)%nat
  /\ Decode.num_kv_chunks gridDim
     = ((Z.to_nat seq_len + Z.to_nat kv_chunk_size - 1) / Z.to_nat kv_chunk_size)%nat
  /\ (0 < iy gridDim)%nat /\ iz gridDim = 1%nat.
Proof.
  intros Hs num_sm nbps Hb Hsm Hprod Hh Hsl Hrows Hin.
  destruct (call_trace sizeof_DTypeIn rt NDEBUG num_heads seq_len head_dim qkv_layout
              rotary_mode dev_id)
    as [(msg & E)|[(E & _)|[(E & _)|(Hhd & Hlay & Hrm & _ & _ & c & nb & Hg & _ & E)]]];
    rewrite E in Hin; cbn [snd] in Hin.
  - destruct Hin as [H|[]]; discriminate H.
  - destruct Hin as [H|[]]; discriminate H.
  - destruct Hin as [H|[H|[]]]; discriminate H.
  - destruct Hin as [H|[H|[H|[]]]]; try discriminate H.
    injection H as Ek <- <- <-. subst kernel.
    set (kernel := kernel_of sizeof_DTypeIn qkv_layout rotary_mode head_dim) in *.
    destruct (block_shape sizeof_DTypeIn qkv_layout rotary_mode head_dim Hs Hhd Hlay)
      as (B1 & B2 & B3 & B4 & B5 & B6 & B7).
    fold kernel in B1, B2, B3, B4, B5, B6, B7.
    assert (Hl : In (k_layout kernel) [kNHD; kHND]) by (rewrite B1; exact Hlay).
    destruct (grid_of_ok kernel nbps num_sm num_heads seq_len Hl B5 Hb Hsm Hprod Hh
                ltac:(lia) Hrows) as (Hg' & _ & _ & H8 & _).
    fold num_sm in Hg. fold nbps in Hg. rewrite Hg' in Hg. injection Hg as <- <-.
    set (c := kv_chunk_size_of kernel _ num_heads seq_len) in *.
    cbv zeta. unfold nthrs_of, layout_of, Decode.num_kv_chunks.
    cbn [dim_x dim_y dim_z ix iy iz].
    assert (Hbx : 0 < k_bdx kernel)
      by (simpl in B3; destruct B3 as [<-|[<-|[<-|[<-|[]]]]]; lia).
    assert (Hbz : k_bdz kernel = 4 \/ k_bdz kernel = 1).
    { simpl in Hlay. destruct Hlay as [El|[El|[]]]; symmetry in El; auto. }
    split; [|split; [|split; [|split; [|split; [|split; [|split; [|split]]]]]]].
    + rewrite B1. simpl in Hlay. destruct Hlay as [<-|[<-|[]]].
      * right. reflexivity.
      * left. split; [reflexivity|]. now rewrite (B7 eq_refl).
    + assert (Hvs : 0 <= k_vec_size kernel).
      { simpl in Hhd. destruct Hhd as [Eh|[Eh|[Eh|[]]]]; rewrite <- Eh in B2; nia. }
      rewrite <- B2. apply Z2Nat.inj_mul; lia.
    + simpl in B3. destruct B3 as [<-|[<-|[<-|[<-|[]]]]];
        [exists 2%nat | exists 3%nat | exists 4%nat | exists 5%nat]; reflexivity.
    + lia.
    + lia.
    + lia.
    + rewrite Z2Nat.inj_div by lia. f_equal. lia.
    + lia.
    + reflexivity.
Qed.

Lemma launch_meets_the_kernel_preconditions_witness :
  let kernel := kernel_of 2 kNHD kNone 128 in
  is_kernel_layout (Z.to_nat 2) (Z.to_nat 4) (layout_of kernel)
  /\ Z.to_nat 128 = (Z.to_nat 16 * Z.to_nat (k_vec_size kernel))%nat
  /\ (exists j, Z.to_nat 16 = (2 ^ j)%nat)
  /\ (0 < Z.to_nat 2)%nat /\ (0 < Z.to_nat 4)%nat
  /\ (0 < Z.to_nat 10000)%nat
  /\ Decode.num_kv_chunks (mk_dim3 (Z.to_nat 1) (Z.to_nat 16) (Z.to_nat 1))
     = ((Z.to_nat 10000 + Z.to_nat 10000 - 1) / Z.to_nat 10000)%nat
  /\ (0 < iy (mk_dim3 (Z.to_nat 1) (Z.to_nat 16) (Z.to_nat 1)))%nat
  /\ iz (mk_dim3 (Z.to_nat 1) (Z.to_nat 16) (Z.to_nat 1)) = 1%nat.
Proof.
  apply (launch_meets_the_kernel_preconditions 2 example_runtime false 32 10000 128
           kNHD kNone 0 (kernel_of 2 kNHD kNone 128)
           {| dim_x := 1; dim_y := 16; dim_z := 1 |}
           {| dim_x := 16; dim_y := 2; dim_z := 4 |} 10000);
    vm_compute; intuition congruence.
Defined.
End HostExtras.
(** * Further properties of the kernels *)

(** Stores that agree wherever they meet can be applied in any order. *)
Lemma apply_writes_any_order (ws ws' : Mem.writes) (mm mm' : Mem.mem) (a : nat) :
  Permutation ws ws' ->
  (forall w w', In (a, w) ws -> In (a, w') ws -> w = w') ->
  mm a = mm' a ->
  Mem.apply_writes mm ws a = Mem.apply_writes mm' ws' a.
Proof.
  intros Hp Hag Hm.
  destruct (in_dec Nat.eq_dec a (map fst ws)) as [Hin|Hin].
  - apply in_map_iff in Hin. destruct Hin as ([a0 w] & E & Hin). cbn in E. subst a0.
    rewrite (Mem.apply_writes_agree ws mm a w Hin) by (intros w' Hw'; now apply Hag).
    symmetry. apply Mem.apply_writes_agree.
    + now apply (Permutation_in _ Hp).
    + intros w' Hw'. apply Hag; [|exact Hin].
      now apply (Permutation_in _ (Permutation_sym Hp)).
  - rewrite !Mem.apply_writes_frame; [exact Hm | |].
    + intros w Hw. apply Hin. apply in_map_iff. exists (a, w). split; [reflexivity|].
      now apply (Permutation_in _ (Permutation_sym Hp)).
    + intros w Hw. apply Hin. apply in_map_iff. now exists (a, w).
Qed.

Section KernelExtras.
Local Open Scope R_scope.

Variable rotary_mode : RotaryMode.
Variables head_dim vec_size bdx bdy bdz : nat.
Variable L : Decode.layout.
Variable apply_rotary : list R -> Vec.vec_t -> nat -> nat -> Vec.vec_t.
Variable m_init : R.
Variables q k v : Mem.mem.
Variable sm_scale : R.
Variable seq_len : nat.
Variables rope_inv_scale rope_inv_theta : R.
Variable kv_chunk_size : nat.
Variable gridDim : dim3.

Local Notation "'num_heads'" := (Decode.num_heads L gridDim).
Local Notation "'num_kv_chunks'" := (Decode.num_kv_chunks gridDim).
Local Notation "'run'" :=
  (Decode.run rotary_mode head_dim vec_size bdx bdy bdz L apply_rotary m_init q k v
     sm_scale seq_len rope_inv_scale rope_inv_theta kv_chunk_size gridDim).
Local Notation "'in_block'" := (Decode.in_block bdx bdy bdz).
Local Notation "'stores_before_barrier'" :=
  (Decode.stores_before_barrier rotary_mode head_dim vec_size bdx bdy bdz L apply_rotary
     m_init q k v sm_scale seq_len rope_inv_scale rope_inv_theta kv_chunk_size gridDim).
Local Notation "'stores_to_output'" :=
  (Decode.stores_to_output head_dim vec_size bdx bdy bdz L m_init gridDim).
Local Notation "'stores_after_barrier'" :=
  (Decode.stores_after_barrier head_dim vec_size bdx bdy bdz L m_init gridDim).
Local Notation "'run_seen'" :=
  (Decode.run_seen rotary_mode head_dim vec_size bdx bdy bdz L apply_rotary m_init q k v
     sm_scale seq_len rope_inv_scale rope_inv_theta kv_chunk_size gridDim).
Local Notation "'legal_view'" :=
  (Decode.legal_view rotary_mode head_dim vec_size bdx bdy bdz L apply_rotary m_init
     q k v sm_scale seq_len rope_inv_scale rope_inv_theta kv_chunk_size gridDim).
Local Notation "'blocks'" := (Decode.blocks gridDim).
Local Notation "'after_iterations'" :=
  (Decode.after_iterations rotary_mode head_dim vec_size bdx bdy bdz L apply_rotary
     m_init q k v sm_scale seq_len rope_inv_scale rope_inv_theta kv_chunk_size gridDim).
Local Notation "'loop_body'" :=
  (Decode.loop_body rotary_mode head_dim vec_size bdx bdy bdz L apply_rotary q k v
     sm_scale seq_len rope_inv_scale rope_inv_theta kv_chunk_size gridDim).
Local Notation "'pipeline_loop'" :=
  (Decode.pipeline_loop rotary_mode head_dim vec_size bdx bdy bdz L apply_rotary q k v
     sm_scale seq_len rope_inv_scale rope_inv_theta kv_chunk_size gridDim).
Local Notation "'prologue'" :=
  (Decode.prologue head_dim vec_size bdx bdy bdz L m_init k v seq_len kv_chunk_size
     gridDim).
Local Notation "'epilogue'" :=
  (Decode.epilogue rotary_mode head_dim vec_size bdx L apply_rotary q sm_scale seq_len
     rope_inv_scale rope_inv_theta kv_chunk_size).
Local Notation "'sync_state'" :=
  (Decode.sync_state head_dim vec_size bdx bdy bdz L m_init).
Local Notation "'kv_shared_offset'" := (Decode.kv_shared_offset head_dim L).
Local Notation "'rotary_emb'" :=
  (Decode.rotary_emb head_dim vec_size rope_inv_scale rope_inv_theta).
Local Notation "'chunk_start'" := (Decode.chunk_start kv_chunk_size).
Local Notation "'chunk_size'" := (Decode.chunk_size seq_len kv_chunk_size).
Local Notation "'chunk_end'" := (Decode.chunk_end seq_len kv_chunk_size).

(** A launch stores into the output tensor only below
    [num_heads * head_dim] and into the scratch buffer only below
    [num_heads * num_kv_chunks * (head_dim + 2)], whatever the grid:
    every other element of the two buffers is as the caller left it. *)
Theorem launch_stores_stay_inside_the_buffers
    (smem0 smem_md0 : dim3 -> Mem.mem) (tmp0 o0 : Mem.mem) (a : nat) :
  is_kernel_layout bdy bdz L ->
  head_dim = (bdx * vec_size)%nat -> (0 < bdy)%nat -> (0 < bdz)%nat ->
  ((num_heads * head_dim <= a)%nat -> fst (run smem0 smem_md0 tmp0 o0) a = o0 a)
  /\ ((num_heads * num_kv_chunks * (head_dim + 2) <= a)%nat ->
      snd (run smem0 smem_md0 tmp0 o0) a = tmp0 a).
Proof.
  intros HLk Hdim Hy Hz.
  destruct (kernel_layout_ok bdx bdy bdz L Hy Hz HLk) as [HL _].
  destruct (Decode.run_frame rotary_mode head_dim vec_size bdx bdy bdz L apply_rotary
              m_init q k v sm_scale seq_len rope_inv_scale rope_inv_theta kv_chunk_size
              gridDim Hdim HL smem0 smem_md0 tmp0 o0) as [Ho Ht].
  split; intros Ha; [now apply Ho | apply Ht; nia].
Qed.


(** Two chunk-zero threads that work for the same head belong to the
    same block, and their [sync_state] loops read the same rows. *)
Lemma same_head_same_rows (b1 b2 t1 t2 : dim3) :
  is_kernel_layout bdy bdz L ->
  In b1 blocks -> In b2 blocks -> ix b1 = 0%nat -> ix b2 = 0%nat ->
  in_block t1 -> in_block t2 ->
  Decode.head_idx L b1 t1 = Decode.head_idx L b2 t2 ->
  b1 = b2 /\ forall j, Decode.sync_row L t1 j = Decode.sync_row L t2 j.
Proof.
  intros HLk Hb1 Hb2 Hx1 Hx2 Ht1 Ht2 Eh.
  apply Decode.in_blocks in Hb1, Hb2.
  destruct Hb1 as (_ & _ & Hz1), Hb2 as (_ & _ & Hz2).
  unfold Decode.head_idx in Eh.
  destruct HLk as [[-> ->]| ->]; cbn in Eh |- *.
  - split; [|reflexivity].
    destruct b1, b2; cbn in *. congruence.
  - destruct Ht1 as (_ & Hy1 & _), Ht2 as (_ & Hy2 & _).
    destruct (Decode.euclid_unique bdy (iy b1) (iy t1) (iy b2) (iy t2)) as [Eb Et];
      [lia | lia | exact Eh |].
    split; [|intros j; now rewrite Et].
    destruct b1, b2; cbn in *. congruence.
Qed.

(** In the launcher's grid and in every execution, whenever two
    threads store to the same element (of the scratch buffer before
    the barrier, of the output tensor, or of the scratch buffer after
    the barrier) they store the same value; so within each of the
    three phases the stores can land in any order of blocks and
    threads without changing what the execution leaves. *)
Theorem stores_to_one_element_agree
    (smem0 smem_md0 : dim3 -> Mem.mem) (tmp0 o0 : Mem.mem)
    (order : list dim3) (seen : dim3 -> dim3 -> Mem.mem) :
  is_kernel_layout bdy bdz L ->
  head_dim = (bdx * vec_size)%nat -> (exists j, bdx = (2 ^ j)%nat) ->
  (0 < bdy)%nat -> (0 < bdz)%nat -> (0 < kv_chunk_size)%nat -> (2 <= head_dim)%nat ->
  num_kv_chunks = ((seq_len + kv_chunk_size - 1) / kv_chunk_size)%nat ->
  Permutation blocks order -> legal_view smem0 smem_md0 tmp0 seen ->
  (forall a w w', In (a, w) (stores_before_barrier smem0 smem_md0) ->
     In (a, w') (stores_before_barrier smem0 smem_md0) -> w = w')
  /\ (forall a w w', In (a, w) (stores_to_output smem0 smem_md0 order seen) ->
        In (a, w') (stores_to_output smem0 smem_md0 order seen) -> w = w')
  /\ (forall a w w', In (a, w) (stores_after_barrier smem0 smem_md0 order seen) ->
        In (a, w') (stores_after_barrier smem0 smem_md0 order seen) -> w = w')
  /\ (forall before out after a,
        Permutation (stores_before_barrier smem0 smem_md0) before ->
        Permutation (stores_to_output smem0 smem_md0 order seen) out ->
        Permutation (stores_after_barrier smem0 smem_md0 order seen) after ->
        fst (run_seen smem0 smem_md0 tmp0 order seen o0) a = Mem.apply_writes o0 out a
        /\ snd (run_seen smem0 smem_md0 tmp0 order seen o0) a
           = Mem.apply_writes (Mem.apply_writes tmp0 before) after a).
Proof.
  intros HLk Hdim Hpow Hy Hz Hc H2 Hgrid Hord Hseen.
  destruct (kernel_layout_ok bdx bdy bdz L Hy Hz HLk) as [HL Hlanes].
  assert (Hord' : forall b, In b order -> In b blocks).
  { intros b. apply Permutation_in. now apply Permutation_sym. }
  pose proof (Decode.stores_before_barrier_agree rotary_mode head_dim vec_size bdx bdy
                bdz L apply_rotary m_init q k v sm_scale seq_len rope_inv_scale
                rope_inv_theta kv_chunk_size gridDim Hdim HL Hpow Hlanes Hc Hgrid
                smem0 smem_md0) as Hb.
  pose proof (fun a w w' =>
                Decode.stores_after_barrier_agree rotary_mode head_dim vec_size bdx bdy
                  bdz L apply_rotary m_init q k v sm_scale seq_len rope_inv_scale
                  rope_inv_theta kv_chunk_size gridDim Hdim HL Hpow Hlanes Hc Hgrid
                  smem0 smem_md0 tmp0 order seen a w w' Hord' Hseen H2) as Ha.
  assert (Ho : forall a w w', In (a, w) (stores_to_output smem0 smem_md0 order seen) ->
             In (a, w') (stores_to_output smem0 smem_md0 order seen) -> w = w').
  { assert (Hone : forall (a : nat) (w : R),
              In (a, w) (stores_to_output smem0 smem_md0 order seen) ->
              exists b t i, In b blocks /\ ix b = 0%nat /\ in_block t /\ (i < vec_size)%nat
                /\ a = (Decode.head_idx L b t * head_dim + ix t * vec_size + i)%nat
                /\ w = Vec.get (State.o (Decode.global_state_seen head_dim vec_size bdx
                                           bdy bdz L m_init gridDim b (smem0 b)
                                           (smem_md0 b) (seen b) t)) i).
    { intros a w Hin. unfold Decode.stores_to_output in Hin.
      apply in_flat_map in Hin. destruct Hin as (b & Hbo & Hin).
      unfold Decode.kv_chunk_idx in Hin.
      destruct (ix b =? 0)%nat eqn:Ex; [|destruct Hin]. apply Nat.eqb_eq in Ex.
      apply in_flat_map in Hin. destruct Hin as (t & Ht & Hin).
      apply Mem.in_block_threads in Ht.
      unfold Decode.o_writes in Hin. apply Mem.in_store_vec in Hin.
      destruct Hin as (i & Hi & -> & ->).
      exists b, t, i. split; [now apply Hord'|]. split; [exact Ex|].
      split; [exact Ht|]. split; [exact Hi|]. split; reflexivity. }
    intros a w w' H1 H1'.
    destruct (Hone _ _ H1) as (b1 & t1 & i1 & Hb1 & Hx1 & Ht1 & Hi1 & E1 & ->).
    destruct (Hone _ _ H1') as (b2 & t2 & i2 & Hb2 & Hx2 & Ht2 & Hi2 & E2 & ->).
    assert (Hf1 : (ix t1 * vec_size + i1 < head_dim)%nat) by (rewrite Hdim; destruct Ht1; nia).
    assert (Hf2 : (ix t2 * vec_size + i2 < head_dim)%nat) by (rewrite Hdim; destruct Ht2; nia).
    destruct (Decode.euclid_unique head_dim (Decode.head_idx L b1 t1)
                (ix t1 * vec_size + i1) (Decode.head_idx L b2 t2) (ix t2 * vec_size + i2))
      as [Eh Ef]; [lia | lia | lia |].
    destruct (Decode.euclid_unique vec_size (ix t1) i1 (ix t2) i2) as [Ex Ei];
      [lia | lia | lia |].
    destruct (same_head_same_rows b1 b2 t1 t2 HLk Hb1 Hb2 Hx1 Hx2 Ht1 Ht2 Eh)
      as [<- Hrows].
    subst i2.
    rewrite (Decode.global_state_seen_lane rotary_mode head_dim vec_size bdx bdy bdz L
               apply_rotary m_init q k v sm_scale seq_len rope_inv_scale rope_inv_theta
               kv_chunk_size gridDim Hdim HL Hlanes Hc Hgrid smem0 smem_md0 tmp0 b1
               (seen b1) t1 t2 Ht1 Ht2 Ex (fun j _ => Hrows j) H2);
      [reflexivity | | intros t' a'; apply Hseen].
    apply Decode.in_blocks in Hb1. unfold Decode.num_kv_chunks. lia. }
  split; [exact Hb|]. split; [exact Ho|]. split; [exact Ha|].
  intros before out after a Pb Po Pa.
  destruct (Decode.run_seen_as_stores rotary_mode head_dim vec_size bdx bdy bdz L
              apply_rotary m_init q k v sm_scale seq_len rope_inv_scale rope_inv_theta
              kv_chunk_size gridDim smem0 smem_md0 tmp0 order seen o0) as [E1 E2].
  rewrite E1, E2. split.
  - apply apply_writes_any_order; [exact Po | apply Ho | reflexivity].
  - apply apply_writes_any_order; [exact Pa | apply Ha |].
    apply apply_writes_any_order; [exact Pb | apply Hb | reflexivity].
Qed.

(** The four stages of shared memory are used as two pairs in turn:
    after [n] iterations of the loop the block computes on stages
    [2n mod 4] and [2n mod 4 + 1] and copies into the other two, so the
    two copies an iteration issues leave the key and value tiles that
    the same iteration consumes as they were. *)
Theorem pipeline_stages_alternate (b : dim3) (smem0 : Mem.mem) (n batch stage r f : nat) :
  is_kernel_layout bdy bdz L ->
  head_dim = (bdx * vec_size)%nat -> (0 < bdy)%nat -> (0 < bdz)%nat ->
  let st := after_iterations b smem0 n in
  Decode.compute_stage_idx st = ((2 * n) mod 4)%nat
  /\ Decode.copy_stage_idx st = ((Decode.compute_stage_idx st + 2) mod 4)%nat
  /\ (stage = Decode.compute_stage_idx st \/ stage = (Decode.compute_stage_idx st + 1)%nat ->
      (r < Decode.rows L)%nat -> (f < head_dim)%nat ->
      (stage < Decode.stages_count)%nat
      /\ Decode.smem (loop_body b st batch)
           (nth stage kv_shared_offset 0 + r * head_dim + f)%nat
         = Decode.smem st (nth stage kv_shared_offset 0 + r * head_dim + f)%nat).
Proof.
  intros HLk Hdim Hy Hz st.
  destruct (kernel_layout_ok bdx bdy bdz L Hy Hz HLk) as [HL _].
  destruct (Decode.stage_indices rotary_mode head_dim vec_size bdx bdy bdz L apply_rotary
              m_init q k v sm_scale seq_len rope_inv_scale rope_inv_theta kv_chunk_size
              gridDim Hdim b smem0 n) as [Ec Ep].
  fold st in Ec, Ep.
  split; [exact Ec|]. split.
  - rewrite Ep, Ec, Nat.Div0.add_mod_idemp_l. reflexivity.
  - intros Hst Hr Hf.
    exact (Decode.loop_body_keeps_consumed_tiles rotary_mode head_dim vec_size bdx bdy
             bdz L apply_rotary m_init q k v sm_scale seq_len rope_inv_scale
             rope_inv_theta kv_chunk_size gridDim Hdim HL b smem0 n batch stage r f
             Hst Hr Hf).
Qed.

(** A block stores into shared memory only inside the arrays it
    declares: the copies of the pipeline below
    [stages_count * rows * head_dim] elements of [smem], [sync_state]
    below [rows * head_dim] elements of [smem] seen as [float] and below
    [2 * rows] elements of [smem_md], where [rows] is [bdy] for HND and
    [bdz * bdy] for NHD. *)
Theorem shared_memory_stores_stay_inside (b : dim3) (smem0 smem_md0 : Mem.mem)
    (s : dim3 -> State.state_t) (a : nat) :
  is_kernel_layout bdy bdz L ->
  head_dim = (bdx * vec_size)%nat -> (0 < bdy)%nat -> (0 < bdz)%nat ->
  (Decode.rows L = bdy * bdz)%nat
  /\ ((Decode.stages_count * Decode.rows L * head_dim <= a)%nat ->
      Decode.smem (epilogue b (pipeline_loop b (prologue b smem0))) a = smem0 a)
  /\ ((Decode.rows L * head_dim <= a)%nat ->
      snd (fst (sync_state s smem0 smem_md0)) a = smem0 a)
  /\ ((2 * Decode.rows L <= a)%nat -> snd (sync_state s smem0 smem_md0) a = smem_md0 a).
Proof.
  intros HLk Hdim Hy Hz.
  destruct (kernel_layout_ok bdx bdy bdz L Hy Hz HLk) as [HL _].
  destruct (Decode.sync_state_frame head_dim vec_size bdx bdy bdz L m_init Hdim HL s
              smem0 smem_md0) as [F1 F2].
  split; [|split; [|split]].
  - destruct HLk as [[-> ->]| ->]; cbn; lia.
  - apply (Decode.pipeline_smem_frame rotary_mode head_dim vec_size bdx bdy bdz L
             apply_rotary m_init q k v sm_scale seq_len rope_inv_scale rope_inv_theta
             kv_chunk_size gridDim Hdim HL b smem0 a).
  - apply F1.
  - apply F2.
Qed.

(** The frequency table of a lane: the entry of feature
    [f = threadIdx.x * vec_size + i] is
    [rope_inv_scale * rope_inv_theta ^ (2 * (f mod (head_dim / 2)) / head_dim)],
    so features [f] and [f + head_dim / 2] share their frequency (the
    two halves of a head are rotated against each other), and feature 0
    has the frequency [rope_inv_scale]. *)
Theorem rotary_emb_pairs_the_two_halves (t t' : dim3) (i i' : nat) :
  (i < vec_size)%nat -> (i' < vec_size)%nat ->
  (ix t' * vec_size + i' = ix t * vec_size + i + head_dim / 2)%nat ->
  Vec.get (rotary_emb t') i' = Vec.get (rotary_emb t) i
  /\ ((ix t * vec_size + i < head_dim / 2)%nat ->
      Vec.get (rotary_emb t) i
      = rope_inv_scale
        * Rpower rope_inv_theta (INR (2 * (ix t * vec_size + i)) / INR head_dim))
  /\ ((ix t * vec_size + i = 0)%nat -> Vec.get (rotary_emb t) i = rope_inv_scale).
Proof.
  intros Hi Hi' E. unfold Decode.rotary_emb.
  rewrite !Vec.get_tab by assumption.
  split; [|split].
  - rewrite E.
    replace (ix t * vec_size + i + head_dim / 2)%nat
      with (ix t * vec_size + i + 1 * (head_dim / 2))%nat by lia.
    now rewrite Nat.Div0.mod_add.
  - intros Hlt. now rewrite Nat.mod_small by exact Hlt.
  - intros ->. rewrite Nat.Div0.mod_0_l. cbn [Nat.mul INR].
    unfold Rdiv, Rpower. rewrite !Rmult_0_l, exp_0. lra.
Qed.


(** [sync_state], for states whose [m] and [d] do not depend on
    [threadIdx.x] (so that the stores of a row to [smem_md] agree):
    whatever shared memory held before, every thread leaves with the
    merge, in the order of the loop and starting from a fresh state, of
    the states held by the threads with its [threadIdx.x]: those of all
    [threadIdx.y] in the HND kernel, those of its [threadIdx.y] and all
    [threadIdx.z] in the NHD kernel. *)
Theorem sync_state_merges_the_states_of_a_lane
    (s : dim3 -> State.state_t) (smem smem_md : Mem.mem) (t : dim3) :
  head_dim = (bdx * vec_size)%nat ->
  (forall t1 t2, iy t1 = iy t2 -> iz t1 = iz t2 ->
     State.m (s t1) = State.m (s t2) /\ State.d (s t1) = State.d (s t2)) ->
  (Decode.in_block bdx bdy 1 t ->
   fst (fst (HND.sync_state head_dim vec_size bdx bdy m_init s smem smem_md)) t
   = fold_left (fun acc j => State.merge_state vec_size acc (s (mk_dim3 (ix t) j 0)))
       (seq 0 bdy) (State.init vec_size m_init))
  /\ (Decode.in_block bdx bdy bdz t ->
      fst (fst (NHD.sync_state head_dim vec_size bdx bdy bdz m_init s smem smem_md)) t
      = fold_left (fun acc j =>
                     State.merge_state vec_size acc (s (mk_dim3 (ix t) (iy t) j)))
          (seq 0 bdz) (State.init vec_size m_init)).
Proof.
  intros Hdim Hs. split; intros Ht.
  - assert (Hy : (0 < bdy)%nat) by (destruct Ht as (_ & H & _); lia).
    unfold HND.sync_state.
    rewrite (Decode.sync_state_rows head_dim vec_size bdx bdy 1 (HND.layout bdy) m_init
               Hdim (HND.hnd_layout_ok bdx bdy Hy) s smem smem_md t
               (fun j => mk_dim3 (ix t) j 0)).
    + reflexivity.
    + intros t1 t2 (_ & _ & Hz1) (_ & _ & Hz2) Hr. cbn in Hr. apply Hs; [exact Hr | lia].
    + exact Ht.
    + intros j Hj. cbn in Hj |- *. destruct Ht as (Hx & _ & _).
      unfold Decode.in_block. cbn. repeat split; lia.
  - assert (Hy : (0 < bdy)%nat) by (destruct Ht as (_ & H & _); lia).
    assert (Hz : (0 < bdz)%nat) by (destruct Ht as (_ & _ & H); lia).
    unfold NHD.sync_state.
    rewrite (Decode.sync_state_rows head_dim vec_size bdx bdy bdz (NHD.layout bdy bdz)
               m_init Hdim (NHD.nhd_layout_ok bdx bdy bdz Hy Hz) s smem smem_md t
               (fun j => mk_dim3 (ix t) (iy t) j)).
    + reflexivity.
    + intros t1 t2 (_ & Hy1 & _) (_ & Hy2 & _) Hr. cbn in Hr.
      assert (iz t1 = iz t2 /\ iy t1 = iy t2) as [E1 E2].
      { apply (Decode.euclid_unique bdy); lia. }
      now apply Hs.
    + exact Ht.
    + intros j Hj. cbn in Hj |- *. destruct Ht as (Hx & Hy' & _).
      unfold Decode.in_block. cbn. repeat split; lia.
Qed.

(** For the launcher's grid of [ceil(seq_len / kv_chunk_size)] chunks
    every block has work: its chunk starts inside the sequence (so
    [seq_len - chunk_start] does not wrap), holds between 1 and
    [kv_chunk_size] positions and ends inside the sequence; every chunk
    but the last is full, and the last ends where the sequence ends. *)
Theorem chunks_tile_the_sequence (b : dim3) :
  (0 < kv_chunk_size)%nat ->
  num_kv_chunks = ((seq_len + kv_chunk_size - 1) / kv_chunk_size)%nat ->
  (ix b < num_kv_chunks)%nat ->
  (chunk_start b < seq_len)%nat
  /\ (1 <= chunk_size b <= kv_chunk_size)%nat
  /\ (chunk_end b <= seq_len)%nat
  /\ ((S (ix b) < num_kv_chunks)%nat ->
      chunk_size b = kv_chunk_size /\ chunk_end b = (S (ix b) * kv_chunk_size)%nat)
  /\ ((S (ix b) = num_kv_chunks)%nat -> chunk_end b = seq_len).
Proof.
  intros Hc Hgrid Hb. rewrite Hgrid in *.
  unfold Decode.chunk_end, Decode.chunk_size, Decode.chunk_start, Decode.kv_chunk_idx.
  set (n := ((seq_len + kv_chunk_size - 1) / kv_chunk_size)%nat) in *.
  assert (H1 : (kv_chunk_size * n <= seq_len + kv_chunk_size - 1)%nat)
    by (apply Nat.Div0.mul_div_le).
  assert (H2 : (seq_len + kv_chunk_size - 1 < kv_chunk_size * S n)%nat)
    by (apply Nat.mul_succ_div_gt; lia).
  assert (H3 : (ix b * kv_chunk_size < seq_len)%nat) by nia.
  split; [exact H3|]. split; [lia|]. split; [lia|]. split.
  - intros Hn. assert ((S (ix b)) * kv_chunk_size <= seq_len)%nat by nia. lia.
  - intros Hn. assert (seq_len <= S (ix b) * kv_chunk_size)%nat by nia. lia.
Qed.


Section TwoInputs.
Variables q' k' v' : Mem.mem.

Local Notation "'run_seen''" :=
  (Decode.run_seen rotary_mode head_dim vec_size bdx bdy bdz L apply_rotary m_init
     q' k' v' sm_scale seq_len rope_inv_scale rope_inv_theta kv_chunk_size gridDim).
Local Notation "'legal_view''" :=
  (Decode.legal_view rotary_mode head_dim vec_size bdx bdy bdz L apply_rotary m_init
     q' k' v' sm_scale seq_len rope_inv_scale rope_inv_theta kv_chunk_size gridDim).
Local Notation "'score'" :=
  (Decode.score rotary_mode head_dim vec_size bdx L apply_rotary q k sm_scale seq_len
     rope_inv_scale rope_inv_theta gridDim).
Local Notation "'score''" :=
  (Decode.score rotary_mode head_dim vec_size bdx L apply_rotary q' k' sm_scale seq_len
     rope_inv_scale rope_inv_theta gridDim).
Local Notation "'kv_row'" := (Decode.kv_row L num_heads seq_len).

Lemma load_row_agree (mm mm' : Mem.mem) ptr :
  (forall g, (g < head_dim)%nat -> mm (ptr + g)%nat = mm' (ptr + g)%nat) ->
  Decode.load_row head_dim mm ptr = Decode.load_row head_dim mm' ptr.
Proof.
  intros H. unfold Decode.load_row. apply map_ext_in. intros g Hg.
  apply in_seq in Hg. apply H. lia.
Qed.

Lemma load_agree (mm mm' : Mem.mem) ptr l :
  head_dim = (bdx * vec_size)%nat -> (l < bdx)%nat ->
  (forall g, (g < head_dim)%nat -> mm (ptr + g)%nat = mm' (ptr + g)%nat) ->
  Vec.load vec_size mm (ptr + l * vec_size) = Vec.load vec_size mm' (ptr + l * vec_size).
Proof.
  intros Hdim Hl H. unfold Vec.load. apply Vec.tab_ext. intros i Hi.
  rewrite <- !Nat.add_assoc. apply H. rewrite Hdim. nia.
Qed.

Lemma score_agree head p :
  head_dim = (bdx * vec_size)%nat ->
  (forall g, (g < head_dim)%nat ->
     q (head * head_dim + g)%nat = q' (head * head_dim + g)%nat) ->
  (forall g, (g < head_dim)%nat ->
     k (kv_row head p * head_dim + g)%nat = k' (kv_row head p * head_dim + g)%nat) ->
  score head p = score' head p.
Proof.
  intros Hdim Hq Hk. unfold Decode.score.
  apply rsum_ext. intros l Hl. apply in_seq in Hl.
  apply rsum_ext. intros i Hi.
  assert (Eq : Decode.q_vec rotary_mode head_dim vec_size apply_rotary q seq_len
                 rope_inv_scale rope_inv_theta head (mk_dim3 l 0 0)
               = Decode.q_vec rotary_mode head_dim vec_size apply_rotary q' seq_len
                   rope_inv_scale rope_inv_theta head (mk_dim3 l 0 0)).
  { unfold Decode.q_vec, Vec.cast_load. cbn [ix].
    destruct rotary_mode;
      first [ apply load_agree; [exact Hdim | lia | exact Hq]
            | now rewrite (load_row_agree q q' _ Hq) ]. }
  assert (Ek : Decode.kvec rotary_mode head_dim vec_size L apply_rotary k seq_len
                 rope_inv_scale rope_inv_theta gridDim head l p
               = Decode.kvec rotary_mode head_dim vec_size L apply_rotary k' seq_len
                   rope_inv_scale rope_inv_theta gridDim head l p).
  { unfold Decode.kvec.
    destruct rotary_mode;
      first [ apply load_agree; [exact Hdim | lia | exact Hk]
            | now rewrite (load_row_agree k k' _ Hk) ]. }
  now rewrite Eq, Ek.
Qed.

(** In every execution the final [m] and [d] of a head, and every
    element of its output row none of whose partial outputs lies in the
    first [2 * num_heads] elements of the scratch buffer, are a
    function of the head's row of [q] and of the head's rows of [k]
    and [v] at the positions below [seq_len] alone; these rows lie
    inside tensors of [num_heads * seq_len * head_dim] elements.  Other
    heads, cache rows at or beyond [seq_len], what the output, scratch
    and shared memories held at launch, what the loads from the first
    [2 * num_heads] elements of the scratch buffer return and the order
    in which the stores land have no influence on them. *)
Theorem output_row_depends_on_its_head_only
    (smem0 smem_md0 smem0' smem_md0' : dim3 -> Mem.mem) (tmp0 o0 tmp0' o0' : Mem.mem)
    (order order' : list dim3) (seen seen' : dim3 -> dim3 -> Mem.mem)
    (head f : nat) :
  is_kernel_layout bdy bdz L ->
  head_dim = (bdx * vec_size)%nat -> (exists j, bdx = (2 ^ j)%nat) ->
  (0 < bdy)%nat -> (0 < bdz)%nat ->
  (0 < kv_chunk_size)%nat -> (0 < seq_len)%nat -> (2 <= head_dim)%nat ->
  num_kv_chunks = ((seq_len + kv_chunk_size - 1) / kv_chunk_size)%nat ->
  Permutation blocks order -> Permutation blocks order' ->
  legal_view smem0 smem_md0 tmp0 seen -> legal_view' smem0' smem_md0' tmp0' seen' ->
  (head < num_heads)%nat -> (f < head_dim)%nat ->
  (forall g, (g < head_dim)%nat ->
     q (head * head_dim + g)%nat = q' (head * head_dim + g)%nat) ->
  (forall p g, (p < seq_len)%nat -> (g < head_dim)%nat ->
     k (kv_row head p * head_dim + g)%nat = k' (kv_row head p * head_dim + g)%nat
     /\ v (kv_row head p * head_dim + g)%nat = v' (kv_row head p * head_dim + g)%nat) ->
  (forall p g, (p < seq_len)%nat -> (g < head_dim)%nat ->
     (kv_row head p * head_dim + g < num_heads * seq_len * head_dim)%nat)
  /\ snd (run_seen smem0 smem_md0 tmp0 order seen o0) head
     = snd (run_seen' smem0' smem_md0' tmp0' order' seen' o0') head
  /\ snd (run_seen smem0 smem_md0 tmp0 order seen o0) (num_heads + head)%nat
     = snd (run_seen' smem0' smem_md0' tmp0' order' seen' o0') (num_heads + head)%nat
  /\ ((forall c, (c < num_kv_chunks)%nat ->
         (2 * num_heads <= Decode.tmp_o_ptr head_dim L gridDim head c + f)%nat) ->
      fst (run_seen smem0 smem_md0 tmp0 order seen o0) (head * head_dim + f)%nat
      = fst (run_seen' smem0' smem_md0' tmp0' order' seen' o0') (head * head_dim + f)%nat).
Proof.
  intros HLk Hdim Hpow Hy Hz Hc Hs H2 Hgrid Hord Hord' Hseen Hseen' Hh Hf Hq Hkv.
  destruct (kernel_layout_ok bdx bdy bdz L Hy Hz HLk) as [HL Hlanes].
  split.
  { intros p g Hp Hg.
    assert (Hrow : (kv_row head p < num_heads * seq_len)%nat).
    { unfold Decode.num_heads in *. destruct HLk as [[-> ->]| ->]; cbn in *; nia. }
    nia. }
  destruct (feature_split head_dim vec_size bdx f Hdim Hf) as (l & i & Hl & Hi & ->).
  rewrite !Nat.add_assoc.
  assert (Hin : forall (ord : list dim3), Permutation blocks ord ->
            forall b, In b ord <-> In b blocks).
  { intros ord P b. split; apply Permutation_in; [now apply Permutation_sym | exact P]. }
  destruct (Decode.run_seen_closed_form rotary_mode head_dim vec_size bdx bdy bdz L
              apply_rotary m_init q k v sm_scale seq_len rope_inv_scale rope_inv_theta
              kv_chunk_size gridDim Hdim HL Hpow Hlanes Hc Hgrid smem0 smem_md0 tmp0
              order seen o0 head l (Hin order Hord) Hseen H2 Hs Hh Hl) as (E2 & E3 & E1).
  destruct (Decode.run_seen_closed_form rotary_mode head_dim vec_size bdx bdy bdz L
              apply_rotary m_init q' k' v' sm_scale seq_len rope_inv_scale rope_inv_theta
              kv_chunk_size gridDim Hdim HL Hpow Hlanes Hc Hgrid smem0' smem_md0' tmp0'
              order' seen' o0' head l (Hin order' Hord') Hseen' H2 Hs Hh Hl)
    as (E2' & E3' & E1').
  rewrite E2, E3, E2', E3'.
  assert (Hsc : forall p, (p < seq_len)%nat -> score head p = score' head p).
  { intros p Hp. apply score_agree; [exact Hdim | exact Hq |].
    intros g Hg. apply (Hkv p g Hp Hg). }
  assert (Hmax : forall P, (forall p, In p P -> (p < seq_len)%nat) ->
            Decode.max_over rotary_mode head_dim vec_size bdx L apply_rotary m_init q k
              sm_scale seq_len rope_inv_scale rope_inv_theta gridDim head P
            = Decode.max_over rotary_mode head_dim vec_size bdx L apply_rotary m_init q' k'
                sm_scale seq_len rope_inv_scale rope_inv_theta gridDim head P).
  { induction P as [|p P IH]; intros HP; [reflexivity|].
    unfold Decode.max_over in *. cbn [fold_right].
    rewrite IH by (intros p' Hp'; apply HP; now right).
    rewrite Hsc by (apply HP; now left). reflexivity. }
  rewrite <- (Hmax (seq 0 seq_len)) by (intros p Hp; apply in_seq in Hp; lia).
  split; [reflexivity|]. split.
  - apply rsum_ext. intros p Hp. apply in_seq in Hp. now rewrite <- Hsc by lia.
  - intros Hsafe.
    assert (Hsafe' : forall c, (c < num_kv_chunks)%nat ->
              (2 * num_heads
               <= Decode.tmp_o_ptr head_dim L gridDim head c + l * vec_size + i)%nat).
    { intros c Hcc. specialize (Hsafe c Hcc). lia. }
    rewrite (E1 i Hi Hsafe'), (E1' i Hi Hsafe').
    rewrite <- (Hmax (seq 0 seq_len)) by (intros p Hp; apply in_seq in Hp; lia).
    apply rsum_ext. intros p Hp. apply in_seq in Hp.
    rewrite <- Hsc by lia. f_equal.
    rewrite <- !Nat.add_assoc. apply (Hkv p (l * vec_size + i)%nat); [lia|].
    rewrite Hdim. nia.
Qed.

End TwoInputs.
End KernelExtras.
(** ** The properties above at a small launch

    Head dimension 2 on two lanes, one head row and two position lanes
    per block (NHD), five positions in chunks of two, three block rows. *)

Section KernelExtrasExamples.
Local Open Scope R_scope.

Local Notation "'ex_grid'" := (mk_dim3 3 3 1).
Local Notation "'ex_run'" :=
  (Decode.run kNone 2 1 2 1 2 (NHD.layout 1 2) (fun _ v _ _ => v) 0 (fun _ => 1)
     (fun a => INR a) (fun a => INR a) 1 5 1 1 2 ex_grid).
Local Notation "'ex_smem'" := (fun _ : dim3 => (fun _ => 0) : Mem.mem).
Local Notation "'ex_mem'" := ((fun _ => 0) : Mem.mem).

Lemma launch_stores_stay_inside_the_buffers_witness :
  ((Decode.num_heads (NHD.layout 1 2) ex_grid * 2 <= 100)%nat ->
   fst (ex_run ex_smem ex_smem ex_mem ex_mem) 100%nat = ex_mem 100%nat)
  /\ ((Decode.num_heads (NHD.layout 1 2) ex_grid * Decode.num_kv_chunks ex_grid * (2 + 2)
       <= 100)%nat ->
      snd (ex_run ex_smem ex_smem ex_mem ex_mem) 100%nat = ex_mem 100%nat).
Proof.
  apply (launch_stores_stay_inside_the_buffers kNone 2 1 2 1 2 (NHD.layout 1 2)
           (fun _ v _ _ => v) 0 (fun _ => 1) (fun a => INR a) (fun a => INR a) 1 5 1 1 2
           ex_grid ex_smem ex_smem ex_mem ex_mem 100%nat).
  - right. reflexivity.
  - reflexivity.
  - lia.
  - lia.
Defined.

Lemma pipeline_stages_alternate_witness :
  let st :=
    Decode.after_iterations kNone 2 1 2 1 2 (NHD.layout 1 2) (fun _ v _ _ => v) 0
      (fun _ => 1) (fun a => INR a) (fun a => INR a) 1 5 1 1 2 ex_grid (mk_dim3 0 0 0)
      ex_mem 1 in
  Decode.compute_stage_idx st = ((2 * 1) mod 4)%nat
  /\ Decode.copy_stage_idx st = ((Decode.compute_stage_idx st + 2) mod 4)%nat
  /\ (2%nat = Decode.compute_stage_idx st \/ 2%nat = (Decode.compute_stage_idx st + 1)%nat ->
      (0 < Decode.rows (NHD.layout 1 2))%nat -> (0 < 2)%nat ->
      (2 < Decode.stages_count)%nat
      /\ Decode.smem
           (Decode.loop_body kNone 2 1 2 1 2 (NHD.layout 1 2) (fun _ v _ _ => v)
              (fun _ => 1) (fun a => INR a) (fun a => INR a) 1 5 1 1 2 ex_grid
              (mk_dim3 0 0 0) st 2)
           (nth 2 (Decode.kv_shared_offset 2 (NHD.layout 1 2)) 0 + 0 * 2 + 0)%nat
         = Decode.smem st
             (nth 2 (Decode.kv_shared_offset 2 (NHD.layout 1 2)) 0 + 0 * 2 + 0)%nat).
Proof.
  apply (pipeline_stages_alternate kNone 2 1 2 1 2 (NHD.layout 1 2)
           (fun _ v _ _ => v) 0 (fun _ => 1) (fun a => INR a) (fun a => INR a) 1 5 1 1 2
           ex_grid (mk_dim3 0 0 0) ex_mem 1 2 2 0 0).
  - right. reflexivity.
  - reflexivity.
  - lia.
  - lia.
Defined.

Lemma shared_memory_stores_stay_inside_witness :
  (Decode.rows (NHD.layout 1 2) = (1 * 2)%nat)
  /\ ((Decode.stages_count * Decode.rows (NHD.layout 1 2) * 2 <= 16)%nat ->
      Decode.smem
        (Decode.epilogue kNone 2 1 2 (NHD.layout 1 2) (fun _ v _ _ => v) (fun _ => 1) 1 5
           1 1 2 (mk_dim3 0 0 0)
           (Decode.pipeline_loop kNone 2 1 2 1 2 (NHD.layout 1 2) (fun _ v _ _ => v)
              (fun _ => 1) (fun a => INR a) (fun a => INR a) 1 5 1 1 2 ex_grid
              (mk_dim3 0 0 0)
              (Decode.prologue 2 1 2 1 2 (NHD.layout 1 2) 0 (fun a => INR a)
                 (fun a => INR a) 5 2 ex_grid (mk_dim3 0 0 0) ex_mem))) 16%nat
      = ex_mem 16%nat)
  /\ ((Decode.rows (NHD.layout 1 2) * 2 <= 16)%nat ->
      snd (fst (Decode.sync_state 2 1 2 1 2 (NHD.layout 1 2) 0
                  (fun _ => State.init 1 0) ex_mem ex_mem)) 16%nat = ex_mem 16%nat)
  /\ ((2 * Decode.rows (NHD.layout 1 2) <= 16)%nat ->
      snd (Decode.sync_state 2 1 2 1 2 (NHD.layout 1 2) 0
             (fun _ => State.init 1 0) ex_mem ex_mem) 16%nat = ex_mem 16%nat).
Proof.
  apply (shared_memory_stores_stay_inside kNone 2 1 2 1 2 (NHD.layout 1 2)
           (fun _ v _ _ => v) 0 (fun _ => 1) (fun a => INR a) (fun a => INR a) 1 5 1 1 2
           ex_grid (mk_dim3 0 0 0) ex_mem ex_mem (fun _ => State.init 1 0) 16%nat).
  - right. reflexivity.
  - reflexivity.
  - lia.
  - lia.
Defined.

Lemma rotary_emb_pairs_the_two_halves_witness :
  Vec.get (Decode.rotary_emb 4 1 1 (/ 10000) (mk_dim3 3 0 0)) 0
  = Vec.get (Decode.rotary_emb 4 1 1 (/ 10000) (mk_dim3 1 0 0)) 0
  /\ ((1 * 1 + 0 < 4 / 2)%nat ->
      Vec.get (Decode.rotary_emb 4 1 1 (/ 10000) (mk_dim3 1 0 0)) 0
      = 1 * Rpower (/ 10000) (INR (2 * (1 * 1 + 0)) / INR 4))
  /\ ((1 * 1 + 0 = 0)%nat ->
      Vec.get (Decode.rotary_emb 4 1 1 (/ 10000) (mk_dim3 1 0 0)) 0 = 1).
Proof.
  apply (rotary_emb_pairs_the_two_halves 4 1 1 (/ 10000) (mk_dim3 1 0 0) (mk_dim3 3 0 0)
           0 0).
  - lia.
  - lia.
  - reflexivity.
Defined.

Lemma sync_state_merges_the_states_of_a_lane_witness :
  let s := fun t : dim3 =>
             {| State.o := [INR (ix t)]; State.m := INR (iy t); State.d := 1 |} in
  (Decode.in_block 2 2 1 (mk_dim3 1 0 0) ->
   fst (fst (HND.sync_state 2 1 2 2 0 s ex_mem ex_mem)) (mk_dim3 1 0 0)
   = fold_left (fun acc j => State.merge_state 1 acc (s (mk_dim3 1 j 0)))
       (seq 0 2) (State.init 1 0))
  /\ (Decode.in_block 2 2 2 (mk_dim3 1 0 0) ->
      fst (fst (NHD.sync_state 2 1 2 2 2 0 s ex_mem ex_mem)) (mk_dim3 1 0 0)
      = fold_left (fun acc j => State.merge_state 1 acc (s (mk_dim3 1 0 j)))
          (seq 0 2) (State.init 1 0)).
Proof.
  apply (sync_state_merges_the_states_of_a_lane 2 1 2 2 2 0
           (fun t : dim3 =>
              {| State.o := [INR (ix t)]; State.m := INR (iy t); State.d := 1 |})
           ex_mem ex_mem (mk_dim3 1 0 0)).
  - reflexivity.
  - intros t1 t2 Hy _. cbn. now rewrite Hy.
Defined.

Lemma chunks_tile_the_sequence_witness :
  (Decode.chunk_start 2 (mk_dim3 2 0 0) < 5)%nat
  /\ (1 <= Decode.chunk_size 5 2 (mk_dim3 2 0 0) <= 2)%nat
  /\ (Decode.chunk_end 5 2 (mk_dim3 2 0 0) <= 5)%nat
  /\ ((3 < Decode.num_kv_chunks ex_grid)%nat ->
      Decode.chunk_size 5 2 (mk_dim3 2 0 0) = 2%nat
      /\ Decode.chunk_end 5 2 (mk_dim3 2 0 0) = (3 * 2)%nat)
  /\ (3%nat = Decode.num_kv_chunks ex_grid -> Decode.chunk_end 5 2 (mk_dim3 2 0 0) = 5%nat).
Proof.
  apply (chunks_tile_the_sequence 5 2 ex_grid (mk_dim3 2 0 0)).
  - lia.
  - reflexivity.
  - cbn. lia.
Defined.

End KernelExtrasExamples.

(** ** Executions of a launch of the HND kernel

    [HND::SingleDecodeWithKVCacheKernel<kNone, 64, 4, 16, 8>] for 2
    heads and 40 positions in chunks of 32: a grid of [(2, 2, 1)]
    blocks. *)

Section ExecutionExamples.
Local Open Scope R_scope.

Local Notation "'hnd_grid'" := (mk_dim3 2 2 1).
Local Notation "'hnd_rot'" := (fun (_ : list R) (x : Vec.vec_t) (_ _ : nat) => x).
Local Notation "'hnd_smem'" := (fun _ : dim3 => (fun _ => 0) : Mem.mem).
Local Notation "'hnd_mem'" := ((fun _ => 0) : Mem.mem).
Local Notation "'hnd_kv'" := (fun a : nat => INR a).
Local Notation "'hnd_run_seen'" :=
  (Decode.run_seen kNone 64 4 16 8 1 (HND.layout 8) hnd_rot (-1) (fun _ => 1) hnd_kv
     hnd_kv 1 40 1 1 32 hnd_grid hnd_smem hnd_smem hnd_mem).
Local Notation "'hnd_tmp_at_barrier'" :=
  (Decode.tmp_at_barrier kNone 64 4 16 8 1 (HND.layout 8) hnd_rot (-1) (fun _ => 1)
     hnd_kv hnd_kv 1 40 1 1 32 hnd_grid hnd_smem hnd_smem hnd_mem).
Local Notation "'hnd_stores_to_output'" :=
  (Decode.stores_to_output 64 4 16 8 1 (HND.layout 8) (-1) hnd_grid hnd_smem hnd_smem).
Local Notation "'hnd_stores_after_barrier'" :=
  (Decode.stores_after_barrier 64 4 16 8 1 (HND.layout 8) (-1) hnd_grid hnd_smem
     hnd_smem).

Lemma stores_to_one_element_agree_witness :
  let order := Decode.blocks hnd_grid in
  let seen := fun _ _ : dim3 => hnd_tmp_at_barrier in
  let before :=
    Decode.stores_before_barrier kNone 64 4 16 8 1 (HND.layout 8) hnd_rot (-1)
      (fun _ => 1) hnd_kv hnd_kv 1 40 1 1 32 hnd_grid hnd_smem hnd_smem in
  let out := hnd_stores_to_output order seen in
  let after := hnd_stores_after_barrier order seen in
  (forall a w w', In (a, w) before -> In (a, w') before -> w = w')
  /\ (forall a w w', In (a, w) out -> In (a, w') out -> w = w')
  /\ (forall a w w', In (a, w) after -> In (a, w') after -> w = w')
  /\ (forall before' out' after' a,
        Permutation before before' -> Permutation out out' -> Permutation after after' ->
        fst (hnd_run_seen order seen hnd_mem) a = Mem.apply_writes hnd_mem out' a
        /\ snd (hnd_run_seen order seen hnd_mem) a
           = Mem.apply_writes (Mem.apply_writes hnd_mem before') after' a).
Proof.
  apply (stores_to_one_element_agree kNone 64 4 16 8 1 (HND.layout 8) hnd_rot (-1)
           (fun _ => 1) hnd_kv hnd_kv 1 40 1 1 32 hnd_grid hnd_smem hnd_smem hnd_mem
           hnd_mem (Decode.blocks hnd_grid) (fun _ _ => hnd_tmp_at_barrier)).
  - left. split; reflexivity.
  - reflexivity.
  - exists 4%nat. reflexivity.
  - lia.
  - lia.
  - lia.
  - lia.
  - reflexivity.
  - apply Permutation_refl.
  - intros b t a Ha. reflexivity.
Defined.

Lemma output_row_depends_on_its_head_only_witness :
  let q' : Mem.mem := fun a => if (a <? 64)%nat then 7 else 1 in
  let order := Decode.blocks hnd_grid in
  let seen := fun _ _ : dim3 => hnd_tmp_at_barrier in
  let order' := rev (Decode.blocks hnd_grid) in
  let seen' := fun (b : dim3) (_ : dim3) =>
    Decode.tmp_in_order 64 4 16 8 1 (HND.layout 8) (-1) hnd_grid hnd_smem hnd_smem
      (rev (Decode.blocks hnd_grid))
      (Decode.tmp_at_barrier kNone 64 4 16 8 1 (HND.layout 8) hnd_rot (-1) q' hnd_kv
         hnd_kv 1 40 1 1 32 hnd_grid hnd_smem hnd_smem hnd_mem) b in
  let run' :=
    Decode.run_seen kNone 64 4 16 8 1 (HND.layout 8) hnd_rot (-1) q' hnd_kv hnd_kv
      1 40 1 1 32 hnd_grid hnd_smem hnd_smem hnd_mem order' seen' hnd_mem in
  (forall p g, (p < 40)%nat -> (g < 64)%nat ->
     (Decode.kv_row (HND.layout 8) (Decode.num_heads (HND.layout 8) hnd_grid) 40 1 p * 64
      + g < Decode.num_heads (HND.layout 8) hnd_grid * 40 * 64)%nat)
  /\ snd (hnd_run_seen order seen hnd_mem) 1%nat = snd run' 1%nat
  /\ snd (hnd_run_seen order seen hnd_mem)
       (Decode.num_heads (HND.layout 8) hnd_grid + 1)%nat
     = snd run' (Decode.num_heads (HND.layout 8) hnd_grid + 1)%nat
  /\ ((forall c, (c < Decode.num_kv_chunks hnd_grid)%nat ->
         (2 * Decode.num_heads (HND.layout 8) hnd_grid
          <= Decode.tmp_o_ptr 64 (HND.layout 8) hnd_grid 1 c + 5)%nat) ->
      fst (hnd_run_seen order seen hnd_mem) (1 * 64 + 5)%nat = fst run' (1 * 64 + 5)%nat).
Proof.
  apply (output_row_depends_on_its_head_only kNone 64 4 16 8 1 (HND.layout 8) hnd_rot
           (-1) (fun _ => 1) hnd_kv hnd_kv 1 40 1 1 32 hnd_grid
           (fun a => if (a <? 64)%nat then 7 else 1) hnd_kv hnd_kv
           hnd_smem hnd_smem hnd_smem hnd_smem hnd_mem hnd_mem hnd_mem hnd_mem
           (Decode.blocks hnd_grid) (rev (Decode.blocks hnd_grid))
           (fun _ _ => hnd_tmp_at_barrier)
           (fun b _ =>
              Decode.tmp_in_order 64 4 16 8 1 (HND.layout 8) (-1) hnd_grid hnd_smem
                hnd_smem (rev (Decode.blocks hnd_grid))
                (Decode.tmp_at_barrier kNone 64 4 16 8 1 (HND.layout 8) hnd_rot (-1)
                   (fun a => if (a <? 64)%nat then 7 else 1) hnd_kv hnd_kv 1 40 1 1 32
                   hnd_grid hnd_smem hnd_smem hnd_mem) b)
           1%nat 5%nat).
  - left. split; reflexivity.
  - reflexivity.
  - exists 4%nat. reflexivity.
  - lia.
  - lia.
  - lia.
  - lia.
  - lia.
  - reflexivity.
  - apply Permutation_refl.
  - apply Permutation_rev.
  - intros b t a Ha. reflexivity.
  - apply Decode.tmp_in_order_legal.
    + reflexivity.
    + apply HND.hnd_layout_ok. lia.
    + intros b Hb. apply in_rev in Hb. exact Hb.
  - cbn. lia.
  - lia.
  - intros g Hg. cbn beta.
    destruct (Nat.ltb_spec (1 * 64 + g) 64); [lia | reflexivity].
  - intros p g _ _. split; reflexivity.
Defined.

End ExecutionExamples.
